(* ===== verification/_CoqProject ===== *)
-Q . S2P
Prelude.v
Bytes.v
Common.v
Disk.v
Page.v
PageStore.v
Pool.v
PoolStore.v
PoolSpec.v
Heap.v
HeapTable.v
Storage.v
StorageThms.v
PoolLru.v
PoolThms.v
Locks.v
LockGraph.v
LockSafety.v
Txn.v
LockThms.v
Wal.v
WalThms.v
BTree.v
BTreeThms.v
IndexTree.v
IndexGrowth.v
IndexThms.v
Catalog.v
Codec.v
Rows.v
Executor.v
ExecSpec.v
ExecRun.v
ExecThms.v
Recovery.v
RecoveryThms.v
Lexer.v
Parser.v
LexerThms.v
ParserThms.v
PrintThms.v
Optimizer.v
FloatThms.v
OptimizerThms.v
Engine.v
Sql.v
EngineRun.v
EngineShows.v
EngineThms.v
EngineLog.v
Main.v
MainThms.v
