(* ===== verification/Prelude.v ===== *)
(** * MiniDB

    A verification of MiniDB, the relational database of src/src, a C++
    program of one process: a line of SQL read from standard input is lexed,
    parsed, planned and executed over tables in heap files, with a page cache,
    a B+ tree index for each table, transactions over a lock manager, and a
    write-ahead log. Every component of the program is modelled. Paths below
    are under src/src.

    ** The program and its parts

    [main] (main.cpp) owns a [MiniDB], which owns everything else. A statement
    goes down through the layers, each of which calls only those below it:
<<
      main loop, MiniDB            main.cpp          Main, Engine
      lexer, parser, optimizer     parser, optimizer Lexer, Parser, Optimizer
      executors, row codec         query             Executor, Codec
      catalog | B+ tree            storage, index    Catalog, BTree
      transactions, locks | log    transaction, recovery  Txn, Locks, Wal
      recovery (called by no one)  recovery          Recovery
      heap files (PageManager)     storage           Heap over Page
      buffer pool                  storage           Pool
      disk manager                 storage           Disk
>>
    The executors reach the heap files through the execution context, the heap
    files reach the pool through the interface of PageStore.v, and the pool
    owns the disk manager. The transaction manager calls the lock manager, and
    the engine calls both the transaction manager and the log around each
    insertion and deletion. Recovery reads the log and writes the heap files.

    ** How the code is modelled

    A member function is a definition with the function's name, in a Module for
    its class; the object it changes is a Record with the members' names, and
    is threaded by the state monad [M] below. A call has one of three outcomes:
    a value, an exception with its text, or undefined behaviour ([outcome]); an
    exception keeps the state that was reached. Integers are [Z] with the
    wrap-around of their width written out where the code narrows or adds
    ([u8] to [u64], [i32]); a signed overflow is undefined. Bytes are
    [Byte.byte], buffers are lists of them, and the fields of a page are read
    from and written to its bytes, in little-endian order. A [std::string] is a
    [string]; a map is a [gmap], and where the code iterates over an unordered
    one the order is a parameter. References that a [std::vector] can
    invalidate, or that are kept while the mutex is released, are explicit and
    can dangle (BTree.v, Locks.v). A mutex makes a call one atomic step; the
    calls of the lock manager are split where they wait.

    ** Files
    - Prelude: outcomes, the monad [M], [runs] (a call that returns), integers,
      lemmas on lists and strings. Bytes: little-endian integers and buffers.
      Common: common/*.h, i.e. [Value], [Column], [Schema], [Tuple], [RID],
      [Row] and config.h.
    - Disk: [DiskManager] on a file system of byte lists. Pool: [BufferPool],
      its frames, page table and LRU list. PoolStore, PoolSpec: the simulation
      that makes the pool over the disk an instance of PageStore. PoolLru:
      sequences of calls with the history of the pages they release.
    - Page: the slotted page in its 4096 bytes. PageStore: the interface and
      its laws. Heap: [PageManager] over any page store. HeapTable: heap files
      as partial maps from row ids to tuples. Storage: the store that the
      program uses, with restart.
    - Locks: [LockManager]. LockGraph: its cycle search. LockSafety: the system
      of transactions whose steps are the calls and the wake-ups of Locks, in
      any interleaving, with its invariant. Txn: [TransactionManager].
    - Wal: [LogManager], the stream with its buffer, crashes. Recovery:
      [RecoveryManager].
    - BTree: [BPlusTree], its nodes in a vector. IndexTree: the invariant of
      trees of any height and what a split does to it. IndexGrowth: the steps
      of an insertion on the vector, when it moves, and how many nodes there
      are.
    - Catalog: Catalog.h. Codec: serializeTuple and deserializeTuple. Executor:
      the executors of Executor.cpp, a Module for each, behind the typeclass
      [Executor] of the virtual interface. ExecSpec: the contract
      [ExecutorSpec], which composed executors are proved from. Rows, ExecRun:
      heap files as lists of rows, and what [init] does to them.
    - Lexer, Parser, Optimizer: the classes of the same names; [double] is
      binary64 of the Standard Library. FloatThms: what its divisions give.
    - Engine: [MiniDB] from [execute] down. Sql: the relational specification
      of a statement. EngineRun, EngineShows: the engine's helpers, and which
      database a state represents. Main: construction, destruction, the loop.
    - A file named ...Thms, and EngineLog, LexerThms and PrintThms, holds the
      theorems of a component, each with an example it applies to.

    ** What the theorems show
    - Engine (EngineThms, EngineLog, MainThms): each statement that fits takes
      a represented database to the one of Sql.v and prints its lines, errors
      included ([execute_correct]); so does every reachable state, in which the
      database is well-typed ([reachable_represents]). The log gets begin and
      commit records only; a restart forgets the tables; the loop reacts to
      each line in order, and never ends at the end of the input.
    - Storage (StorageThms, PoolThms): insertion, read, deletion and scan refine
      a table, a partial map from row ids to tuples, over any page store; the
      pool over the disk is one, for all sequences of calls, evictions and
      write-backs; tables survive a flush and a restart; the page evicted is the
      one released longest ago, after any sequence of calls; errors and bounds,
      such as the frames lost by failed fetches and the tuple that does
      not fit a page.
    - Index (BTreeThms, IndexThms): a finite map while its keys fit in one
      leaf; the split of a full root leaf is undefined when the vector moves; at
      any height and with any growth of the vector, insertions, searches and
      range scans are those of a map until an insertion splits a node while the
      vector moves, which is undefined; removal leaves internal nodes that
      underflow as they are, and is undefined when it leaves a parent's only
      leaf short of keys.
    - Locks (LockThms): exclusion, definedness and the answers of all calls in
      every interleaving, exactness of the cycle search, release at the end of
      a transaction; deadlocks that are missed, locks kept after an upgrade.
    - Log (WalThms, RecoveryThms): the log is read back up to a torn tail; on a
      log of whole records a commit survives the death of the process, and that
      of the machine just when its bytes do; after a torn record it is lost;
      what recovery restores, and the committed rows it loses.
    - SQL text (LexerThms, ParserThms, PrintThms, OptimizerThms): the parser
      recognises a reference grammar, ends on every ASCII line and gives
      well-formed statements; printing and parsing back; the plan of a SELECT
      and its exact cost.
    - Executors (ExecThms): the codec's round trip; scans, filters, projections
      and joins as list operations; insertion and deletion with their index.

    ** Bounds and fuel

    Loops whose end is not structural have fuel, which is always enough: the
    lexer's is the length of its input, the parser's loops have one step for
    each token, the drains of executors [ex_left] steps, the tuples left, the
    reader of the log one for each byte, the cycle search one for each node of
    the graph, the tree's walks one for each node. That it suffices is part of
    the theorems: running out of fuel is undefined (the end of the log for its
    reader, which needs four bytes for a record), and they say that the calls
    return. An insertion fits ([EngineThms.fits]) when its row has 1
    to 3576 bytes (a page less its header), the index has less than 127 keys
    (one leaf), the file has less than 2^32 - 2 pages and the transaction ids
    are below [INT_MAX]; beyond these limits the code goes wrong, and theorems
    and findings say how. Theorems of the index bound the operations, or the
    order of the tree, where its [int]s would overflow.

    ** Parameters

    What the standard leaves to the library is an argument of the definitions:
    the order of an unordered map ([order]), the capacity a full vector grows
    to ([grow]), and [std::log2] ([log2]). [order] lists each element of the
    map once; nothing is assumed of [log2], and of [grow] only, in the theorem
    of the first split, that an empty vector grows to one node.

    ** Not modelled

    The scheduler, beyond the interleaving of atomic calls; freeing of memory;
    write errors of open files; the disk under the operating system: a file is
    what the system shows, and what a machine that stops loses of it (the code
    calls no fsync) is only modelled for the log, as a file cut short; the progress messages of the recovery manager
    on the console. The log file and the tables' files are separate parts of the
    file system, since no table's file has the log's name.

    ** Plan

    Removals from trees of two levels, where no internal node underflows;
    liveness of waiting lock calls under a fair scheduler; recovery composed
    with the engine's log. *)
From stdpp Require Import base numbers list strings gmap.
From Stdlib Require Import ZArith Lia.

Declare Scope db_scope.
Delimit Scope db_scope with db.
#[global] Open Scope db_scope.
#[global] Open Scope Z_scope.

Create HintDb minidb discriminated.
Create Rewrite HintDb minidb_rw.

(** ** Outcomes of C++ code

    A call returns a value, throws an exception carrying its [what()] text,
    or has undefined behaviour (an out-of-range access, a use of an
    invalidated reference, a signed overflow). *)
Inductive outcome (A : Type) : Type :=
  | Ret (a : A)
  | Throw (what : string)
  | Undef.
Arguments Ret {A} a.
Arguments Throw {A} what.
Arguments Undef {A}.

Definition obind {A B} (o : outcome A) (k : A -> outcome B) : outcome B :=
  match o with
  | Ret a => k a
  | Throw e => Throw e
  | Undef => Undef
  end.

Definition of_option {A} (o : option A) : outcome A :=
  match o with Some a => Ret a | None => Undef end.

(** ** State-passing with outcomes

    An exception keeps the state that the code had reached when it threw, so
    the state is returned on every path. *)
Definition M (S A : Type) : Type := S -> outcome A * S.

Definition ret {S A} (a : A) : M S A := fun s => (Ret a, s).
Definition throw {S A} (e : string) : M S A := fun s => (Throw e, s).
Definition undef {S A} : M S A := fun s => (Undef, s).
Definition bind {S A B} (m : M S A) (k : A -> M S B) : M S B :=
  fun s =>
    match m s with
    | (Ret a, s') => k a s'
    | (Throw e, s') => (Throw e, s')
    | (Undef, s') => (Undef, s')
    end.
Definition get {S} : M S S := fun s => (Ret s, s).
Definition put {S} (s : S) : M S unit := fun _ => (Ret tt, s).
Definition gets {S A} (f : S -> A) : M S A := fun s => (Ret (f s), s).
Definition modify {S} (f : S -> S) : M S unit := fun s => (Ret tt, f s).
Definition lift {S A} (o : outcome A) : M S A := fun s => (o, s).

(** Run an operation of a component on the part of the state it owns. *)
Definition zoom {S T A} (proj : S -> T) (inj : T -> S -> S) (m : M T A) : M S A :=
  fun s => let '(o, t) := m (proj s) in (o, inj t s).

Notation "x <- m ;; k" := (bind m (fun x => k))
  (at level 100, m at next level, right associativity) : db_scope.
Notation "m ;; k" := (bind m (fun _ => k))
  (at level 100, right associativity) : db_scope.
Notation "x <~ o ;; k" := (obind o (fun x => k))
  (at level 100, o at next level, right associativity) : db_scope.

(** [runs m s a s']: the call returns [a] and leaves the state [s']. *)
Definition runs {S A} (m : M S A) (s : S) (a : A) (s' : S) : Prop :=
  m s = (Ret a, s').

Section monad_laws.
Context {S : Type}.

Lemma runs_ret {A} (a : A) (s : S) : runs (ret a) s a s.
Proof. reflexivity. Qed.

Lemma runs_bind {A B} (m : M S A) (k : A -> M S B) s a s1 b s2 :
  runs m s a s1 -> runs (k a) s1 b s2 -> runs (bind m k) s b s2.
Proof. unfold runs, bind. by intros ->. Qed.

Lemma runs_bind_inv {A B} (m : M S A) (k : A -> M S B) s b s2 :
  runs (bind m k) s b s2 -> exists a s1, runs m s a s1 /\ runs (k a) s1 b s2.
Proof.
  unfold runs, bind. destruct (m s) as [[a|e|] s1]; try discriminate. eauto.
Qed.

Lemma bind_runs {A B} (m : M S A) (k : A -> M S B) s a s1 :
  runs m s a s1 -> bind m k s = k a s1.
Proof. unfold runs, bind. by intros ->. Qed.

Lemma undef_bind {A B} (m : M S A) (k : A -> M S B) s :
  (m s).1 = Undef -> (bind m k s).1 = Undef.
Proof. unfold bind. by destruct (m s) as [[a|e|] s1]. Qed.

Lemma undef_after {A B} (m : M S A) (k : A -> M S B) s a s1 :
  runs m s a s1 -> (k a s1).1 = Undef -> (bind m k s).1 = Undef.
Proof. unfold runs, bind. by intros ->. Qed.

Lemma bind_assoc {A B C} (m : M S A) (k : A -> M S B) (h : B -> M S C) s :
  bind (bind m k) h s = bind m (fun a => bind (k a) h) s.
Proof. unfold bind. by destruct (m s) as [[a|e|] s1]. Qed.

Lemma runs_det {A} (m : M S A) s a b s1 s2 :
  runs m s a s1 -> runs m s b s2 -> a = b /\ s1 = s2.
Proof. unfold runs. intros -> [= -> ->]. done. Qed.

Lemma runs_result {A} (m : M S A) s a : (m s).1 = Ret a -> runs m s a (m s).2.
Proof. unfold runs. destruct (m s) as [o s']. simpl. by intros ->. Qed.
End monad_laws.

#[export] Hint Resolve runs_ret : minidb.

(** ** Machine integers: the value a w-bit C++ integer keeps *)
Definition u8 (z : Z) : Z := z mod 2 ^ 8.
Definition u16 (z : Z) : Z := z mod 2 ^ 16.
Definition u32 (z : Z) : Z := z mod 2 ^ 32.
Definition u64 (z : Z) : Z := z mod 2 ^ 64.
Definition i32 (z : Z) : Z := (z + 2 ^ 31) mod 2 ^ 32 - 2 ^ 31.

Definition INT_MAX : Z := 2147483647.
Definition INT_MIN : Z := -2147483648.
Definition is_u16 (z : Z) : Prop := 0 <= z < 65536.
Definition is_u32 (z : Z) : Prop := 0 <= z < 4294967296.
Definition is_u64 (z : Z) : Prop := 0 <= z < 18446744073709551616.
Definition is_i32 (z : Z) : Prop := INT_MIN <= z <= INT_MAX.

Ltac unfold_int :=
  unfold is_u16, is_u32, is_u64, is_i32, INT_MIN, INT_MAX, u8, u16, u32, u64, i32 in *.

Lemma u16_small z : is_u16 z -> u16 z = z.
Proof. unfold_int. intros. apply Z.mod_small. lia. Qed.
Lemma u32_small z : is_u32 z -> u32 z = z.
Proof. unfold_int. intros. apply Z.mod_small. lia. Qed.
Lemma u64_small z : is_u64 z -> u64 z = z.
Proof. unfold_int. intros. apply Z.mod_small. lia. Qed.
Lemma i32_small z : is_i32 z -> i32 z = z.
Proof. unfold_int. intros. rewrite Z.mod_small; lia. Qed.
Lemma u16_range z : is_u16 (u16 z).
Proof. unfold_int. pose proof (Z.mod_pos_bound z (2 ^ 16)). lia. Qed.
Lemma u32_range z : is_u32 (u32 z).
Proof. unfold_int. pose proof (Z.mod_pos_bound z (2 ^ 32)). lia. Qed.
Lemma i32_range z : is_i32 (i32 z).
Proof. unfold_int. pose proof (Z.mod_pos_bound (z + 2 ^ 31) (2 ^ 32)). lia. Qed.

#[export] Hint Resolve u16_range u32_range i32_range : minidb.

(** Signed [++], [--] and [+]: overflow is undefined behaviour. *)
Definition int_succ (z : Z) : outcome Z :=
  if decide (z < INT_MAX) then Ret (z + 1) else Undef.
Definition int_pred (z : Z) : outcome Z :=
  if decide (INT_MIN < z) then Ret (z - 1) else Undef.
Definition int_add (a b : Z) : outcome Z :=
  if decide (INT_MIN <= a + b <= INT_MAX) then Ret (a + b) else Undef.

Lemma int_succ_ret z : z < INT_MAX -> int_succ z = Ret (z + 1).
Proof. intros H. unfold int_succ. by rewrite decide_True. Qed.
Lemma int_pred_ret z : INT_MIN < z -> int_pred z = Ret (z - 1).
Proof. intros H. unfold int_pred. by rewrite decide_True. Qed.

(** Packing two integers into one word: [(a << k) | b]. *)
Lemma lor_shiftl_add a b k :
  0 <= k -> 0 <= b < 2 ^ k -> Z.lor (Z.shiftl a k) b = a * 2 ^ k + b.
Proof.
  intros Hk Hb. rewrite Z.shiftl_mul_pow2 by done.
  symmetry. rewrite Z.add_nocarry_lxor, Z.lxor_lor; [done| |].
  all: apply Z.bits_inj'; intros n Hn; rewrite Z.land_spec, Z.bits_0;
    destruct (Z.ltb_spec n k);
    [rewrite Z.mul_pow2_bits_low by lia; done|].
  all: rewrite <- (Z.mod_small b (2 ^ k)) by done;
    rewrite Z.mod_pow2_bits_high by lia; apply andb_false_r.
Qed.

Lemma pack_inj k a b a' b' :
  0 <= k -> 0 <= b < 2 ^ k -> 0 <= b' < 2 ^ k ->
  a * 2 ^ k + b = a' * 2 ^ k + b' -> a = a' /\ b = b'.
Proof.
  intros Hk Hb Hb' Heq. assert (a = a') as ->; [|lia].
  apply (f_equal (fun z => z / 2 ^ k)) in Heq.
  rewrite !Z.div_add_l, !Z.div_small in Heq by lia. lia.
Qed.

(** [std::string(n, ' ')] *)
Fixpoint spaces (n : nat) : string :=
  match n with O => EmptyString | S n' => (" " +:+ spaces n')%string end.

Lemma string_app_nil_r s : s +:+ EmptyString = s.
Proof. induction s as [|c s IH]; [done|]. change (String c (s +:+ EmptyString) = String c s). by rewrite IH. Qed.

(** ** List lemmas the components share *)
Lemma last_removelast {A} (l : list A) x : last l = Some x -> l = removelast l ++ [x].
Proof. intros [l' ->]%last_Some. by rewrite removelast_last. Qed.

Lemma forallb_Forall {A} (f : A -> bool) l : forallb f l = true <-> Forall (fun x => f x = true) l.
Proof.
  induction l as [|x l IH]; simpl; [by split|].
  rewrite andb_true_iff, IH, Forall_cons. done.
Qed.

Lemma list_filter_iff_in {A} (P Q : A -> Prop) `{!forall x, Decision (P x), !forall x, Decision (Q x)}
    (l : list A) :
  (forall x, x ∈ l -> P x <-> Q x) -> filter P l = filter Q l.
Proof.
  induction l as [|x l IH]; intros HPQ; [done|]. rewrite !filter_cons.
  assert (Hx : P x <-> Q x) by (apply HPQ; by left).
  rewrite IH by (intros y Hy; apply HPQ; by right). repeat case_decide; tauto.
Qed.

Lemma list_filter_all {A} (P : A -> Prop) `{!forall x, Decision (P x)} (l : list A) :
  (forall x, x ∈ l -> P x) -> filter P l = l.
Proof.
  induction l as [|x l IH]; intros HP; [done|]. rewrite filter_cons, decide_True by (apply HP; by left).
  f_equal. apply IH. intros y Hy. apply HP. by right.
Qed.

Lemma NoDup_fst_functional {A B} (l : list (A * B)) a b b' :
  NoDup l.*1 -> (a, b) ∈ l -> (a, b') ∈ l -> b = b'.
Proof.
  intros Hnd Hi Hj. apply list_elem_of_lookup in Hi as (i & Hi), Hj as (j & Hj).
  assert (i = j) as ->; [|congruence].
  eapply NoDup_lookup; [exact Hnd| |]; rewrite list_lookup_fmap; [by rewrite Hi|by rewrite Hj].
Qed.
