(* ===== verification/Bytes.v ===== *)
(** * Bytes in memory and on disk

    Little-endian integers as [memcpy] moves them, and the two accesses to a
    [char] buffer: reading a range of bytes and overwriting one. *)
From stdpp Require Import base numbers list strings.
From Stdlib Require Import ZArith Lia.
From Stdlib Require Import Strings.Byte.
From Stdlib Require Strings.String.
From S2P Require Import Prelude.

Abbreviation byte := Byte.byte.
Abbreviation x00 := Byte.x00.

#[global] Instance byte_eq_dec : EqDecision byte := Byte.byte_eq_dec.

Definition byte_val (b : byte) : Z := Z.of_N (Byte.to_N b).
Definition byte_of (z : Z) : byte :=
  match Byte.of_N (Z.to_N (z mod 256)) with Some b => b | None => x00 end.

(** The object representation of an [n]-byte integer (x86: least significant
    byte first) and the value it stands for. *)
Fixpoint le_bytes (n : nat) (z : Z) : list byte :=
  match n with
  | O => []
  | S n' => byte_of z :: le_bytes n' (z / 256)
  end.
Fixpoint le_val (bs : list byte) : Z :=
  match bs with
  | [] => 0
  | b :: bs' => byte_val b + 256 * le_val bs'
  end.

Lemma byte_val_range b : 0 <= byte_val b < 256.
Proof. unfold byte_val. pose proof (Byte.to_N_bounded b). lia. Qed.

Lemma byte_val_of z : byte_val (byte_of z) = z mod 256.
Proof.
  unfold byte_of, byte_val. pose proof (Z.mod_pos_bound z 256 eq_refl) as Hr.
  destruct (Byte.of_N (Z.to_N (z mod 256))) as [b|] eqn:E.
  - apply Byte.to_of_N in E. rewrite E. lia.
  - apply Byte.of_N_None_iff in E. lia.
Qed.

Lemma byte_of_val b z : z mod 256 = byte_val b -> byte_of z = b.
Proof.
  intros H. unfold byte_of. rewrite H. unfold byte_val. rewrite N2Z.id.
  by rewrite Byte.of_to_N.
Qed.

Lemma length_le_bytes n z : length (le_bytes n z) = n.
Proof. revert z. induction n; simpl; auto. Qed.

Lemma le_val_range bs : 0 <= le_val bs < 256 ^ Z.of_nat (length bs).
Proof.
  induction bs as [|b bs IH]; [simpl; lia|].
  rewrite length_cons, Nat2Z.inj_succ, Z.pow_succ_r by lia. simpl le_val.
  pose proof (byte_val_range b). nia.
Qed.

Lemma le_val_bytes n z : le_val (le_bytes n z) = z mod 256 ^ Z.of_nat n.
Proof.
  revert z. induction n as [|n IH]; intros z.
  - simpl. by rewrite Z.mod_1_r.
  - rewrite Nat2Z.inj_succ, Z.pow_succ_r by lia. simpl. rewrite IH, byte_val_of.
    rewrite Z.rem_mul_r by lia. lia.
Qed.

Lemma le_bytes_val bs : le_bytes (length bs) (le_val bs) = bs.
Proof.
  induction bs as [|b bs IH]; [done|]. simpl. pose proof (byte_val_range b).
  f_equal.
  - apply byte_of_val. rewrite Z.mul_comm, Z.mod_add by lia.
    by apply Z.mod_small.
  - rewrite Z.add_comm, Z.mul_comm, Z.div_add_l by lia.
    rewrite Z.div_small by lia. by rewrite Z.add_0_r.
Qed.

Lemma le_val_u16 z : is_u16 z -> le_val (le_bytes 2 z) = z.
Proof. intros. rewrite le_val_bytes. unfold_int. apply Z.mod_small. simpl. lia. Qed.
Lemma le_val_u32 z : is_u32 z -> le_val (le_bytes 4 z) = z.
Proof. intros. rewrite le_val_bytes. unfold_int. apply Z.mod_small. simpl. lia. Qed.
Lemma le_val_u64 z : is_u64 z -> le_val (le_bytes 8 z) = z.
Proof. intros. rewrite le_val_bytes. unfold_int. apply Z.mod_small. simpl. lia. Qed.
Lemma le_val_i32 z : is_i32 z -> i32 (le_val (le_bytes 4 z)) = z.
Proof.
  intros. rewrite le_val_bytes. unfold_int. change (256 ^ Z.of_nat 4) with (2 ^ 32).
  rewrite Zplus_mod_idemp_l. rewrite Z.mod_small; lia.
Qed.

(** ** Ranges of a buffer *)
Section buffers.
Context {A : Type}.
Implicit Types (m bs : list A) (off n : nat).

(** the [n] bytes at [m + off] *)
Definition sub m off n : list A := take n (drop off m).
(** [memcpy (m + off, bs, length bs)] *)
Definition splice m off bs : list A :=
  take off m ++ bs ++ drop (off + length bs) m.

Lemma length_sub m off n : (off + n <= length m)%nat -> length (sub m off n) = n.
Proof. intros. unfold sub. rewrite length_take, length_drop. lia. Qed.

Lemma lookup_sub m off n i :
  sub m off n !! i = if decide (i < n)%nat then m !! (off + i)%nat else None.
Proof.
  unfold sub. rewrite lookup_take, lookup_drop. case_decide; done.
Qed.

Lemma length_splice m off bs :
  (off + length bs <= length m)%nat -> length (splice m off bs) = length m.
Proof.
  intros. unfold splice. rewrite !length_app, length_take, length_drop. lia.
Qed.

Lemma lookup_splice m off bs i :
  (off + length bs <= length m)%nat ->
  splice m off bs !! i =
    if decide (off <= i < off + length bs)%nat then bs !! (i - off)%nat else m !! i.
Proof.
  intros. unfold splice. case_decide as Hd.
  - rewrite lookup_app_r by (rewrite length_take; lia).
    rewrite length_take, lookup_app_l by lia. f_equal. lia.
  - destruct (decide (i < off)%nat).
    + rewrite lookup_app_l by (rewrite length_take; lia).
      by rewrite lookup_take_lt.
    + rewrite lookup_app_r by (rewrite length_take; lia).
      rewrite length_take, lookup_app_r by lia. rewrite lookup_drop. f_equal. lia.
Qed.

Lemma sub_splice_eq m off bs :
  (off + length bs <= length m)%nat -> sub (splice m off bs) off (length bs) = bs.
Proof.
  intros. apply list_eq. intros i. rewrite lookup_sub. case_decide.
  - rewrite lookup_splice by done. rewrite decide_True by lia. f_equal. lia.
  - symmetry. apply lookup_ge_None. lia.
Qed.

Lemma sub_splice_ne m off bs off' n :
  (off + length bs <= length m)%nat ->
  (off' + n <= off \/ off + length bs <= off')%nat ->
  sub (splice m off bs) off' n = sub m off' n.
Proof.
  intros. apply list_eq. intros i. rewrite !lookup_sub. case_decide; [|done].
  rewrite lookup_splice by done. rewrite decide_False by lia. done.
Qed.

Lemma sub_app_l m1 m2 off n :
  (off + n <= length m1)%nat -> sub (m1 ++ m2) off n = sub m1 off n.
Proof.
  intros. apply list_eq. intros i. rewrite !lookup_sub. case_decide; [|done].
  apply lookup_app_l. lia.
Qed.

Lemma sub_app_r m1 m2 off n :
  (length m1 <= off)%nat -> sub (m1 ++ m2) off n = sub m2 (off - length m1) n.
Proof.
  intros. apply list_eq. intros i. rewrite !lookup_sub. case_decide; [|done].
  rewrite lookup_app_r by lia. f_equal. lia.
Qed.

Lemma sub_exact m1 m2 m3 off n :
  off = length m1 -> n = length m2 -> sub (m1 ++ m2 ++ m3) off n = m2.
Proof.
  intros -> ->. unfold sub. rewrite drop_app_length, take_app_length. done.
Qed.

Lemma sub_all m n : length m = n -> sub m 0 n = m.
Proof. intros <-. unfold sub. by rewrite drop_0, firstn_all. Qed.
End buffers.

#[export] Hint Rewrite @length_le_bytes : minidb_rw.
#[export] Hint Resolve byte_val_range : minidb.

(** ** Text: a [std::string] as its bytes *)
Definition bytes_of (s : string) : list byte := String.list_byte_of_string s.
Definition text_of (bs : list byte) : string := String.string_of_list_byte bs.

Lemma text_of_bytes s : text_of (bytes_of s) = s.
Proof. apply String.string_of_list_byte_of_string. Qed.
Lemma bytes_of_text bs : bytes_of (text_of bs) = bs.
Proof. apply String.list_byte_of_string_of_list_byte. Qed.

(** ** A read position in a buffer

    [memcpy(&x, data + offset, n); offset += n]: the bytes not yet read are the
    state, and a read past the end is undefined. *)
Definition get_bytes (n : nat) : M (list byte) (list byte) :=
  fun rest => if decide (n <= length rest)%nat then (Ret (take n rest), drop n rest) else (Undef, rest).
Definition get_le (n : nat) : M (list byte) Z := bs <- get_bytes n ;; ret (le_val bs).

Lemma get_bytes_app bs rest n : n = length bs -> runs (get_bytes n) (bs ++ rest) bs rest.
Proof.
  intros ->. unfold runs, get_bytes. rewrite decide_True by (rewrite length_app; lia).
  by rewrite take_app_length, drop_app_length.
Qed.

Lemma get_le_app n z rest : runs (get_le n) (le_bytes n z ++ rest) (z mod 256 ^ Z.of_nat n) rest.
Proof.
  eapply runs_bind; [apply get_bytes_app; by rewrite length_le_bytes|].
  unfold runs, ret. by rewrite le_val_bytes.
Qed.
