(* ===== verification/Common.v ===== *)
(** * Shared data types (src/src/common)

    [Value], [Column], [Schema], [Tuple], [RID] and [Row], with the constants
    of config.h. A [Value] is the C++ pair of a [std::variant<int,
    std::string>] and its type tag; the two constructors set the tag from the
    alternative, so the pair is the sum [value]. *)
From stdpp Require Import base numbers list strings pretty.
From Stdlib Require Import ZArith Lia.
From S2P Require Import Prelude.

(** ** config.h *)
Definition PAGE_SIZE : Z := 4096.
Definition BUFFER_POOL_SIZE : Z := 1024.
Definition MAX_COLUMNS : Z := 64.
Definition MAX_VARCHAR_LEN : Z := 255.
Definition MAX_SLOTS_PER_PAGE : Z := 128.
Definition BPLUS_TREE_ORDER : Z := 128.
Definition BPLUS_TREE_LEAF_MAX : Z := 127.
Definition INVALID_PAGE_ID : Z := 4294967295.
Definition WAL_FILE_NAME : string := "minidb.wal".
Definition DATA_DIR : string := "minidb_data".

(** ** value.h *)
Inductive DataType := INT | TEXT.
#[global] Instance DataType_eq_dec : EqDecision DataType.
Proof. solve_decision. Defined.

Definition dataTypeName (dt : DataType) : string :=
  match dt with INT => "INT" | TEXT => "TEXT" end.

Inductive value := VInt (val : Z) | VText (val : string).
#[global] Instance value_eq_dec : EqDecision value.
Proof. solve_decision. Defined.

Module Value.
Definition default : value := VText "".

Definition type (v : value) : DataType :=
  match v with VInt _ => INT | VText _ => TEXT end.

(** [std::get] of the other alternative throws [bad_variant_access]. *)
Definition asInt (v : value) : outcome Z :=
  match v with VInt z => Ret z | VText _ => Throw "std::get: wrong index for variant" end.
Definition asText (v : value) : outcome string :=
  match v with VText s => Ret s | VInt _ => Throw "std::get: wrong index for variant" end.

Definition toString (v : value) : string :=
  match v with VInt z => pretty z | VText s => s end.

(** [operator==]: tags first, then the variants. *)
Definition eqb (v w : value) : bool :=
  if decide (type v = type w) then
    match v, w with
    | VInt a, VInt b => Z.eqb a b
    | VText a, VText b => String.eqb a b
    | _, _ => false
    end
  else false.

Lemma eqb_spec v w : eqb v w = true <-> v = w.
Proof.
  destruct v, w; unfold eqb; simpl; try (split; [discriminate | congruence]).
  - rewrite Z.eqb_eq. naive_solver.
  - rewrite String.eqb_eq. naive_solver.
Qed.
End Value.

(** ** column.h, schema.h *)
Record Column := mkColumn { col_name : string; col_type : DataType }.
#[global] Instance Column_eq_dec : EqDecision Column.
Proof. solve_decision. Defined.

Module Schema.
Abbreviation schema := (list Column).

Definition addColumn (s : schema) (c : Column) : schema := s ++ [c].
Definition columnCount (s : schema) : nat := length s.
Definition getColumn (s : schema) (index : nat) : outcome Column :=
  match s !! index with
  | Some c => Ret c
  | None => Throw "Column index out of range"
  end.

(** The loop of [findColumn] from index [i] on. *)
Fixpoint findColumn_from (s : schema) (name : string) (i : Z) : Z :=
  match s with
  | [] => -1
  | c :: s' => if String.eqb (col_name c) name then i32 i
               else findColumn_from s' name (i + 1)
  end.
Definition findColumn (s : schema) (name : string) : Z := findColumn_from s name 0.

Lemma findColumn_from_spec s name i :
  0 <= i -> i + Z.of_nat (length s) <= INT_MAX ->
  (exists k c, s !! k = Some c /\ col_name c = name /\
     findColumn_from s name i = i + Z.of_nat k /\
     forall j c', (j < k)%nat -> s !! j = Some c' -> col_name c' <> name) \/
  (findColumn_from s name i = -1 /\ forall c, c ∈ s -> col_name c <> name).
Proof.
  revert i. induction s as [|c s IH]; intros i Hi Hlen; simpl.
  - right. split; [done|]. intros c Hc. by apply not_elem_of_nil in Hc.
  - rewrite length_cons in Hlen. destruct (String.eqb_spec (col_name c) name) as [E|E].
    + left. exists 0%nat, c. split_and!; [done|done| |lia].
      rewrite i32_small; [lia|]. unfold_int. lia.
    + destruct (IH (i + 1)) as [(k & c' & Hk & Hn & Hf & Hmin)|[Hf Hall]]; [lia|lia| |].
      * left. exists (S k), c'. split_and!; [done|done|rewrite Hf; lia|].
        intros [|j] c'' Hj; simpl; [naive_solver|]. apply Hmin. lia.
      * right. split; [done|]. intros c'. rewrite elem_of_cons. naive_solver.
Qed.
End Schema.
Abbreviation Schema := Schema.schema.

(** ** tuple.h, row.h *)
Module Tuple.
Abbreviation tuple := (list value).

Definition addValue (t : tuple) (v : value) : tuple := t ++ [v].
Definition size (t : tuple) : nat := length t.
Definition getValue (t : tuple) (index : nat) : outcome value :=
  match t !! index with
  | Some v => Ret v
  | None => Throw "Tuple index out of range"
  end.
Definition getValue_named (t : tuple) (columnName : string) (s : Schema) : outcome value :=
  let idx := Schema.findColumn s columnName in
  if idx <? 0 then Throw ("Column not found: " +:+ columnName)
  else getValue t (Z.to_nat idx).

(** [matchesSchema]: same count, then the types pairwise. *)
Fixpoint types_match (t : tuple) (s : Schema) : bool :=
  match t, s with
  | v :: t', c :: s' =>
      if decide (Value.type v = col_type c) then types_match t' s' else false
  | _, _ => true
  end.
Definition matchesSchema (t : tuple) (s : Schema) : bool :=
  if decide (size t = Schema.columnCount s) then types_match t s else false.

(** [operator<<] *)
Definition print (t : tuple) : string :=
  "(" +:+ String.concat ", " (map Value.toString t) +:+ ")".

Lemma types_match_spec t s :
  length t = length s ->
  types_match t s = true <-> Forall2 (fun v c => Value.type v = col_type c) t s.
Proof.
  revert s. induction t as [|v t IH]; intros [|c s]; simpl; try discriminate.
  - intros _. split; [constructor|done].
  - intros [= Hl]. case_decide as E.
    + rewrite IH by done. split; [by constructor|]. by inversion 1.
    + split; [discriminate|]. by inversion 1.
Qed.

Lemma matchesSchema_spec t s :
  matchesSchema t s = true <-> Forall2 (fun v c => Value.type v = col_type c) t s.
Proof.
  unfold matchesSchema, size, Schema.columnCount. case_decide as E.
  - by apply types_match_spec.
  - split; [discriminate|]. intros H. apply Forall2_length in H. contradiction.
Qed.
End Tuple.
Abbreviation Tuple := Tuple.tuple.

Record Row := mkRow { row_id : Z; row_data : Tuple }.
Definition Row_print (r : Row) : string :=
  "Row#" +:+ pretty (row_id r) +:+ " " +:+ Tuple.print (row_data r).

(** ** rid.h *)
Record RID := mkRID { pageId : Z; slotNum : Z }.
#[global] Instance RID_eq_dec : EqDecision RID.
Proof. solve_decision. Defined.

Module Rid.
Definition default : RID := mkRID 0 0.
Definition wf (r : RID) : Prop := is_u32 (pageId r) /\ is_u16 (slotNum r).

Definition eqb (r o : RID) : bool :=
  Z.eqb (pageId r) (pageId o) && Z.eqb (slotNum r) (slotNum o).
Definition ltb (r o : RID) : bool :=
  if negb (Z.eqb (pageId r) (pageId o)) then pageId r <? pageId o
  else slotNum r <? slotNum o.
(** the 64-bit key that [std::hash<RID>] hashes *)
Definition hash_key (r : RID) : Z :=
  Z.lor (u64 (Z.shiftl (pageId r) 16)) (slotNum r).

Lemma rid_eqb_spec r o : eqb r o = true <-> r = o.
Proof.
  unfold eqb. rewrite andb_true_iff, !Z.eqb_eq. destruct r, o; simpl. naive_solver.
Qed.
End Rid.
