(* ===== verification/Disk.v ===== *)
(** * DiskManager (src/src/storage/DiskManager.h, DiskManager.cpp)

    Raw page I/O. The operating system's part is a map from paths to file
    contents together with the directories that exist and the paths that
    cannot be opened; a [std::fstream] on a file is its path and its state
    flag. Reads and writes of an open stream succeed. Each operation runs
    under the manager's mutex, so it is one atomic function of the state. *)
From stdpp Require Import base numbers list strings gmap pretty.
From Stdlib Require Import ZArith Lia.
From S2P Require Import Prelude Bytes Common.

(** ** The file system *)
Record FileSystem := mkFS {
  fs_files : gmap string (list byte);
  fs_dirs : gset string;
  fs_denied : gset string;  (* paths the process may not open *)
}.

Definition can_open (fs : FileSystem) (path : string) : bool :=
  bool_decide (DATA_DIR ∈ fs_dirs fs) && bool_decide (path ∉ fs_denied fs).

Definition set_file (path : string) (c : list byte) (fs : FileSystem) : FileSystem :=
  mkFS (<[path := c]> (fs_files fs)) (fs_dirs fs) (fs_denied fs).

Definition file_content (fs : FileSystem) (path : string) : list byte :=
  default [] (fs_files fs !! path).

(** [in | out | trunc]: create or truncate. *)
Definition open_trunc (fs : FileSystem) (path : string) : option FileSystem :=
  if can_open fs path then Some (set_file path [] fs) else None.
(** [out]: a [std::ofstream], which truncates too; a failure is silent. *)
Definition open_out (fs : FileSystem) (path : string) : FileSystem :=
  if can_open fs path then set_file path [] fs else fs.
(** [in | out]: the file must exist. *)
Definition open_inout (fs : FileSystem) (path : string) : bool :=
  can_open fs path && bool_decide (is_Some (fs_files fs !! path)).

(** Bytes written at an offset; a gap after the end reads back as zeros. *)
Definition file_write (c : list byte) (off : nat) (bs : list byte) : list byte :=
  splice (c ++ replicate (off + length bs - length c) x00) off bs.

(** [seekg(off); read(buf, n)] and the zero fill of the short tail. *)
Definition file_read (c : list byte) (off n : nat) : list byte :=
  let got := sub c off n in got ++ replicate (n - length got) x00.

(** ** The manager *)
Record FileHandle := mkHandle {
  fileName : string;
  pageCount : Z;
  stream_good : bool;
}.

Record DiskManager := mkDisk {
  disk_fs : FileSystem;
  files_ : gmap Z FileHandle;
  nextFileId_ : Z;
}.

Definition set_fs (fs : FileSystem) (d : DiskManager) : DiskManager :=
  mkDisk fs (files_ d) (nextFileId_ d).
Definition set_handle (id : Z) (h : FileHandle) (d : DiskManager) : DiskManager :=
  mkDisk (disk_fs d) (<[id := h]> (files_ d)) (nextFileId_ d).
Definition disk_write (path : string) (off : nat) (bs : list byte) (d : DiskManager)
    : DiskManager :=
  set_fs (set_file path (file_write (file_content (disk_fs d) path) off bs) (disk_fs d)) d.

(** the byte offset of a page, a [uint64_t] *)
Definition page_offset (pageNum : Z) : nat := Z.to_nat (u64 (pageNum * PAGE_SIZE)).
Definition PAGE_BYTES : nat := Z.to_nat PAGE_SIZE.
Definition zero_page : list byte := replicate PAGE_BYTES x00.

Module Disk.
Definition ensureDataDir : M DiskManager unit :=
  modify (fun d =>
    if bool_decide (DATA_DIR ∈ fs_dirs (disk_fs d)) then d
    else set_fs (mkFS (fs_files (disk_fs d)) ({[DATA_DIR]} ∪ fs_dirs (disk_fs d))
                      (fs_denied (disk_fs d))) d).

(** the constructor, on the file system it finds *)
Definition init (fs : FileSystem) : DiskManager :=
  (ensureDataDir (mkDisk fs ∅ 1)).2.

Definition full_path (fileName : string) : string := DATA_DIR +:+ "/" +:+ fileName.

(** [files_[nextFileId_++] = {...}] *)
Definition add_handle (h : FileHandle) : M DiskManager Z :=
  d <- get ;;
  next <- lift (int_succ (nextFileId_ d)) ;;
  put (mkDisk (disk_fs d) (<[nextFileId_ d := h]> (files_ d)) next) ;;
  ret (nextFileId_ d).

Definition createFile (fileName : string) : M DiskManager Z :=
  let fullPath := full_path fileName in
  d <- get ;;
  match open_trunc (disk_fs d) fullPath with
  | Some fs => put (set_fs fs d) ;; add_handle (mkHandle fullPath 0 true)
  | None =>
      let fs := open_out (disk_fs d) fullPath in
      put (set_fs fs d) ;;
      if open_inout fs fullPath then add_handle (mkHandle fullPath 0 true)
      else throw ("DiskManager: cannot create file: " +:+ fullPath)
  end.

Definition openFile (fileName : string) : M DiskManager Z :=
  let fullPath := full_path fileName in
  d <- get ;;
  if negb (open_inout (disk_fs d) fullPath) then ret (-1)
  else
    let fileSize := Z.of_nat (length (file_content (disk_fs d) fullPath)) in
    add_handle (mkHandle fullPath (u32 fileSize / PAGE_SIZE) true).

Definition closeFile (fileId : Z) : M DiskManager unit :=
  modify (fun d => mkDisk (disk_fs d) (delete fileId (files_ d)) (nextFileId_ d)).

Definition find_handle (fileId : Z) : M DiskManager FileHandle :=
  d <- get ;;
  match files_ d !! fileId with
  | Some h => ret h
  | None => throw "DiskManager: invalid file ID"
  end.

(** The caller's buffer of [PAGE_SIZE] bytes is the result. *)
Definition readPage (fileId pageNum : Z) : M DiskManager (list byte) :=
  h <- find_handle fileId ;;
  d <- get ;;
  if negb (stream_good h) then ret zero_page
  else ret (file_read (file_content (disk_fs d) (fileName h))
                      (page_offset pageNum) PAGE_BYTES).

(** Writes to a stream that has failed are lost. *)
Definition stream_write (h : FileHandle) (off : nat) (buffer : list byte)
    : M DiskManager unit :=
  if stream_good h then modify (disk_write (fileName h) off buffer) else ret tt.

Definition writePage (fileId pageNum : Z) (buffer : list byte) : M DiskManager unit :=
  h <- find_handle fileId ;;
  stream_write h (page_offset pageNum) buffer ;;
  if pageCount h <=? pageNum
  then modify (set_handle fileId (mkHandle (fileName h) (u32 (pageNum + 1)) (stream_good h)))
  else ret tt.

Definition getFilePageCount (fileId : Z) (d : DiskManager) : Z :=
  match files_ d !! fileId with Some h => pageCount h | None => 0 end.

Definition allocateNewPage (fileId : Z) : M DiskManager Z :=
  h <- find_handle fileId ;;
  let newPageNum := pageCount h in
  modify (set_handle fileId (mkHandle (fileName h) (u32 (pageCount h + 1)) (stream_good h))) ;;
  stream_write h (page_offset newPageNum) zero_page ;;
  ret newPageNum.

(** The model keeps no unflushed stream bytes: every write above is
    followed by its flush, so this one has nothing to do. *)
Definition flushFile (fileId : Z) : M DiskManager unit := ret tt.
End Disk.

(** ** What a file holds, page by page *)
Definition disk_page (d : DiskManager) (fileId pageNum : Z) : list byte :=
  match files_ d !! fileId with
  | Some h => file_read (file_content (disk_fs d) (fileName h)) (page_offset pageNum) PAGE_BYTES
  | None => zero_page
  end.

Definition no_alias (d : DiskManager) : Prop :=
  forall i j hi hj, files_ d !! i = Some hi -> files_ d !! j = Some hj ->
    fileName hi = fileName hj -> i = j.

(** The streams are good and open, no two file ids share a path, and a page
    count is the number of whole pages of the file. *)
Record disk_ok (d : DiskManager) : Prop := {
  do_good : forall id h, files_ d !! id = Some h -> stream_good h = true;
  do_alias : no_alias d;
  do_count : forall id h, files_ d !! id = Some h -> is_u32 (pageCount h);
  do_next : forall id h, files_ d !! id = Some h -> 0 < id < nextFileId_ d;
  do_pos : 0 < nextFileId_ d <= INT_MAX;
  do_open : forall id h, files_ d !! id = Some h -> open_inout (disk_fs d) (fileName h) = true;
  do_size : forall id h, files_ d !! id = Some h ->
    pageCount h = Z.of_nat (length (file_content (disk_fs d) (fileName h))) / PAGE_SIZE;
}.

Lemma PAGE_BYTES_Z : Z.of_nat PAGE_BYTES = 4096.
Proof. unfold PAGE_BYTES, PAGE_SIZE. lia. Qed.
#[global] Opaque PAGE_BYTES.

Lemma length_zero_page : length zero_page = PAGE_BYTES.
Proof. apply length_replicate. Qed.

Lemma page_offset_Z p : is_u32 p -> Z.of_nat (page_offset p) = p * 4096.
Proof. intros. unfold page_offset, PAGE_SIZE. unfold_int. rewrite Z.mod_small; lia. Qed.

Lemma length_file_read c off n : length (file_read c off n) = n.
Proof.
  unfold file_read. rewrite length_app, length_replicate. unfold sub.
  rewrite length_take, length_drop. lia.
Qed.

Lemma lookup_file_read c off n i :
  (i < n)%nat -> file_read c off n !! i = Some (default x00 (c !! (off + i)%nat)).
Proof.
  intros Hi. unfold file_read. destruct (decide (off + i < length c)%nat) as [Hl|Hl].
  - rewrite lookup_app_l, lookup_sub, decide_True by
      (unfold sub; rewrite ?length_take, ?length_drop; lia).
    destruct (lookup_lt_is_Some_2 c (off + i)) as [b ->]; [lia|done].
  - rewrite lookup_app_r by (unfold sub; rewrite length_take, length_drop; lia).
    rewrite lookup_replicate_2; [by rewrite lookup_ge_None_2 by lia|].
    unfold sub; rewrite length_take, length_drop; lia.
Qed.

(** The bytes of a file after a write, where reading past the end gives 0. *)
Lemma lookup_file_write c off bs i :
  default x00 (file_write c off bs !! i) =
    if decide (off <= i < off + length bs)%nat then default x00 (bs !! (i - off)%nat)
    else default x00 (c !! i).
Proof.
  unfold file_write. rewrite lookup_splice by (rewrite length_app, length_replicate; lia).
  case_decide; [done|]. destruct (decide (i < length c)%nat).
  - by rewrite lookup_app_l by lia.
  - rewrite lookup_app_r, (lookup_ge_None_2 c) by lia.
    destruct (replicate _ x00 !! _) as [b|] eqn:E; [|done].
    by apply lookup_replicate in E as [-> _].
Qed.

Lemma file_read_write_same c off bs :
  file_read (file_write c off bs) off (length bs) = bs.
Proof.
  apply list_eq_same_length with (length bs); [done|apply length_file_read|].
  intros i x y Hi Hx Hy. rewrite lookup_file_read, lookup_file_write in Hx by done.
  rewrite decide_True in Hx by lia. replace (off + i - off)%nat with i in Hx by lia.
  rewrite Hy in Hx. naive_solver.
Qed.

Lemma file_read_write_other c off bs off' n :
  (off' + n <= off \/ off + length bs <= off')%nat ->
  file_read (file_write c off bs) off' n = file_read c off' n.
Proof.
  intros. apply list_eq_same_length with n; [apply length_file_read..|].
  intros i x y Hi. rewrite !lookup_file_read by done. rewrite lookup_file_write.
  rewrite decide_False by lia. congruence.
Qed.

Lemma file_content_set_eq path c fs : file_content (set_file path c fs) path = c.
Proof. unfold file_content, set_file. simpl. by rewrite lookup_insert_eq. Qed.
Lemma file_content_set_ne path path' c fs :
  path ≠ path' -> file_content (set_file path c fs) path' = file_content fs path'.
Proof. intros. unfold file_content, set_file. simpl. by rewrite lookup_insert_ne. Qed.

(** ** The operations on a manager that is [disk_ok] *)
Definition same_sizes (fs fs' : FileSystem) : Prop :=
  forall path, open_inout fs' path = open_inout fs path /\
    length (file_content fs' path) = length (file_content fs path).
Definition same_handles (d d' : DiskManager) : Prop :=
  files_ d' = files_ d /\ nextFileId_ d' = nextFileId_ d /\
  same_sizes (disk_fs d) (disk_fs d').

Lemma same_handles_trans d1 d2 d3 :
  same_handles d1 d2 -> same_handles d2 d3 -> same_handles d1 d3.
Proof.
  intros (Hf1 & Hn1 & Hs1) (Hf2 & Hn2 & Hs2). split; [congruence|]. split; [congruence|].
  intros path. destruct (Hs1 path) as [<- <-]. apply Hs2.
Qed.

Lemma length_file_write c off bs :
  length (file_write c off bs) = Nat.max (length c) (off + length bs).
Proof.
  unfold file_write. rewrite length_splice; rewrite length_app, length_replicate; lia.
Qed.

Lemma open_inout_set path c fs path' :
  open_inout (set_file path c fs) path' =
    can_open fs path' && bool_decide (path' = path \/ is_Some (fs_files fs !! path')).
Proof.
  unfold open_inout, can_open. simpl. f_equal. apply bool_decide_ext.
  destruct (decide (path' = path)) as [->|Hne].
  - rewrite lookup_insert_eq. split; [by left|by eauto].
  - rewrite lookup_insert_ne by done. split; [by right|]. by intros [|].
Qed.

Section disk_ops.
Implicit Types (d : DiskManager) (f p : Z) (h : FileHandle).

Lemma length_disk_page d f p : length (disk_page d f p) = PAGE_BYTES.
Proof.
  unfold disk_page. destruct (files_ d !! f); [apply length_file_read|apply length_zero_page].
Qed.

Lemma find_handle_runs d f h :
  files_ d !! f = Some h -> runs (Disk.find_handle f) d h d.
Proof. intros H. unfold runs, Disk.find_handle, bind, get. by rewrite H. Qed.

Lemma readPage_runs d f p h :
  disk_ok d -> files_ d !! f = Some h ->
  runs (Disk.readPage f p) d (disk_page d f p) d.
Proof.
  intros Hok Hf. eapply runs_bind; [by apply find_handle_runs|].
  unfold runs, bind, get. rewrite (do_good d Hok f h Hf). simpl.
  unfold disk_page. by rewrite Hf.
Qed.

Lemma readPage_no_file d f p :
  files_ d !! f = None ->
  Disk.readPage f p d = (Throw "DiskManager: invalid file ID", d).
Proof. intros H. unfold Disk.readPage, Disk.find_handle, bind, get. by rewrite H. Qed.

(** Writing a page of one file changes that page only. *)
Lemma disk_page_write d f p h bs f' p' :
  no_alias d -> files_ d !! f = Some h -> is_u32 p -> is_u32 p' -> length bs = PAGE_BYTES ->
  disk_page (disk_write (fileName h) (page_offset p) bs d) f' p' =
    if decide (f' = f /\ p' = p) then bs else disk_page d f' p'.
Proof.
  intros Hok Hf Hp Hp' Hlen. unfold disk_page. simpl.
  destruct (files_ d !! f') as [h'|] eqn:Hf'.
  2:{ rewrite decide_False; [done|]. intros [-> _]. congruence. }
  destruct (decide (fileName h' = fileName h)) as [E|E].
  - assert (f' = f) as -> by eauto. simplify_eq.
    rewrite file_content_set_eq. case_decide as Hd.
    + destruct Hd as [_ ->]. rewrite <- Hlen. apply file_read_write_same.
    + apply file_read_write_other. rewrite Hlen. pose proof PAGE_BYTES_Z.
      pose proof (page_offset_Z p Hp). pose proof (page_offset_Z p' Hp').
      assert (p' <> p) by tauto. lia.
  - rewrite file_content_set_ne by congruence. rewrite decide_False; [done|].
    intros [-> _]. congruence.
Qed.

Lemma disk_ok_same d d' : same_handles d d' -> disk_ok d -> disk_ok d'.
Proof.
  intros (Hf & Hn & Hsz) [? Ha ?? Hpos Ho Hl]. split; rewrite ?Hf, ?Hn; eauto.
  - intros i j hi hj. rewrite !Hf. apply Ha.
  - intros i h Hi. destruct (Hsz (fileName h)) as [-> _]. eauto.
  - intros i h Hi. destruct (Hsz (fileName h)) as [_ ->]. eauto.
Qed.

(** a write inside the file keeps its size *)
Lemma write_same_sizes d f p h bs :
  disk_ok d -> files_ d !! f = Some h -> 0 <= p < pageCount h -> length bs = PAGE_BYTES ->
  same_sizes (disk_fs d) (disk_fs (disk_write (fileName h) (page_offset p) bs d)).
Proof.
  intros Hok Hf Hp Hlen path. pose proof (do_open d Hok f h Hf) as Ho.
  pose proof (do_size d Hok f h Hf) as Hs. pose proof (do_count d Hok f h Hf) as Hc.
  simpl. rewrite open_inout_set. destruct (decide (path = fileName h)) as [->|Hne].
  - rewrite Ho, file_content_set_eq, length_file_write, Hlen.
    apply andb_true_iff in Ho as [-> _]. rewrite bool_decide_true by (by left).
    split; [done|]. apply Nat2Z.inj. rewrite Nat2Z.inj_max, Nat2Z.inj_add, page_offset_Z, PAGE_BYTES_Z
      by (unfold is_u32 in *; lia).
    unfold PAGE_SIZE in Hs. pose proof (Z.mul_div_le (Z.of_nat (length (file_content (disk_fs d) (fileName h)))) 4096).
    lia.
  - rewrite file_content_set_ne by done. split; [|done]. unfold open_inout. f_equal.
    apply bool_decide_ext. naive_solver.
Qed.

Lemma writePage_runs d f p h bs :
  disk_ok d -> files_ d !! f = Some h -> 0 <= p < pageCount h -> length bs = PAGE_BYTES ->
  exists d', runs (Disk.writePage f p bs) d tt d' /\ same_handles d d' /\
    forall f' p', is_u32 p' ->
      disk_page d' f' p' = if decide (f' = f /\ p' = p) then bs else disk_page d f' p'.
Proof.
  intros Hok Hf Hp Hlen. exists (disk_write (fileName h) (page_offset p) bs d).
  pose proof (do_count d Hok f h Hf) as Hc.
  assert (is_u32 p) by (unfold is_u32 in *; lia). split_and!.
  - eapply runs_bind; [by apply find_handle_runs|].
    unfold Disk.stream_write. rewrite (do_good d Hok f h Hf).
    eapply runs_bind; [done|]. destruct (Z.leb_spec (pageCount h) p); [lia|done].
  - split; [done|]. split; [done|]. by apply (write_same_sizes d f).
  - intros f' p' Hp'. apply disk_page_write; (done || apply Hok).
Qed.

(** a page written right after the last whole one *)
Lemma grown_size c n bs :
  Z.of_nat (length c) / PAGE_SIZE = n -> is_u32 n -> length bs = PAGE_BYTES ->
  Z.of_nat (length (file_write c (page_offset n) bs)) / PAGE_SIZE = n + 1.
Proof.
  intros Hn Hu Hlen. rewrite length_file_write, Hlen.
  rewrite Nat2Z.inj_max, Nat2Z.inj_add, page_offset_Z, PAGE_BYTES_Z by done.
  unfold PAGE_SIZE in *. pose proof (Z.mul_succ_div_gt (Z.of_nat (length c)) 4096).
  rewrite Z.max_r by lia. replace (n * 4096 + 4096) with ((n + 1) * 4096) by lia.
  by apply Z.div_mul.
Qed.

Lemma grown_ok d f h bs :
  disk_ok d -> files_ d !! f = Some h -> is_u32 (pageCount h + 1) -> length bs = PAGE_BYTES ->
  disk_ok (disk_write (fileName h) (page_offset (pageCount h)) bs
    (set_handle f (mkHandle (fileName h) (pageCount h + 1) true) d)).
Proof.
  intros [Hg Ha Hcnt Hnx Hpos Ho Hsz] Hf Hc Hlen. split; simpl.
  - intros i hi. rewrite lookup_insert_Some. naive_solver.
  - intros i j hi hj. simpl. rewrite !lookup_insert_Some. naive_solver.
  - intros i hi. rewrite lookup_insert_Some. naive_solver.
  - intros i hi. rewrite lookup_insert_Some. naive_solver.
  - done.
  - intros i hi Hi. rewrite open_inout_set. apply andb_true_iff.
    assert (Hop : open_inout (disk_fs d) (fileName hi) = true).
    { revert Hi. rewrite lookup_insert_Some. intros [[_ <-]|[_ H]]; simpl; eauto. }
    apply andb_true_iff in Hop as [? ?%bool_decide_eq_true]. split; [done|].
    apply bool_decide_eq_true. by right.
  - intros i hi. rewrite lookup_insert_Some. intros [[<- <-]|[Hne Hi]]; simpl.
    + rewrite file_content_set_eq. symmetry. apply grown_size; [|by eauto|done].
      symmetry. by apply (Hsz f).
    + rewrite file_content_set_ne; [by eauto|]. intros E. apply Hne. by eapply Ha.
Qed.

(** Extending a file by one page: its number is the old page count, it reads
    as zeros, and every other page is as before. *)
Lemma allocateNewPage_runs d f h :
  disk_ok d -> files_ d !! f = Some h -> is_u32 (pageCount h + 1) ->
  exists d', runs (Disk.allocateNewPage f) d (pageCount h) d' /\ disk_ok d' /\
    files_ d' = <[f := mkHandle (fileName h) (pageCount h + 1) true]> (files_ d) /\
    nextFileId_ d' = nextFileId_ d /\
    forall f' p', is_u32 p' ->
      disk_page d' f' p' =
        if decide (f' = f /\ p' = pageCount h) then zero_page else disk_page d f' p'.
Proof.
  intros Hok Hf Hc. set (h' := mkHandle (fileName h) (pageCount h + 1) true).
  pose proof (do_count d Hok f h Hf) as Hc0. set (d1 := set_handle f h' d).
  assert (Hal : no_alias d1).
  { intros i j hi hj. unfold d1. simpl. rewrite !lookup_insert_Some.
    pose proof (do_alias d Hok). naive_solver. }
  exists (disk_write (fileName h) (page_offset (pageCount h)) zero_page d1). split_and!.
  - eapply runs_bind; [by apply find_handle_runs|].
    unfold Disk.stream_write. rewrite (do_good d Hok f h Hf), u32_small by done.
    eapply runs_bind; [done|]. done.
  - by apply grown_ok.
  - done.
  - done.
  - intros f' p' Hp'. change (fileName h) with (fileName h').
    rewrite (disk_page_write d1 f (pageCount h) h') by
      (done || apply length_zero_page || apply lookup_insert_eq).
    case_decide; [done|]. unfold disk_page, d1. simpl.
    destruct (decide (f' = f)) as [->|]; [by rewrite lookup_insert_eq, Hf|].
    by rewrite lookup_insert_ne.
Qed.

Lemma getFilePageCount_handle d f h :
  files_ d !! f = Some h -> Disk.getFilePageCount f d = pageCount h.
Proof. intros H. unfold Disk.getFilePageCount. by rewrite H. Qed.

(** A new file under a path no handle has: a fresh id, no pages, every
    other file as before. *)
Lemma createFile_runs d name :
  disk_ok d -> can_open (disk_fs d) (Disk.full_path name) = true ->
  (forall i h, files_ d !! i = Some h -> fileName h <> Disk.full_path name) ->
  nextFileId_ d < INT_MAX ->
  exists d', runs (Disk.createFile name) d (nextFileId_ d) d' /\ disk_ok d' /\
    files_ d' = <[nextFileId_ d := mkHandle (Disk.full_path name) 0 true]> (files_ d) /\
    nextFileId_ d' = nextFileId_ d + 1 /\
    forall f' p', f' <> nextFileId_ d -> disk_page d' f' p' = disk_page d f' p'.
Proof.
  intros Hok Hopen Hpath Hmax.
  set (fs := set_file (Disk.full_path name) [] (disk_fs d)).
  set (h' := mkHandle (Disk.full_path name) 0 true).
  exists (mkDisk fs (<[nextFileId_ d := h']> (files_ d)) (nextFileId_ d + 1)). split_and!.
  - unfold Disk.createFile. eapply runs_bind; [done|].
    unfold open_trunc. rewrite Hopen. eapply runs_bind; [done|].
    unfold runs, Disk.add_handle, bind, get, lift, int_succ. simpl.
    by rewrite decide_True by done.
  - destruct Hok as [Hg Ha Hcnt Hnx Hpos Ho Hsz]. split; simpl.
    + intros i hi. rewrite lookup_insert_Some. naive_solver.
    + intros i j hi hj. simpl. rewrite !lookup_insert_Some. naive_solver.
    + intros i hi. rewrite lookup_insert_Some. intros [[_ <-]|[_ H]]; [|by eauto].
      simpl. unfold_int. lia.
    + intros i hi. rewrite lookup_insert_Some. intros [[<- _]|[_ H]]; [lia|].
      apply Hnx in H. lia.
    + lia.
    + intros i hi Hi. unfold fs. rewrite open_inout_set. apply andb_true_iff.
      rewrite bool_decide_eq_true. revert Hi. rewrite lookup_insert_Some.
      intros [[_ <-]|[_ H]]; [by auto|].
      pose proof (Ho i hi H) as [? ?%bool_decide_eq_true]%andb_true_iff. auto.
    + intros i hi. rewrite lookup_insert_Some. unfold fs. intros [[_ <-]|[_ H]]; simpl.
      * by rewrite file_content_set_eq.
      * rewrite file_content_set_ne by (intros E; by apply (Hpath i hi)). eauto.
  - done.
  - done.
  - intros f' p' Hne. unfold disk_page. simpl. rewrite lookup_insert_ne by done.
    destruct (files_ d !! f') as [h|] eqn:Hf; [|done].
    unfold fs. by rewrite file_content_set_ne by (apply not_eq_sym; eauto).
Qed.

Lemma createFile_denied d name :
  can_open (disk_fs d) (Disk.full_path name) = false ->
  Disk.createFile name d =
    (Throw ("DiskManager: cannot create file: " +:+ Disk.full_path name), d).
Proof.
  intros H. unfold Disk.createFile, bind, get. unfold open_trunc, open_out, open_inout.
  rewrite H. unfold put. cbv beta iota zeta. rewrite H. by destruct d.
Qed.
End disk_ops.
