(* ===== verification/Page.v ===== *)
(** * Slotted pages (the page format of src/src/storage/PageManager)

    [SlottedPageHeader] as it lies in the 4096-byte buffer: [pageId] at 0,
    [numSlots] at 4, [freeSpacePtr] at 6, [slotDirectory] at 8 and
    [slotLengths] at 264, 520 bytes in all. Fields are read and written through
    the bytes, as the code does through its [reinterpret_cast]. *)
From stdpp Require Import base numbers list strings.
From Stdlib Require Import ZArith Lia.
From S2P Require Import Prelude Bytes Common Disk.

Definition HEADER_SIZE : Z := 520.

Definition get16 (pg : list byte) (off : nat) : Z := le_val (sub pg off 2).
Definition put16 (pg : list byte) (off : nat) (v : Z) : list byte := splice pg off (le_bytes 2 v).
Definition put32 (pg : list byte) (off : nat) (v : Z) : list byte := splice pg off (le_bytes 4 v).

Module Page.
(** the header's fields *)
Definition numSlots (pg : list byte) : Z := get16 pg 4.
Definition freeSpacePtr (pg : list byte) : Z := get16 pg 6.
Definition slotDirectory (pg : list byte) (i : nat) : Z := get16 pg (8 + 2 * i).
Definition slotLengths (pg : list byte) (i : nat) : Z := get16 pg (264 + 2 * i).

Definition set_numSlots pg v := put16 pg 4 v.
Definition set_freeSpacePtr pg v := put16 pg 6 v.
Definition set_slot (pg : list byte) (i : nat) (off len : Z) : list byte :=
  put16 (put16 pg (8 + 2 * i) off) (264 + 2 * i) len.

(** An index past the arrays of the header is out of range. *)
Definition slot_in_range (i : nat) : outcome unit :=
  if decide (Z.of_nat i < MAX_SLOTS_PER_PAGE) then Ret tt else Undef.

(** [initPage]: the old bytes are all overwritten. *)
Definition initPage (pageId : Z) : list byte :=
  set_freeSpacePtr (set_numSlots (put32 zero_page 0 pageId) 0) HEADER_SIZE.

(** The loop of [insertTuple] over slots [i], ..., [i + n - 1]. *)
Fixpoint find_empty_slot (pg : list byte) (i n : nat) : outcome (option nat) :=
  match n with
  | O => Ret None
  | S n' =>
      _ <~ slot_in_range i ;;
      if (slotDirectory pg i =? 0) && (slotLengths pg i =? 0) then Ret (Some i)
      else find_empty_slot pg (S i) n'
  end.
Definition choose_slot (pg : list byte) : outcome nat :=
  o <~ find_empty_slot pg 0 (Z.to_nat (numSlots pg)) ;;
  Ret (default (Z.to_nat (numSlots pg)) o).

(** [memcpy(pageData + off, data, len)]: past the end of the frame's buffer
    it is undefined. *)
Definition copy_in (pg : list byte) (off : Z) (bs : list byte) : outcome (list byte) :=
  if decide (Z.to_nat off + length bs <= length pg)%nat
  then Ret (splice pg (Z.to_nat off) bs) else Undef.

(** The writes of [insertTuple] into slot [slotIdx], in order, up to the
    update of [numSlots]. *)
Definition store_tuple (pg : list byte) (slotIdx : nat) (bs : list byte) : outcome (list byte) :=
  _ <~ slot_in_range slotIdx ;;
  let dataLen := Z.of_nat (length bs) in
  let pg1 := set_slot pg slotIdx (freeSpacePtr pg) dataLen in
  pg2 <~ copy_in pg1 (freeSpacePtr pg1) bs ;;
  Ret (set_freeSpacePtr pg2 (u16 (freeSpacePtr pg2 + dataLen))).

(** into a page found by [findFreePage] *)
Definition place (pg : list byte) (slotIdx : nat) (bs : list byte) : outcome (list byte) :=
  pg' <~ store_tuple pg slotIdx bs ;;
  Ret (if numSlots pg' <=? Z.of_nat slotIdx
       then set_numSlots pg' (u16 (Z.of_nat slotIdx + 1)) else pg').

(** into the first slot of a page just initialised *)
Definition place_first (pg : list byte) (bs : list byte) : outcome (list byte) :=
  pg' <~ store_tuple pg 0 bs ;; Ret (set_numSlots pg' 1).

(** [readTuple]'s view of a slot: [None] where it returns 0. *)
Definition read_slot (pg : list byte) (slotNum : Z) : outcome (option (list byte)) :=
  if numSlots pg <=? slotNum then Ret None
  else
    let i := Z.to_nat slotNum in
    _ <~ slot_in_range i ;;
    if slotLengths pg i =? 0 then Ret None
    else
      let off := Z.to_nat (slotDirectory pg i) in
      let len := Z.to_nat (slotLengths pg i) in
      if decide (off + len <= length pg)%nat then Ret (Some (sub pg off len)) else Undef.

(** [deleteTuple]'s update of the page. *)
Definition erase_slot (pg : list byte) (slotNum : Z) : outcome (list byte) :=
  if slotNum <? numSlots pg then
    _ <~ slot_in_range (Z.to_nat slotNum) ;;
    Ret (set_slot pg (Z.to_nat slotNum) 0 0)
  else Ret pg.

Definition freeSpace (pg : list byte) : Z := u16 (PAGE_SIZE - freeSpacePtr pg).
End Page.

(** ** Reading back what was written *)
Lemma length_put16 pg off v : (off + 2 <= length pg)%nat -> length (put16 pg off v) = length pg.
Proof. intros. unfold put16. by rewrite length_splice by (by rewrite length_le_bytes). Qed.

Lemma get16_range pg off : is_u16 (get16 pg off).
Proof.
  unfold get16. pose proof (le_val_range (sub pg off 2)) as [H1 H2].
  assert (length (sub pg off 2) <= 2)%nat by (unfold sub; rewrite length_take; lia).
  assert (256 ^ Z.of_nat (length (sub pg off 2)) <= 256 ^ 2) by (apply Z.pow_le_mono_r; lia).
  change (256 ^ 2) with 65536 in *. unfold is_u16. lia.
Qed.

Lemma get16_put16_eq pg off v :
  (off + 2 <= length pg)%nat -> is_u16 v -> get16 (put16 pg off v) off = v.
Proof.
  intros Hl Hv. unfold get16, put16. rewrite <- (length_le_bytes 2 v) at 2.
  rewrite sub_splice_eq by (by rewrite length_le_bytes). by apply le_val_u16.
Qed.

Lemma sub_put16_ne pg off v off' n :
  (off + 2 <= length pg)%nat -> (off' + n <= off \/ off + 2 <= off')%nat ->
  sub (put16 pg off v) off' n = sub pg off' n.
Proof. intros. unfold put16. apply sub_splice_ne; by rewrite length_le_bytes. Qed.

Lemma get16_put16_ne pg off v off' :
  (off + 2 <= length pg)%nat -> (off' + 2 <= off \/ off + 2 <= off')%nat ->
  get16 (put16 pg off v) off' = get16 pg off'.
Proof. intros. unfold get16. by rewrite sub_put16_ne. Qed.

Lemma get16_splice_ne pg off bs off' :
  (off + length bs <= length pg)%nat -> (off' + 2 <= off)%nat ->
  get16 (splice pg off bs) off' = get16 pg off'.
Proof. intros. unfold get16. rewrite sub_splice_ne; [done|done|lia]. Qed.

(** ** Well-formed pages *)
Definition live (pg : list byte) (i : nat) : Prop :=
  Z.of_nat i < Page.numSlots pg /\ ~ (Page.slotDirectory pg i = 0 /\ Page.slotLengths pg i = 0).

Record page_wf (pg : list byte) : Prop := {
  pw_len : length pg = PAGE_BYTES;
  pw_slots : Page.numSlots pg <= MAX_SLOTS_PER_PAGE;
  pw_free : HEADER_SIZE <= Page.freeSpacePtr pg <= PAGE_SIZE;
  pw_live : forall i, live pg i ->
    HEADER_SIZE <= Page.slotDirectory pg i /\
    Page.slotDirectory pg i + Page.slotLengths pg i <= Page.freeSpacePtr pg;
  pw_disjoint : forall i j, live pg i -> live pg j -> i <> j ->
    Page.slotDirectory pg i + Page.slotLengths pg i <= Page.slotDirectory pg j \/
    Page.slotDirectory pg j + Page.slotLengths pg j <= Page.slotDirectory pg i;
}.

(** The tuple in a slot: a live slot of non-zero length. *)
Definition tuple_at (pg : list byte) (i : nat) : option (list byte) :=
  if decide (Z.of_nat i < Page.numSlots pg /\ 0 < Page.slotLengths pg i)
  then Some (sub pg (Z.to_nat (Page.slotDirectory pg i)) (Z.to_nat (Page.slotLengths pg i)))
  else None.

Lemma numSlots_range pg : is_u16 (Page.numSlots pg). Proof. apply get16_range. Qed.
Lemma freeSpacePtr_range pg : is_u16 (Page.freeSpacePtr pg). Proof. apply get16_range. Qed.
Lemma slotDirectory_range pg i : is_u16 (Page.slotDirectory pg i). Proof. apply get16_range. Qed.
Lemma slotLengths_range pg i : is_u16 (Page.slotLengths pg i). Proof. apply get16_range. Qed.
#[export] Hint Resolve numSlots_range freeSpacePtr_range slotDirectory_range slotLengths_range
  : minidb.

(** Facts about the layout that [lia] needs, for the page at hand. *)
Ltac page_facts pg :=
  pose proof PAGE_BYTES_Z; pose proof (numSlots_range pg); pose proof (freeSpacePtr_range pg);
  unfold is_u16, HEADER_SIZE, PAGE_SIZE, MAX_SLOTS_PER_PAGE in *.

Ltac page_lia := solve [lia | rewrite length_put16; page_lia].

(** ** The fields after a write to a slot *)
Section set_slot.
Context (pg : list byte) (i : nat) (off len : Z).
Context (Hlen : length pg = PAGE_BYTES) (Hi : Z.of_nat i < MAX_SLOTS_PER_PAGE).

Lemma length_set_slot : length (Page.set_slot pg i off len) = PAGE_BYTES.
Proof using Hlen Hi. page_facts pg. unfold Page.set_slot. rewrite !length_put16; page_lia. Qed.

Lemma numSlots_set_slot : Page.numSlots (Page.set_slot pg i off len) = Page.numSlots pg.
Proof using Hlen Hi.
  page_facts pg. unfold Page.set_slot, Page.numSlots.
  rewrite !get16_put16_ne; page_lia.
Qed.
Lemma freeSpacePtr_set_slot :
  Page.freeSpacePtr (Page.set_slot pg i off len) = Page.freeSpacePtr pg.
Proof using Hlen Hi.
  page_facts pg. unfold Page.set_slot, Page.freeSpacePtr.
  rewrite !get16_put16_ne; page_lia.
Qed.

Lemma slotDirectory_set_slot j :
  is_u16 off -> Z.of_nat j < MAX_SLOTS_PER_PAGE ->
  Page.slotDirectory (Page.set_slot pg i off len) j =
    if decide (j = i) then off else Page.slotDirectory pg j.
Proof using Hlen Hi.
  intros Ho Hj. page_facts pg. unfold Page.set_slot, Page.slotDirectory.
  rewrite get16_put16_ne by page_lia. case_decide as E.
  - subst. apply get16_put16_eq; [lia|done].
  - apply get16_put16_ne; lia.
Qed.
Lemma slotLengths_set_slot j :
  is_u16 len -> Z.of_nat j < MAX_SLOTS_PER_PAGE ->
  Page.slotLengths (Page.set_slot pg i off len) j =
    if decide (j = i) then len else Page.slotLengths pg j.
Proof using Hlen Hi.
  intros Ho Hj. page_facts pg. unfold Page.set_slot, Page.slotLengths. case_decide as E.
  - subst. apply get16_put16_eq; [page_lia|done].
  - rewrite !get16_put16_ne; page_lia.
Qed.

Lemma sub_set_slot o n :
  HEADER_SIZE <= Z.of_nat o -> sub (Page.set_slot pg i off len) o n = sub pg o n.
Proof using Hlen Hi.
  intros Ho. page_facts pg. unfold Page.set_slot.
  rewrite !sub_put16_ne; (page_lia || done).
Qed.
End set_slot.

(** ** Placing a tuple *)
Record placed (pg : list byte) (i : nat) (bs : list byte) (n : Z) (pg' : list byte) : Prop := {
  pl_len : length pg' = PAGE_BYTES;
  pl_slots : Page.numSlots pg' = n;
  pl_free : Page.freeSpacePtr pg' = Page.freeSpacePtr pg + Z.of_nat (length bs);
  pl_dir : forall j, Z.of_nat j < MAX_SLOTS_PER_PAGE -> Page.slotDirectory pg' j =
    if decide (j = i) then Page.freeSpacePtr pg else Page.slotDirectory pg j;
  pl_lens : forall j, Z.of_nat j < MAX_SLOTS_PER_PAGE -> Page.slotLengths pg' j =
    if decide (j = i) then Z.of_nat (length bs) else Page.slotLengths pg j;
  pl_data : sub pg' (Z.to_nat (Page.freeSpacePtr pg)) (length bs) = bs;
  pl_other : forall o n, HEADER_SIZE <= Z.of_nat o ->
    Z.of_nat o + Z.of_nat n <= Page.freeSpacePtr pg -> sub pg' o n = sub pg o n;
}.

(** A tuple that fits is stored at the free-space pointer. *)
Lemma store_tuple_stored pg i bs :
  length pg = PAGE_BYTES -> HEADER_SIZE <= Page.freeSpacePtr pg ->
  Page.freeSpacePtr pg + Z.of_nat (length bs) <= PAGE_SIZE ->
  Z.of_nat i < MAX_SLOTS_PER_PAGE ->
  exists pg', Page.store_tuple pg i bs = Ret pg' /\ placed pg i bs (Page.numSlots pg) pg'.
Proof.
  intros Hlen Hfree Hfit Hi. page_facts pg.
  set (free := Page.freeSpacePtr pg) in *. set (n := Z.of_nat (length bs)) in *.
  set (pg1 := Page.set_slot pg i free n).
  assert (Hl1 : length pg1 = PAGE_BYTES) by by apply length_set_slot.
  assert (Hf1 : Page.freeSpacePtr pg1 = free) by by apply freeSpacePtr_set_slot.
  set (pg2 := splice pg1 (Z.to_nat free) bs).
  assert (Hl2 : length pg2 = PAGE_BYTES) by (unfold pg2; rewrite length_splice; lia).
  assert (Hg2 : forall off, (off + 2 <= 520)%nat -> get16 pg2 off = get16 pg1 off)
    by (intros; apply get16_splice_ne; lia).
  assert (Hf2 : Page.freeSpacePtr pg2 = free) by (rewrite <- Hf1; apply Hg2; lia).
  set (pg3 := Page.set_freeSpacePtr pg2 (free + n)).
  assert (Hg3 : forall off, (off <= 4 \/ 8 <= off <= 518)%nat -> get16 pg3 off = get16 pg1 off).
  { intros. unfold pg3, Page.set_freeSpacePtr. rewrite get16_put16_ne by lia. apply Hg2. lia. }
  exists pg3. split.
  - unfold Page.store_tuple, Page.slot_in_range. rewrite decide_True by done. simpl obind.
    fold free n pg1. unfold Page.copy_in. rewrite Hf1, decide_True by lia. simpl obind.
    fold pg2. rewrite Hf2, u16_small by (unfold is_u16; lia). done.
  - split.
    + unfold pg3, Page.set_freeSpacePtr. rewrite length_put16; lia.
    + unfold Page.numSlots at 1. rewrite Hg3 by lia. by apply numSlots_set_slot.
    + apply get16_put16_eq; unfold is_u16; lia.
    + intros j Hj. unfold MAX_SLOTS_PER_PAGE in Hj.
      unfold Page.slotDirectory at 1. rewrite Hg3 by lia.
      by apply slotDirectory_set_slot.
    + intros j Hj. unfold MAX_SLOTS_PER_PAGE in Hj.
      unfold Page.slotLengths at 1. rewrite Hg3 by lia.
      apply slotLengths_set_slot; try done. unfold is_u16. lia.
    + unfold pg3, Page.set_freeSpacePtr. rewrite sub_put16_ne by lia. apply sub_splice_eq. lia.
    + intros o k Ho Hk. unfold HEADER_SIZE in Ho. unfold pg3, Page.set_freeSpacePtr. rewrite sub_put16_ne by lia.
      unfold pg2. rewrite sub_splice_ne by lia. by apply sub_set_slot.
Qed.

(** Setting the slot count touches nothing else. *)
Lemma placed_set_numSlots pg i bs n m pg' :
  placed pg i bs n pg' -> HEADER_SIZE <= Page.freeSpacePtr pg -> is_u16 m ->
  placed pg i bs m (Page.set_numSlots pg' m).
Proof.
  intros [Hl Hs Hf Hd Hle Hda Ho] Hfree Hm. pose proof PAGE_BYTES_Z. unfold HEADER_SIZE in Hfree.
  unfold Page.set_numSlots. split.
  - rewrite length_put16; lia.
  - apply get16_put16_eq; [lia|done].
  - unfold Page.freeSpacePtr at 1. rewrite get16_put16_ne by lia. exact Hf.
  - intros j Hj. unfold MAX_SLOTS_PER_PAGE in Hj.
    unfold Page.slotDirectory at 1. rewrite get16_put16_ne by lia. by apply Hd.
  - intros j Hj. unfold MAX_SLOTS_PER_PAGE in Hj.
    unfold Page.slotLengths at 1. rewrite get16_put16_ne by lia. by apply Hle.
  - by rewrite sub_put16_ne by lia.
  - intros o k Ho' Hk. unfold HEADER_SIZE in *. rewrite sub_put16_ne by lia. by apply Ho.
Qed.

Lemma place_placed pg i bs :
  length pg = PAGE_BYTES -> HEADER_SIZE <= Page.freeSpacePtr pg ->
  Page.freeSpacePtr pg + Z.of_nat (length bs) <= PAGE_SIZE ->
  Z.of_nat i < MAX_SLOTS_PER_PAGE ->
  exists pg', Page.place pg i bs = Ret pg' /\
    placed pg i bs (Z.max (Page.numSlots pg) (Z.of_nat i + 1)) pg'.
Proof.
  intros Hlen Hfree Hfit Hi.
  destruct (store_tuple_stored pg i bs Hlen Hfree Hfit Hi) as (pg' & Hst & Hp).
  unfold Page.place. rewrite Hst. simpl. eexists. split; [done|].
  rewrite (pl_slots _ _ _ _ _ Hp). unfold MAX_SLOTS_PER_PAGE in Hi.
  destruct (Z.leb_spec (Page.numSlots pg) (Z.of_nat i)).
  - rewrite u16_small, Z.max_r by (unfold is_u16; lia).
    apply (placed_set_numSlots _ _ _ (Page.numSlots pg)); [done|done|unfold is_u16; lia].
  - by rewrite Z.max_l by lia.
Qed.

Lemma place_first_placed pg bs :
  length pg = PAGE_BYTES -> HEADER_SIZE <= Page.freeSpacePtr pg -> Page.numSlots pg = 0 ->
  Page.freeSpacePtr pg + Z.of_nat (length bs) <= PAGE_SIZE ->
  exists pg', Page.place_first pg bs = Ret pg' /\
    placed pg 0 bs (Z.max (Page.numSlots pg) (Z.of_nat 0 + 1)) pg'.
Proof.
  intros Hlen Hfree Hn Hfit.
  destruct (store_tuple_stored pg 0 bs Hlen Hfree Hfit) as (pg' & Hst & Hp); [done|].
  unfold Page.place_first. rewrite Hst. simpl. eexists. split; [done|]. rewrite Hn.
  by apply (placed_set_numSlots _ _ _ (Page.numSlots pg)).
Qed.

Lemma placed_live pg i bs pg' j :
  placed pg i bs (Z.max (Page.numSlots pg) (Z.of_nat i + 1)) pg' -> page_wf pg -> Z.of_nat i < MAX_SLOTS_PER_PAGE ->
  Z.of_nat i <= Page.numSlots pg -> j <> i -> live pg' j <-> live pg j.
Proof.
  intros Hp Hwf Hi Hni Hne. unfold live. rewrite (pl_slots _ _ _ _ _ Hp).
  pose proof (pw_slots pg Hwf). unfold MAX_SLOTS_PER_PAGE in *.
  destruct (decide (Z.of_nat j < 128)) as [Hj|Hj]; [|lia].
  rewrite (pl_dir _ _ _ _ _ Hp), (pl_lens _ _ _ _ _ Hp) by done.
  rewrite !decide_False by done. split; intros [? ?]; (split; [lia|done]).
Qed.

Lemma placed_wf pg i bs pg' :
  placed pg i bs (Z.max (Page.numSlots pg) (Z.of_nat i + 1)) pg' -> page_wf pg -> Z.of_nat i < MAX_SLOTS_PER_PAGE ->
  Z.of_nat i <= Page.numSlots pg ->
  Page.freeSpacePtr pg + Z.of_nat (length bs) <= PAGE_SIZE -> page_wf pg'.
Proof.
  intros Hp Hwf Hi Hni Hfit. pose proof (pw_slots pg Hwf) as Hs. pose proof (pw_free pg Hwf) as Hf.
  assert (Hrange : forall j, live pg' j -> Z.of_nat j < MAX_SLOTS_PER_PAGE).
  { intros j [Hj _]. rewrite (pl_slots _ _ _ _ _ Hp) in Hj. lia. }
  assert (Hlive : forall j, live pg' j -> j <> i -> live pg j)
    by (intros j Hj Hne; by apply (placed_live pg i bs pg')).
  pose proof (pw_live pg Hwf) as Hl. split.
  - apply Hp.
  - rewrite (pl_slots _ _ _ _ _ Hp). lia.
  - rewrite (pl_free _ _ _ _ _ Hp). lia.
  - intros j Hj. rewrite (pl_dir _ _ _ _ _ Hp), (pl_lens _ _ _ _ _ Hp), (pl_free _ _ _ _ _ Hp) by auto.
    case_decide as E; [lia|]. destruct (Hl j); [auto|lia].
  - intros j k Hj Hk Hne. rewrite !(pl_dir _ _ _ _ _ Hp), !(pl_lens _ _ _ _ _ Hp) by auto.
    destruct (decide (j = i)) as [->|], (decide (k = i)) as [->|]; [done|..].
    + right. by apply Hl, Hlive.
    + left. by apply Hl, Hlive.
    + apply (pw_disjoint pg Hwf); auto.
Qed.

Lemma placed_tuple_at pg i bs pg' j :
  placed pg i bs (Z.max (Page.numSlots pg) (Z.of_nat i + 1)) pg' -> page_wf pg -> Z.of_nat i < MAX_SLOTS_PER_PAGE ->
  Z.of_nat i <= Page.numSlots pg ->
  tuple_at pg' j =
    if decide (j = i) then (if decide (bs = []) then None else Some bs) else tuple_at pg j.
Proof.
  intros Hp Hwf Hi Hni. pose proof (pw_slots pg Hwf) as Hs. unfold tuple_at.
  pose proof (slotLengths_range pg j). pose proof (slotDirectory_range pg j).
  rewrite (pl_slots _ _ _ _ _ Hp). destruct (decide (j = i)) as [->|Hne].
  - rewrite (pl_dir _ _ _ _ _ Hp), (pl_lens _ _ _ _ _ Hp) by done.
    rewrite !(decide_True (P := i = i)) by done. rewrite Nat2Z.id, (pl_data _ _ _ _ _ Hp).
    destruct bs as [|b bs]; simpl length; [by rewrite decide_False by lia|].
    rewrite decide_True by lia. by rewrite decide_False.
  - destruct (decide (Z.of_nat j < Page.numSlots pg)) as [Hj|Hj].
    + rewrite (pl_dir _ _ _ _ _ Hp), (pl_lens _ _ _ _ _ Hp), !(decide_False (P := j = i)) by (done || lia).
      destruct (decide (0 < Page.slotLengths pg j)) as [Hpos|Hpos].
      * rewrite !decide_True by lia. f_equal.
        destruct (pw_live pg Hwf j) as [H1 H2]; [split; lia|]. unfold is_u16 in *.
        apply (pl_other _ _ _ _ _ Hp); lia.
      * by rewrite !decide_False by lia.
    + by rewrite !decide_False by lia.
Qed.

(** ** The other page operations *)
Lemma initPage_spec n :
  page_wf (Page.initPage n) /\ Page.numSlots (Page.initPage n) = 0 /\
  Page.freeSpacePtr (Page.initPage n) = HEADER_SIZE.
Proof.
  pose proof PAGE_BYTES_Z. set (p0 := put32 zero_page 0 n).
  assert (H0 : length p0 = PAGE_BYTES).
  { unfold p0, put32. rewrite length_splice; rewrite ?length_le_bytes, length_zero_page; lia. }
  unfold Page.initPage, Page.set_freeSpacePtr, Page.set_numSlots. fold p0.
  set (pg := put16 _ 6 _).
  assert (Hn : Page.numSlots pg = 0).
  { unfold pg, Page.numSlots. rewrite get16_put16_ne by page_lia.
    apply get16_put16_eq; [lia|done]. }
  assert (Hf : Page.freeSpacePtr pg = HEADER_SIZE)
    by (apply get16_put16_eq; [page_lia|done]).
  split_and!; [|done|done].
  split; rewrite ?Hn, ?Hf; [unfold pg; rewrite !length_put16; page_lia|done|done|..].
  - intros i [Hi _]. lia.
  - intros i j [Hi _]. lia.
Qed.

Lemma initPage_tuple_at n j : tuple_at (Page.initPage n) j = None.
Proof.
  unfold tuple_at. destruct (initPage_spec n) as (_ & -> & _).
  by rewrite decide_False by lia.
Qed.

Lemma find_empty_slot_spec pg n : forall i,
  Z.of_nat (i + n) <= MAX_SLOTS_PER_PAGE -> Z.of_nat (i + n) <= Page.numSlots pg ->
  exists o, Page.find_empty_slot pg i n = Ret o /\
    match o with
    | Some j => (i <= j < i + n)%nat /\ ~ live pg j
    | None => forall j, (i <= j < i + n)%nat -> live pg j
    end.
Proof.
  induction n as [|n IH]; intros i Hmax Hnum; simpl.
  - exists None. split; [done|]. lia.
  - unfold Page.slot_in_range. rewrite decide_True by lia. simpl.
    destruct ((Page.slotDirectory pg i =? 0) && (Page.slotLengths pg i =? 0)) eqn:E.
    + exists (Some i). split; [done|]. split; [lia|].
      apply andb_true_iff in E as [E1%Z.eqb_eq E2%Z.eqb_eq]. intros [_ H]. by apply H.
    + destruct (IH (S i)) as (o & -> & Ho); [lia|lia|]. exists o. split; [done|].
      apply andb_false_iff in E. rewrite !Z.eqb_neq in E. destruct o as [j|].
      * destruct Ho as [??]. split; [lia|done].
      * intros j Hj. destruct (decide (j = i)) as [->|]; [|apply Ho; lia].
        split; [lia|]. tauto.
Qed.

(** The chosen slot is not in use; it is a new one only when no old one is
    empty. *)
Lemma choose_slot_spec pg :
  page_wf pg ->
  exists i, Page.choose_slot pg = Ret i /\ Z.of_nat i <= Page.numSlots pg /\ ~ live pg i /\
    (Z.of_nat i = Page.numSlots pg -> forall j, Z.of_nat j < Page.numSlots pg -> live pg j).
Proof.
  intros Hwf. pose proof (pw_slots pg Hwf). pose proof (numSlots_range pg) as Hr.
  unfold is_u16 in Hr. unfold Page.choose_slot.
  destruct (find_empty_slot_spec pg (Z.to_nat (Page.numSlots pg)) 0) as (o & -> & Ho);
    [lia|lia|]. simpl.
  destruct o as [j|]; simpl in *.
  - exists j. destruct Ho as [??]. split_and!; [done|lia|done|lia].
  - exists (Z.to_nat (Page.numSlots pg)). split_and!; [done|lia| |].
    + intros [? _]. lia.
    + intros _ j Hj. apply Ho. lia.
Qed.

Lemma read_slot_spec pg s :
  page_wf pg -> 0 <= s -> Page.read_slot pg s = Ret (tuple_at pg (Z.to_nat s)).
Proof.
  intros Hwf Hs. unfold Page.read_slot, tuple_at. rewrite Z2Nat.id by done.
  destruct (Z.leb_spec (Page.numSlots pg) s) as [Hn|Hn].
  { by rewrite decide_False by lia. }
  pose proof (pw_slots pg Hwf). unfold Page.slot_in_range. rewrite decide_True by lia. simpl.
  pose proof (slotLengths_range pg (Z.to_nat s)) as Hr. unfold is_u16 in Hr.
  destruct (Z.eqb_spec (Page.slotLengths pg (Z.to_nat s)) 0) as [E|E].
  { by rewrite decide_False by lia. }
  rewrite (decide_True (P := s < _ /\ _)) by lia. rewrite decide_True; [done|].
  destruct (pw_live pg Hwf (Z.to_nat s)) as [H1 H2]; [split; lia|].
  pose proof (pw_free pg Hwf). rewrite (pw_len pg Hwf). pose proof PAGE_BYTES_Z.
  unfold HEADER_SIZE, PAGE_SIZE in *. lia.
Qed.

Lemma erase_slot_spec pg s :
  page_wf pg -> 0 <= s ->
  exists pg', Page.erase_slot pg s = Ret pg' /\ page_wf pg' /\
    Page.freeSpacePtr pg' = Page.freeSpacePtr pg /\ Page.numSlots pg' = Page.numSlots pg /\
    forall j, tuple_at pg' j = if decide (Z.of_nat j = s) then None else tuple_at pg j.
Proof.
  intros Hwf Hs. pose proof (pw_slots pg Hwf) as Hm. pose proof (pw_len pg Hwf) as Hl.
  unfold Page.erase_slot. destruct (Z.ltb_spec s (Page.numSlots pg)) as [Hn|Hn].
  2:{ exists pg. split_and!; try done. intros j. case_decide; [|done].
      unfold tuple_at. by rewrite decide_False by lia. }
  unfold Page.slot_in_range. rewrite decide_True by lia. simpl. set (i := Z.to_nat s).
  set (pg' := Page.set_slot pg i 0 0).
  assert (Hi : Z.of_nat i < MAX_SLOTS_PER_PAGE) by lia.
  assert (Hn' : Page.numSlots pg' = Page.numSlots pg) by by apply numSlots_set_slot.
  assert (Hf' : Page.freeSpacePtr pg' = Page.freeSpacePtr pg) by by apply freeSpacePtr_set_slot.
  assert (Hd : forall j, Z.of_nat j < Page.numSlots pg -> Page.slotDirectory pg' j =
    if decide (j = i) then 0 else Page.slotDirectory pg j)
    by (intros; apply slotDirectory_set_slot; (done || lia)).
  assert (Hle : forall j, Z.of_nat j < Page.numSlots pg -> Page.slotLengths pg' j =
    if decide (j = i) then 0 else Page.slotLengths pg j)
    by (intros; apply slotLengths_set_slot; (done || lia)).
  assert (Hlive : forall j, live pg' j -> j <> i /\ live pg j).
  { unfold live. rewrite Hn'. intros j [Hj Hnz]. rewrite Hd, Hle in Hnz by done.
    case_decide; [tauto|]. split; [done|]. split; [lia|done]. }
  exists pg'. split_and!; try done.
  - split; rewrite ?Hf', ?Hn'; [by apply length_set_slot|done|apply Hwf| |].
    + intros j [Hne Hj]%Hlive. destruct (pw_live pg Hwf j Hj). destruct Hj.
      rewrite Hd, Hle, !decide_False by done. done.
    + intros j k [Hnj Hj]%Hlive [Hnk Hk]%Hlive Hne.
      destruct (pw_disjoint pg Hwf j k Hj Hk Hne); destruct Hj, Hk;
      rewrite !Hd, !Hle, !decide_False by done; auto.
  - intros j. unfold tuple_at. rewrite Hn'. destruct (decide (Z.of_nat j = s)) as [E|E].
    + rewrite Hle, (decide_True (P := j = i)) by lia. by rewrite decide_False by lia.
    + destruct (decide (Z.of_nat j < Page.numSlots pg)) as [Hj|Hj].
      2:{ by rewrite !decide_False by lia. }
      rewrite Hd, Hle, !(decide_False (P := j = i)) by lia.
      case_decide as Hc; [|done]. f_equal. destruct (pw_live pg Hwf j) as [H1 H2]; [split; lia|].
      apply sub_set_slot; [done|done|]. lia.
Qed.
