(* ===== verification/PageStore.v ===== *)
(** * The interface between the heap files and the page cache

    What [PageManager] asks of [BufferPool] and [DiskManager]: pages that are
    pinned, read and written through a pointer, and released. The laws speak of
    the current contents of a page, wherever its bytes are: a client that holds
    at most one page at a time sees a plain array of pages per file. *)
From stdpp Require Import base numbers list strings.
From Stdlib Require Import ZArith Lia.
From S2P Require Import Prelude Bytes Common Disk.

Class PageStore (S : Type) := {
  ps_fetch : Z -> Z -> bool -> M S nat;
  ps_unpin : Z -> Z -> bool -> M S unit;
  ps_alloc : Z -> M S Z;
  ps_create : string -> M S Z;
  ps_open : string -> M S Z;
  ps_count : Z -> S -> Z;
  (** the bytes behind a fetched pointer *)
  ps_data : nat -> S -> list byte;
  ps_write : nat -> list byte -> S -> S;
}.

(** The logical state of a store and the laws. *)
Class PageStoreSpec (S : Type) `{!PageStore S} := {
  ps_file : S -> Z -> Prop;               (* an open file id *)
  ps_page : S -> Z -> Z -> list byte;     (* contents of a page of a file *)
  ps_idle : S -> Prop;                    (* well formed, no page pinned *)
  ps_held : S -> Z -> Z -> nat -> bool -> Prop;
    (* well formed; the page is pinned, at that pointer, and no other is;
       [true]: it was fetched for writing *)

  ps_creatable : S -> string -> Prop;
    (* the file can be opened and no open file has its path *)

  ps_in_file (s : S) (f p : Z) : Prop := ps_file s f /\ 0 <= p < ps_count f s;
  ps_same (s s' : S) : Prop :=
    (forall f, ps_file s' f <-> ps_file s f) /\
    (forall f, ps_count f s' = ps_count f s);

  ps_page_length s f p : ps_idle s -> ps_in_file s f p -> length (ps_page s f p) = PAGE_BYTES;
  ps_count_range s f : ps_idle s -> ps_file s f -> 0 <= ps_count f s <= INVALID_PAGE_ID;

  ps_fetch_spec s f p w :
    ps_idle s -> ps_in_file s f p ->
    exists h s', runs (ps_fetch f p w) s h s' /\ ps_held s' f p h w /\ ps_same s s' /\
      forall f' p', ps_in_file s f' p' -> ps_page s' f' p' = ps_page s f' p';
  ps_data_spec s f p h w : ps_held s f p h w -> ps_data h s = ps_page s f p;
  ps_write_spec s f p h bs :
    ps_held s f p h true -> length bs = PAGE_BYTES ->
    ps_held (ps_write h bs s) f p h true /\ ps_same s (ps_write h bs s) /\
    forall f' p', ps_in_file s f' p' ->
      ps_page (ps_write h bs s) f' p' = if decide (f' = f /\ p' = p) then bs else ps_page s f' p';
  ps_unpin_spec s f p h w dirty :
    ps_held s f p h w ->
    exists s', runs (ps_unpin f p dirty) s tt s' /\ ps_idle s' /\ ps_same s s' /\
      forall f' p', ps_in_file s f' p' -> ps_page s' f' p' = ps_page s f' p';
  ps_alloc_spec s f :
    ps_idle s -> ps_file s f -> ps_count f s < INVALID_PAGE_ID ->
    exists s', runs (ps_alloc f) s (ps_count f s) s' /\ ps_idle s' /\
      (forall f', ps_file s' f' <-> ps_file s f') /\
      (forall f', ps_count f' s' = if decide (f' = f) then ps_count f s + 1 else ps_count f' s) /\
      ps_page s' f (ps_count f s) = zero_page /\
      forall f' p', ps_in_file s f' p' -> ps_page s' f' p' = ps_page s f' p';
  ps_create_spec s name :
    ps_idle s -> ps_creatable s name ->
    exists f s', runs (ps_create name) s f s' /\ ps_idle s' /\ ~ ps_file s f /\ 0 <= f /\
      (forall f', ps_file s' f' <-> f' = f \/ ps_file s f') /\
      (forall f', ps_count f' s' = if decide (f' = f) then 0 else ps_count f' s) /\
      forall f' p', ps_in_file s f' p' -> ps_page s' f' p' = ps_page s f' p';
}.
