(* ===== verification/Pool.v ===== *)
(** * BufferPool (src/src/storage/BufferPool.h, BufferPool.cpp)

    The page cache with LRU replacement, over the disk manager it owns a
    pointer to. A [char *] into a frame is the frame's index: [frames_] never
    changes its length, so the pointer is valid as long as the pool is. An
    entry of [lruMap_] is a list iterator; it always denotes the occurrence of
    the frame index nearest the front, so the map is the set of its keys. *)
From stdpp Require Import base numbers list strings gmap pretty.
From Stdlib Require Import ZArith Lia.
From S2P Require Import Prelude Bytes Common Disk.

Record PageFrame := mkFrame {
  fr_data : list byte;
  fr_pageId : Z;
  fr_fileId : Z;
  fr_pageNum : Z;
  fr_isDirty : bool;
  fr_pinCount : Z;
}.

Record BufferPool := mkPool {
  poolSize_ : Z;
  frames_ : list PageFrame;
  pageTable_ : gmap Z nat;
  lruList_ : list nat;
  lruMap_ : gset nat;
  freeList_ : list nat;
  cacheHits_ : Z;
  cacheMisses_ : Z;
}.

(** The pool and the disk manager behind [diskMgr_]. *)
Record Store := mkStore { st_disk : DiskManager; st_pool : BufferPool }.

Definition on_disk {A} : M DiskManager A -> M Store A :=
  zoom st_disk (fun d s => mkStore d (st_pool s)).
Definition on_pool (g : BufferPool -> BufferPool) : M Store unit :=
  modify (fun s => mkStore (st_disk s) (g (st_pool s))).

Definition set_frames fs (b : BufferPool) : BufferPool :=
  mkPool (poolSize_ b) fs (pageTable_ b) (lruList_ b) (lruMap_ b) (freeList_ b)
         (cacheHits_ b) (cacheMisses_ b).
Definition set_table t (b : BufferPool) : BufferPool :=
  mkPool (poolSize_ b) (frames_ b) t (lruList_ b) (lruMap_ b) (freeList_ b)
         (cacheHits_ b) (cacheMisses_ b).
Definition set_lru l m (b : BufferPool) : BufferPool :=
  mkPool (poolSize_ b) (frames_ b) (pageTable_ b) l m (freeList_ b)
         (cacheHits_ b) (cacheMisses_ b).
Definition set_free l (b : BufferPool) : BufferPool :=
  mkPool (poolSize_ b) (frames_ b) (pageTable_ b) (lruList_ b) (lruMap_ b) l
         (cacheHits_ b) (cacheMisses_ b).
Definition set_stats h m (b : BufferPool) : BufferPool :=
  mkPool (poolSize_ b) (frames_ b) (pageTable_ b) (lruList_ b) (lruMap_ b) (freeList_ b) h m.
Definition set_frame (i : nat) (fr : PageFrame) (b : BufferPool) : BufferPool :=
  set_frames (<[i := fr]> (frames_ b)) b.

Module Pool.
Definition makePageKey (fileId pageNum : Z) : Z :=
  Z.lor (u64 (Z.shiftl (u64 fileId) 32)) pageNum.

Definition empty_frame : PageFrame :=
  mkFrame zero_page INVALID_PAGE_ID (-1) 0 false 0.

(** the constructor *)
Definition init (poolSize : Z) : BufferPool :=
  mkPool poolSize (replicate (Z.to_nat poolSize) empty_frame) ∅ [] ∅
         (seq 0 (Z.to_nat poolSize)) 0 0.

(** [list::erase(iterator)] *)
Fixpoint erase_node (i : nat) (l : list nat) : list nat :=
  match l with
  | [] => []
  | j :: l' => if decide (j = i) then l' else j :: erase_node i l'
  end.

(** [frames_[i]] *)
Definition frame_at (i : nat) : M Store PageFrame :=
  s <- get ;; lift (of_option (frames_ (st_pool s) !! i)).

Definition findVictimFrame : M Store nat :=
  s <- get ;;
  let b := st_pool s in
  match freeList_ b with
  | idx :: rest => on_pool (set_free rest) ;; ret idx
  | [] =>
      match last (lruList_ b) with
      | None => throw "BufferPool: all frames are pinned, cannot evict"
      | Some victimIdx =>
          on_pool (set_lru (removelast (lruList_ b)) (lruMap_ b ∖ {[victimIdx]})) ;;
          ret victimIdx
      end
  end.

(** A hit: pin the frame and take it off the LRU list. *)
Definition pin_cached (frameIdx : nat) (forWrite : bool) : M Store nat :=
  on_pool (fun b => set_stats (u64 (cacheHits_ b + 1)) (cacheMisses_ b) b) ;;
  frame <- frame_at frameIdx ;;
  pins <- lift (int_succ (fr_pinCount frame)) ;;
  on_pool (set_frame frameIdx
    (mkFrame (fr_data frame) (fr_pageId frame) (fr_fileId frame) (fr_pageNum frame)
             (if forWrite then true else fr_isDirty frame) pins)) ;;
  on_pool (fun b =>
    if bool_decide (frameIdx ∈ lruMap_ b)
    then set_lru (erase_node frameIdx (lruList_ b)) (lruMap_ b ∖ {[frameIdx]}) b
    else b) ;;
  ret frameIdx.

(** Drop the page a victim frame holds, writing it back if dirty. *)
Definition evict (frame : PageFrame) : M Store unit :=
  if (0 <=? fr_fileId frame) && negb (fr_pageId frame =? INVALID_PAGE_ID) then
    on_pool (fun b =>
      set_table (delete (makePageKey (fr_fileId frame) (fr_pageNum frame)) (pageTable_ b)) b) ;;
    if fr_isDirty frame
    then on_disk (Disk.writePage (fr_fileId frame) (fr_pageNum frame) (fr_data frame))
    else ret tt
  else ret tt.

(** Take a victim frame and empty it. *)
Definition acquire : M Store nat :=
  frameIdx <- findVictimFrame ;;
  frame <- frame_at frameIdx ;;
  evict frame ;;
  ret frameIdx.

(** A miss: load the page into a victim frame. *)
Definition load (fileId pageNum : Z) (forWrite : bool) : M Store nat :=
  on_pool (fun b => set_stats (cacheHits_ b) (u64 (cacheMisses_ b + 1)) b) ;;
  frameIdx <- acquire ;;
  bytes <- on_disk (Disk.readPage fileId pageNum) ;;
  on_pool (set_frame frameIdx (mkFrame bytes pageNum fileId pageNum forWrite 1)) ;;
  on_pool (fun b => set_table (<[makePageKey fileId pageNum := frameIdx]> (pageTable_ b)) b) ;;
  ret frameIdx.

Definition fetchPage (fileId pageNum : Z) (forWrite : bool) : M Store nat :=
  s <- get ;;
  match pageTable_ (st_pool s) !! makePageKey fileId pageNum with
  | Some frameIdx => pin_cached frameIdx forWrite
  | None => load fileId pageNum forWrite
  end.

Definition unpinPage (fileId pageNum : Z) (isDirty : bool) : M Store unit :=
  s <- get ;;
  match pageTable_ (st_pool s) !! makePageKey fileId pageNum with
  | None => ret tt
  | Some frameIdx =>
      frame <- frame_at frameIdx ;;
      if fr_pinCount frame <=? 0 then ret tt
      else
        let pins := fr_pinCount frame - 1 in
        on_pool (set_frame frameIdx
          (mkFrame (fr_data frame) (fr_pageId frame) (fr_fileId frame) (fr_pageNum frame)
                   (if isDirty then true else fr_isDirty frame) pins)) ;;
        if pins =? 0
        then on_pool (fun b => set_lru (frameIdx :: lruList_ b) ({[frameIdx]} ∪ lruMap_ b) b)
        else ret tt
  end.

Definition clean (fr : PageFrame) : PageFrame :=
  mkFrame (fr_data fr) (fr_pageId fr) (fr_fileId fr) (fr_pageNum fr) false (fr_pinCount fr).

Definition flushPage (fileId pageNum : Z) : M Store unit :=
  s <- get ;;
  match pageTable_ (st_pool s) !! makePageKey fileId pageNum with
  | None => ret tt
  | Some frameIdx =>
      frame <- frame_at frameIdx ;;
      if fr_isDirty frame then
        on_disk (Disk.writePage fileId pageNum (fr_data frame)) ;;
        on_pool (set_frame frameIdx (clean frame))
      else ret tt
  end.

(** The body of the loop of [flushAllPages], for one entry of the table. *)
Definition flush_frame (frameIdx : nat) : M Store unit :=
  frame <- frame_at frameIdx ;;
  if fr_isDirty frame && (0 <=? fr_fileId frame) then
    on_disk (Disk.writePage (fr_fileId frame) (fr_pageNum frame) (fr_data frame)) ;;
    on_pool (set_frame frameIdx (clean frame))
  else ret tt.

Fixpoint flush_entries (entries : list (Z * nat)) : M Store unit :=
  match entries with
  | [] => ret tt
  | (_, frameIdx) :: rest => flush_frame frameIdx ;; flush_entries rest
  end.

(** [order] is the order in which the unordered map yields its entries. *)
Definition flushAllPages (order : gmap Z nat -> list (Z * nat)) : M Store unit :=
  s <- get ;; flush_entries (order (pageTable_ (st_pool s))).

(** Reading and writing through the pointer [fetchPage] returned. *)
Definition frame_data (i : nat) (s : Store) : list byte :=
  match frames_ (st_pool s) !! i with Some fr => fr_data fr | None => [] end.
Definition write_data (i : nat) (bs : list byte) (s : Store) : Store :=
  match frames_ (st_pool s) !! i with
  | Some fr =>
      mkStore (st_disk s)
        (set_frame i (mkFrame bs (fr_pageId fr) (fr_fileId fr) (fr_pageNum fr)
                              (fr_isDirty fr) (fr_pinCount fr)) (st_pool s))
  | None => s
  end.
End Pool.

(** ** Page keys *)
Lemma makePageKey_val f p :
  is_i32 f -> is_u32 p -> Pool.makePageKey f p = (f mod 2 ^ 32) * 2 ^ 32 + p.
Proof.
  intros Hf Hp. unfold Pool.makePageKey, u64.
  rewrite Z.shiftl_mul_pow2 by lia. change (2 ^ 64) with (2 ^ 32 * 2 ^ 32).
  rewrite Z.mul_mod_distr_r by lia.
  rewrite <- (Z.shiftl_mul_pow2 _ 32) by lia.
  rewrite lor_shiftl_add by (unfold_int; lia).
  f_equal. f_equal. rewrite Z.rem_mul_r by lia.
  rewrite Z.mul_comm, Z.mod_add by lia. rewrite Z.mod_mod by lia. done.
Qed.

Lemma makePageKey_inj_lemma f p f' p' :
  is_i32 f -> is_i32 f' -> is_u32 p -> is_u32 p' ->
  Pool.makePageKey f p = Pool.makePageKey f' p' -> f = f' /\ p = p'.
Proof.
  intros Hf Hf' Hp Hp'. rewrite !makePageKey_val by done. intros Heq.
  apply pack_inj in Heq as [Hm Hpp]; [|unfold_int; lia..]. split; [|done].
  apply (f_equal i32) in Hm. revert Hm. unfold i32.
  rewrite !Zplus_mod_idemp_l. fold (i32 f). fold (i32 f'). by rewrite !i32_small.
Qed.

(** ** The invariant of the pool's own structures *)
Definition frame_key (fr : PageFrame) : Z := Pool.makePageKey (fr_fileId fr) (fr_pageNum fr).

Definition valid_page (f p : Z) : Prop := 0 <= f <= INT_MAX /\ 0 <= p < INVALID_PAGE_ID.

Record holds_page (k : Z) (fr : PageFrame) : Prop := {
  hp_key : k = frame_key fr;
  hp_valid : valid_page (fr_fileId fr) (fr_pageNum fr);
  hp_id : fr_pageId fr = fr_pageNum fr;
}.

Record pool_inv (b : BufferPool) : Prop := {
  pi_table : forall k i, pageTable_ b !! k = Some i ->
    exists fr, frames_ b !! i = Some fr /\ holds_page k fr;
  pi_free : forall i, i ∈ freeList_ b ->
    exists fr, frames_ b !! i = Some fr /\ fr_fileId fr = -1;
  pi_free_unmapped : forall k i, i ∈ freeList_ b -> pageTable_ b !! k <> Some i;
  pi_free_nodup : NoDup (freeList_ b);
  pi_lru_nodup : NoDup (lruList_ b);
  pi_lru : forall i, i ∈ lruList_ b <->
    exists k fr, pageTable_ b !! k = Some i /\ frames_ b !! i = Some fr /\ fr_pinCount fr = 0;
  pi_lrumap : forall i, i ∈ lruMap_ b <-> i ∈ lruList_ b;
  pi_frame : forall i fr, frames_ b !! i = Some fr ->
    0 <= fr_pinCount fr <= INT_MAX /\ length (fr_data fr) = PAGE_BYTES;
}.

(** No frame is lost: each is free or holds a page. *)
Definition no_leak (b : BufferPool) : Prop :=
  forall i, (i < length (frames_ b))%nat -> i ∈ freeList_ b \/ exists k, pageTable_ b !! k = Some i.

(** A frame that is in none of the lists, on its way to hold a page. *)
Record detached (b : BufferPool) (i : nat) : Prop := {
  dt_free : i ∉ freeList_ b;
  dt_lru : i ∉ lruList_ b;
  dt_table : forall k, pageTable_ b !! k <> Some i;
  dt_frame : is_Some (frames_ b !! i);
}.

Lemma valid_page_key f p f' p' :
  valid_page f p -> valid_page f' p' -> Pool.makePageKey f p = Pool.makePageKey f' p' ->
  f = f' /\ p = p'.
Proof.
  intros [??] [??]. unfold INVALID_PAGE_ID in *.
  apply makePageKey_inj_lemma; unfold_int; lia.
Qed.

Lemma table_frame_inj b k k' i :
  pool_inv b -> pageTable_ b !! k = Some i -> pageTable_ b !! k' = Some i -> k = k'.
Proof.
  intros Hb H1 H2. destruct (pi_table b Hb _ _ H1) as (fr & Hfr & [-> _ _]).
  destruct (pi_table b Hb _ _ H2) as (fr' & Hfr' & [-> _ _]). congruence.
Qed.

Lemma elem_of_erase_node i j l : NoDup l -> j ∈ Pool.erase_node i l <-> j ∈ l /\ j <> i.
Proof.
  induction 1 as [|x l Hx Hnd IH]; simpl.
  - rewrite elem_of_nil. tauto.
  - case_decide as E.
    + subst. rewrite elem_of_cons. split; [|naive_solver]. intros Hj. split; [by right|].
      intros ->. contradiction.
    + rewrite !elem_of_cons, IH. naive_solver.
Qed.

Lemma NoDup_erase_node i l : NoDup l -> NoDup (Pool.erase_node i l).
Proof.
  induction 1 as [|x l Hx Hnd IH]; simpl; [constructor|].
  case_decide; [done|]. constructor; [|done]. rewrite elem_of_erase_node by done. tauto.
Qed.

(** ** Transitions of the pool that keep the invariant *)
Record same_page (fr fr' : PageFrame) : Prop := {
  sp_file : fr_fileId fr' = fr_fileId fr;
  sp_num : fr_pageNum fr' = fr_pageNum fr;
  sp_id : fr_pageId fr' = fr_pageId fr;
}.

Definition frame_ok (fr : PageFrame) : Prop :=
  0 <= fr_pinCount fr <= INT_MAX /\ length (fr_data fr) = PAGE_BYTES.

Lemma holds_page_same k fr fr' : same_page fr fr' -> holds_page k fr -> holds_page k fr'.
Proof.
  intros [Hf Hn Hi] [-> Hv Hid]. split; unfold frame_key; rewrite ?Hf, ?Hn, ?Hi; done.
Qed.

Lemma frames_insert_Some (fs : list PageFrame) i j fr fr' :
  <[i := fr']> fs !! j = Some fr <->
  (i = j /\ fr' = fr /\ (i < length fs)%nat) \/ (i <> j /\ fs !! j = Some fr).
Proof. rewrite list_lookup_insert_Some. naive_solver. Qed.

(** Changing a frame's data or flags, pinned or not as before. *)
Lemma inv_update_frame b i fr fr' :
  pool_inv b -> frames_ b !! i = Some fr -> same_page fr fr' -> frame_ok fr' ->
  (fr_pinCount fr' = 0 <-> fr_pinCount fr = 0) ->
  pool_inv (set_frame i fr' b).
Proof.
  intros Hb Hi Hs Hok Hpin. pose proof (lookup_lt_Some _ _ _ Hi) as Hlt.
  split; simpl; try apply Hb.
  - intros k j Hk. destruct (pi_table b Hb k j Hk) as (fj & Hj & Hh).
    destruct (decide (i = j)) as [<-|Hne].
    + exists fr'. simplify_eq. split; [by apply list_lookup_insert_eq|].
      by apply (holds_page_same _ fr).
    + exists fj. by rewrite list_lookup_insert_ne.
  - intros j Hj. destruct (pi_free b Hb j Hj) as (fj & Hfj & Hid).
    destruct (decide (i = j)) as [<-|Hne].
    + exists fr'. simplify_eq. split; [by apply list_lookup_insert_eq|].
      by rewrite (sp_file _ _ Hs).
    + exists fj. by rewrite list_lookup_insert_ne.
  - intros j. rewrite (pi_lru b Hb j). split; intros (k & fj & Hk & Hj & Hp).
    + destruct (decide (i = j)) as [<-|Hne].
      * exists k, fr'. simplify_eq. split_and!; [done|by apply list_lookup_insert_eq|tauto].
      * exists k, fj. by rewrite list_lookup_insert_ne.
    + apply frames_insert_Some in Hj as [(<- & <- & _)|[Hne Hj]]; [|by eauto].
      exists k, fr. split_and!; [done|done|tauto].
  - intros j fj Hj. apply frames_insert_Some in Hj as [(<- & <- & _)|[_ Hj]]; [done|].
    by apply (pi_frame b Hb j).
Qed.

(** Pinning a cached page. *)
Lemma inv_pin b k i fr fr' :
  pool_inv b -> pageTable_ b !! k = Some i -> frames_ b !! i = Some fr ->
  same_page fr fr' -> frame_ok fr' -> 0 < fr_pinCount fr' ->
  pool_inv (if bool_decide (i ∈ lruMap_ b)
            then set_lru (Pool.erase_node i (lruList_ b)) (lruMap_ b ∖ {[i]}) (set_frame i fr' b)
            else set_frame i fr' b).
Proof.
  intros Hb Hk Hi Hs Hok Hpin. case_bool_decide as Hlru.
  - split; simpl; try apply Hb.
    + intros k' j Hk'. destruct (pi_table b Hb k' j Hk') as (fj & Hj & Hh).
      destruct (decide (i = j)) as [<-|Hne].
      * exists fr'. simplify_eq. split; [|by apply (holds_page_same _ fr)].
        apply list_lookup_insert_eq. by apply lookup_lt_Some in Hi.
      * exists fj. by rewrite list_lookup_insert_ne.
    + intros j Hj. destruct (pi_free b Hb j Hj) as (fj & Hfj & Hid). exists fj.
      rewrite list_lookup_insert_ne; [done|]. intros ->.
      by apply (pi_free_unmapped b Hb k j).
    + apply NoDup_erase_node, Hb.
    + intros j. rewrite elem_of_erase_node, (pi_lru b Hb j) by apply Hb. split.
      * intros [(k' & fj & ? & ? & ?) Hne]. exists k', fj.
        by rewrite list_lookup_insert_ne by done.
      * intros (k' & fj & Hk' & Hj & Hp). apply frames_insert_Some in Hj.
        destruct Hj as [(<- & <- & _)|[Hne Hj]]; [lia|]. split; [by eauto|done].
    + intros j. rewrite elem_of_erase_node, elem_of_difference, elem_of_singleton by apply Hb.
      by rewrite (pi_lrumap b Hb).
    + intros j fj Hj. apply frames_insert_Some in Hj as [(<- & <- & _)|[_ Hj]]; [done|].
      by apply (pi_frame b Hb j).
  - apply (inv_update_frame b i fr); try done.
    rewrite (pi_lrumap b Hb), (pi_lru b Hb) in Hlru. split; [lia|].
    intros H0. destruct Hlru. eauto.
Qed.

(** Dropping the last pin. *)
Lemma inv_unpin_last b k i fr fr' :
  pool_inv b -> pageTable_ b !! k = Some i -> frames_ b !! i = Some fr ->
  same_page fr fr' -> frame_ok fr' -> 0 < fr_pinCount fr -> fr_pinCount fr' = 0 ->
  pool_inv (set_lru (i :: lruList_ b) ({[i]} ∪ lruMap_ b) (set_frame i fr' b)).
Proof.
  intros Hb Hk Hi Hs Hok Hpin Hpin'. pose proof (lookup_lt_Some _ _ _ Hi) as Hlt.
  assert (i ∉ lruList_ b) as Hnot.
  { rewrite (pi_lru b Hb). intros (k' & fj & _ & ? & ?). simplify_eq. lia. }
  split; simpl; try apply Hb.
  - intros k' j Hk'. destruct (pi_table b Hb k' j Hk') as (fj & Hj & Hh).
    destruct (decide (i = j)) as [<-|Hne].
    + exists fr'. simplify_eq. split; [|by apply (holds_page_same _ fr)].
      by apply list_lookup_insert_eq.
    + exists fj. by rewrite list_lookup_insert_ne.
  - intros j Hj. destruct (pi_free b Hb j Hj) as (fj & Hfj & Hid). exists fj.
    rewrite list_lookup_insert_ne; [done|]. intros ->. by apply (pi_free_unmapped b Hb k j).
  - constructor; [done|apply Hb].
  - intros j. rewrite elem_of_cons, (pi_lru b Hb j). split.
    + intros [->|(k' & fj & ? & ? & ?)].
      * exists k, fr'. by rewrite list_lookup_insert_eq.
      * exists k', fj. rewrite list_lookup_insert_ne; [done|]. intros ->. simplify_eq. lia.
    + intros (k' & fj & Hk' & Hj & Hp). apply frames_insert_Some in Hj.
      destruct Hj as [(<- & <- & _)|[Hne Hj]]; [by left|]. right. eauto.
  - intros j. rewrite elem_of_cons, elem_of_union, elem_of_singleton.
    by rewrite (pi_lrumap b Hb).
  - intros j fj Hj. apply frames_insert_Some in Hj as [(<- & <- & _)|[_ Hj]]; [done|].
    by apply (pi_frame b Hb j).
Qed.

(** The victim: the first free frame, or the least recently used one with its
    entry of the page table removed. *)
Definition take_victim (b : BufferPool) : option (nat * PageFrame * BufferPool) :=
  match freeList_ b with
  | idx :: rest => fr ← frames_ b !! idx; Some (idx, fr, set_free rest b)
  | [] =>
      i ← last (lruList_ b);
      fr ← frames_ b !! i;
      Some (i, fr, set_table (delete (frame_key fr) (pageTable_ b))
                     (set_lru (removelast (lruList_ b)) (lruMap_ b ∖ {[i]}) b))
  end.

Lemma take_victim_free b i rest :
  pool_inv b -> freeList_ b = i :: rest ->
  pool_inv (set_free rest b) /\ detached (set_free rest b) i.
Proof.
  intros Hb Hf. pose proof (pi_free_nodup b Hb) as Hnd. rewrite Hf in Hnd.
  apply NoDup_cons in Hnd as [Hi Hnd].
  assert (Hsub : forall j, j ∈ rest -> j ∈ freeList_ b) by (intros; rewrite Hf; by right).
  assert (Hin : i ∈ freeList_ b) by (rewrite Hf; by left). split.
  - split; simpl; try apply Hb; [intros j Hj; by apply Hb, Hsub| |done].
    intros k j Hj. by apply (pi_free_unmapped b Hb), Hsub.
  - split; simpl; [done| | |].
    + rewrite (pi_lru b Hb). intros (k & fr & Hk & _). by apply (pi_free_unmapped b Hb k i).
    + intros k. by apply (pi_free_unmapped b Hb).
    + destruct (pi_free b Hb i Hin) as (fr & -> & _). done.
Qed.

Lemma take_victim_lru b i fr k :
  pool_inv b -> last (lruList_ b) = Some i -> frames_ b !! i = Some fr ->
  pageTable_ b !! k = Some i ->
  let b' := set_table (delete k (pageTable_ b))
              (set_lru (removelast (lruList_ b)) (lruMap_ b ∖ {[i]}) b) in
  pool_inv b' /\ detached b' i.
Proof.
  intros Hb Hl Hfr Hk b'. pose proof (last_removelast _ _ Hl) as Hsplit.
  pose proof (pi_lru_nodup b Hb) as Hnd. rewrite Hsplit in Hnd.
  apply NoDup_app in Hnd as (Hnd & Hdisj & _).
  assert (Hmem : forall j, j ∈ lruList_ b <-> j ∈ removelast (lruList_ b) \/ j = i).
  { intros j. rewrite Hsplit at 1. rewrite elem_of_app, list_elem_of_singleton. done. }
  assert (Hni : i ∉ removelast (lruList_ b)).
  { intros Hi. apply (Hdisj i Hi). by left. }
  assert (Hk' : forall k', k' <> k -> pageTable_ b !! k' <> Some i).
  { intros k' Hne Hki. apply Hne. by apply (table_frame_inj b k' k i). }
  split.
  - split; simpl; try apply Hb.
    + intros k' j [_ Hj]%lookup_delete_Some. by apply Hb.
    + intros k' j Hj [_ Hj']%lookup_delete_Some. by apply (pi_free_unmapped b Hb k' j).
    + done.
    + intros j. split.
      * intros Hj. destruct (proj1 (pi_lru b Hb j)) as (k' & fj & Hkj & Hfj & Hp);
          [apply Hmem; by left|].
        exists k', fj. rewrite lookup_delete_ne; [done|]. intros <-. simplify_eq. done.
      * intros (k' & fj & [Hne Hkj]%lookup_delete_Some & Hfj & Hp).
        destruct (proj1 (Hmem j)) as [?| ->]; [apply (pi_lru b Hb); by eauto|done|].
        by destruct (Hk' k').
    + intros j. rewrite elem_of_difference, elem_of_singleton, (pi_lrumap b Hb), Hmem.
      split; [tauto|]. intros Hj. split; [by left|]. intros ->. done.
  - split; simpl; [|done| |by rewrite Hfr].
    + intros Hi. by apply (pi_free_unmapped b Hb k i).
    + intros k' [Hne Hj]%lookup_delete_Some. by apply (Hk' k').
Qed.

(** Loading a page into a detached frame. *)
Lemma inv_install b i fr :
  pool_inv b -> detached b i -> pageTable_ b !! frame_key fr = None ->
  holds_page (frame_key fr) fr -> frame_ok fr -> 0 < fr_pinCount fr ->
  pool_inv (set_table (<[frame_key fr := i]> (pageTable_ b)) (set_frame i fr b)).
Proof.
  intros Hb [Hdf Hdl Hdt [fr0 Hi]] Hnone Hh Hok Hpin.
  pose proof (lookup_lt_Some _ _ _ Hi) as Hlt. split; simpl; try apply Hb.
  - intros k j [[<- <-]|[Hne Hk]]%lookup_insert_Some.
    + exists fr. split; [by apply list_lookup_insert_eq|done].
    + destruct (pi_table b Hb k j Hk) as (fj & Hj & Hhj). exists fj.
      rewrite list_lookup_insert_ne; [done|]. intros ->. by apply (Hdt k).
  - intros j Hj. destruct (pi_free b Hb j Hj) as (fj & Hfj & Hid). exists fj.
    rewrite list_lookup_insert_ne; [done|]. by intros ->.
  - intros k j Hj [[<- <-]|[Hne Hk]]%lookup_insert_Some; [done|].
    by apply (pi_free_unmapped b Hb k j).
  - intros j. rewrite (pi_lru b Hb j). split.
    + intros (k & fj & Hk & Hfj & Hp). exists k, fj.
      rewrite lookup_insert_ne by (intros <-; congruence).
      rewrite list_lookup_insert_ne; [done|]. intros ->. by apply (Hdt k).
    + intros (k & fj & Hk & Hj & Hp). apply frames_insert_Some in Hj.
      destruct Hj as [(<- & <- & _)|[Hne Hj]]; [lia|].
      apply lookup_insert_Some in Hk as [[_ ?]|[_ Hk]]; [done|]. eauto.
  - intros j fj Hj. apply frames_insert_Some in Hj as [(<- & <- & _)|[_ Hj]]; [done|].
    by apply (pi_frame b Hb j).
Qed.
