(* ===== verification/PoolStore.v ===== *)
(** * The buffer pool over the disk manager is a page store

    The simulation between the cache and its specification: a page's contents
    are the frame's when it is cached and the disk's when it is not, a frame
    that is not dirty agrees with the disk, and no operation of the pool
    changes the contents of a page. *)
From stdpp Require Import base numbers list strings gmap.
From Stdlib Require Import ZArith Lia.
From S2P Require Import Prelude Bytes Common Disk PageStore Pool.

#[local] Opaque Pool.makePageKey.

(** ** The logical state *)
Definition in_file (s : Store) (f p : Z) : Prop :=
  exists h, files_ (st_disk s) !! f = Some h /\ 0 <= p < pageCount h.

Definition cached (s : Store) (f p : Z) : option nat :=
  pageTable_ (st_pool s) !! Pool.makePageKey f p.

Definition page_of (s : Store) (f p : Z) : list byte :=
  match cached s f p with
  | Some i => Pool.frame_data i s
  | None => disk_page (st_disk s) f p
  end.

Definition pins_of (s : Store) (k : Z) : Z :=
  match pageTable_ (st_pool s) !! k with
  | Some i => match frames_ (st_pool s) !! i with Some fr => fr_pinCount fr | None => 0 end
  | None => 0
  end.

Record store_inv (s : Store) : Prop := {
  si_pool : pool_inv (st_pool s);
  si_disk : disk_ok (st_disk s);
  si_count : forall f h, files_ (st_disk s) !! f = Some h -> pageCount h <= INVALID_PAGE_ID;
  si_cached : forall k i fr,
    pageTable_ (st_pool s) !! k = Some i -> frames_ (st_pool s) !! i = Some fr ->
    in_file s (fr_fileId fr) (fr_pageNum fr) /\
    (fr_isDirty fr = false -> fr_data fr = disk_page (st_disk s) (fr_fileId fr) (fr_pageNum fr));
}.

(** Contents, file sizes and pins of other pages as before. *)
Definition same_contents (s s' : Store) : Prop :=
  forall f p, in_file s f p -> page_of s' f p = page_of s f p.
Definition same_files (s s' : Store) : Prop := same_handles (st_disk s) (st_disk s').

Lemma in_file_same s s' f p : same_files s s' -> in_file s' f p <-> in_file s f p.
Proof. intros [Hf _]. unfold in_file. by rewrite Hf. Qed.

Lemma in_file_valid s f p : store_inv s -> in_file s f p -> valid_page f p.
Proof.
  intros Hs (h & Hf & Hp). pose proof (do_next _ (si_disk s Hs) f h Hf) as Hn.
  pose proof (do_pos _ (si_disk s Hs)). pose proof (si_count s Hs f h Hf).
  unfold valid_page. lia.
Qed.

Lemma in_file_handle s f p :
  in_file s f p -> exists h, files_ (st_disk s) !! f = Some h /\ 0 <= p < pageCount h.
Proof. done. Qed.

Lemma valid_u32 f p : valid_page f p -> is_u32 p.
Proof. intros [_ H]. unfold INVALID_PAGE_ID in H. unfold_int. lia. Qed.

(** A cached page's frame. *)
Lemma cached_frame s f p i :
  store_inv s -> valid_page f p -> cached s f p = Some i ->
  exists fr, frames_ (st_pool s) !! i = Some fr /\ fr_fileId fr = f /\ fr_pageNum fr = p /\
    fr_pageId fr = p.
Proof.
  intros Hs Hv Hc. destruct (pi_table _ (si_pool s Hs) _ _ Hc) as (fr & Hfr & [Hk Hvf Hid]).
  destruct (valid_page_key f p _ _ Hv Hvf Hk) as [-> ->]. exists fr. split_and!; trivial.
Qed.

Lemma page_of_cached s f p i fr :
  cached s f p = Some i -> frames_ (st_pool s) !! i = Some fr -> page_of s f p = fr_data fr.
Proof. intros Hc Hf. unfold page_of, Pool.frame_data. by rewrite Hc, Hf. Qed.

(** ** Updating the frame of a cached page *)
Lemma si_update s i k fr fr' (g : BufferPool -> BufferPool) :
  store_inv s -> pageTable_ (st_pool s) !! k = Some i -> frames_ (st_pool s) !! i = Some fr ->
  same_page fr fr' ->
  (fr_isDirty fr' = false -> fr_isDirty fr = false /\ fr_data fr' = fr_data fr) ->
  let s' := mkStore (st_disk s) (g (set_frame i fr' (st_pool s))) in
  pool_inv (st_pool s') ->
  pageTable_ (st_pool s') = pageTable_ (st_pool s) ->
  frames_ (st_pool s') = <[i := fr']> (frames_ (st_pool s)) ->
  store_inv s'.
Proof.
  intros Hs Hk Hi Hsame Hclean s' Hinv Ht Hf. split; [done|apply Hs|apply Hs|].
  intros k' j fj Hk' Hj. rewrite Ht in Hk'. rewrite Hf in Hj.
  apply frames_insert_Some in Hj as [(<- & <- & _)|[Hne Hj]].
  - destruct (si_cached s Hs k i fr Hk Hi) as [Hin Hd].
    destruct Hsame as [-> -> _]. split; [done|]. intros Hf'.
    destruct (Hclean Hf') as [? ->]. auto.
  - by apply (si_cached s Hs k' j).
Qed.

Lemma page_of_update s i k fr fr' (g : BufferPool -> BufferPool) f p :
  store_inv s -> pageTable_ (st_pool s) !! k = Some i -> frames_ (st_pool s) !! i = Some fr ->
  let s' := mkStore (st_disk s) (g (set_frame i fr' (st_pool s))) in
  pageTable_ (st_pool s') = pageTable_ (st_pool s) ->
  frames_ (st_pool s') = <[i := fr']> (frames_ (st_pool s)) ->
  page_of s' f p = if decide (Pool.makePageKey f p = k) then fr_data fr' else page_of s f p.
Proof.
  intros Hs Hk Hi s' Ht Hf. unfold page_of, cached, Pool.frame_data. rewrite Ht, Hf.
  case_decide as E.
  - rewrite E, Hk. rewrite list_lookup_insert_eq; [done|]. by apply lookup_lt_Some in Hi.
  - destruct (pageTable_ (st_pool s) !! Pool.makePageKey f p) as [j|] eqn:Hj; [|done].
    rewrite list_lookup_insert_ne; [done|]. intros <-. apply E.
    by apply (table_frame_inj (st_pool s) _ _ i); [apply Hs|..].
Qed.

Lemma pins_of_update s i k fr fr' (g : BufferPool -> BufferPool) k' :
  store_inv s -> pageTable_ (st_pool s) !! k = Some i -> frames_ (st_pool s) !! i = Some fr ->
  let s' := mkStore (st_disk s) (g (set_frame i fr' (st_pool s))) in
  pageTable_ (st_pool s') = pageTable_ (st_pool s) ->
  frames_ (st_pool s') = <[i := fr']> (frames_ (st_pool s)) ->
  pins_of s' k' = if decide (k' = k) then fr_pinCount fr' else pins_of s k'.
Proof.
  intros Hs Hk Hi s' Ht Hf. unfold pins_of. rewrite Ht, Hf. case_decide as E.
  - subst k'. rewrite Hk. rewrite list_lookup_insert_eq; [done|]. by apply lookup_lt_Some in Hi.
  - destruct (pageTable_ (st_pool s) !! k') as [j|] eqn:Hj; [|done].
    rewrite list_lookup_insert_ne; [done|]. intros <-. apply E.
    by apply (table_frame_inj (st_pool s) _ _ i); [apply Hs|..].
Qed.

(** ** Fetching a page *)
Record fetched (s s' : Store) (f p : Z) (w : bool) (i : nat) : Prop := {
  ft_inv : store_inv s';
  ft_files : same_files s s';
  ft_pages : same_contents s s';
  ft_cached : cached s' f p = Some i;
  ft_dirty : w = true ->
    exists fr, frames_ (st_pool s') !! i = Some fr /\ fr_isDirty fr = true;
  ft_pins : forall k, pins_of s' k =
    if decide (k = Pool.makePageKey f p) then pins_of s k + 1 else pins_of s k;
  ft_leak : no_leak (st_pool s) -> no_leak (st_pool s');
  ft_size : length (frames_ (st_pool s')) = length (frames_ (st_pool s));
}.

Lemma inv_stats b h m : pool_inv b -> pool_inv (set_stats h m b).
Proof. intros Hb. split; simpl; apply Hb. Qed.

Lemma store_inv_stats s h m :
  store_inv s -> store_inv (mkStore (st_disk s) (set_stats h m (st_pool s))).
Proof.
  intros Hs. split; simpl; [apply inv_stats, Hs|apply Hs|apply Hs|].
  intros k i fr. simpl. apply (si_cached s Hs).
Qed.

Lemma same_files_refl s : same_files s s.
Proof. done. Qed.

Lemma pin_cached_runs s f p w i fr :
  store_inv s -> cached s f p = Some i -> frames_ (st_pool s) !! i = Some fr ->
  fr_pinCount fr < INT_MAX ->
  exists s', runs (Pool.pin_cached i w) s i s' /\ fetched s s' f p w i.
Proof.
  intros Hs Hc Hi Hpin.
  set (s1 := mkStore (st_disk s)
    (set_stats (u64 (cacheHits_ (st_pool s) + 1)) (cacheMisses_ (st_pool s)) (st_pool s))).
  set (fr' := mkFrame (fr_data fr) (fr_pageId fr) (fr_fileId fr) (fr_pageNum fr)
               (if w then true else fr_isDirty fr) (fr_pinCount fr + 1)).
  set (g := fun b => if bool_decide (i ∈ lruMap_ b)
      then set_lru (Pool.erase_node i (lruList_ b)) (lruMap_ b ∖ {[i]}) b else b).
  assert (Hs1 : store_inv s1) by by apply store_inv_stats.
  pose proof (pi_frame _ (si_pool s Hs) i fr Hi) as [Hpr Hlen].
  assert (Hsame : same_page fr fr') by done.
  exists (mkStore (st_disk s1) (g (set_frame i fr' (st_pool s1)))).
  assert (Ht : pageTable_ (g (set_frame i fr' (st_pool s1))) = pageTable_ (st_pool s))
    by (unfold g; by case_bool_decide).
  assert (Hf : frames_ (g (set_frame i fr' (st_pool s1))) = <[i := fr']> (frames_ (st_pool s)))
    by (unfold g; by case_bool_decide).
  split.
  - unfold Pool.pin_cached. eapply runs_bind; [done|].
    eapply (runs_bind _ _ _ fr s1).
    { unfold runs, Pool.frame_at, bind, get, lift. simpl. by rewrite Hi. }
    eapply (runs_bind _ _ _ (fr_pinCount fr + 1) s1).
    { unfold runs, lift, int_succ. by rewrite decide_True. }
    done.
  - split; cbn [st_pool st_disk].
    + apply (si_update s1 i (Pool.makePageKey f p) fr fr' g); try done.
      * destruct w; simpl; [done|]. done.
      * unfold g. apply (inv_pin (st_pool s1) (Pool.makePageKey f p) i fr fr'); try done;
          [apply Hs1|split; simpl; [lia|done]|simpl; lia].
    + done.
    + intros f' p' _. erewrite (page_of_update s1 i (Pool.makePageKey f p) fr fr' g); try done.
      case_decide as E; [|done]. rewrite (page_of_cached s f' p' i fr); [done| |done].
      unfold cached. by rewrite E.
    + unfold cached. cbn [st_pool]. by rewrite Ht.
    + intros ->. exists fr'. rewrite Hf. split; [|done].
      apply list_lookup_insert_eq. by apply lookup_lt_Some in Hi.
    + intros k. erewrite (pins_of_update s1 i (Pool.makePageKey f p) fr fr' g); try done.
      case_decide as E; [|done]. subst k. unfold pins_of. unfold cached in Hc. by rewrite Hc, Hi.
    + intros Hl j. rewrite Hf, length_insert. intros Hj. destruct (Hl j Hj) as [?|?].
      * left. unfold g. by case_bool_decide.
      * right. by rewrite Ht.
    + by rewrite Hf, length_insert.
Qed.

Lemma on_disk_runs {A} (m : M DiskManager A) d a d' b :
  runs m d a d' -> runs (on_disk m) (mkStore d b) a (mkStore d' b).
Proof. unfold runs, on_disk, zoom. simpl. by intros ->. Qed.

(** Writing a cached page back leaves it, and only it, as in its frame. *)
Lemma writeback_runs s k i fr b :
  store_inv s -> pageTable_ (st_pool s) !! k = Some i -> frames_ (st_pool s) !! i = Some fr ->
  exists d',
    runs (if fr_isDirty fr
          then on_disk (Disk.writePage (fr_fileId fr) (fr_pageNum fr) (fr_data fr))
          else ret tt) (mkStore (st_disk s) b) tt (mkStore d' b) /\
    same_handles (st_disk s) d' /\
    forall f p, is_u32 p -> disk_page d' f p =
      if decide (f = fr_fileId fr /\ p = fr_pageNum fr) then fr_data fr
      else disk_page (st_disk s) f p.
Proof.
  intros Hs Hk Hi. destruct (si_cached s Hs k i fr Hk Hi) as [(h & Hf & Hp) Hclean].
  destruct (fr_isDirty fr).
  - destruct (writePage_runs (st_disk s) (fr_fileId fr) (fr_pageNum fr) h (fr_data fr))
      as (d' & Hr & Hh & Hd); [apply Hs|done|done|by apply (pi_frame _ (si_pool s Hs) i)|].
    exists d'. split_and!; [by apply on_disk_runs|done|done].
  - exists (st_disk s). split_and!; [done|done|]. intros f p _.
    case_decide as E; [|done]. destruct E as [-> ->]. by rewrite Hclean.
Qed.

Record acquired (s s1 : Store) (i : nat) : Prop := {
  aq_inv : store_inv s1;
  aq_detached : detached (st_pool s1) i;
  aq_files : same_files s s1;
  aq_pages : same_contents s s1;
  aq_pins : forall k, pins_of s1 k = pins_of s k;
  aq_table : forall k, pageTable_ (st_pool s) !! k = None -> pageTable_ (st_pool s1) !! k = None;
  aq_keeps : forall k j, pageTable_ (st_pool s1) !! k = Some j <->
    pageTable_ (st_pool s) !! k = Some j /\ j <> i;
  aq_leak : no_leak (st_pool s) -> forall j, (j < length (frames_ (st_pool s)))%nat -> j <> i ->
    j ∈ freeList_ (st_pool s1) \/ exists k, pageTable_ (st_pool s1) !! k = Some j;
  aq_frames : frames_ (st_pool s1) = frames_ (st_pool s);
}.

Lemma acquire_free s i rest :
  store_inv s -> freeList_ (st_pool s) = i :: rest ->
  exists s1, runs Pool.acquire s i s1 /\ acquired s s1 i.
Proof.
  intros Hs Hf. destruct (take_victim_free _ i rest (si_pool s Hs) Hf) as [Hinv Hdet].
  destruct (pi_free _ (si_pool s Hs) i) as (fr & Hfr & Hid); [rewrite Hf; by left|].
  set (s1 := mkStore (st_disk s) (set_free rest (st_pool s))). exists s1. split.
  - unfold Pool.acquire. eapply (runs_bind _ _ _ i s1).
    { unfold runs, Pool.findVictimFrame, bind, get. by rewrite Hf. }
    eapply (runs_bind _ _ _ fr s1).
    { unfold runs, Pool.frame_at, bind, get, lift. simpl. by rewrite Hfr. }
    unfold Pool.evict. by rewrite Hid.
  - split; try done.
    + split; [done|apply Hs|apply Hs|]. intros k j fj. apply (si_cached s Hs).
    + intros k j. simpl. split; [|by intros [? _]]. intros Hk. split; [done|]. intros ->.
      apply (pi_free_unmapped _ (si_pool s Hs) k i); [rewrite Hf; by left|done].
    + intros Hl j Hj Hne. destruct (Hl j Hj) as [Hj'|?]; [left|by right].
      rewrite Hf in Hj'. apply elem_of_cons in Hj' as [?|?]; done.
Qed.

Lemma acquire_lru s i :
  store_inv s -> freeList_ (st_pool s) = [] -> last (lruList_ (st_pool s)) = Some i ->
  exists s1, runs Pool.acquire s i s1 /\ acquired s s1 i.
Proof.
  intros Hs Hf Hl. pose proof (si_pool s Hs) as Hp.
  assert (Hmem : i ∈ lruList_ (st_pool s)).
  { rewrite (last_removelast _ _ Hl). apply elem_of_app. right. by left. }
  apply (pi_lru _ Hp) in Hmem as (k & fr & Hk & Hfr & Hpin).
  destruct (pi_table _ Hp k i Hk) as (fr0 & Hfr0 & [Hkey [Hv1 Hv2] Hid]).
  assert (fr0 = fr) as -> by congruence. subst k. clear Hfr0.
  destruct (take_victim_lru _ i fr _ Hp Hl Hfr Hk) as [Hinv Hdet].
  set (b' := set_table _ _) in *.
  destruct (writeback_runs s _ i fr b' Hs Hk Hfr) as (d' & Hwb & Hh & Hd).
  exists (mkStore d' b'). split.
  - unfold Pool.acquire. eapply (runs_bind _ _ _ i).
    { unfold runs, Pool.findVictimFrame, bind, get. by rewrite Hf, Hl. }
    eapply (runs_bind _ _ _ fr).
    { unfold runs, Pool.frame_at, bind, get, lift. simpl. by rewrite Hfr. }
    eapply runs_bind; [|done]. unfold Pool.evict.
    rewrite (proj2 (Z.leb_le 0 _)) by lia.
    rewrite Hid, (proj2 (Z.eqb_neq _ _)) by lia. simpl. eapply runs_bind; [done|]. exact Hwb.
  - assert (Hother : forall f p, valid_page f p -> Pool.makePageKey f p <> frame_key fr ->
      disk_page d' f p = disk_page (st_disk s) f p).
    { intros f p Hv Hne. rewrite Hd by (by apply (valid_u32 f)).
      rewrite decide_False; [done|]. intros [-> ->]. by apply Hne. }
    split; try done.
    + split; [done|by apply (disk_ok_same (st_disk s)); [|apply Hs]| |].
      * simpl. destruct Hh as [-> _]. apply Hs.
      * simpl. intros k' j fj [Hne Hj]%lookup_delete_Some Hfj.
        destruct (si_cached s Hs k' j fj Hj Hfj) as [Hin Hc]. split.
        { revert Hin. by apply in_file_same. }
        intros Hdirty. rewrite Hother; [by apply Hc|by apply (in_file_valid s)|].
        destruct (pi_table _ Hp k' j Hj) as (fj' & Hfj' & [Hkj _ _]). simplify_eq.
        unfold frame_key in *. congruence.
    + intros f p Hin. pose proof (in_file_valid s f p Hs Hin) as Hv.
      unfold page_of, cached. simpl. destruct (decide (frame_key fr = Pool.makePageKey f p)) as [E|E].
      * rewrite <- E, lookup_delete_eq, Hk. unfold Pool.frame_data. rewrite Hfr.
        rewrite Hd by (by apply (valid_u32 f)). apply valid_page_key in E as [-> ->]; [|done|done].
        by rewrite decide_True.
      * rewrite lookup_delete_ne by done.
        destruct (pageTable_ (st_pool s) !! Pool.makePageKey f p); [done|].
        by apply Hother, not_eq_sym.
    + intros k. unfold pins_of. simpl. destruct (decide (frame_key fr = k)) as [<-|Hne].
      * by rewrite lookup_delete_eq, Hk, Hfr.
      * by rewrite lookup_delete_ne.
    + intros k Hnone. simpl. apply lookup_delete_None. by right.
    + intros k j. simpl. rewrite lookup_delete_Some. split.
      * intros [Hne Hj]. split; [done|]. intros ->. apply Hne.
        by apply (table_frame_inj (st_pool s) _ _ i).
      * intros [Hj Hne]. split; [|done]. intros <-. congruence.
    + intros Hleak j Hj Hne. destruct (Hleak j Hj) as [?|[k Hkj]]; [by left|].
      right. exists k. simpl. rewrite lookup_delete_ne; [done|]. intros <-. congruence.
Qed.

(** Some frame can be taken: a free one, or one that nobody has pinned. *)
Definition has_victim (b : BufferPool) : Prop := freeList_ b <> [] \/ lruList_ b <> [].

Lemma acquire_runs s :
  store_inv s -> has_victim (st_pool s) ->
  exists i s1, runs Pool.acquire s i s1 /\ acquired s s1 i.
Proof.
  intros Hs Hv. destruct (freeList_ (st_pool s)) as [|i rest] eqn:Hf.
  - destruct Hv as [Hv|Hv]; [done|].
    destruct (last (lruList_ (st_pool s))) as [i|] eqn:Hl.
    + exists i. by apply acquire_lru.
    + by apply last_None in Hl.
  - exists i. by apply (acquire_free s i rest).
Qed.

Lemma load_runs s0 f p w :
  store_inv s0 -> in_file s0 f p -> cached s0 f p = None -> has_victim (st_pool s0) ->
  exists i s', runs (Pool.load f p w) s0 i s' /\ fetched s0 s' f p w i.
Proof.
  intros Hs0 Hin Hc0 Hv.
  set (s := mkStore (st_disk s0) (set_stats (cacheHits_ (st_pool s0))
              (u64 (cacheMisses_ (st_pool s0) + 1)) (st_pool s0))).
  assert (Hs : store_inv s) by by apply store_inv_stats.
  destruct (acquire_runs s Hs Hv) as (i & [d1 b1] & Hrun & [Ha Hdet Haf Hap Hapins Hat _ Hal Hafr]).
  assert (Hin1 : in_file (mkStore d1 b1) f p) by (by apply (in_file_same s)).
  destruct (in_file_handle _ _ _ Hin1) as (h & Hh & Hp). simpl in *.
  pose proof (in_file_valid s f p Hs Hin) as Hvp.
  set (bytes := disk_page d1 f p). set (k := Pool.makePageKey f p).
  set (fr := mkFrame bytes p f p w 1).
  set (b2 := set_table (<[k := i]> (pageTable_ b1)) (set_frame i fr b1)).
  assert (Hnone : pageTable_ b1 !! k = None) by (by apply Hat).
  assert (Hlt : (i < length (frames_ b1))%nat).
  { destruct (dt_frame _ _ Hdet) as [x Hx]. by apply lookup_lt_Some in Hx. }
  assert (Hb2 : pool_inv b2).
  { apply (inv_install b1 i fr); try done; [apply Ha|]. split; simpl; [unfold INT_MAX; lia|].
    apply length_disk_page. }
  assert (Hoth : forall k' j, pageTable_ b1 !! k' = Some j -> i <> j).
  { intros k' j Hj <-. by apply (dt_table _ _ Hdet k'). }
  exists i, (mkStore d1 b2). split.
  - unfold Pool.load. eapply runs_bind; [done|]. eapply runs_bind; [exact Hrun|].
    eapply (runs_bind _ _ _ bytes (mkStore d1 b1)); [|done].
    apply on_disk_runs, (readPage_runs d1 f p h); [apply Ha|done].
  - split; simpl; try done.
    + split; [done|apply Ha|apply Ha|]. simpl. intros k' j fj Hk' Hj.
      apply lookup_insert_Some in Hk' as [[<- <-]|[Hne Hk']].
      * rewrite list_lookup_insert_eq in Hj by done. simplify_eq. done.
      * rewrite list_lookup_insert_ne in Hj by eauto. by apply (si_cached _ Ha k' j).
    + intros f' p' Hin'. change (page_of s0 f' p') with (page_of s f' p').
      rewrite <- (Hap f' p' Hin'). unfold page_of, cached. simpl.
      destruct (decide (k = Pool.makePageKey f' p')) as [E|E].
      * apply valid_page_key in E as [<- <-]; [|done|by apply (in_file_valid s)].
        fold k. rewrite lookup_insert_eq, Hnone. unfold Pool.frame_data. simpl.
        by rewrite list_lookup_insert_eq.
      * rewrite lookup_insert_ne by done.
        destruct (pageTable_ b1 !! Pool.makePageKey f' p') as [j|] eqn:Hj; [|done].
        unfold Pool.frame_data. simpl. by rewrite list_lookup_insert_ne by eauto.
    + unfold cached. simpl. apply lookup_insert_eq.
    + intros ->. exists fr. split; [by apply list_lookup_insert_eq|done].
    + intros k'. change (pins_of s0 k') with (pins_of s k').
      rewrite <- (Hapins k'). unfold pins_of. simpl. case_decide as E.
      * subst k'. fold k. rewrite lookup_insert_eq, Hnone. by rewrite list_lookup_insert_eq.
      * rewrite lookup_insert_ne by (intros <-; by apply E).
        destruct (pageTable_ b1 !! k') as [j|] eqn:Hj; [|done].
        by rewrite list_lookup_insert_ne by eauto.
    + intros Hleak j Hj. unfold b2 in Hj. simpl in Hj. rewrite length_insert in Hj.
      destruct (decide (j = i)) as [->|Hne]; [right; exists k; simpl; apply lookup_insert_eq|].
      destruct (Hal Hleak j) as [?|[k' Hk']]; [by rewrite <- Hafr|done|by left|].
      right. exists k'. simpl. rewrite lookup_insert_ne; [done|]. intros <-. congruence.
    + by rewrite length_insert, Hafr.
Qed.

(** [fetchPage]: a hit needs room in the pin count, a miss a victim. *)
Lemma fetchPage_runs s f p w :
  store_inv s -> in_file s f p -> pins_of s (Pool.makePageKey f p) < INT_MAX ->
  (cached s f p = None -> has_victim (st_pool s)) ->
  exists i s', runs (Pool.fetchPage f p w) s i s' /\ fetched s s' f p w i.
Proof.
  intros Hs Hin Hpin Hv. pose proof (in_file_valid s f p Hs Hin) as Hvp.
  destruct (cached s f p) as [i|] eqn:Hc.
  - destruct (cached_frame s f p i Hs Hvp Hc) as (fr & Hfr & _).
    unfold pins_of in Hpin. unfold cached in Hc. rewrite Hc, Hfr in Hpin.
    destruct (pin_cached_runs s f p w i fr Hs Hc Hfr Hpin) as (s' & Hr & Hft).
    exists i, s'. split; [|done]. eapply runs_bind; [done|]. by rewrite Hc.
  - destruct (load_runs s f p w Hs Hin Hc (Hv eq_refl)) as (i & s' & Hr & Hft).
    exists i, s'. split; [|done]. eapply runs_bind; [done|]. unfold cached in Hc. by rewrite Hc.
Qed.

(** ** Operations on a cached page *)

(** What an operation on frame [i], which holds the page with key [k], does:
    nothing but replace the frame by [fr'] (and keep the lists in order). *)
Record updated (s s' : Store) (k : Z) (i : nat) (fr' : PageFrame) : Prop := {
  up_inv : store_inv s';
  up_files : same_files s s';
  up_page : forall f p, in_file s f p -> page_of s' f p =
    if decide (Pool.makePageKey f p = k) then fr_data fr' else page_of s f p;
  up_pins : forall k', pins_of s' k' = if decide (k' = k) then fr_pinCount fr' else pins_of s k';
  up_table : pageTable_ (st_pool s') = pageTable_ (st_pool s);
  up_free : freeList_ (st_pool s') = freeList_ (st_pool s);
  up_frames : frames_ (st_pool s') = <[i := fr']> (frames_ (st_pool s));
}.

Lemma updated_leak s s' k i fr' :
  updated s s' k i fr' -> no_leak (st_pool s) -> no_leak (st_pool s').
Proof.
  intros [_ _ _ _ Ht Hfl Hfr] Hl j. rewrite Hfr, length_insert, Hfl, Ht. apply Hl.
Qed.

Lemma updated_size s s' k i fr' :
  updated s s' k i fr' -> length (frames_ (st_pool s')) = length (frames_ (st_pool s)).
Proof. intros H. by rewrite (up_frames _ _ _ _ _ H), length_insert. Qed.

Lemma update_intro s k i fr fr' (g : BufferPool -> BufferPool) :
  store_inv s -> pageTable_ (st_pool s) !! k = Some i -> frames_ (st_pool s) !! i = Some fr ->
  same_page fr fr' ->
  (fr_isDirty fr' = false -> fr_isDirty fr = false /\ fr_data fr' = fr_data fr) ->
  pool_inv (g (set_frame i fr' (st_pool s))) ->
  (forall b, pageTable_ (g b) = pageTable_ b /\ freeList_ (g b) = freeList_ b /\
             frames_ (g b) = frames_ b) ->
  updated s (mkStore (st_disk s) (g (set_frame i fr' (st_pool s)))) k i fr'.
Proof.
  intros Hs Hk Hi Hsame Hclean Hinv Hg. destruct (Hg (set_frame i fr' (st_pool s))) as (Ht & Hfl & Hfr).
  split; simpl; try done.
  - by apply (si_update s i k fr fr' g).
  - intros f p _. by apply (page_of_update s i k fr fr' g).
  - intros k'. by apply (pins_of_update s i k fr fr' g).
Qed.

Lemma unpinPage_runs s f p dirty i fr :
  store_inv s -> cached s f p = Some i -> frames_ (st_pool s) !! i = Some fr ->
  0 < fr_pinCount fr ->
  exists s' fr', runs (Pool.unpinPage f p dirty) s tt s' /\
    updated s s' (Pool.makePageKey f p) i fr' /\ fr_data fr' = fr_data fr /\
    fr_pinCount fr' = fr_pinCount fr - 1.
Proof.
  intros Hs Hc Hi Hpin. pose proof (pi_frame _ (si_pool s Hs) i fr Hi) as [Hpr Hlen].
  set (fr' := mkFrame (fr_data fr) (fr_pageId fr) (fr_fileId fr) (fr_pageNum fr)
               (if dirty then true else fr_isDirty fr) (fr_pinCount fr - 1)).
  set (g := fun b => if fr_pinCount fr - 1 =? 0
      then set_lru (i :: lruList_ b) ({[i]} ∪ lruMap_ b) b else b).
  assert (Hsame : same_page fr fr') by done.
  assert (Hok : frame_ok fr') by (split; simpl; [lia|done]).
  exists (mkStore (st_disk s) (g (set_frame i fr' (st_pool s)))), fr'. split_and!.
  - unfold Pool.unpinPage. eapply runs_bind; [done|]. unfold cached in Hc. rewrite Hc.
    eapply (runs_bind _ _ _ fr s).
    { unfold runs, Pool.frame_at, bind, get, lift. by rewrite Hi. }
    rewrite (proj2 (Z.leb_gt _ 0)) by lia. eapply runs_bind; [done|].
    unfold g. by destruct (fr_pinCount fr - 1 =? 0).
  - apply (update_intro s _ i fr fr' g); try done.
    + destruct dirty; simpl; [done|]. done.
    + unfold g. destruct (Z.eqb_spec (fr_pinCount fr - 1) 0) as [E|E].
      * by apply (inv_unpin_last (st_pool s) (Pool.makePageKey f p) i fr fr'); [apply Hs|..].
      * apply (inv_update_frame (st_pool s) i fr fr'); try done; [apply Hs|]. simpl. lia.
    + intros b. unfold g. by destruct (fr_pinCount fr - 1 =? 0).
  - done.
  - done.
Qed.

Lemma write_data_updated s f p i fr bs :
  store_inv s -> cached s f p = Some i -> frames_ (st_pool s) !! i = Some fr ->
  fr_isDirty fr = true -> length bs = PAGE_BYTES ->
  updated s (Pool.write_data i bs s) (Pool.makePageKey f p) i
    (mkFrame bs (fr_pageId fr) (fr_fileId fr) (fr_pageNum fr) (fr_isDirty fr) (fr_pinCount fr)).
Proof.
  intros Hs Hc Hi Hd Hlen. unfold Pool.write_data. rewrite Hi.
  apply (update_intro s _ i fr _ (fun b => b)); try done; simpl; [by rewrite Hd|].
  apply (inv_update_frame (st_pool s) i fr); try done; [apply Hs|].
  split; [exact (proj1 (pi_frame _ (si_pool s Hs) i fr Hi))|done].
Qed.

(** ** Flushing *)
Record flushed (s s' : Store) : Prop := {
  fl_inv : store_inv s';
  fl_files : same_files s s';
  fl_pages : same_contents s s';
  fl_pins : forall k, pins_of s' k = pins_of s k;
  fl_table : pageTable_ (st_pool s') = pageTable_ (st_pool s);
  fl_free : freeList_ (st_pool s') = freeList_ (st_pool s);
  fl_size : length (frames_ (st_pool s')) = length (frames_ (st_pool s));
  fl_frames : forall i fr, frames_ (st_pool s) !! i = Some fr ->
    exists fr', frames_ (st_pool s') !! i = Some fr' /\
      (fr' = fr \/ fr' = Pool.clean fr) /\ (fr_isDirty fr = false -> fr_isDirty fr' = false);
}.

Lemma flushed_refl s : store_inv s -> flushed s s.
Proof. intros Hs. split; try done. intros i fr Hi. exists fr. auto. Qed.

Lemma flushed_trans s1 s2 s3 : flushed s1 s2 -> flushed s2 s3 -> flushed s1 s3.
Proof.
  intros [Ha Hf1 Hp1 Hn1 Ht1 Hfr1 Hsz1 Hr1] [Hb Hf2 Hp2 Hn2 Ht2 Hfr2 Hsz2 Hr2]. split; [done|..].
  - by eapply same_handles_trans.
  - intros f p Hin. rewrite Hp2; [by apply Hp1|]. by apply (in_file_same s1).
  - intros k. by rewrite Hn2, Hn1.
  - congruence.
  - congruence.
  - congruence.
  - intros i fr Hi. destruct (Hr1 i fr Hi) as (fr1 & Hi1 & Hc1 & Hd1).
    destruct (Hr2 i fr1 Hi1) as (fr2 & Hi2 & Hc2 & Hd2). exists fr2.
    split_and!; [done| |auto]. destruct Hc1 as [->| ->], Hc2 as [->| ->]; auto.
Qed.

Lemma flush_frame_runs s k i fr :
  store_inv s -> pageTable_ (st_pool s) !! k = Some i -> frames_ (st_pool s) !! i = Some fr ->
  exists s', runs (Pool.flush_frame i) s tt s' /\ flushed s s' /\
    exists fr', frames_ (st_pool s') !! i = Some fr' /\ fr_isDirty fr' = false.
Proof.
  intros Hs Hk Hi. pose proof (si_pool s Hs) as Hp.
  destruct (pi_table _ Hp k i Hk) as (fr0 & Hfr0 & [Hkey [Hv1 Hv2] _]).
  assert (fr0 = fr) as -> by congruence. clear Hfr0.
  destruct (fr_isDirty fr) eqn:Hd.
  2:{ exists s. split; [|split; [by apply flushed_refl|by exists fr]].
      unfold Pool.flush_frame. eapply (runs_bind _ _ _ fr s).
      { unfold runs, Pool.frame_at, bind, get, lift. by rewrite Hi. }
      by rewrite Hd. }
  destruct (writeback_runs s k i fr (st_pool s) Hs Hk Hi) as (d' & Hwb & Hh & Hdp).
  rewrite Hd in Hwb. pose proof (lookup_lt_Some _ _ _ Hi) as Hlt.
  assert (Hinv : pool_inv (set_frame i (Pool.clean fr) (st_pool s))).
  { apply (inv_update_frame (st_pool s) i fr); try done. exact (pi_frame _ Hp i fr Hi). }
  assert (Hsame : forall k' j fj, pageTable_ (st_pool s) !! k' = Some j ->
    frames_ (st_pool s) !! j = Some fj -> k' <> k ->
    disk_page d' (fr_fileId fj) (fr_pageNum fj) =
      disk_page (st_disk s) (fr_fileId fj) (fr_pageNum fj)).
  { intros k' j fj Hk' Hj Hne. destruct (pi_table _ Hp k' j Hk') as (fj' & Hj' & [Hkj Hvj _]).
    simplify_eq. rewrite Hdp by (by eapply valid_u32).
    rewrite decide_False; [done|]. intros [E1 E2]. apply Hne. unfold frame_key. by rewrite E1, E2. }
  exists (mkStore d' (set_frame i (Pool.clean fr) (st_pool s))). split_and!.
  - unfold Pool.flush_frame. eapply (runs_bind _ _ _ fr s).
    { unfold runs, Pool.frame_at, bind, get, lift. by rewrite Hi. }
    rewrite Hd, (proj2 (Z.leb_le 0 _)) by lia. simpl.
    destruct s. eapply runs_bind; [exact Hwb|done].
  - split; simpl; try done.
    + split; [done|by apply (disk_ok_same (st_disk s)); [|apply Hs]| |].
      * simpl. destruct Hh as [-> _]. apply Hs.
      * simpl. intros k' j fj Hk' Hj. apply frames_insert_Some in Hj as [(<- & <- & _)|[Hne Hj]].
        -- destruct (si_cached s Hs k i fr Hk Hi) as [Hin _].
           split; [revert Hin; by apply in_file_same|]. intros _. simpl.
           rewrite Hdp by (by apply (valid_u32 (fr_fileId fr))). by rewrite decide_True.
        -- destruct (si_cached s Hs k' j fj Hk' Hj) as [Hin Hc].
           split; [revert Hin; by apply in_file_same|]. intros Hcl.
           rewrite (Hsame k' j fj); [auto|done|done|]. intros ->. congruence.
    + intros f p Hin. pose proof (in_file_valid s f p Hs Hin) as Hv.
      unfold page_of, cached, Pool.frame_data. simpl.
      destruct (pageTable_ (st_pool s) !! Pool.makePageKey f p) as [j|] eqn:Hj.
      * destruct (decide (i = j)) as [<-|Hne]; [|by rewrite list_lookup_insert_ne].
        by rewrite list_lookup_insert_eq, Hi.
      * rewrite Hdp by (by apply (valid_u32 f)). rewrite decide_False; [done|].
        intros [-> ->]. unfold frame_key in Hkey. congruence.
    + intros k'. unfold pins_of. simpl. destruct (pageTable_ (st_pool s) !! k') as [j|]; [|done].
      destruct (decide (i = j)) as [<-|Hne]; [|by rewrite list_lookup_insert_ne].
      by rewrite list_lookup_insert_eq, Hi.
    + apply length_insert.
    + intros j fj Hj. destruct (decide (i = j)) as [<-|Hne].
      * exists (Pool.clean fr). rewrite list_lookup_insert_eq by done. simplify_eq. auto.
      * exists fj. rewrite list_lookup_insert_ne by done. auto.
  - exists (Pool.clean fr). split; [by apply list_lookup_insert_eq|done].
Qed.

Lemma flush_entries_runs entries : forall s,
  store_inv s -> Forall (fun e => pageTable_ (st_pool s) !! e.1 = Some e.2) entries ->
  exists s', runs (Pool.flush_entries entries) s tt s' /\ flushed s s' /\
    Forall (fun e => exists fr, frames_ (st_pool s') !! e.2 = Some fr /\ fr_isDirty fr = false)
           entries.
Proof.
  induction entries as [|[k i] entries IH]; intros s Hs Hall.
  - exists s. split_and!; [done|by apply flushed_refl|constructor].
  - apply Forall_cons in Hall as [Hk Hall]. simpl in Hk.
    destruct (pi_table _ (si_pool s Hs) k i Hk) as (fr & Hi & _).
    destruct (flush_frame_runs s k i fr Hs Hk Hi) as (s1 & Hr1 & Hf1 & fr1 & Hi1 & Hd1).
    destruct (IH s1) as (s2 & Hr2 & Hf2 & Hc2); [apply Hf1|by rewrite (fl_table _ _ Hf1)|].
    exists s2. split_and!; [by eapply runs_bind|by apply (flushed_trans _ s1)|].
    constructor; [|done]. simpl. destruct (fl_frames _ _ Hf2 i fr1 Hi1) as (fr2 & ? & _ & ?).
    exists fr2. auto.
Qed.

(** After [flushAllPages] the files hold the contents of every page. *)
Lemma flushAllPages_runs order s :
  store_inv s -> (forall t, order t ≡ₚ map_to_list t) ->
  exists s', runs (Pool.flushAllPages order) s tt s' /\ flushed s s' /\
    forall f p, in_file s f p -> disk_page (st_disk s') f p = page_of s f p.
Proof.
  intros Hs Hord. set (t := pageTable_ (st_pool s)).
  destruct (flush_entries_runs (order t) s) as (s' & Hr & Hf & Hc); [done| |].
  { apply Forall_forall. intros [k i] He. rewrite (Hord t) in He.
    by apply elem_of_map_to_list in He. }
  exists s'. split_and!; [by eapply runs_bind|done|].
  intros f p Hin. rewrite <- (fl_pages _ _ Hf f p Hin).
  assert (Hin' : in_file s' f p) by (by apply (in_file_same s); [apply Hf|]).
  pose proof (in_file_valid s' f p (fl_inv _ _ Hf) Hin') as Hv.
  unfold page_of. destruct (cached s' f p) as [i|] eqn:Hci; [|done].
  destruct (cached_frame s' f p i (fl_inv _ _ Hf) Hv Hci) as (fr & Hfr & Hff & Hfp & _).
  unfold Pool.frame_data. rewrite Hfr.
  rewrite Forall_forall in Hc. destruct (Hc (Pool.makePageKey f p, i)) as (fr' & Hfr' & Hd).
  { rewrite (Hord t). apply elem_of_map_to_list. unfold cached in Hci.
    by rewrite (fl_table _ _ Hf) in Hci. }
  simpl in Hfr'. assert (fr' = fr) as -> by congruence.
  destruct (si_cached s' (fl_inv _ _ Hf) _ i fr Hci Hfr) as [_ Hcl].
  rewrite Hcl by done. by rewrite Hff, Hfp.
Qed.

(** ** New pages and new files *)
Lemma store_inv_disk s d' :
  store_inv s -> disk_ok d' ->
  (forall f h, files_ d' !! f = Some h -> pageCount h <= INVALID_PAGE_ID) ->
  (forall f p, in_file s f p -> in_file (mkStore d' (st_pool s)) f p /\
     disk_page d' f p = disk_page (st_disk s) f p) ->
  store_inv (mkStore d' (st_pool s)).
Proof.
  intros Hs Hd Hc Hp. split; simpl; [apply Hs|done|done|].
  intros k i fr Hk Hi. destruct (si_cached s Hs k i fr Hk Hi) as [Hin Hcl].
  destruct (Hp _ _ Hin) as [? ->]. auto.
Qed.

Lemma not_cached s f p :
  store_inv s -> valid_page f p -> ~ in_file s f p -> cached s f p = None.
Proof.
  intros Hs Hv Hnot. destruct (cached s f p) as [i|] eqn:Hc; [|done].
  destruct (cached_frame s f p i Hs Hv Hc) as (fr & Hfr & <- & <- & _).
  destruct (si_cached s Hs _ i fr Hc Hfr) as [Hin _]. contradiction.
Qed.

Lemma page_of_disk s d' f p :
  store_inv s -> disk_page d' f p = disk_page (st_disk s) f p ->
  page_of (mkStore d' (st_pool s)) f p = page_of s f p.
Proof. intros _ H. unfold page_of, cached. simpl. by rewrite H. Qed.

Lemma allocateNewPage_store s f h :
  store_inv s -> files_ (st_disk s) !! f = Some h -> pageCount h < INVALID_PAGE_ID ->
  exists s', runs (on_disk (Disk.allocateNewPage f)) s (pageCount h) s' /\ store_inv s' /\
    st_pool s' = st_pool s /\
    files_ (st_disk s') =
      <[f := mkHandle (fileName h) (pageCount h + 1) true]> (files_ (st_disk s)) /\
    page_of s' f (pageCount h) = zero_page /\ same_contents s s'.
Proof.
  intros Hs Hf Hc. pose proof (do_count _ (si_disk s Hs) f h Hf) as Hc0.
  unfold INVALID_PAGE_ID in Hc.
  destruct (allocateNewPage_runs (st_disk s) f h) as (d' & Hr & Hok & Hfiles & Hn & Hp);
    [apply Hs|done|unfold is_u32 in *; lia|].
  assert (Hold : forall f' p', in_file s f' p' ->
    disk_page d' f' p' = disk_page (st_disk s) f' p').
  { intros f' p' Hin. rewrite Hp by (eapply valid_u32, in_file_valid; eassumption).
    rewrite decide_False; [done|]. intros [-> ->]. destruct Hin as (h' & ? & ?).
    simplify_eq. lia. }
  assert (Hinv : store_inv (mkStore d' (st_pool s))).
  { apply store_inv_disk; [done|done| |].
    - intros f' h'. rewrite Hfiles. intros [[<- <-]|[_ H]]%lookup_insert_Some.
      + simpl. unfold INVALID_PAGE_ID. lia.
      + by apply (si_count s Hs f').
    - intros f' p' Hin. split; [|by apply Hold]. destruct Hin as (h' & Hf' & Hp').
      unfold in_file. simpl. rewrite Hfiles. destruct (decide (f = f')) as [<-|Hne].
      + eexists. rewrite lookup_insert_eq. split; [done|]. simpl. simplify_eq. lia.
      + exists h'. by rewrite lookup_insert_ne. }
  exists (mkStore d' (st_pool s)). split_and!; [|done|done|done| |].
  - destruct s. by apply on_disk_runs.
  - assert (Hv : valid_page f (pageCount h)).
    { apply (in_file_valid _ _ _ Hinv). unfold in_file. simpl. rewrite Hfiles, lookup_insert_eq.
      eexists. split; [done|]. simpl. unfold is_u32 in *. lia. }
    unfold page_of. change (cached (mkStore d' (st_pool s))) with (cached s).
    rewrite not_cached; [|done|done|]; simpl.
    + rewrite Hp by done. by rewrite decide_True.
    + intros (h' & ? & ?). simplify_eq. lia.
  - intros f' p' Hin. apply page_of_disk; auto.
Qed.

Definition creatable (s : Store) (name : string) : Prop :=
  can_open (disk_fs (st_disk s)) (Disk.full_path name) = true /\
  (forall i h, files_ (st_disk s) !! i = Some h -> fileName h <> Disk.full_path name) /\
  nextFileId_ (st_disk s) < INT_MAX.

Lemma createFile_store s name :
  store_inv s -> creatable s name ->
  exists s', let f := nextFileId_ (st_disk s) in
    runs (on_disk (Disk.createFile name)) s f s' /\ store_inv s' /\ st_pool s' = st_pool s /\
    files_ (st_disk s') = <[f := mkHandle (Disk.full_path name) 0 true]> (files_ (st_disk s)) /\
    files_ (st_disk s) !! f = None /\ same_contents s s'.
Proof.
  intros Hs (Hopen & Hpath & Hnext).
  destruct (createFile_runs (st_disk s) name) as (d' & Hr & Hok & Hfiles & _ & Hp);
    [apply Hs|done..|].
  assert (Hnone : files_ (st_disk s) !! nextFileId_ (st_disk s) = None).
  { destruct (files_ (st_disk s) !! nextFileId_ (st_disk s)) as [h|] eqn:E; [|done].
    apply (do_next _ (si_disk s Hs)) in E. lia. }
  assert (Hin' : forall f p, in_file s f p -> in_file (mkStore d' (st_pool s)) f p /\
     disk_page d' f p = disk_page (st_disk s) f p).
  { intros f p (h & Hf & Hph). assert (f <> nextFileId_ (st_disk s)) by congruence.
    split; [|by apply Hp]. exists h. simpl. by rewrite Hfiles, lookup_insert_ne. }
  exists (mkStore d' (st_pool s)). split_and!; try done.
  - destruct s. by apply on_disk_runs.
  - apply store_inv_disk; try done. intros f h. rewrite Hfiles.
    intros [[<- <-]|[_ H]]%lookup_insert_Some; [done|]. by apply (si_count s Hs f).
  - intros f p Hin. apply page_of_disk; [done|]. by apply Hin'.
Qed.
