(* ===== verification/PoolSpec.v ===== *)
(** * The buffer pool meets its interface

    [Store], the pool with its disk manager, is an instance of [PageStore], and
    its laws follow from the simulation of PoolStore. *)
From stdpp Require Import base numbers list strings gmap.
From Stdlib Require Import ZArith Lia.
From S2P Require Import Prelude Bytes Common Disk PageStore Pool PoolStore.

#[local] Opaque Pool.makePageKey.

(** ** The store as an instance of the interface *)
Record store_ok (s : Store) : Prop := {
  so_inv : store_inv s;
  so_leak : no_leak (st_pool s);
  so_size : (0 < length (frames_ (st_pool s)))%nat;
}.

Definition store_idle (s : Store) : Prop := store_ok s /\ forall k, pins_of s k = 0.

Record store_held (s : Store) (f p : Z) (i : nat) (w : bool) : Prop := {
  sh_ok : store_ok s;
  sh_in : in_file s f p;
  sh_cached : cached s f p = Some i;
  sh_dirty : w = true -> exists fr, frames_ (st_pool s) !! i = Some fr /\ fr_isDirty fr = true;
  sh_pins : forall k, pins_of s k = if decide (k = Pool.makePageKey f p) then 1 else 0;
}.

#[export] Instance Store_PageStore : PageStore Store := {
  ps_fetch := Pool.fetchPage;
  ps_unpin := Pool.unpinPage;
  ps_alloc f := on_disk (Disk.allocateNewPage f);
  ps_create name := on_disk (Disk.createFile name);
  ps_open name := on_disk (Disk.openFile name);
  ps_count f s := Disk.getFilePageCount f (st_disk s);
  ps_data := Pool.frame_data;
  ps_write := Pool.write_data;
}.

Definition is_file (s : Store) (f : Z) : Prop := is_Some (files_ (st_disk s) !! f).

Lemma in_file_count s f p :
  in_file s f p <-> is_file s f /\ 0 <= p < Disk.getFilePageCount f (st_disk s).
Proof.
  unfold in_file, is_file, Disk.getFilePageCount. split.
  - intros (h & -> & ?). by eauto.
  - intros [[h Hh] Hp]. rewrite Hh in Hp. by exists h.
Qed.

Lemma same_files_count s s' f :
  same_files s s' -> (is_file s' f <-> is_file s f) /\
    Disk.getFilePageCount f (st_disk s') = Disk.getFilePageCount f (st_disk s).
Proof. intros [Hf _]. unfold is_file, Disk.getFilePageCount. by rewrite Hf. Qed.

Lemma same_files_counts s s' :
  same_files s s' -> (forall f, is_file s' f <-> is_file s f) /\
    (forall f, Disk.getFilePageCount f (st_disk s') = Disk.getFilePageCount f (st_disk s)).
Proof. intros Hs. split; intros f; by apply (same_files_count s s' f). Qed.

(** With nothing pinned there is always a victim. *)
Lemma idle_victim s : store_idle s -> has_victim (st_pool s).
Proof.
  intros [[Hinv Hleak Hsize] Hpins]. unfold has_victim.
  destruct (Hleak 0%nat Hsize) as [H|[k Hk]].
  - left. intros E. rewrite E in H. by apply not_elem_of_nil in H.
  - right. destruct (pi_table _ (si_pool s Hinv) k _ Hk) as (fr & Hfr & _).
    assert (H0 : 0%nat ∈ lruList_ (st_pool s)).
    { apply (pi_lru _ (si_pool s Hinv)). exists k, fr. split_and!; [done|done|].
      specialize (Hpins k). unfold pins_of in Hpins. by rewrite Hk, Hfr in Hpins. }
    intros E. rewrite E in H0. by apply not_elem_of_nil in H0.
Qed.

Lemma idle_fetch s f p w :
  store_idle s -> in_file s f p ->
  exists h s', runs (Pool.fetchPage f p w) s h s' /\ store_held s' f p h w /\
    same_files s s' /\ same_contents s s'.
Proof.
  intros Hidle Hin. pose proof (idle_victim s Hidle) as Hv.
  destruct Hidle as [[Hinv Hleak Hsize] Hpins].
  destruct (fetchPage_runs s f p w) as (i & s' & Hr & Hft); [done|done| |done|].
  { rewrite Hpins. unfold INT_MAX. lia. }
  exists i, s'. split_and!; [done| |apply Hft|apply Hft]. split.
  - split; [apply Hft|by apply Hft|by rewrite (ft_size _ _ _ _ _ _ Hft)].
  - revert Hin. apply in_file_same, Hft.
  - apply Hft.
  - apply Hft.
  - intros k. rewrite (ft_pins _ _ _ _ _ _ Hft), Hpins. by case_decide.
Qed.

Lemma held_frame s f p i w :
  store_held s f p i w ->
  exists fr, frames_ (st_pool s) !! i = Some fr /\ fr_pinCount fr = 1 /\
    (w = true -> fr_isDirty fr = true) /\ page_of s f p = fr_data fr.
Proof.
  intros [[Hinv _ _] Hin Hc Hd Hp]. pose proof (in_file_valid s f p Hinv Hin) as Hv.
  destruct (cached_frame s f p i Hinv Hv Hc) as (fr & Hfr & _). exists fr. split_and!.
  - done.
  - specialize (Hp (Pool.makePageKey f p)). rewrite decide_True in Hp by done.
    unfold pins_of in Hp. unfold cached in Hc. by rewrite Hc, Hfr in Hp.
  - intros Hw. destruct (Hd Hw) as (fr' & ? & ?). congruence.
  - by apply (page_of_cached s f p i).
Qed.

Lemma held_write s f p i bs :
  store_held s f p i true -> length bs = PAGE_BYTES ->
  store_held (Pool.write_data i bs s) f p i true /\
  same_files s (Pool.write_data i bs s) /\
  forall f' p', in_file s f' p' -> page_of (Pool.write_data i bs s) f' p' =
    if decide (f' = f /\ p' = p) then bs else page_of s f' p'.
Proof.
  intros Hh Hlen. destruct (held_frame s f p i true Hh) as (fr & Hfr & Hpin & Hd & _).
  destruct Hh as [[Hinv Hleak Hsize] Hin Hc _ Hpins].
  pose proof (in_file_valid s f p Hinv Hin) as Hv.
  pose proof (write_data_updated s f p i fr bs Hinv Hc Hfr (Hd eq_refl) Hlen) as Hup.
  split_and!.
  - split; [split|..].
    + apply Hup.
    + by apply (updated_leak _ _ _ _ _ Hup).
    + by rewrite (updated_size _ _ _ _ _ Hup).
    + revert Hin. apply in_file_same, Hup.
    + unfold cached. by rewrite (up_table _ _ _ _ _ Hup).
    + intros _. eexists. rewrite (up_frames _ _ _ _ _ Hup), list_lookup_insert_eq
        by (by apply lookup_lt_Some in Hfr). split; [done|]. by apply Hd.
    + intros k. rewrite (up_pins _ _ _ _ _ Hup), Hpins. by case_decide.
  - apply Hup.
  - intros f' p' Hin'. rewrite (up_page _ _ _ _ _ Hup) by done.
    pose proof (in_file_valid s f' p' Hinv Hin') as Hv'.
    destruct (decide (f' = f /\ p' = p)) as [[-> ->]|Hne]; [by rewrite decide_True|].
    rewrite decide_False; [done|]. intros E. by apply valid_page_key in E.
Qed.

Lemma held_unpin s f p i w dirty :
  store_held s f p i w ->
  exists s', runs (Pool.unpinPage f p dirty) s tt s' /\ store_idle s' /\
    same_files s s' /\ same_contents s s'.
Proof.
  intros Hh. destruct (held_frame s f p i w Hh) as (fr & Hfr & Hpin & _ & Hpg).
  destruct Hh as [[Hinv Hleak Hsize] Hin Hc _ Hpins].
  destruct (unpinPage_runs s f p dirty i fr) as (s' & fr' & Hr & Hup & Hdata & Hp'); [done..|lia|].
  exists s'. split_and!; [done| |apply Hup|].
  - split; [split|].
    + apply Hup.
    + by apply (updated_leak _ _ _ _ _ Hup).
    + by rewrite (updated_size _ _ _ _ _ Hup).
    + intros k. rewrite (up_pins _ _ _ _ _ Hup), Hpins. case_decide; [lia|done].
  - intros f' p' Hin'. rewrite (up_page _ _ _ _ _ Hup) by done.
    pose proof (in_file_valid s f' p' Hinv Hin') as Hv'.
    case_decide as E; [|done]. apply valid_page_key in E as [-> ->];
      [|done|by apply (in_file_valid s)].
    by rewrite Hpg.
Qed.

(** A store whose pool did not change keeps its pins. *)
Lemma idle_same_pool s s' :
  store_idle s -> store_inv s' -> st_pool s' = st_pool s -> store_idle s'.
Proof.
  intros [[_ Hleak Hsize] Hpins] Hinv Hp. split; [split|]; rewrite ?Hp; try done.
  intros k. specialize (Hpins k). unfold pins_of in *. by rewrite Hp.
Qed.

Lemma idle_alloc s f :
  store_idle s -> is_file s f -> Disk.getFilePageCount f (st_disk s) < INVALID_PAGE_ID ->
  let n := Disk.getFilePageCount f (st_disk s) in
  exists s', runs (on_disk (Disk.allocateNewPage f)) s n s' /\ store_idle s' /\
    (forall f', is_file s' f' <-> is_file s f') /\
    (forall f', Disk.getFilePageCount f' (st_disk s') =
       if decide (f' = f) then n + 1 else Disk.getFilePageCount f' (st_disk s)) /\
    page_of s' f n = zero_page /\ same_contents s s'.
Proof.
  intros Hidle [h Hf] Hc n. unfold n in *. rewrite (getFilePageCount_handle _ f h Hf) in *.
  pose proof (so_inv s (proj1 Hidle)) as Hinv.
  destruct (allocateNewPage_store s f h Hinv Hf Hc) as (s' & Hr & Hinv' & Hp & Hfiles & Hz & Hs).
  exists s'. split_and!; [done|by apply (idle_same_pool s)| | |done|done].
  - intros f'. unfold is_file. rewrite Hfiles, lookup_insert_is_Some'. split; [|tauto].
    intros [<-|?]; [by rewrite Hf|done].
  - intros f'. unfold Disk.getFilePageCount. rewrite Hfiles.
    destruct (decide (f' = f)) as [->|Hne]; [by rewrite lookup_insert_eq|].
    by rewrite lookup_insert_ne.
Qed.

Lemma idle_create s name :
  store_idle s -> creatable s name ->
  exists f s', runs (on_disk (Disk.createFile name)) s f s' /\ store_idle s' /\
    ~ is_file s f /\ 0 <= f /\
    (forall f', is_file s' f' <-> f' = f \/ is_file s f') /\
    (forall f', Disk.getFilePageCount f' (st_disk s') =
       if decide (f' = f) then 0 else Disk.getFilePageCount f' (st_disk s)) /\
    same_contents s s'.
Proof.
  intros Hidle Hcr. pose proof (so_inv s (proj1 Hidle)) as Hinv.
  destruct (createFile_store s name Hinv Hcr) as (s' & Hr & Hinv' & Hp & Hfiles & Hnone & Hs).
  exists (nextFileId_ (st_disk s)), s'. split_and!; [done|by apply (idle_same_pool s)| | | | |done].
  - unfold is_file. rewrite Hnone. by intros [??].
  - pose proof (do_pos _ (si_disk s Hinv)). lia.
  - intros f'. unfold is_file. rewrite Hfiles, lookup_insert_is_Some'. naive_solver.
  - intros f'. unfold Disk.getFilePageCount. rewrite Hfiles.
    destruct (decide (f' = nextFileId_ (st_disk s))) as [->|Hne]; [by rewrite lookup_insert_eq|].
    by rewrite lookup_insert_ne.
Qed.

Lemma idle_page_length s f p :
  store_idle s -> in_file s f p -> length (page_of s f p) = PAGE_BYTES.
Proof.
  intros [[Hinv _ _] _] Hin. pose proof (in_file_valid s f p Hinv Hin) as Hv. unfold page_of.
  destruct (cached s f p) as [i|] eqn:Hc; [|apply length_disk_page].
  destruct (cached_frame s f p i Hinv Hv Hc) as (fr & Hfr & _).
  unfold Pool.frame_data. rewrite Hfr. by apply (pi_frame _ (si_pool s Hinv) i).
Qed.

Lemma idle_count_range s f :
  store_idle s -> is_file s f ->
  0 <= Disk.getFilePageCount f (st_disk s) <= INVALID_PAGE_ID.
Proof.
  intros [[Hinv _ _] _] [h Hf]. rewrite (getFilePageCount_handle _ f h Hf).
  pose proof (do_count _ (si_disk s Hinv) f h Hf) as [??].
  pose proof (si_count s Hinv f h Hf). done.
Qed.

(** The laws of the interface, each discharged by a lemma above. *)
#[export] Program Instance Store_PageStoreSpec : PageStoreSpec Store := {
  ps_file := is_file;
  ps_page := page_of;
  ps_idle := store_idle;
  ps_held := store_held;
  ps_creatable := creatable;
}.
Next Obligation. intros s f p Hi Hin%in_file_count. by apply idle_page_length. Qed.
Next Obligation. intros s f. apply idle_count_range. Qed.
Next Obligation.
  intros s f p w Hi Hin%in_file_count.
  destruct (idle_fetch s f p w Hi Hin) as (h & s' & Hr & Hh & Hf & Hp).
  exists h, s'. split_and!; [done|done|by apply same_files_counts..|].
  intros f' p' Hin'%in_file_count. by apply Hp.
Qed.
Next Obligation.
  intros s f p h w Hh. destruct (held_frame s f p h w Hh) as (fr & Hfr & _ & _ & ->).
  simpl. unfold Pool.frame_data. by rewrite Hfr.
Qed.
Next Obligation.
  intros s f p h bs Hh Hlen. destruct (held_write s f p h bs Hh Hlen) as (Hh' & Hf & Hp).
  split_and!; [done|by apply same_files_counts..|].
  intros f' p' Hin'%in_file_count. by apply Hp.
Qed.
Next Obligation.
  intros s f p h w dirty Hh. destruct (held_unpin s f p h w dirty Hh) as (s' & Hr & Hi & Hf & Hp).
  exists s'. split_and!; [done|done|by apply same_files_counts..|].
  intros f' p' Hin'%in_file_count. by apply Hp.
Qed.
Next Obligation.
  intros s f Hi Hf Hc. destruct (idle_alloc s f Hi Hf Hc) as (s' & Hr & Hi' & Hfl & Hcn & Hz & Hp).
  exists s'. split_and!; try done. intros f' p' Hin'%in_file_count. by apply Hp.
Qed.
Next Obligation.
  intros s name Hi Hc.
  destruct (idle_create s name Hi Hc) as (f & s' & Hr & Hi' & Hn & Hpos & Hfl & Hcn & Hp).
  exists f, s'. split_and!; try done. intros f' p' Hin'%in_file_count. by apply Hp.
Qed.

(** A fresh pool of at least one frame over a disk that is [disk_ok]. *)
Lemma init_idle n d :
  0 < n -> disk_ok d ->
  (forall f h, files_ d !! f = Some h -> pageCount h <= INVALID_PAGE_ID) ->
  store_idle (mkStore d (Pool.init n)).
Proof.
  intros Hn Hd Hc.
  assert (Hfr : forall i fr, frames_ (Pool.init n) !! i = Some fr -> fr = Pool.empty_frame).
  { intros i fr. simpl. by intros [-> _]%lookup_replicate_1. }
  split; [split|].
  - split; simpl; [|done|done|intros k i fr Hk; by rewrite lookup_empty in Hk].
    split.
    + intros k i Hk. simpl in Hk. by rewrite lookup_empty in Hk.
    + intros i. simpl. rewrite elem_of_seq. intros Hi. exists Pool.empty_frame.
      split; [apply lookup_replicate_2; lia|done].
    + intros k i _. simpl. by rewrite lookup_empty.
    + simpl. apply NoDup_seq.
    + constructor.
    + intros i. simpl. rewrite elem_of_nil. split; [done|]. intros (k & fr & Hk & _).
      by rewrite lookup_empty in Hk.
    + intros i. simpl. set_solver.
    + intros i fr Hi. rewrite (Hfr i fr Hi). simpl. split; [unfold INT_MAX; lia|].
      apply length_zero_page.
  - intros i. simpl. rewrite length_replicate. intros Hi. left. apply elem_of_seq. lia.
  - simpl. rewrite length_replicate. lia.
  - intros k. unfold pins_of. simpl. by rewrite lookup_empty.
Qed.
