(* ===== verification/Heap.v ===== *)
(** * PageManager (src/src/storage/PageManager.h, PageManager.cpp)

    Heap files: a table is a file of slotted pages, a row is found by its
    [RID]. The operations are written over the [PageStore] interface, their
    properties are proved from its laws alone, and a table is specified as a
    partial map from [RID]s to tuples. *)
From stdpp Require Import base numbers list strings.
From Stdlib Require Import ZArith Lia.
From S2P Require Import Prelude Bytes Common Disk Page PageStore.

Module Heap.
Section operations.
Context {St : Type} `{!PageStore St}.

(** the header and the bytes behind [pageData] *)
Definition page_at (h : nat) : M St (list byte) := gets (ps_data h).
Definition set_page (h : nat) (pg : list byte) : M St unit := modify (ps_write h pg).

(** Allocate a page at the end of the file and initialise it. *)
Definition new_page (fileId : Z) : M St Z :=
  pageNum <- ps_alloc fileId ;;
  h <- ps_fetch fileId pageNum true ;;
  set_page h (Page.initPage pageNum) ;;
  ps_unpin fileId pageNum true ;;
  ret pageNum.

Definition createTable (tableName : string) : M St Z :=
  fileId <- ps_create (tableName +:+ ".db") ;;
  new_page fileId ;;
  ret fileId.

Definition openTable (tableName : string) : M St Z := ps_open (tableName +:+ ".db").

(** The search loop of [findFreePage] over pages [p], ..., [p + n - 1]. *)
Fixpoint find_page_from (fileId requiredSpace p : Z) (n : nat) : M St (option Z) :=
  match n with
  | O => ret None
  | S n' =>
      h <- ps_fetch fileId p false ;;
      pg <- page_at h ;;
      ps_unpin fileId p false ;;
      if requiredSpace <=? Page.freeSpace pg then ret (Some p)
      else find_page_from fileId requiredSpace (p + 1) n'
  end.

Definition findFreePage (fileId requiredSpace : Z) : M St Z :=
  pageCount <- gets (ps_count fileId) ;;
  found <- find_page_from fileId requiredSpace 0 (Z.to_nat pageCount) ;;
  match found with
  | Some p => ret p
  | None => new_page fileId
  end.

(** [data] points to at least [dataLen] bytes, or the copy is undefined. *)
Definition source_bytes (data : list byte) (dataLen : Z) : outcome (list byte) :=
  if decide (Z.to_nat dataLen <= length data)%nat
  then Ret (take (Z.to_nat dataLen) data) else Undef.

Definition insert_into_new_page (fileId : Z) (bs : list byte) : M St RID :=
  newPage <- ps_alloc fileId ;;
  h <- ps_fetch fileId newPage true ;;
  set_page h (Page.initPage newPage) ;;
  pg <- page_at h ;;
  pg' <- lift (Page.place_first pg bs) ;;
  set_page h pg' ;;
  ps_unpin fileId newPage true ;;
  ret (mkRID newPage 0).

(** [insertTuple] from the page it found on *)
Definition insert_into_page (fileId pageNum : Z) (data : list byte) (dataLen : Z) : M St RID :=
  h <- ps_fetch fileId pageNum true ;;
  pg <- page_at h ;;
  slotIdx <- lift (Page.choose_slot pg) ;;
  bs <- lift (source_bytes data dataLen) ;;
  if MAX_SLOTS_PER_PAGE <=? Z.of_nat slotIdx then
    ps_unpin fileId pageNum false ;;
    insert_into_new_page fileId bs
  else
    pg' <- lift (Page.place pg slotIdx bs) ;;
    set_page h pg' ;;
    ps_unpin fileId pageNum true ;;
    ret (mkRID pageNum (Z.of_nat slotIdx)).

Definition insertTuple (fileId : Z) (data : list byte) (dataLen : Z) : M St RID :=
  pageNum <- findFreePage fileId dataLen ;;
  insert_into_page fileId pageNum data dataLen.

(** The bytes copied to [outData]; their number is the C++ result, 0 for an
    empty or invalid slot. *)
Definition readTuple (fileId : Z) (rid : RID) : M St (list byte) :=
  h <- ps_fetch fileId (pageId rid) false ;;
  pg <- page_at h ;;
  o <- lift (Page.read_slot pg (slotNum rid)) ;;
  ps_unpin fileId (pageId rid) false ;;
  ret (default [] o).

Definition deleteTuple (fileId : Z) (rid : RID) : M St unit :=
  h <- ps_fetch fileId (pageId rid) true ;;
  pg <- page_at h ;;
  pg' <- lift (Page.erase_slot pg (slotNum rid)) ;;
  set_page h pg' ;;
  ps_unpin fileId (pageId rid) true.

Definition getPageCount (fileId : Z) : M St Z := gets (ps_count fileId).

(** The callback, on the state [A] it closes over: its new state and whether
    to go on. An exception it throws leaves the page pinned. *)
Section scan.
Context {A : Type} (callback : A -> RID -> list byte -> outcome (A * bool)).

(** slots [s], ..., [s + n - 1] of page [p] *)
Fixpoint scan_slots (p : Z) (pg : list byte) (acc : A) (s n : nat) : outcome (A * bool) :=
  match n with
  | O => Ret (acc, true)
  | S n' =>
      _ <~ Page.slot_in_range s ;;
      if 0 <? Page.slotLengths pg s then
        let off := Z.to_nat (Page.slotDirectory pg s) in
        let len := Z.to_nat (Page.slotLengths pg s) in
        if decide (off + len <= length pg)%nat then
          r <~ callback acc (mkRID p (Z.of_nat s)) (sub pg off len) ;;
          if r.2 then scan_slots p pg r.1 (S s) n' else Ret (r.1, false)
        else Undef
      else scan_slots p pg acc (S s) n'
  end.

(** pages [p], ..., [p + n - 1] *)
Fixpoint scan_pages (fileId p : Z) (n : nat) (acc : A) : M St A :=
  match n with
  | O => ret acc
  | S n' =>
      h <- ps_fetch fileId p false ;;
      pg <- page_at h ;;
      r <- lift (scan_slots p pg acc 0 (Z.to_nat (Page.numSlots pg))) ;;
      ps_unpin fileId p false ;;
      if r.2 then scan_pages fileId (p + 1) n' r.1 else ret r.1
  end.

Definition scanTable (fileId : Z) (acc : A) : M St A :=
  pageCount <- gets (ps_count fileId) ;;
  scan_pages fileId 0 (Z.to_nat pageCount) acc.
End scan.
End operations.
End Heap.

(** ** The abstract table: a partial map from row ids to tuples *)
Section table.
Context {St : Type} `{!PageStore St, !PageStoreSpec St}.
Implicit Types (s : St) (f p : Z) (r : RID).

(** the tuple a row id denotes *)
Definition lookup_row s f r : option (list byte) :=
  if decide (0 <= pageId r < ps_count f s /\ 0 <= slotNum r)
  then tuple_at (ps_page s f (pageId r)) (Z.to_nat (slotNum r)) else None.

Definition page_rows p (pg : list byte) : list (RID * list byte) :=
  omap (fun i => d ← tuple_at pg i; Some (mkRID p (Z.of_nat i), d))
       (seq 0 (Z.to_nat (Page.numSlots pg))).

Fixpoint rows_from s f p (n : nat) : list (RID * list byte) :=
  match n with
  | O => []
  | S n' => page_rows p (ps_page s f p) ++ rows_from s f (p + 1) n'
  end.

(** the rows in the order of their ids *)
Definition table_rows s f : list (RID * list byte) :=
  rows_from s f 0 (Z.to_nat (ps_count f s)).

(** A table between two calls: nothing pinned, every page well formed. *)
Record table_ok s f : Prop := {
  tb_idle : ps_idle s;
  tb_file : ps_file s f;
  tb_pages : forall p, 0 <= p < ps_count f s -> page_wf (ps_page s f p);
}.

(** Everything outside file [f] is as it was. *)
Record other_files_same s s' f : Prop := {
  of_file : forall f', ps_file s' f' <-> ps_file s f';
  of_count : forall f', f' <> f -> ps_count f' s' = ps_count f' s;
  of_page : forall f' p', f' <> f -> ps_in_file s f' p' -> ps_page s' f' p' = ps_page s f' p';
}.

(** Every other file is there as it was; there may be new ones. *)
Definition others_kept s s' f : Prop :=
  forall f', f' <> f -> ps_file s f' -> ps_file s' f' /\ ps_count f' s' = ps_count f' s /\
    forall p, 0 <= p < ps_count f' s -> ps_page s' f' p = ps_page s f' p.

(** A call that changes no page. *)
Definition unchanged s s' : Prop :=
  ps_idle s' /\ ps_same s s' /\
  forall f p, ps_in_file s f p -> ps_page s' f p = ps_page s f p.
End table.

Section heap_lemmas.
Context {St : Type} `{!PageStore St, !PageStoreSpec St}.
Implicit Types (s : St) (f p : Z) (r : RID).

(** ** Effects of the calls on the store *)
Definition kept s s' : Prop :=
  ps_same s s' /\ forall f p, ps_in_file s f p -> ps_page s' f p = ps_page s f p.

(** one page of a file replaced *)
Record page_replaced s s' f p (pg : list byte) : Prop := {
  pr_idle : ps_idle s';
  pr_same : ps_same s s';
  pr_page : forall f' p', ps_in_file s f' p' ->
    ps_page s' f' p' = if decide (f' = f /\ p' = p) then pg else ps_page s f' p';
}.

(** one page added at the end of a file *)
Record page_added s s' f (pg : list byte) : Prop := {
  pa_idle : ps_idle s';
  pa_file : forall f', ps_file s' f' <-> ps_file s f';
  pa_count : forall f', ps_count f' s' =
    if decide (f' = f) then ps_count f s + 1 else ps_count f' s;
  pa_new : ps_page s' f (ps_count f s) = pg;
  pa_page : forall f' p', ps_in_file s f' p' -> ps_page s' f' p' = ps_page s f' p';
}.

Lemma in_file_iff s s' f p : ps_same s s' -> ps_in_file s' f p <-> ps_in_file s f p.
Proof. intros [Hf Hc]. unfold ps_in_file. by rewrite Hf, Hc. Qed.

Lemma same_refl s : ps_same s s. Proof. done. Qed.
Lemma same_trans s1 s2 s3 : ps_same s1 s2 -> ps_same s2 s3 -> ps_same s1 s3.
Proof.
  intros [Hf1 Hc1] [Hf2 Hc2]. split; intros f; [by rewrite Hf2|by rewrite Hc2].
Qed.
Lemma kept_trans s1 s2 s3 : kept s1 s2 -> kept s2 s3 -> kept s1 s3.
Proof.
  intros [Hs1 Hp1] [Hs2 Hp2]. split; [by eapply same_trans|].
  intros f p Hin. rewrite Hp2; [by apply Hp1|]. by apply (in_file_iff s1 s2).
Qed.
Lemma unchanged_refl s : ps_idle s -> unchanged s s. Proof. done. Qed.
Lemma unchanged_kept s s1 s2 : kept s s1 -> unchanged s1 s2 -> unchanged s s2.
Proof. intros Hk [Hi Hk']. split; [done|]. exact (kept_trans s s1 s2 Hk Hk'). Qed.
Lemma unchanged_trans s1 s2 s3 : unchanged s1 s2 -> unchanged s2 s3 -> unchanged s1 s3.
Proof. intros [_ Hk]. by apply unchanged_kept. Qed.

Lemma fetch_read s f p w :
  ps_idle s -> ps_in_file s f p ->
  exists h s1, runs (ps_fetch f p w) s h s1 /\ ps_held s1 f p h w /\
    ps_data h s1 = ps_page s f p /\ kept s s1.
Proof.
  intros Hi Hin. destruct (ps_fetch_spec s f p w Hi Hin) as (h & s1 & Hr & Hh & Hs & Hp).
  exists h, s1. split; [done|]. split; [done|]. split; [|done].
  rewrite (ps_data_spec _ _ _ _ _ Hh). by apply Hp.
Qed.

Lemma held_release s f p h w dirty :
  ps_held s f p h w -> exists s', runs (ps_unpin f p dirty) s tt s' /\ unchanged s s'.
Proof.
  intros Hh. destruct (ps_unpin_spec s f p h w dirty Hh) as (s' & Hr & Hi & Hs & Hp).
  exists s'. done.
Qed.

(** A page held for writing, which now reads [pg]; all else is as in [s]. *)
Record editing s s1 f p h (pg : list byte) : Prop := {
  ed_held : ps_held s1 f p h true;
  ed_same : ps_same s s1;
  ed_page : forall f' p', ps_in_file s f' p' ->
    ps_page s1 f' p' = if decide (f' = f /\ p' = p) then pg else ps_page s f' p';
}.

Lemma editing_start s f p :
  ps_idle s -> ps_in_file s f p ->
  exists h s1, runs (ps_fetch f p true) s h s1 /\ editing s s1 f p h (ps_page s f p).
Proof.
  intros Hi Hin. destruct (ps_fetch_spec s f p true Hi Hin) as (h & s1 & Hr & Hh & Hs & Hp).
  exists h, s1. split; [done|]. split; [done|done|]. intros f' p' Hin'.
  case_decide as E; [destruct E as [-> ->]|]; by apply Hp.
Qed.

Lemma editing_data s s1 f p h pg :
  ps_in_file s f p -> editing s s1 f p h pg -> runs (Heap.page_at h) s1 pg s1.
Proof.
  intros Hin [Hh _ Hp]. unfold runs, Heap.page_at, gets.
  rewrite (ps_data_spec _ _ _ _ _ Hh), Hp, decide_True by done. done.
Qed.

Lemma editing_write s s1 f p h pg pg' :
  editing s s1 f p h pg -> length pg' = PAGE_BYTES ->
  exists s2, runs (Heap.set_page h pg') s1 tt s2 /\ editing s s2 f p h pg'.
Proof.
  intros [Hh Hs Hp] Hl. destruct (ps_write_spec s1 f p h pg' Hh Hl) as (Hh2 & Hs2 & Hp2).
  exists (ps_write h pg' s1). split; [done|]. split; [done|by eapply same_trans|].
  intros f' p' Hin. rewrite Hp2, Hp by (done || by apply (in_file_iff s)). by case_decide.
Qed.

Lemma editing_release s s1 f p h pg dirty :
  editing s s1 f p h pg ->
  exists s', runs (ps_unpin f p dirty) s1 tt s' /\ page_replaced s s' f p pg.
Proof.
  intros [Hh Hs Hp]. destruct (held_release _ _ _ _ _ dirty Hh) as (s' & Hr & Hi & Hs' & Hp').
  exists s'. split; [done|]. split; [done|by eapply same_trans|].
  intros f' p' Hin. rewrite Hp' by (by apply (in_file_iff s)). by apply Hp.
Qed.

Lemma alloc_added s f :
  ps_idle s -> ps_file s f -> ps_count f s < INVALID_PAGE_ID ->
  exists s', runs (ps_alloc f) s (ps_count f s) s' /\ page_added s s' f zero_page.
Proof.
  intros Hi Hf Hc. destruct (ps_alloc_spec s f Hi Hf Hc) as (s' & Hr & H). exists s'.
  split; [done|]. destruct H as (?&?&?&?&?). done.
Qed.

Lemma added_in_file s s' f pg :
  page_added s s' f pg -> ps_file s f -> 0 <= ps_count f s -> ps_in_file s' f (ps_count f s).
Proof.
  intros [_ Hf Hc _ _] Hfl Hpos. split; [by apply Hf|]. rewrite Hc, decide_True by done. lia.
Qed.

Lemma added_count s s' f pg : page_added s s' f pg -> ps_count f s' = ps_count f s + 1.
Proof. intros Ha. rewrite (pa_count _ _ _ _ Ha). by rewrite decide_True. Qed.

Lemma added_in_file_old s s' f pg f' p' :
  page_added s s' f pg -> ps_in_file s f' p' -> ps_in_file s' f' p'.
Proof.
  intros [_ Hf Hc _ _] [Hfl Hp]. split; [by apply Hf|]. rewrite Hc. case_decide; [|done].
  subst. lia.
Qed.

(** Replacing the page just added is adding the other one. *)
Lemma added_replaced s s1 s2 f pg pg' :
  page_added s s1 f pg -> ps_file s f -> 0 <= ps_count f s ->
  page_replaced s1 s2 f (ps_count f s) pg' -> page_added s s2 f pg'.
Proof.
  intros Ha Hf Hpos [Hi [Hfl Hcn] Hp]. pose proof (added_in_file _ _ _ _ Ha Hf Hpos) as Hin.
  split.
  - done.
  - intros f'. rewrite Hfl. apply Ha.
  - intros f'. rewrite Hcn. apply Ha.
  - rewrite Hp by done. by rewrite decide_True.
  - intros f' p' Hin'. rewrite Hp by (by eapply added_in_file_old).
    rewrite decide_False; [by apply Ha|]. intros [-> ->]. destruct Hin' as [_ ?]. lia.
Qed.

Lemma length_initPage n : length (Page.initPage n) = PAGE_BYTES.
Proof. destruct (initPage_spec n) as [H _]. apply H. Qed.

Lemma new_page_runs s f :
  ps_idle s -> ps_file s f -> ps_count f s < INVALID_PAGE_ID ->
  exists s', runs (Heap.new_page f) s (ps_count f s) s' /\
    page_added s s' f (Page.initPage (ps_count f s)).
Proof.
  intros Hi Hf Hc. pose proof (ps_count_range s f Hi Hf) as [Hpos _].
  destruct (alloc_added s f Hi Hf Hc) as (s1 & Hr1 & Ha).
  pose proof (added_in_file _ _ _ _ Ha Hf Hpos) as Hin.
  destruct (editing_start s1 f (ps_count f s) (pa_idle _ _ _ _ Ha) Hin) as (h & s2 & Hr2 & He).
  destruct (editing_write _ _ _ _ _ _ (Page.initPage (ps_count f s)) He) as (s3 & Hr3 & He3);
    [apply length_initPage|].
  destruct (editing_release _ _ _ _ _ _ true He3) as (s4 & Hr4 & Hrep).
  exists s4. split; [|by eapply added_replaced].
  do 4 (eapply runs_bind; [done|]). done.
Qed.

Lemma freeSpace_wf pg : page_wf pg -> Page.freeSpace pg = PAGE_SIZE - Page.freeSpacePtr pg.
Proof.
  intros Hwf. pose proof (pw_free pg Hwf). unfold Page.freeSpace, PAGE_SIZE, HEADER_SIZE in *.
  apply u16_small. unfold is_u16. lia.
Qed.

Lemma find_page_from_runs f req n : forall s p,
  ps_idle s -> ps_file s f -> 0 <= p -> p + Z.of_nat n <= ps_count f s ->
  exists o s', runs (Heap.find_page_from f req p n) s o s' /\ unchanged s s' /\
    match o with
    | Some q => p <= q < p + Z.of_nat n /\ req <= Page.freeSpace (ps_page s f q) /\
        forall q', p <= q' < q -> Page.freeSpace (ps_page s f q') < req
    | None => forall q, p <= q < p + Z.of_nat n -> Page.freeSpace (ps_page s f q) < req
    end.
Proof.
  induction n as [|n IH]; intros s p Hi Hf Hp Hn.
  { exists None, s. split; [done|]. split; [by apply unchanged_refl|]. lia. }
  assert (Hin : ps_in_file s f p) by (split; [done|lia]).
  destruct (fetch_read s f p false Hi Hin) as (h & s1 & Hr1 & Hh & Hd & Hk).
  destruct (held_release _ _ _ _ _ false Hh) as (s2 & Hr2 & Hu).
  pose proof (unchanged_kept _ _ _ Hk Hu) as Hu2. pose proof Hu2 as (Hi2 & Hs2 & Hp2).
  assert (Hrun : forall o s', runs (if req <=? Page.freeSpace (ps_data h s1) then ret (Some p)
      else Heap.find_page_from f req (p + 1) n) s2 o s' ->
    runs (Heap.find_page_from f req p (S n)) s o s').
  { intros o s' H. simpl. eapply runs_bind; [done|]. eapply runs_bind; [done|].
    eapply runs_bind; [done|done]. }
  rewrite Hd in Hrun. destruct (Z.leb_spec req (Page.freeSpace (ps_page s f p))) as [E|E].
  - exists (Some p), s2. split; [by apply Hrun|]. split; [done|]. split; [lia|]. split; [done|lia].
  - destruct (IH s2 (p + 1)) as (o & s3 & Hr3 & Hu3 & Ho); [done|by apply Hs2|lia| |].
    { rewrite (proj2 Hs2). lia. }
    exists o, s3. split; [by apply Hrun|]. split; [by eapply unchanged_trans|].
    assert (Heq : forall q, p + 1 <= q < p + 1 + Z.of_nat n -> ps_page s2 f q = ps_page s f q)
      by (intros; apply Hp2; split; [done|lia]).
    destruct o as [q|].
    + destruct Ho as (Hq & Hle & Hmin). rewrite Heq in Hle by done.
      split; [lia|]. split; [done|]. intros q' Hq'.
      destruct (decide (q' = p)) as [->|]; [done|]. rewrite <- Heq by lia. apply Hmin. lia.
    + intros q Hq. destruct (decide (q = p)) as [->|]; [done|].
      rewrite <- Heq by lia. apply Ho. lia.
Qed.

(** ** Effects on the table *)
Lemma table_unchanged s s' f :
  table_ok s f -> unchanged s s' ->
  table_ok s' f /\ other_files_same s s' f /\
  forall r, lookup_row s' f r = lookup_row s f r.
Proof.
  intros [Hi Hf Hp] (Hi' & [Hs1 Hs2] & Hk). split; [|split].
  - split; [done|by apply Hs1|]. intros p Hpr. rewrite Hs2 in Hpr.
    rewrite Hk by done. by apply Hp.
  - split; [done|by intros; rewrite Hs2|by intros; apply Hk].
  - intros r. unfold lookup_row. rewrite Hs2. case_decide as E; [|done].
    by rewrite Hk by (split; [done|lia]).
Qed.

Lemma table_replaced s s' f p pg :
  table_ok s f -> page_replaced s s' f p pg -> page_wf pg ->
  0 <= p < ps_count f s ->
  table_ok s' f /\ other_files_same s s' f /\
  forall r, lookup_row s' f r =
    if decide (pageId r = p /\ 0 <= slotNum r) then tuple_at pg (Z.to_nat (slotNum r))
    else lookup_row s f r.
Proof.
  intros [Hi Hf Hp] [Hi' [Hs1 Hs2] Hk] Hwf Hpr. split; [|split].
  - split; [done|by apply Hs1|]. intros q Hq. rewrite Hs2 in Hq. rewrite Hk by done.
    case_decide; [done|]. by apply Hp.
  - split; [done|by intros; rewrite Hs2|]. intros f' p' Hne Hin. rewrite Hk by done.
    rewrite decide_False; [done|]. by intros [-> _].
  - intros r. unfold lookup_row. rewrite Hs2.
    destruct (decide (0 <= slotNum r)) as [Hsl|Hsl].
    2:{ by rewrite !decide_False by tauto. }
    destruct (decide (pageId r = p)) as [->|Hne].
    + rewrite !decide_True by tauto. rewrite Hk by done. by rewrite decide_True.
    + rewrite (decide_False (P := pageId r = p /\ _)) by tauto.
      case_decide as E; [|done]. rewrite Hk by (split; [done|lia]).
      by rewrite decide_False by tauto.
Qed.

Lemma table_added s s' f pg :
  table_ok s f -> page_added s s' f pg -> page_wf pg ->
  table_ok s' f /\ other_files_same s s' f /\
  forall r, lookup_row s' f r =
    if decide (pageId r = ps_count f s /\ 0 <= slotNum r)
    then tuple_at pg (Z.to_nat (slotNum r)) else lookup_row s f r.
Proof.
  intros [Hi Hf Hp] [Hi' Hfl Hcn Hnew Hold] Hwf.
  pose proof (ps_count_range s f Hi Hf) as [Hpos _].
  assert (Hc : ps_count f s' = ps_count f s + 1) by (rewrite Hcn; by rewrite decide_True).
  split; [|split].
  - split; [done|by apply Hfl|]. intros q Hq. rewrite Hc in Hq.
    destruct (decide (q = ps_count f s)) as [->|Hne]; [by rewrite Hnew|].
    rewrite Hold by (split; [done|lia]). apply Hp. lia.
  - split; [done| |by intros; apply Hold]. intros f' Hne. rewrite Hcn.
    by rewrite decide_False.
  - intros r. unfold lookup_row. rewrite Hc.
    destruct (decide (0 <= slotNum r)) as [Hsl|Hsl].
    2:{ by rewrite !decide_False by tauto. }
    destruct (decide (pageId r = ps_count f s)) as [E|Hne].
    + rewrite !decide_True by lia. by rewrite E, Hnew.
    + rewrite (decide_False (P := pageId r = _ /\ _)) by tauto.
      destruct (decide (0 <= pageId r < ps_count f s)) as [Hr|Hr].
      * rewrite !decide_True by lia. by rewrite Hold by done.
      * by rewrite !decide_False by lia.
Qed.

Lemma other_files_trans s1 s2 s3 f :
  other_files_same s1 s2 f -> other_files_same s2 s3 f -> other_files_same s1 s3 f.
Proof.
  intros [Hf1 Hc1 Hp1] [Hf2 Hc2 Hp2]. split.
  - intros f'. by rewrite Hf2.
  - intros f' Hne. by rewrite Hc2, Hc1.
  - intros f' p' Hne [Hfl Hp]. rewrite Hp2; [by apply Hp1|done|].
    split; [by apply Hf1|by rewrite Hc1].
Qed.

Lemma others_kept_same s s' f : other_files_same s s' f -> others_kept s s' f.
Proof.
  intros [Hf Hc Hp] f' Hne Hfl. split; [by apply Hf|]. split; [by apply Hc|]. intros p Hin. by apply Hp.
Qed.
Lemma others_kept_trans s1 s2 s3 f : others_kept s1 s2 f -> others_kept s2 s3 f -> others_kept s1 s3 f.
Proof.
  intros H1 H2 f' Hne Hf. destruct (H1 f' Hne Hf) as (Hf2 & Hc2 & Hp2).
  destruct (H2 f' Hne Hf2) as (Hf3 & Hc3 & Hp3). split; [done|]. split; [congruence|].
  intros p Hp. rewrite Hp3 by (by rewrite Hc2). by apply Hp2.
Qed.
Lemma others_kept_unchanged s s' f : unchanged s s' -> others_kept s s' f.
Proof.
  intros (_ & [Hf Hc] & Hp) f' _ Hfl. split; [by apply Hf|]. split; [done|]. intros p Hin. by apply Hp.
Qed.

(** ** Insertion *)

(** [findFreePage] finds a page with the space asked for or adds an empty
    one, which it does only when no page has the space. *)
Lemma findFreePage_runs s f req :
  table_ok s f -> ps_count f s < INVALID_PAGE_ID ->
  exists p s1, runs (Heap.findFreePage f req) s p s1 /\
    ((unchanged s s1 /\ 0 <= p < ps_count f s /\ req <= Page.freeSpace (ps_page s f p) /\
      forall q, 0 <= q < p -> Page.freeSpace (ps_page s f q) < req) \/
     (page_added s s1 f (Page.initPage (ps_count f s)) /\ p = ps_count f s /\
      forall q, 0 <= q < ps_count f s -> Page.freeSpace (ps_page s f q) < req)).
Proof.
  intros [Hi Hf Hp] Hc. pose proof (ps_count_range s f Hi Hf) as [Hpos _].
  destruct (find_page_from_runs f req (Z.to_nat (ps_count f s)) s 0)
    as (o & s1 & Hr & Hu & Ho); [done|done|lia|lia|].
  destruct o as [q|].
  - exists q, s1. split.
    + eapply runs_bind; [done|]. eapply runs_bind; [done|done].
    + left. split; [done|]. destruct Ho as [? Ho]. split; [lia|done].
  - destruct Hu as (Hi1 & [Hs1 Hs2] & Hk).
    destruct (new_page_runs s1 f) as (s2 & Hr2 & Ha); [done|by apply Hs1|by rewrite Hs2|].
    rewrite Hs2 in *. exists (ps_count f s), s2. split.
    + eapply runs_bind; [done|]. eapply runs_bind; [done|done].
    + right. split; [|split; [done|]].
      * destruct Ha as [Hi2 Hf2 Hc2 Hn2 Hp2]. split.
        -- done.
        -- intros f'. by rewrite Hf2.
        -- intros f'. rewrite Hc2, Hs2. by rewrite Hs2.
        -- by rewrite Hs2 in Hn2.
        -- intros f' p' Hin. rewrite Hp2; [by apply Hk|]. by apply (in_file_iff s).
      * intros q Hq. apply Ho. lia.
Qed.

Definition MAX_TUPLE : Z := PAGE_SIZE - HEADER_SIZE.

(** A page to insert into: in the table, with the space asked for. *)
Lemma findFreePage_table s f req :
  table_ok s f -> ps_count f s < INVALID_PAGE_ID -> req <= MAX_TUPLE ->
  exists p s1, runs (Heap.findFreePage f req) s p s1 /\ table_ok s1 f /\
    other_files_same s s1 f /\ (forall r, lookup_row s1 f r = lookup_row s f r) /\
    0 <= p < ps_count f s1 /\ req <= Page.freeSpace (ps_page s1 f p) /\
    ps_count f s <= ps_count f s1 <= ps_count f s + 1.
Proof.
  intros Ht Hc Hreq. pose proof (ps_count_range s f (tb_idle _ _ Ht) (tb_file _ _ Ht)) as [Hpos _].
  destruct (findFreePage_runs s f req Ht Hc) as (p & s1 & Hr & [(Hu & Hp & Hs & _)|(Ha & -> & _)]);
    eexists _, s1; (split; [done|]).
  - destruct (table_unchanged s s1 f Ht Hu) as (Ht1 & Ho & Hl). destruct Hu as (_ & [_ Hs2] & Hk).
    rewrite Hs2, Hk by (split; [apply Ht|done]). split_and!; try done; lia.
  - destruct (initPage_spec (ps_count f s)) as (Hwf & _ & Hfree).
    destruct (table_added s s1 f _ Ht Ha Hwf) as (Ht1 & Ho & Hl).
    rewrite (pa_new _ _ _ _ Ha), freeSpace_wf, Hfree by done.
    rewrite (pa_count _ _ _ _ Ha), decide_True by done.
    split_and!; try done; try lia. intros r. rewrite Hl, initPage_tuple_at.
    case_decide as E; [|done]. unfold lookup_row. by rewrite decide_False by lia.
Qed.

(** A row whose slot is not in use. *)
Lemma not_live_tuple_at pg i : ~ live pg i -> tuple_at pg i = None.
Proof.
  intros Hn. unfold tuple_at. case_decide as E; [|done]. destruct Hn. split; [lia|]. lia.
Qed.

Lemma source_bytes_all bs : Heap.source_bytes bs (Z.of_nat (length bs)) = Ret bs.
Proof. unfold Heap.source_bytes. rewrite Nat2Z.id, decide_True by done. by rewrite firstn_all. Qed.

(** A new page with one tuple in its first slot. *)
Lemma first_tuple_page n bs :
  0 < Z.of_nat (length bs) <= MAX_TUPLE ->
  exists pg, Page.place_first (Page.initPage n) bs = Ret pg /\ page_wf pg /\
    forall j, tuple_at pg j = if decide (j = 0%nat) then Some bs else None.
Proof.
  intros Hlen. unfold MAX_TUPLE in *. destruct (initPage_spec n) as (Hwf & Hn & Hfree).
  destruct (place_first_placed (Page.initPage n) bs) as (pg & Hpl & Hpd);
    [apply length_initPage|by rewrite Hfree|done|rewrite Hfree; lia|].
  exists pg. split; [done|]. split.
  - apply (placed_wf (Page.initPage n) 0 bs); rewrite ?Hn, ?Hfree; [by rewrite <- Hn|done..|lia].
  - intros j. rewrite (placed_tuple_at (Page.initPage n) 0 bs) by (done || by rewrite Hn).
    rewrite initPage_tuple_at. case_decide; [|done].
    destruct bs; [simpl in *; lia|done].
Qed.

(** The state of the table after an insertion. *)
Record row_inserted s s' f rid (bs : list byte) : Prop := {
  ri_table : table_ok s' f;
  ri_other : other_files_same s s' f;
  ri_fresh : lookup_row s f rid = None;
  ri_rows : forall r, lookup_row s' f r = if decide (r = rid) then Some bs else lookup_row s f r;
}.

Lemma rid_eta r p i : pageId r = p -> 0 <= slotNum r -> Z.to_nat (slotNum r) = i ->
  r = mkRID p (Z.of_nat i).
Proof. destruct r; simpl. intros -> ? <-. f_equal. lia. Qed.

Lemma insert_into_new_page_runs s f bs :
  table_ok s f -> ps_count f s < INVALID_PAGE_ID -> 0 < Z.of_nat (length bs) <= MAX_TUPLE ->
  let rid := mkRID (ps_count f s) 0 in
  exists s', runs (Heap.insert_into_new_page f bs) s rid s' /\
    (exists pg, page_added s s' f pg) /\ row_inserted s s' f rid bs.
Proof.
  intros Ht Hc Hlen rid. pose proof Ht as [Hi Hf _].
  pose proof (ps_count_range s f Hi Hf) as [Hpos _]. set (n := ps_count f s) in *.
  destruct (alloc_added s f Hi Hf Hc) as (s1 & Hr1 & Ha).
  pose proof (added_in_file _ _ _ _ Ha Hf Hpos) as Hin.
  destruct (first_tuple_page n bs Hlen) as (pg & Hpl & Hwf & Htup).
  destruct (editing_start s1 f n (pa_idle _ _ _ _ Ha) Hin) as (h & s2 & Hr2 & He2).
  destruct (editing_write _ _ _ _ _ _ (Page.initPage n) He2) as (s3 & Hr3 & He3);
    [apply length_initPage|].
  destruct (editing_write _ _ _ _ _ _ pg He3) as (s4 & Hr4 & He4); [apply Hwf|].
  destruct (editing_release _ _ _ _ _ _ true He4) as (s5 & Hr5 & Hrep).
  pose proof (added_replaced _ _ _ _ _ _ Ha Hf Hpos Hrep) as Hadd.
  destruct (table_added s s5 f pg Ht Hadd Hwf) as (Ht5 & Ho5 & Hl5).
  assert (Hnone : forall r, pageId r = n -> lookup_row s f r = None).
  { intros r Hr. unfold lookup_row. by rewrite decide_False by lia. }
  exists s5. split; [|split].
  - do 3 (eapply runs_bind; [done|]).
    eapply runs_bind; [by eapply editing_data|].
    eapply (runs_bind _ _ _ pg s3); [unfold runs, lift; by rewrite Hpl|].
    do 2 (eapply runs_bind; [done|]). done.
  - by exists pg.
  - split; [done|done|by apply Hnone|].
    intros r. rewrite Hl5. fold n. destruct (decide (r = rid)) as [->|Hne]; simpl.
    + rewrite decide_True by done. rewrite Htup. by rewrite decide_True.
    + case_decide as E; [|done]. destruct E as [E1 E2]. rewrite Htup, Hnone by done.
      rewrite decide_False; [done|]. intros Hz. apply Hne. by apply (rid_eta r n 0%nat).
Qed.
End heap_lemmas.
