(* ===== verification/HeapTable.v ===== *)
(** * Heap files refine a table (src/src/storage/PageManager.cpp)

    The operations of [Heap], over any page store that meets its interface,
    act on the abstract table of Heap.v: a partial map from row ids to
    tuples. *)
From stdpp Require Import base numbers list sorting strings.
From Stdlib Require Import ZArith Lia.
From S2P Require Import Prelude Bytes Common Disk Page PageStore Heap.

Section insert.
Context {St : Type} `{!PageStore St, !PageStoreSpec St}.
Implicit Types (s : St) (f p : Z) (r : RID).

Lemma source_bytes_take data len :
  (Z.to_nat len <= length data)%nat ->
  Heap.source_bytes data len = Ret (take (Z.to_nat len) data).
Proof. intros. unfold Heap.source_bytes. by rewrite decide_True. Qed.

(** A page fetched for writing, not written, and released. *)
Lemma editing_unchanged s s1 s2 f p h :
  editing s s1 f p h (ps_page s f p) -> page_replaced s s2 f p (ps_page s f p) ->
  unchanged s s2.
Proof.
  intros _ [Hi Hs Hp]. split; [done|]. split; [done|]. intros f' p' Hin. rewrite Hp by done.
  case_decide as E; [by destruct E as [-> ->]|done].
Qed.

(** What choosing a slot and placing a tuple do to a page with room. *)
Lemma place_page pg bs :
  page_wf pg -> 0 < Z.of_nat (length bs) <= Page.freeSpace pg ->
  exists i, Page.choose_slot pg = Ret i /\ tuple_at pg i = None /\
    (Z.of_nat i < MAX_SLOTS_PER_PAGE -> exists pg', Page.place pg i bs = Ret pg' /\
      page_wf pg' /\ forall j, tuple_at pg' j = if decide (j = i) then Some bs else tuple_at pg j).
Proof.
  intros Hwf Hlen. rewrite freeSpace_wf in Hlen by done. pose proof (pw_free pg Hwf) as Hfree.
  destruct (choose_slot_spec pg Hwf) as (i & Hc & Hle & Hnl & _). exists i.
  split; [done|]. split; [by apply not_live_tuple_at|]. intros Hi.
  destruct (place_placed pg i bs) as (pg' & Hpl & Hpd); [apply Hwf|lia|lia|done|].
  exists pg'. split; [done|]. split; [by apply (placed_wf pg i bs pg'); (done || lia)|].
  intros j. rewrite (placed_tuple_at pg i bs pg') by done. case_decide; [|done].
  destruct bs; [simpl in Hlen; lia|done].
Qed.

Lemma lookup_row_in s f p i :
  0 <= p < ps_count f s -> lookup_row s f (mkRID p (Z.of_nat i)) = tuple_at (ps_page s f p) i.
Proof. intros Hp. unfold lookup_row. simpl. by rewrite decide_True, Nat2Z.id by lia. Qed.

Lemma insert_into_page_runs s f p data len :
  table_ok s f -> 0 <= p < ps_count f s -> ps_count f s < INVALID_PAGE_ID ->
  0 < len <= MAX_TUPLE -> len <= Z.of_nat (length data) ->
  len <= Page.freeSpace (ps_page s f p) ->
  exists rid s', runs (Heap.insert_into_page f p data len) s rid s' /\
    row_inserted s s' f rid (take (Z.to_nat len) data) /\ ps_count f s <= ps_count f s' <= ps_count f s + 1.
Proof.
  intros Ht Hp Hc Hlen Hdata Hfree. set (bs := take (Z.to_nat len) data).
  assert (Hbs : Z.of_nat (length bs) = len) by (unfold bs; rewrite length_take; lia).
  pose proof Ht as [Hi Hf Hwfs]. pose proof (Hwfs p Hp) as Hwf.
  destruct (place_page (ps_page s f p) bs Hwf) as (i & Hch & Hnone & Hplace); [lia|].
  destruct (editing_start s f p Hi (conj Hf Hp)) as (h & s1 & Hr1 & He1).
  assert (Hrun : forall r s', runs (if MAX_SLOTS_PER_PAGE <=? Z.of_nat i then
      ps_unpin f p false ;; Heap.insert_into_new_page f bs
    else pg' <- lift (Page.place (ps_page s f p) i bs) ;; Heap.set_page h pg' ;;
         ps_unpin f p true ;; ret (mkRID p (Z.of_nat i))) s1 r s' ->
    runs (Heap.insert_into_page f p data len) s r s').
  { intros r s' H. unfold Heap.insert_into_page. eapply runs_bind; [exact Hr1|].
    eapply runs_bind; [by apply (editing_data s _ f p _ (ps_page s f p))|].
    eapply (runs_bind _ _ _ i s1); [unfold runs, lift; by rewrite Hch|].
    eapply (runs_bind _ _ _ bs s1);
      [unfold runs, lift; by rewrite source_bytes_take by lia|done]. }
  destruct (Z.leb_spec MAX_SLOTS_PER_PAGE (Z.of_nat i)) as [Hfull|Hroom].
  - destruct (editing_release _ _ _ _ _ _ false He1) as (s2 & Hr2 & Hrep).
    pose proof (editing_unchanged _ _ _ _ _ _ He1 Hrep) as Hu.
    destruct (table_unchanged s s2 f Ht Hu) as (Ht2 & Ho2 & Hl2).
    assert (Hc2 : ps_count f s2 = ps_count f s) by apply Hu.
    destruct (insert_into_new_page_runs s2 f bs Ht2) as (s3 & Hr3 & (pg3 & Ha3) & [Ht3 Ho3 Hfr Hrows]);
      [by rewrite Hc2|by rewrite Hbs|].
    pose proof (added_count _ _ _ _ Ha3) as Hc3.
    eexists _, s3. split; [apply Hrun; by eapply runs_bind|]. split; [|lia].
    split; [done|by eapply other_files_trans|by rewrite <- Hl2|].
    intros r. rewrite Hrows. case_decide; [done|apply Hl2].
  - destruct (Hplace Hroom) as (pg' & Hpl & Hwf' & Htup).
    destruct (editing_write _ _ _ _ _ _ pg' He1) as (s2 & Hr2 & He2); [apply Hwf'|].
    destruct (editing_release _ _ _ _ _ _ true He2) as (s3 & Hr3 & Hrep).
    destruct (table_replaced s s3 f p pg' Ht Hrep Hwf' Hp) as (Ht3 & Ho3 & Hl3).
    eexists _, s3. split; [|split].
    + apply Hrun. eapply (runs_bind _ _ _ pg' s1); [unfold runs, lift; by rewrite Hpl|].
      do 2 (eapply runs_bind; [done|]). done.
    + split; [done|done|by rewrite lookup_row_in|]. intros r. rewrite Hl3.
      destruct (decide (pageId r = p /\ 0 <= slotNum r)) as [[E1 E2]|Hne].
      * rewrite Htup. destruct (decide (Z.to_nat (slotNum r) = i)) as [E3|E3].
        { by rewrite decide_True by (by apply rid_eta). }
        rewrite decide_False by (intros ->; simpl in E3; lia).
        destruct r as [rp rs]; simpl in *. subst rp.
        rewrite <- (Z2Nat.id rs) by done. by rewrite lookup_row_in, Nat2Z.id.
      * rewrite decide_False; [done|]. intros ->. apply Hne. simpl. lia.
    + destruct (pr_same _ _ _ _ _ Hrep) as [_ Hcc]. rewrite Hcc. lia.
Qed.

Lemma insertTuple_runs s f data len :
  table_ok s f -> ps_count f s + 1 < INVALID_PAGE_ID ->
  0 < len <= MAX_TUPLE -> len <= Z.of_nat (length data) ->
  exists rid s', runs (Heap.insertTuple f data len) s rid s' /\
    row_inserted s s' f rid (take (Z.to_nat len) data) /\ ps_count f s <= ps_count f s' <= ps_count f s + 2.
Proof.
  intros Ht Hc Hlen Hdata.
  destruct (findFreePage_table s f len Ht) as (p & s1 & Hr1 & Ht1 & Ho1 & Hl1 & Hp & Hfree & Hc1);
    [lia|lia|].
  destruct (insert_into_page_runs s1 f p data len) as (rid & s2 & Hr2 & [Ht2 Ho2 Hfr Hrows] & Hc2);
    [done|done|lia|done|done|done|].
  exists rid, s2. split; [by eapply runs_bind|]. split; [|lia].
  split; [done|by eapply other_files_trans|by rewrite <- Hl1|].
  intros r. rewrite Hrows. by case_decide.
Qed.
End insert.

(** ** Reading and deleting *)
Section read_delete.
Context {St : Type} `{!PageStore St, !PageStoreSpec St}.
Implicit Types (s : St) (f p : Z) (r : RID).

(** a row id the C++ types and the file allow *)
Definition rid_in s f r : Prop := 0 <= pageId r < ps_count f s /\ 0 <= slotNum r.

Lemma readTuple_runs s f r :
  table_ok s f -> rid_in s f r ->
  exists s', runs (Heap.readTuple f r) s (default [] (lookup_row s f r)) s' /\ unchanged s s'.
Proof.
  intros [Hi Hf Hwf] [Hp Hs].
  destruct (fetch_read s f (pageId r) false Hi (conj Hf Hp)) as (h & s1 & Hr1 & Hh & Hd & Hk).
  destruct (held_release _ _ _ _ _ false Hh) as (s2 & Hr2 & Hu).
  exists s2. split; [|by eapply unchanged_kept].
  eapply runs_bind; [done|]. eapply (runs_bind _ _ _ (ps_page s f (pageId r)) s1).
  { unfold runs, Heap.page_at, gets. by rewrite Hd. }
  eapply (runs_bind _ _ _ (lookup_row s f r) s1).
  { unfold runs, lift, lookup_row. rewrite read_slot_spec by auto. by rewrite decide_True. }
  eapply runs_bind; done.
Qed.

(** The state of the table after a deletion. *)
Record row_deleted s s' f rid : Prop := {
  rd_table : table_ok s' f;
  rd_other : other_files_same s s' f;
  rd_count : ps_count f s' = ps_count f s;
  rd_rows : forall r, lookup_row s' f r = if decide (r = rid) then None else lookup_row s f r;
}.

Lemma deleteTuple_runs s f rid :
  table_ok s f -> rid_in s f rid ->
  exists s', runs (Heap.deleteTuple f rid) s tt s' /\ row_deleted s s' f rid.
Proof.
  intros Ht [Hp Hs]. pose proof Ht as [Hi Hf Hwf].
  destruct (erase_slot_spec (ps_page s f (pageId rid)) (slotNum rid))
    as (pg' & Her & Hwf' & _ & _ & Htup); [by apply Hwf|done|].
  destruct (editing_start s f (pageId rid) Hi (conj Hf Hp)) as (h & s1 & Hr1 & He1).
  destruct (editing_write _ _ _ _ _ _ pg' He1) as (s2 & Hr2 & He2); [apply Hwf'|].
  destruct (editing_release _ _ _ _ _ _ true He2) as (s3 & Hr3 & Hrep).
  destruct (table_replaced s s3 f (pageId rid) pg' Ht Hrep Hwf' Hp) as (Ht3 & Ho3 & Hl3).
  exists s3. split.
  - eapply runs_bind; [done|].
    eapply runs_bind; [by apply (editing_data s s1 f (pageId rid) h (ps_page s f (pageId rid)))|].
    eapply (runs_bind _ _ _ pg' s1); [unfold runs, lift; by rewrite Her|].
    eapply runs_bind; done.
  - split; [done|done|apply (pr_same _ _ _ _ _ Hrep)|]. intros r. rewrite Hl3.
    destruct (decide (r = rid)) as [->|Hne].
    + rewrite decide_True, Htup by done. by rewrite decide_True by lia.
    + destruct (decide (pageId r = pageId rid /\ 0 <= slotNum r)) as [[E1 E2]|]; [|done].
      rewrite Htup, decide_False by (destruct r, rid; simpl in *; intros ?; apply Hne; f_equal; lia).
      unfold lookup_row. rewrite E1. by rewrite decide_True.
Qed.
End read_delete.

(** ** Scanning *)

(** The callback over a list of rows, stopped by its answer. *)
Fixpoint visit {A} (callback : A -> RID -> list byte -> outcome (A * bool))
    (rows : list (RID * list byte)) (acc : A) : outcome (A * bool) :=
  match rows with
  | [] => Ret (acc, true)
  | (r, d) :: rest =>
      x <~ callback acc r d ;;
      if x.2 then visit callback rest x.1 else Ret (x.1, false)
  end.

Lemma visit_app {A} (cb : A -> RID -> list byte -> outcome (A * bool)) l1 l2 acc :
  visit cb (l1 ++ l2) acc =
    (x <~ visit cb l1 acc ;; if x.2 then visit cb l2 x.1 else Ret (x.1, false)).
Proof.
  revert acc. induction l1 as [|[r d] l1 IH]; intros acc; simpl; [done|].
  destruct (cb acc r d) as [[a []]|e|]; simpl; auto.
Qed.

Lemma scan_slots_visit {A} (cb : A -> RID -> list byte -> outcome (A * bool)) p pg n :
  page_wf pg -> forall i acc, Z.of_nat (i + n) <= Page.numSlots pg ->
  Heap.scan_slots cb p pg acc i n =
    visit cb (omap (fun i => d ← tuple_at pg i; Some (mkRID p (Z.of_nat i), d)) (seq i n)) acc.
Proof.
  intros Hwf. induction n as [|n IH]; intros i acc Hn; simpl; [done|].
  pose proof (pw_slots pg Hwf). unfold Page.slot_in_range. rewrite decide_True by lia. simpl.
  rewrite IH by lia. unfold tuple_at at 2.
  destruct (Z.ltb_spec 0 (Page.slotLengths pg i)) as [Hpos|Hpos].
  - rewrite (decide_True (P := _ /\ _)) by lia. simpl. rewrite decide_True.
    { destruct (cb _ _ _) as [[a []]|e|]; simpl; try done. apply IH. lia. }
    destruct (pw_live pg Hwf i) as [H1 H2]; [split; lia|].
    pose proof (pw_free pg Hwf). rewrite (pw_len pg Hwf). pose proof PAGE_BYTES_Z.
    unfold HEADER_SIZE, PAGE_SIZE in *. pose proof (slotLengths_range pg i).
    pose proof (slotDirectory_range pg i). unfold is_u16 in *. lia.
  - by rewrite decide_False by lia.
Qed.

Section scan.
Context {St : Type} `{!PageStore St, !PageStoreSpec St}.
Implicit Types (s : St) (f p : Z) (r : RID).

Lemma rows_from_unchanged s s' f p n :
  unchanged s s' -> ps_file s f -> 0 <= p -> p + Z.of_nat n <= ps_count f s ->
  rows_from s' f p n = rows_from s f p n.
Proof.
  intros (_ & _ & Hk) Hf. revert p. induction n as [|n IH]; intros p Hp Hn; simpl; [done|].
  rewrite IH by lia. by rewrite Hk by (split; [done|lia]).
Qed.

Lemma scan_pages_runs {A} (cb : A -> RID -> list byte -> outcome (A * bool)) f n : forall s p acc x,
  table_ok s f -> 0 <= p -> p + Z.of_nat n <= ps_count f s ->
  visit cb (rows_from s f p n) acc = Ret x ->
  exists s', runs (Heap.scan_pages cb f p n acc) s x.1 s' /\ unchanged s s'.
Proof.
  induction n as [|n IH]; intros s p acc x Ht Hp Hn Hv.
  { injection Hv as <-. exists s. split; [done|]. by apply unchanged_refl, Ht. }
  pose proof Ht as [Hi Hf Hwf]. simpl in Hv. rewrite visit_app in Hv.
  destruct (visit cb (page_rows _ _) acc) as [y|e|] eqn:Hy; try discriminate. simpl in Hv.
  destruct (fetch_read s f p false Hi) as (h & s1 & Hr1 & Hh & Hd & Hk); [split; [done|lia]|].
  destruct (held_release _ _ _ _ _ false Hh) as (s2 & Hr2 & Hu).
  pose proof (unchanged_kept _ _ _ Hk Hu) as Hu2.
  assert (Hrun : forall a s', runs (if y.2 then Heap.scan_pages cb f (p + 1) n y.1 else ret y.1) s2 a s' ->
    runs (Heap.scan_pages cb f p (S n) acc) s a s').
  { intros a s' H. simpl. eapply runs_bind; [done|].
    eapply (runs_bind _ _ _ (ps_page s f p) s1); [unfold runs, Heap.page_at, gets; by rewrite Hd|].
    eapply (runs_bind _ _ _ y s1).
    { unfold runs, lift. rewrite scan_slots_visit; [|apply Hwf; lia|].
      - unfold page_rows in Hy. by rewrite Hy.
      - pose proof (numSlots_range (ps_page s f p)) as Hr. unfold is_u16 in Hr. lia. }
    eapply runs_bind; [done|done]. }
  destruct y as [a b]. simpl in *. destruct b.
  - destruct (table_unchanged s s2 f Ht Hu2) as (Ht2 & _ & _).
    destruct (IH s2 (p + 1) a x Ht2) as (s3 & Hr3 & Hu3); [lia| | |].
    + destruct Hu2 as (_ & [_ Hc] & _). rewrite Hc. lia.
    + by rewrite (rows_from_unchanged s s2) by (done || lia).
    + exists s3. split; [by apply Hrun|]. by eapply unchanged_trans.
  - injection Hv as <-. exists s2. split; [by apply Hrun|done].
Qed.

Lemma scanTable_runs {A} (cb : A -> RID -> list byte -> outcome (A * bool)) s f acc x :
  table_ok s f -> visit cb (table_rows s f) acc = Ret x ->
  exists s', runs (Heap.scanTable cb f acc) s x.1 s' /\ unchanged s s'.
Proof.
  intros Ht Hv. pose proof (ps_count_range s f (tb_idle _ _ Ht) (tb_file _ _ Ht)) as [Hpos _].
  destruct (scan_pages_runs cb f (Z.to_nat (ps_count f s)) s 0 acc x) as (s' & Hr & Hu);
    [done|done|lia|done|].
  exists s'. split; [|done]. eapply runs_bind; done.
Qed.

(** ** The rows of a table *)
Lemma elem_of_page_rows p pg r d :
  (r, d) ∈ page_rows p pg <-> pageId r = p /\ 0 <= slotNum r /\ tuple_at pg (Z.to_nat (slotNum r)) = Some d.
Proof.
  unfold page_rows. rewrite list_elem_of_omap. split.
  - intros (i & Hi & Hb). apply bind_Some in Hb as (d' & Ht & [= <- <-]). simpl.
    split; [done|]. split; [lia|]. by rewrite Nat2Z.id.
  - intros (Hp & Hs & Ht). exists (Z.to_nat (slotNum r)). rewrite Ht. simpl. split.
    + apply elem_of_seq. unfold tuple_at in Ht. case_decide as E; [|done]. lia.
    + destruct r as [rp rs]; simpl in *. by rewrite Hp, Z2Nat.id.
Qed.

Lemma elem_of_rows_from s f n : forall p r d,
  (r, d) ∈ rows_from s f p n <->
    p <= pageId r < p + Z.of_nat n /\ 0 <= slotNum r /\
    tuple_at (ps_page s f (pageId r)) (Z.to_nat (slotNum r)) = Some d.
Proof.
  induction n as [|n IH]; intros p r d; cbn [rows_from].
  - rewrite elem_of_nil. split; [done|]. lia.
  - rewrite elem_of_app, elem_of_page_rows, IH. split.
    + intros [(<- & ?)|(? & ?)]; (split; [lia|done]).
    + intros [Hr Hrest]. destruct (decide (pageId r = p)) as [<-|]; [by left|]. right.
      split; [lia|done].
Qed.

Lemma elem_of_table_rows s f r d :
  0 <= ps_count f s -> (r, d) ∈ table_rows s f <-> lookup_row s f r = Some d.
Proof.
  intros Hpos. unfold table_rows, lookup_row. rewrite elem_of_rows_from, Z2Nat.id by done.
  case_decide as E; [|split; [|done]]; [|by intros (? & ? & _); destruct E].
  split; [by intros (_ & _ & ?)|]. intros Ht. split; [lia|]. split; [lia|done].
Qed.

(** in the order of their ids *)
Definition row_before (a b : RID * list byte) : Prop := Rid.ltb a.1 b.1 = true.

Lemma page_rows_sorted p pg : StronglySorted row_before (page_rows p pg).
Proof.
  unfold page_rows. generalize (Z.to_nat (Page.numSlots pg)) 0%nat. intros n.
  induction n as [|n IH]; intros i; simpl; [constructor|].
  destruct (tuple_at pg i) as [d|]; simpl; [|apply IH]. constructor; [apply IH|].
  rewrite Forall_forall. intros [r d'] (j & Hj & Hb)%list_elem_of_omap.
  apply elem_of_seq in Hj. apply bind_Some in Hb as (d'' & _ & [= <- _]).
  unfold row_before, Rid.ltb. simpl. rewrite Z.eqb_refl. simpl. apply Z.ltb_lt. lia.
Qed.

Lemma rows_from_sorted s f n : forall p, StronglySorted row_before (rows_from s f p n).
Proof.
  induction n as [|n IH]; intros p; cbn [rows_from]; [constructor|].
  apply StronglySorted_app_2; [|apply page_rows_sorted|apply IH].
  intros [r d] [r' d'] (Hr & _)%elem_of_page_rows (Hr' & _)%elem_of_rows_from.
  unfold row_before, Rid.ltb. simpl.
  destruct (Z.eqb_spec (pageId r) (pageId r')); simpl; [lia|]. apply Z.ltb_lt. lia.
Qed.
End scan.

(** ** Creating a table, and the two ways an insertion leaves its page *)
Section limits.
Context {St : Type} `{!PageStore St, !PageStoreSpec St}.
Implicit Types (s : St) (f p : Z) (r : RID).

Lemma createTable_runs s name :
  ps_idle s -> ps_creatable s (name +:+ ".db") ->
  exists f s', runs (Heap.createTable name) s f s' /\ ~ ps_file s f /\ table_ok s' f /\
    ps_count f s' = 1 /\ (forall r, lookup_row s' f r = None) /\ others_kept s s' f.
Proof.
  intros Hi Hcr.
  destruct (ps_create_spec s _ Hi Hcr) as (f & s1 & Hr1 & Hi1 & Hnf & Hpos & Hfl & Hcn & Hp).
  assert (Hf1 : ps_file s1 f) by (apply Hfl; by left).
  assert (Hc1 : ps_count f s1 = 0) by (rewrite Hcn; by rewrite decide_True).
  destruct (new_page_runs s1 f Hi1 Hf1) as (s2 & Hr2 & Ha); [by rewrite Hc1|].
  destruct (initPage_spec (ps_count f s1)) as (Hwf & _).
  assert (Ht1 : table_ok s1 f) by (split; [done|done|rewrite Hc1; lia]).
  destruct (table_added s1 s2 f _ Ht1 Ha Hwf) as (Ht2 & _ & Hl2).
  exists f, s2. split.
  { eapply runs_bind; [done|]. eapply runs_bind; done. }
  split; [done|]. split; [done|]. split; [|split].
  - rewrite (added_count _ _ _ _ Ha). lia.
  - intros r. rewrite Hl2, initPage_tuple_at. case_decide; [done|].
    unfold lookup_row. rewrite Hc1. by rewrite decide_False by lia.
  - intros f' Hne Hf'. split; [by apply Ha, Hfl; right|].
    assert (Hc' : ps_count f' s1 = ps_count f' s) by (by rewrite Hcn, decide_False).
    split; [by rewrite (pa_count _ _ _ _ Ha), decide_False|].
    intros p' Hin. rewrite (pa_page _ _ _ _ Ha); [by apply Hp|]. split; [apply Hfl; by right|]. by rewrite Hc'.
Qed.

(** A tuple longer than a page can hold: the copy overruns the page. *)
Lemma store_tuple_overrun pg i bs :
  length pg = PAGE_BYTES -> Z.of_nat i < MAX_SLOTS_PER_PAGE ->
  PAGE_SIZE < Page.freeSpacePtr pg + Z.of_nat (length bs) ->
  Page.store_tuple pg i bs = Undef.
Proof.
  intros Hl Hi Hbig. unfold Page.store_tuple, Page.slot_in_range. rewrite decide_True by done.
  simpl. unfold Page.copy_in. rewrite freeSpacePtr_set_slot, length_set_slot by done.
  pose proof PAGE_BYTES_Z. pose proof (freeSpacePtr_range pg). unfold is_u16 in *.
  unfold PAGE_SIZE in *. by rewrite decide_False by lia.
Qed.

Lemma insertTuple_overrun s f data len :
  table_ok s f -> ps_count f s < INVALID_PAGE_ID ->
  MAX_TUPLE < len <= 65535 -> len <= Z.of_nat (length data) ->
  exists s', Heap.insertTuple f data len s = (Undef, s').
Proof.
  intros Ht Hc Hlen Hdata. pose proof Ht as [Hi Hf Hwfs].
  pose proof (ps_count_range s f Hi Hf) as [Hpos _].
  destruct (findFreePage_runs s f len Ht Hc) as (p & s1 & Hr1 & [(_ & Hp & Hfree & _)|(Ha & -> & _)]).
  { rewrite freeSpace_wf in Hfree by (apply Hwfs; lia).
    pose proof (pw_free _ (Hwfs p Hp)). unfold MAX_TUPLE in *. lia. }
  destruct (initPage_spec (ps_count f s)) as (Hwf & Hn & Hfr).
  pose proof (added_in_file _ _ _ _ Ha Hf Hpos) as Hin.
  destruct (editing_start s1 f (ps_count f s) (pa_idle _ _ _ _ Ha) Hin) as (h & s2 & Hr2 & He2).
  rewrite (pa_new _ _ _ _ Ha) in He2. exists s2.
  unfold Heap.insertTuple. rewrite (bind_runs _ _ _ _ _ Hr1).
  unfold Heap.insert_into_page. rewrite (bind_runs _ _ _ _ _ Hr2).
  rewrite (bind_runs _ _ _ _ _ (editing_data _ _ _ _ _ _ Hin He2)).
  destruct (choose_slot_spec _ Hwf) as (i & Hch & Hle & _). rewrite Hn in Hle.
  unfold bind, lift. rewrite Hch, source_bytes_take by lia.
  unfold MAX_SLOTS_PER_PAGE. destruct (Z.leb_spec 128 (Z.of_nat i)) as [|_]; [lia|].
  unfold Page.place. rewrite store_tuple_overrun; [done|apply Hwf|unfold MAX_SLOTS_PER_PAGE; lia|].
  rewrite Hfr, length_take. unfold MAX_TUPLE in Hlen. lia.
Qed.

(** The first page with room for [len] bytes has all its slots in use. *)
Definition slots_exhausted s f p len : Prop :=
  0 <= p < ps_count f s /\ len <= Page.freeSpace (ps_page s f p) /\
  (forall q, 0 <= q < p -> Page.freeSpace (ps_page s f q) < len) /\
  Page.numSlots (ps_page s f p) = MAX_SLOTS_PER_PAGE /\
  forall i, Z.of_nat i < MAX_SLOTS_PER_PAGE -> live (ps_page s f p) i.

Lemma insertTuple_exhausted s f p data len :
  table_ok s f -> ps_count f s + 1 < INVALID_PAGE_ID -> slots_exhausted s f p len ->
  0 < len <= MAX_TUPLE -> len <= Z.of_nat (length data) ->
  exists s', runs (Heap.insertTuple f data len) s (mkRID (ps_count f s) 0) s' /\
    table_ok s' f /\ ps_count f s' = ps_count f s + 1 /\ slots_exhausted s' f p len.
Proof.
  intros Ht Hc (Hp & Hfree & Hmin & Hn & Hlive) Hlen Hdata. pose proof Ht as [Hi Hf Hwfs].
  set (bs := take (Z.to_nat len) data).
  assert (Hbs : Z.of_nat (length bs) = len) by (unfold bs; rewrite length_take; lia).
  destruct (findFreePage_runs s f len Ht) as (q & s1 & Hr1 & [(Hu & Hq & Hqf & Hqm)|(_ & _ & Hno)]);
    [lia| |by specialize (Hno p Hp); lia].
  assert (q = p) as ->.
  { destruct (Z.lt_trichotomy q p) as [H|[->|H]]; [|done|].
    - specialize (Hmin q). lia.
    - specialize (Hqm p). lia. }
  destruct (table_unchanged s s1 f Ht Hu) as (Ht1 & _ & _).
  pose proof Hu as (Hi1 & [_ Hc1] & Hk1).
  assert (Hin1 : ps_in_file s1 f p) by (split; [apply Ht1|by rewrite Hc1]).
  destruct (editing_start s1 f p Hi1 Hin1) as (h & s2 & Hr2 & He2).
  destruct (editing_release _ _ _ _ _ _ false He2) as (s3 & Hr3 & Hrep).
  pose proof (editing_unchanged _ _ _ _ _ _ He2 Hrep) as Hu3.
  destruct (table_unchanged s1 s3 f Ht1 Hu3) as (Ht3 & _ & _).
  assert (Hc3 : ps_count f s3 = ps_count f s) by (rewrite <- Hc1; apply Hu3).
  destruct (insert_into_new_page_runs s3 f bs Ht3) as (s4 & Hr4 & (pg & Ha4) & [Ht4 _ _ _]);
    [lia|by rewrite Hbs|]. pose proof (added_count _ _ _ _ Ha4) as Hc4. rewrite Hc3 in Hr4, Hc4.
  exists s4. split; [|split; [done|split; [done|]]].
  - eapply runs_bind; [exact Hr1|]. eapply runs_bind; [exact Hr2|].
    eapply runs_bind; [by apply (editing_data s1 _ f p _ (ps_page s1 f p))|].
    rewrite Hk1 by (split; done). pose proof (Hwfs p Hp) as Hwf.
    destruct (choose_slot_spec _ Hwf) as (i & Hch & Hle & Hnl & _).
    eapply (runs_bind _ _ _ i s2); [unfold runs, lift; by rewrite Hch|].
    eapply (runs_bind _ _ _ bs s2);
      [unfold runs, lift; by rewrite source_bytes_take by lia|].
    destruct (Z.leb_spec MAX_SLOTS_PER_PAGE (Z.of_nat i)); [by eapply runs_bind|].
    by destruct Hnl; apply Hlive.
  - assert (Hk4 : forall q, 0 <= q < ps_count f s -> ps_page s4 f q = ps_page s f q).
    { intros q Hqr.
      rewrite (pa_page _ _ _ _ Ha4) by (split; [apply Ht3|by rewrite Hc3]).
      rewrite (proj2 (proj2 Hu3)) by (split; [apply Ht1|by rewrite Hc1]).
      by rewrite Hk1 by (split; [done|done]). }
    unfold slots_exhausted. rewrite Hc4, Hk4 by done.
    split; [lia|]. split; [done|]. split; [|done].
    intros q' Hq'. rewrite Hk4 by lia. by apply Hmin.
Qed.
End limits.
