(* ===== verification/Storage.v ===== *)
(** * The storage engine: heap files over the buffer pool over the disk

    Heap's operations at the [Store] of Pool.v, with restart: the page cache
    is written back, the process ends, and the tables are opened again from
    the files. *)
From stdpp Require Import base numbers list strings gmap.
From Stdlib Require Import ZArith Lia.
From S2P Require Import Prelude Bytes Common Disk Page PageStore Pool PoolStore PoolSpec Heap HeapTable.

#[local] Opaque Pool.makePageKey.

(** ** Opening a file again *)

(** the state of a process that starts on the file system [fs] *)
Definition boot (fs : FileSystem) (n : Z) : Store := mkStore (Disk.init fs) (Pool.init n).

Lemma init_disk_ok fs : disk_ok (Disk.init fs).
Proof.
  assert (Hf : files_ (Disk.init fs) = ∅ /\ nextFileId_ (Disk.init fs) = 1).
  { unfold Disk.init, Disk.ensureDataDir, modify. simpl. by destruct (bool_decide _). }
  destruct Hf as [Hf Hn].
  split; rewrite ?Hf, ?Hn; try (intros ??; by rewrite lookup_empty);
    [|by unfold INT_MAX]. intros i j hi hj. by rewrite Hf, lookup_empty.
Qed.

Lemma boot_idle fs n : 0 < n -> store_idle (boot fs n).
Proof.
  intros Hn. apply init_idle; [done|apply init_disk_ok|]. intros f h. unfold Disk.init, Disk.ensureDataDir, modify.
  simpl. by destruct (bool_decide _); simpl; rewrite lookup_empty.
Qed.

Lemma init_fs fs : DATA_DIR ∈ fs_dirs fs -> Disk.init fs = mkDisk fs ∅ 1.
Proof. intros H. unfold Disk.init, Disk.ensureDataDir, modify. simpl. by rewrite bool_decide_true. Qed.

Lemma open_inout_dir fs path : open_inout fs path = true -> DATA_DIR ∈ fs_dirs fs.
Proof.
  unfold open_inout, can_open. rewrite !andb_true_iff. intros [[H _] _].
  by apply bool_decide_eq_true in H.
Qed.

(** The first file a fresh process opens. *)
Lemma openFile_boot fs n name :
  open_inout fs (Disk.full_path name) = true ->
  Z.of_nat (length (file_content fs (Disk.full_path name))) < 2 ^ 32 ->
  let h := mkHandle (Disk.full_path name)
    (Z.of_nat (length (file_content fs (Disk.full_path name))) / PAGE_SIZE) true in
  runs (on_disk (Disk.openFile name)) (boot fs n) 1
    (mkStore (mkDisk fs {[1 := h]} 2) (Pool.init n)).
Proof.
  intros Ho Hlen h. unfold boot. rewrite init_fs by (by eapply open_inout_dir).
  unfold runs, on_disk, zoom, Disk.openFile, bind, get. simpl. rewrite Ho. simpl.
  rewrite u32_small by (unfold is_u32; lia). unfold Disk.add_handle, bind, get, lift, int_succ. done.
Qed.

Lemma reopened_ok fs h :
  open_inout fs (fileName h) = true -> stream_good h = true -> is_u32 (pageCount h) ->
  pageCount h = Z.of_nat (length (file_content fs (fileName h))) / PAGE_SIZE ->
  disk_ok (mkDisk fs {[1 := h]} 2).
Proof.
  intros Ho Hg Hc Hs. split; simpl.
  - intros i hi [<- <-]%lookup_singleton_Some. done.
  - intros i j hi hj. simpl. rewrite !lookup_singleton_Some. intros [<- _] [<- _]. done.
  - intros i hi [<- <-]%lookup_singleton_Some. done.
  - intros i hi [<- <-]%lookup_singleton_Some. lia.
  - unfold INT_MAX. lia.
  - intros i hi [<- <-]%lookup_singleton_Some. done.
  - intros i hi [<- <-]%lookup_singleton_Some. done.
Qed.

(** What a fresh process sees of a file that was written back whole. *)
Lemma reopen_runs s1 f h name n :
  store_inv s1 -> 0 < n -> files_ (st_disk s1) !! f = Some h ->
  fileName h = Disk.full_path name -> pageCount h * PAGE_SIZE + PAGE_SIZE <= 2 ^ 32 ->
  exists s2, runs (on_disk (Disk.openFile name)) (boot (disk_fs (st_disk s1)) n) 1 s2 /\
    store_idle s2 /\ is_file s2 1 /\ Disk.getFilePageCount 1 (st_disk s2) = pageCount h /\
    forall p, page_of s2 1 p = disk_page (st_disk s1) f p.
Proof.
  intros Hinv Hn Hf Hname Hsmall.
  pose proof (si_disk s1 Hinv) as Hd. set (fs := disk_fs (st_disk s1)).
  pose proof (do_open _ Hd f h Hf) as Ho. pose proof (do_size _ Hd f h Hf) as Hs.
  pose proof (do_count _ Hd f h Hf) as Hc. pose proof (do_good _ Hd f h Hf) as Hg.
  fold fs in Ho, Hs. unfold PAGE_SIZE in Hs, Hsmall.
  assert (Hlen : Z.of_nat (length (file_content fs (fileName h))) < 2 ^ 32).
  { pose proof (Z.mul_succ_div_gt (Z.of_nat (length (file_content fs (fileName h)))) 4096). lia. }
  rewrite Hname in Ho, Hlen. pose proof (openFile_boot fs n name Ho Hlen) as Hr.
  rewrite <- Hname in Hr. unfold PAGE_SIZE in Hr. rewrite <- Hs in Hr.
  assert (Hh : mkHandle (fileName h) (pageCount h) true = h) by (destruct h; simpl in *; congruence).
  rewrite Hh in Hr. eexists. split; [exact Hr|]. split; [|split; [|split]].
  - apply init_idle; [done|apply reopened_ok; [congruence|done|done|done]|].
    intros i hi; simpl; intros [<- <-]%lookup_singleton_Some. by apply (si_count s1 Hinv f).
  - exists h. apply lookup_singleton_eq.
  - unfold Disk.getFilePageCount. simpl. by rewrite lookup_singleton_eq.
  - intros p. unfold page_of, cached, disk_page. simpl. by rewrite lookup_empty, lookup_singleton_eq, Hf.
Qed.

Lemma table_ok_files s f : table_ok s f -> exists h, files_ (st_disk s) !! f = Some h /\
  ps_count f s = pageCount h.
Proof.
  intros Ht. destruct (tb_file _ _ Ht) as [h Hh]. exists h. split; [done|].
  by apply getFilePageCount_handle.
Qed.

(** Write back, stop, start, open: the table is the same. *)
Lemma restart_runs order s f h name n :
  table_ok s f -> (forall t, order t ≡ₚ map_to_list t) -> 0 < n ->
  files_ (st_disk s) !! f = Some h -> fileName h = Disk.full_path (name +:+ ".db") ->
  pageCount h * PAGE_SIZE + PAGE_SIZE <= 2 ^ 32 ->
  exists s1 s2, runs (Pool.flushAllPages order) s tt s1 /\
    runs (Heap.openTable name) (boot (disk_fs (st_disk s1)) n) 1 s2 /\ table_ok s2 1 /\
    forall r, lookup_row s2 1 r = lookup_row s f r.
Proof.
  intros Ht Hord Hn Hf Hname Hsmall. pose proof (so_inv s (proj1 (tb_idle _ _ Ht))) as Hinv.
  destruct (flushAllPages_runs order s Hinv Hord) as (s1 & Hr1 & Hfl & Hpg).
  assert (Hf1 : files_ (st_disk s1) !! f = Some h) by (by rewrite (proj1 (fl_files _ _ Hfl))).
  destruct (reopen_runs s1 f h (name +:+ ".db") n (fl_inv _ _ Hfl) Hn Hf1 Hname Hsmall)
    as (s2 & Hr2 & Hi2 & Hf2 & Hc2 & Hp2).
  assert (Hc : Disk.getFilePageCount f (st_disk s) = pageCount h) by by apply getFilePageCount_handle.
  assert (Heq : forall p, 0 <= p < pageCount h -> ps_page s2 1 p = ps_page s f p).
  { intros p Hp. simpl. rewrite Hp2. apply Hpg. by exists h. }
  exists s1, s2. split; [done|]. split; [done|]. split; [split|].
  - done.
  - done.
  - simpl. rewrite Hc2. intros p Hp. rewrite Heq by done. apply (tb_pages _ _ Ht). simpl. by rewrite Hc.
  - intros r. unfold lookup_row. simpl. rewrite Hc2, Hc. case_decide as E; [|done].
    by rewrite Heq by lia.
Qed.

(** ** A concrete store, for the examples *)
Definition demo_boot : Store := boot (mkFS ∅ ∅ ∅) 2.
Definition demo : Store := (Heap.createTable "t" demo_boot).2.

Lemma demo_boot_idle : ps_idle demo_boot.
Proof. by apply boot_idle. Qed.

Lemma demo_creatable : ps_creatable demo_boot ("t" +:+ ".db").
Proof. split; [by vm_compute|]. split; [|by vm_compute]. intros i h.
  assert (H : files_ (st_disk demo_boot) = ∅) by (vm_compute; reflexivity).
  by rewrite H, lookup_empty.
Qed.

Lemma demo_created : table_ok demo 1 /\ ps_count 1 demo = 1 /\ forall r, lookup_row demo 1 r = None.
Proof.
  destruct (createTable_runs demo_boot "t" demo_boot_idle demo_creatable)
    as (f & s & Hr & _ & Ht & Hc & Hl & _).
  assert (Hd : demo = s) by (unfold demo; by rewrite Hr). rewrite Hd.
  assert (Hf : (Heap.createTable "t" demo_boot).1 = Ret 1) by (vm_compute; reflexivity).
  rewrite Hr in Hf. injection Hf as ->. done.
Qed.

Lemma demo_file : files_ (st_disk demo) !! 1 = Some (mkHandle (Disk.full_path "t.db") 1 true).
Proof. vm_compute. reflexivity. Qed.
