(* ===== verification/StorageThms.v ===== *)
(** * Theorems of the storage layer

    What a client of [PageManager], [BufferPool] and [DiskManager] may rely
    on. The theorems on tables hold over every page store that meets the
    interface of PageStore.v, hence over the buffer pool; their examples run on
    it. *)
From stdpp Require Import base numbers list sorting strings gmap.
From Stdlib Require Import ZArith Lia.
From S2P Require Import Prelude Bytes Common Disk Page PageStore Pool PoolStore PoolSpec Heap HeapTable Storage.

#[local] Opaque Pool.makePageKey.

(** ** Tables *)
Section tables.
Context {St : Type} `{!PageStore St, !PageStoreSpec St}.

(** C3: inserting a tuple that fits in a page returns normally with a row id
    that was not in use; afterwards the table is well formed, that id denotes
    exactly the bytes given, every other row and every other file is as it was,
    and no page stays pinned. *)
Theorem insertTuple_correct (s : St) f data len :
  table_ok s f -> ps_count f s + 1 < INVALID_PAGE_ID ->
  0 < len <= MAX_TUPLE -> len <= Z.of_nat (length data) ->
  exists rid s', runs (Heap.insertTuple f data len) s rid s' /\
    table_ok s' f /\ other_files_same s s' f /\ lookup_row s f rid = None /\
    forall r, lookup_row s' f r =
      if decide (r = rid) then Some (take (Z.to_nat len) data) else lookup_row s f r.
Proof.
  intros Ht Hc Hlen Hd. destruct (insertTuple_runs s f data len Ht Hc Hlen Hd) as (rid & s' & Hr & [????] & _).
  by exists rid, s'.
Qed.

(** C6: reading a row returns its bytes (none for an empty slot) and changes
    nothing a client can see. *)
Theorem readTuple_correct (s : St) f r :
  table_ok s f -> rid_in s f r ->
  exists s', runs (Heap.readTuple f r) s (default [] (lookup_row s f r)) s' /\ table_ok s' f /\
    forall f' p', ps_in_file s f' p' -> ps_page s' f' p' = ps_page s f' p'.
Proof.
  intros Ht Hr. destruct (readTuple_runs s f r Ht Hr) as (s' & Hrun & Hu). exists s'.
  split; [done|]. split; [by apply (table_unchanged s s' f Ht Hu)|apply Hu].
Qed.

(** C5: deleting a row empties that row and no other. *)
Theorem deleteTuple_correct (s : St) f rid :
  table_ok s f -> rid_in s f rid ->
  exists s', runs (Heap.deleteTuple f rid) s tt s' /\ table_ok s' f /\ other_files_same s s' f /\
    forall r, lookup_row s' f r = if decide (r = rid) then None else lookup_row s f r.
Proof.
  intros Ht Hr. destruct (deleteTuple_runs s f rid Ht Hr) as (s' & Hrun & [????]). by exists s'.
Qed.

(** C4: a scan applies its callback to the rows of the table, each exactly
    once, in strictly increasing order of row id, up to and including the
    first row where the callback answers false, and returns what the callback
    accumulated; the table is unchanged. *)
Theorem scanTable_correct {A} (callback : A -> RID -> list byte -> outcome (A * bool)) (s : St) f acc x :
  table_ok s f -> visit callback (table_rows s f) acc = Ret x ->
  StronglySorted row_before (table_rows s f) /\
  (forall r d, (r, d) ∈ table_rows s f <-> lookup_row s f r = Some d) /\
  exists s', runs (Heap.scanTable callback f acc) s x.1 s' /\ table_ok s' f /\
    forall r, lookup_row s' f r = lookup_row s f r.
Proof.
  intros Ht Hv. split; [apply rows_from_sorted|]. split.
  - intros r d. apply elem_of_table_rows. apply (ps_count_range s f (tb_idle _ _ Ht) (tb_file _ _ Ht)).
  - destruct (scanTable_runs callback s f acc x Ht Hv) as (s' & Hr & Hu). exists s'.
    destruct (table_unchanged s s' f Ht Hu) as (? & _ & ?). done.
Qed.

(** Creating a table opens a new file id on a file with one empty page; no
    other file changes. *)
Theorem createTable_correct (s : St) name :
  ps_idle s -> ps_creatable s (name +:+ ".db") ->
  exists f s', runs (Heap.createTable name) s f s' /\ ~ ps_file s f /\ table_ok s' f /\
    ps_count f s' = 1 /\ (forall r, lookup_row s' f r = None) /\ others_kept s s' f.
Proof. apply createTable_runs. Qed.

(** C11: a tuple longer than 3576 bytes (a page less its header) is not
    rejected: the copy runs past the end of the page, whatever the table
    holds. *)
Theorem insertTuple_oversize (s : St) f data len :
  table_ok s f -> ps_count f s < INVALID_PAGE_ID ->
  MAX_TUPLE < len <= 65535 -> len <= Z.of_nat (length data) ->
  exists s', Heap.insertTuple f data len s = (Undef, s').
Proof. apply insertTuple_overrun. Qed.

(** the same call, [n] times *)
Fixpoint insert_many (n : nat) (f : Z) (data : list byte) (len : Z) : M St (list RID) :=
  match n with
  | O => ret []
  | S n' => r <- Heap.insertTuple f data len ;; rs <- insert_many n' f data len ;; ret (r :: rs)
  end.

(** Once the first page with room for a tuple has all 128 slots in use,
    every insertion of that length adds a page to the file and puts one tuple
    in its first slot: [n] insertions cost [n] pages. *)
Theorem insertTuple_slots_exhausted n : forall (s : St) f p data len,
  table_ok s f -> slots_exhausted s f p len -> ps_count f s + Z.of_nat n < INVALID_PAGE_ID ->
  0 < len <= MAX_TUPLE -> len <= Z.of_nat (length data) ->
  exists s', runs (insert_many n f data len) s
      (map (fun i => mkRID (ps_count f s + Z.of_nat i) 0) (seq 0 n)) s' /\
    table_ok s' f /\ ps_count f s' = ps_count f s + Z.of_nat n.
Proof.
  induction n as [|n IH]; intros s f p data len Ht Hex Hc Hlen Hd.
  { exists s. split; [done|]. split; [done|lia]. }
  destruct (insertTuple_exhausted s f p data len) as (s1 & Hr1 & Ht1 & Hc1 & Hex1); [done|lia|done..|].
  destruct (IH s1 f p data len) as (s2 & Hr2 & Ht2 & Hc2); [done|done|lia|done|done|].
  exists s2. split; [|split; [done|lia]].
  eapply runs_bind; [done|]. eapply runs_bind; [done|]. unfold runs, ret. do 2 f_equal.
  simpl. f_equal; [f_equal; lia|]. rewrite <- seq_shift, map_map.
  apply map_ext. intros i. f_equal. lia.
Qed.
End tables.

(** *** The theorems at the store of Storage.v *)
Section examples.
Definition xs : list byte := [Byte.x01; Byte.x02; Byte.x03].

Lemma insertTuple_correct_witness :
  exists rid s', runs (Heap.insertTuple 1 xs 3) demo rid s' /\ lookup_row s' 1 rid = Some xs.
Proof.
  destruct demo_created as (Ht & Hc & _).
  destruct (insertTuple_correct demo 1 xs 3 Ht) as (rid & s' & Hr & _ & _ & _ & Hl);
    [rewrite Hc; done|done|done|].
  exists rid, s'. split; [exact Hr|]. rewrite Hl. by rewrite decide_True.
Defined.

(** a table with one row, at (0, 0) *)
Definition demo1 : Store := (Heap.insertTuple 1 xs 3 demo).2.

Lemma demo1_created : table_ok demo1 1 /\ ps_count 1 demo1 = 1 /\
  lookup_row demo1 1 (mkRID 0 0) = Some xs.
Proof.
  destruct demo_created as (Ht & Hc & _).
  destruct (insertTuple_runs demo 1 xs 3 Ht) as (rid & s' & Hr & Hi & _); [by rewrite Hc|done|done|].
  assert (Hs : demo1 = s') by (unfold demo1; by rewrite Hr).
  assert (Hrid : (Heap.insertTuple 1 xs 3 demo).1 = Ret (mkRID 0 0)) by (vm_compute; reflexivity).
  rewrite Hr in Hrid. injection Hrid as ->. rewrite <- Hs in *. split; [apply Hi|]. split.
  - vm_compute. reflexivity.
  - rewrite (ri_rows _ _ _ _ _ Hi). by rewrite decide_True.
Qed.

Lemma demo1_rid : rid_in demo1 1 (mkRID 0 0).
Proof. destruct demo1_created as (_ & Hc & _). split; [rewrite Hc; simpl; lia|done]. Qed.

Lemma readTuple_correct_witness :
  exists s', runs (Heap.readTuple 1 (mkRID 0 0)) demo1 xs s'.
Proof.
  destruct demo1_created as (Ht & _ & Hl).
  destruct (readTuple_correct demo1 1 (mkRID 0 0) Ht demo1_rid) as (s' & Hr & _).
  rewrite Hl in Hr. exists s'. exact Hr.
Defined.

Lemma deleteTuple_correct_witness :
  exists s', runs (Heap.deleteTuple 1 (mkRID 0 0)) demo1 tt s' /\ lookup_row s' 1 (mkRID 0 0) = None.
Proof.
  destruct demo1_created as (Ht & _ & Hl).
  destruct (deleteTuple_correct demo1 1 (mkRID 0 0) Ht demo1_rid) as (s' & Hr & _ & _ & Hd).
  exists s'. split; [exact Hr|]. rewrite Hd. by rewrite decide_True.
Defined.

Definition collect (acc : list (RID * list byte)) (r : RID) (d : list byte)
    : outcome (list (RID * list byte) * bool) := Ret (acc ++ [(r, d)], true).

Lemma scanTable_correct_witness :
  exists s', runs (Heap.scanTable collect 1 []) demo1 [(mkRID 0 0, xs)] s'.
Proof.
  destruct demo1_created as (Ht & _ & _).
  destruct (scanTable_correct collect demo1 1 [] ([(mkRID 0 0, xs)], true) Ht) as (_ & _ & s' & Hr & _).
  - vm_compute. reflexivity.
  - exists s'. exact Hr.
Defined.

Lemma createTable_correct_witness :
  exists f s', runs (Heap.createTable "t") demo_boot f s' /\ table_ok s' f.
Proof.
  destruct (createTable_correct demo_boot "t" demo_boot_idle demo_creatable)
    as (f & s' & Hr & _ & Ht & _).
  exists f, s'. split; [exact Hr|exact Ht].
Defined.

Lemma insertTuple_oversize_witness :
  exists s', Heap.insertTuple 1 (replicate (Z.to_nat 3577) Byte.x01) 3577 demo = (Undef, s').
Proof.
  destruct demo_created as (Ht & Hc & _).
  apply (insertTuple_oversize demo 1 _ 3577 Ht); [by rewrite Hc|done|].
  rewrite length_replicate. lia.
Defined.

Lemma insert_many_ok n data len : forall s f,
  table_ok s f -> ps_count f s + 2 * Z.of_nat n + 1 < INVALID_PAGE_ID ->
  0 < len <= MAX_TUPLE -> len <= Z.of_nat (length data) ->
  table_ok (insert_many n f data len s).2 f.
Proof.
  induction n as [|n IH]; intros s f Ht Hc Hlen Hd; simpl; [done|].
  destruct (insertTuple_runs s f data len Ht) as (rid & s1 & Hr & Hi & Hc1); [lia|done|done|].
  rewrite (bind_runs _ _ _ _ _ Hr). specialize (IH s1 f (ri_table _ _ _ _ _ Hi)).
  unfold bind. destruct (insert_many n f data len s1) as [[a|e|] s2]; apply IH; lia.
Qed.

(** 128 rows of one byte in the only page *)
Definition demo_full : Store := (insert_many 128 1 [Byte.x01] 1 demo).2.

Lemma demo_full_page :
  let pg := page_of demo_full 1 0 in
  ps_count 1 demo_full = 1 /\ Page.numSlots pg = 128 /\ Page.freeSpace pg = 3448 /\
  forallb (fun i => 0 <? Page.slotLengths pg i) (seq 0 128) = true.
Proof. split; [|split; [|split]]; vm_compute; reflexivity. Qed.

Lemma demo_full_ok : table_ok demo_full 1.
Proof.
  destruct demo_created as (Ht & Hc & _). apply insert_many_ok; [done|by rewrite Hc|done|done].
Qed.
#[local] Opaque demo_full.

Lemma demo_full_exhausted : slots_exhausted demo_full 1 0 1.
Proof.
  destruct demo_full_page as (Hc & Hn & Hf & Hl). unfold slots_exhausted.
  change (ps_page demo_full 1 0) with (page_of demo_full 1 0). rewrite Hc, Hf, Hn. split; [lia|]. split; [lia|]. split; [lia|]. split; [done|].
  intros i Hi. unfold MAX_SLOTS_PER_PAGE in Hi. split; [lia|].
  rewrite forallb_forall in Hl. specialize (Hl i). rewrite in_seq, Z.ltb_lt in Hl. lia.
Qed.

Lemma insertTuple_slots_exhausted_witness :
  exists s', runs (insert_many 5 1 [Byte.x01] 1) demo_full
    [mkRID 1 0; mkRID 2 0; mkRID 3 0; mkRID 4 0; mkRID 5 0] s' /\ ps_count 1 s' = 6.
Proof.
  destruct demo_full_page as (Hfc & _).
  destruct (insertTuple_slots_exhausted 5 demo_full 1 0 [Byte.x01] 1 demo_full_ok demo_full_exhausted)
    as (s' & Hr & _ & Hn);
    [rewrite Hfc; unfold INVALID_PAGE_ID; lia|unfold MAX_TUPLE, PAGE_SIZE, HEADER_SIZE; lia|simpl; lia|].
  rewrite Hfc in Hr, Hn. exists s'. split; [exact Hr|exact Hn].
Defined.
End examples.
