(* ===== verification/PoolLru.v ===== *)
(** * Least recently used

    Sequences of the pool's calls, with the history of the pages they release:
    the LRU list is in the order of the releases, the latest at its head. *)
From stdpp Require Import base numbers list sorting strings gmap.
From Stdlib Require Import ZArith Lia.
From S2P Require Import Prelude Bytes Common Disk PageStore Pool PoolStore PoolSpec.

#[local] Opaque Pool.makePageKey.

(** ** Histories of releases *)
(** Page keys, the latest release first: how many releases ago a page was last
    released. *)
Definition age (h : list Z) (k : Z) : option nat := fst <$> list_find (eq k) h.

(** [k] was last released before [k'] was. *)
Definition older (h : list Z) (k k' : Z) : Prop :=
  exists n n', age h k = Some n /\ age h k' = Some n' /\ (n' < n)%nat.

Lemma age_head k h : age (k :: h) k = Some 0%nat.
Proof. unfold age. simpl. by rewrite decide_True. Qed.
Lemma age_next k k' h : k' <> k -> age (k :: h) k' = S <$> age h k'.
Proof.
  intros Hne. unfold age. simpl. rewrite decide_False by done. by destruct (list_find _ h) as [[j x]|].
Qed.
Lemma older_head h k k' : k' <> k -> is_Some (age h k') -> older (k :: h) k' k.
Proof.
  intros Hne [n Hn]. exists (S n), 0%nat. rewrite age_head, age_next, Hn by done. split; [done|]. split; [done|lia].
Qed.
Lemma older_next h k k1 k2 : k1 <> k -> k2 <> k -> older h k1 k2 -> older (k :: h) k1 k2.
Proof.
  intros H1 H2 (n & n' & E1 & E2 & Hlt). exists (S n), (S n'). rewrite !age_next, E1, E2 by done.
  split; [done|]. split; [done|lia].
Qed.

Lemma StronglySorted_sub {A} (R : A -> A -> Prop) l1 l2 : l1 `sublist_of` l2 -> StronglySorted R l2 -> StronglySorted R l1.
Proof.
  induction 1 as [|x l1 l2 Hsub IH|x l1 l2 Hsub IH]; intros Hs; [done|..]; apply StronglySorted_inv in Hs as [Hs Hx]; [|by apply IH].
  constructor; [by apply IH|]. rewrite Forall_forall in *. intros y Hy. apply Hx. by eapply elem_of_sublist.
Qed.
Lemma StronglySorted_weaken {A} (R R' : A -> A -> Prop) l :
  (forall x y, x ∈ l -> y ∈ l -> R x y -> R' x y) -> StronglySorted R l -> StronglySorted R' l.
Proof.
  intros HR Hs. induction Hs as [|x l Hs IH Hx]; constructor.
  - apply IH. intros y z Hy Hz. apply HR; by right.
  - rewrite Forall_forall in *. intros y Hy. apply HR; [by left|by right|by apply Hx].
Qed.
Lemma StronglySorted_last {A} (R : A -> A -> Prop) l x : StronglySorted R l -> last l = Some x -> forall y, y ∈ l -> y <> x -> R y x.
Proof.
  intros Hs Hl y Hy Hne. apply last_Some in Hl as [l' ->]. apply elem_of_app in Hy as [Hy|Hy%list_elem_of_singleton]; [|done].
  apply StronglySorted_app in Hs as (H & _). apply H; [done|by left].
Qed.

(** ** The calls *)
Inductive pool_call :=
  | CFetch (f p : Z) (w : bool)
  | CUnpin (f p : Z) (dirty : bool)
  | CWrite (i : nat) (bs : list byte)  (* through the pointer to a frame *)
  | CFlush (f p : Z)
  | CFlushAll (order : gmap Z nat -> list (Z * nat))
  | CAlloc (f : Z)
  | CCreate (name : string).

Definition do_call (c : pool_call) : M Store unit :=
  match c with
  | CFetch f p w => Pool.fetchPage f p w ;; ret tt
  | CUnpin f p dirty => Pool.unpinPage f p dirty
  | CWrite i bs => modify (Pool.write_data i bs)
  | CFlush f p => Pool.flushPage f p
  | CFlushAll order => Pool.flushAllPages order
  | CAlloc f => on_disk (Disk.allocateNewPage f) ;; ret tt
  | CCreate name => on_disk (Disk.createFile name) ;; ret tt
  end.

(** What callers keep to. A fetch may fail, for want of a frame or because its
    file is not open; an unpin may be of a page that is not cached or pinned. *)
Definition call_ok (s : Store) (c : pool_call) : Prop :=
  match c with
  | CFetch f p _ => (in_file s f p /\ pins_of s (Pool.makePageKey f p) < INT_MAX) \/
                    (valid_page f p /\ files_ (st_disk s) !! f = None)
  | CUnpin f p _ | CFlush f p => valid_page f p
  | CWrite i bs => length bs = PAGE_BYTES /\ exists f p fr, cached s f p = Some i /\
                   frames_ (st_pool s) !! i = Some fr /\ fr_isDirty fr = true
  | CFlushAll order => forall t, order t ≡ₚ map_to_list t
  | CAlloc f => exists h, files_ (st_disk s) !! f = Some h /\ pageCount h < INVALID_PAGE_ID
  | CCreate name => creatable s name
  end.

(** A page is released when its last pin goes. *)
Definition releases (s : Store) (c : pool_call) : list Z :=
  match c with
  | CUnpin f p _ =>
      let k := Pool.makePageKey f p in if decide (pins_of s k = 1) then [k] else []
  | _ => []
  end.

(** The states that calls lead to from [s0], with the pages released; a call
    that throws leaves the state it had reached. *)
Inductive history (s0 : Store) : list Z -> Store -> Prop :=
  | hist_start : history s0 [] s0
  | hist_call h s c :
      history s0 h s -> call_ok s c -> history s0 (releases s c ++ h) (do_call c s).2.

(** ** What calls do to the LRU list *)
Definition key_of (s : Store) (i : nat) : Z :=
  match frames_ (st_pool s) !! i with Some fr => frame_key fr | None => -1 end.

Record keeps_lru (s s' : Store) : Prop := {
  kl_list : lruList_ (st_pool s') `sublist_of` lruList_ (st_pool s);
  kl_keys : forall i, i ∈ lruList_ (st_pool s') -> key_of s' i = key_of s i;
}.

Lemma keeps_refl s : keeps_lru s s.
Proof. done. Qed.
Lemma keeps_trans s1 s2 s3 : keeps_lru s1 s2 -> keeps_lru s2 s3 -> keeps_lru s1 s3.
Proof.
  intros [L1 K1] [L2 K2]. split; [by etrans|]. intros i Hi. rewrite K2 by done. apply K1. by eapply elem_of_sublist.
Qed.
Lemma keeps_disk s d : keeps_lru s (mkStore d (st_pool s)).
Proof. done. Qed.

(** a frame of the same page *)
Lemma key_of_update s i fr fr' (b : BufferPool) d j :
  frames_ (st_pool s) !! i = Some fr -> same_page fr fr' -> frames_ b = <[i := fr']> (frames_ (st_pool s)) ->
  key_of (mkStore d b) j = key_of s j.
Proof.
  intros Hi [Hf Hn _] Hb. unfold key_of. simpl. rewrite Hb. destruct (decide (i = j)) as [<-|Hne].
  - rewrite list_lookup_insert_eq, Hi by by eapply lookup_lt_Some. unfold frame_key. by rewrite Hf, Hn.
  - by rewrite list_lookup_insert_ne.
Qed.

Lemma sublist_erase i l : Pool.erase_node i l `sublist_of` l.
Proof. induction l as [|x l IH]; simpl; [done|]. case_decide; [by constructor|by constructor]. Qed.
Lemma sublist_removelast {A} (l : list A) : removelast l `sublist_of` l.
Proof. destruct l as [|x l] using rev_ind; [done|]. rewrite removelast_last. by apply sublist_inserts_r. Qed.

Lemma keeps_bind {A B} (m : M Store A) (k : A -> M Store B) s :
  keeps_lru s (m s).2 -> (forall a s1, m s = (Ret a, s1) -> keeps_lru s1 (k a s1).2) -> keeps_lru s (bind m k s).2.
Proof.
  intros Hm Hk. unfold bind. destruct (m s) as [[a|e|] s1] eqn:E; simpl in *; [|done..].
  eapply keeps_trans; [done|by apply Hk].
Qed.

Lemma on_disk_keeps {A} (m : M DiskManager A) s : keeps_lru s (on_disk m s).2.
Proof. unfold on_disk, zoom. by destruct (m (st_disk s)) as [o d]. Qed.

Lemma evict_keeps fr s : keeps_lru s (Pool.evict fr s).2.
Proof.
  unfold Pool.evict. destruct (_ && _); [|done]. apply keeps_bind; [done|]. intros [] s1 _.
  destruct (fr_isDirty fr); [apply on_disk_keeps|done].
Qed.

Lemma acquire_keeps s : keeps_lru s (Pool.acquire s).2.
Proof.
  unfold Pool.acquire. apply keeps_bind.
  - unfold Pool.findVictimFrame, bind, get. destruct (freeList_ (st_pool s)); [|done].
    destruct (last _); [|done]. split; [simpl; apply sublist_removelast|done].
  - intros i s1 _. apply keeps_bind; [done|]. intros fr s2 _. apply keeps_bind; [apply evict_keeps|done].
Qed.

(** A miss, whether or not the page can be read. *)
Lemma load_keeps s f p w : store_inv s -> keeps_lru s (Pool.load f p w s).2.
Proof.
  intros Hs. unfold Pool.load. apply keeps_bind; [done|]. intros [] s0 [= <-]. set (s0 := mkStore _ _).
  assert (Hs0 : store_inv s0) by by apply store_inv_stats.
  apply keeps_bind; [apply acquire_keeps|]. intros i s1 Ha.
  destruct (decide (has_victim (st_pool s0))) as [Hv|Hv].
  2: { exfalso. unfold has_victim in Hv. unfold Pool.acquire, Pool.findVictimFrame, bind, get in Ha.
       destruct (freeList_ (st_pool s0)); [|by destruct Hv; left]. destruct (last (lruList_ (st_pool s0))) eqn:El; [|done].
       destruct Hv. right. intros E. by rewrite E in El. }
  destruct (acquire_runs s0 Hs0 Hv) as (i' & s1' & Hr & Haq). unfold runs in Hr. rewrite Hr in Ha. injection Ha as -> ->.
  apply keeps_bind; [apply on_disk_keeps|]. intros bs s2 H2. unfold on_disk, zoom in H2.
  destruct (Disk.readPage f p (st_disk s1)) as [o d]. injection H2 as _ <-.
  split; [done|]. intros j Hj. unfold key_of. simpl. rewrite list_lookup_insert_ne; [done|].
  intros <-. by apply (dt_lru _ _ (aq_detached _ _ _ Haq)).
Qed.

Lemma pin_keeps s i fr w : frames_ (st_pool s) !! i = Some fr -> keeps_lru s (Pool.pin_cached i w s).2.
Proof.
  intros Hi. unfold Pool.pin_cached. apply keeps_bind; [done|]. intros [] s0 [= <-]. set (s0 := mkStore _ _).
  apply keeps_bind; [done|]. intros fr0 s1 H1. unfold Pool.frame_at, bind, get, lift in H1. simpl in H1.
  rewrite Hi in H1. injection H1 as <- <-. apply keeps_bind; [done|]. intros pins s1 [= _ <-].
  set (fr' := mkFrame _ _ _ _ _ _). split.
  - simpl. case_bool_decide; [apply sublist_erase|done].
  - intros j _. apply (key_of_update s i fr fr'); [done|done|]. simpl. by case_bool_decide.
Qed.

Lemma fetch_keeps s f p w : store_inv s -> keeps_lru s (Pool.fetchPage f p w s).2.
Proof.
  intros Hs. unfold Pool.fetchPage. apply keeps_bind; [done|]. intros s0 s1 [= <- <-].
  destruct (pageTable_ (st_pool s) !! _) as [i|] eqn:Hc; [|by apply load_keeps].
  destruct (pi_table _ (si_pool s Hs) _ i Hc) as (fr & Hfr & _). by eapply pin_keeps.
Qed.

Lemma write_keeps i bs s : keeps_lru s (Pool.write_data i bs s).
Proof.
  unfold Pool.write_data. destruct (frames_ (st_pool s) !! i) as [fr|] eqn:Hi; [|done].
  split; [done|]. intros j _. by apply (key_of_update s i fr (mkFrame bs (fr_pageId fr) (fr_fileId fr) (fr_pageNum fr) (fr_isDirty fr) (fr_pinCount fr))).
Qed.

Lemma clean_keeps s i fr d : frames_ (st_pool s) !! i = Some fr ->
  keeps_lru s (mkStore d (set_frame i (Pool.clean fr) (st_pool s))).
Proof. intros Hi. split; [done|]. intros j _. by apply (key_of_update s i fr (Pool.clean fr)). Qed.

Lemma flush_frame_keeps i s : keeps_lru s (Pool.flush_frame i s).2.
Proof.
  unfold Pool.flush_frame, Pool.frame_at, bind, get, lift. simpl.
  destruct (frames_ (st_pool s) !! i) as [fr|] eqn:Hi; simpl; [|done]. destruct (_ && _); [|done].
  unfold on_disk, zoom. destruct (Disk.writePage _ _ _ _) as [[u|e|] d]; simpl; [by apply clean_keeps|done..].
Qed.

Lemma flush_entries_keeps es : forall s, keeps_lru s (Pool.flush_entries es s).2.
Proof.
  induction es as [|[k i] es IH]; intros s; [done|]. cbn [Pool.flush_entries].
  apply keeps_bind; [apply flush_frame_keeps|]. intros u s1 _. apply IH.
Qed.

(** [flushPage] does to a cached page what [flushAllPages] does to each. *)
Lemma flushPage_frame s f p i :
  store_inv s -> valid_page f p -> cached s f p = Some i -> Pool.flushPage f p s = Pool.flush_frame i s.
Proof.
  intros Hs Hv Hc. destruct (cached_frame s f p i Hs Hv Hc) as (fr & Hfr & <- & <- & _).
  unfold cached in Hc. unfold Pool.flushPage, Pool.flush_frame, Pool.frame_at, bind, get, lift. rewrite Hc. simpl.
  rewrite Hfr. simpl. destruct Hv as [[Hf _] _]. by rewrite (proj2 (Z.leb_le 0 _)), andb_true_r by done.
Qed.

Lemma flushPage_keeps s f p : store_inv s -> valid_page f p -> keeps_lru s (Pool.flushPage f p s).2.
Proof.
  intros Hs Hv. destruct (cached s f p) as [i|] eqn:Hc; [rewrite (flushPage_frame s f p i); [apply flush_frame_keeps|done..]|].
  unfold Pool.flushPage, bind, get. unfold cached in Hc. by rewrite Hc.
Qed.

(** [unpinPage] on a page that is not pinned, or pinned more than once, *)
Lemma unpin_keeps s f p d :
  store_inv s -> pins_of s (Pool.makePageKey f p) <> 1 -> keeps_lru s (Pool.unpinPage f p d s).2.
Proof.
  intros Hs Hp. unfold Pool.unpinPage. apply keeps_bind; [done|]. intros s0 s1 [= <- <-]. unfold pins_of in Hp.
  destruct (pageTable_ (st_pool s) !! _) as [i|] eqn:Hc; [|done].
  destruct (pi_table _ (si_pool s Hs) _ i Hc) as (fr & Hfr & _). rewrite Hfr in Hp.
  unfold Pool.frame_at, bind at 1 2, get, lift. rewrite Hfr. simpl.
  destruct (Z.leb_spec (fr_pinCount fr) 0); [done|].
  assert ((fr_pinCount fr - 1 =? 0) = false) as -> by (apply Z.eqb_neq; lia). set (fr' := mkFrame _ _ _ _ _ _).
  split; [done|]. intros j _. by apply (key_of_update s i fr fr').
Qed.

(** and the release of a page. *)
Lemma unpin_releases s f p d :
  store_inv s -> pins_of s (Pool.makePageKey f p) = 1 ->
  let s' := (Pool.unpinPage f p d s).2 in
  exists i, lruList_ (st_pool s') = i :: lruList_ (st_pool s) /\ key_of s' i = Pool.makePageKey f p /\
    forall j, j ∈ lruList_ (st_pool s) -> key_of s' j = key_of s j /\ key_of s j <> Pool.makePageKey f p.
Proof.
  intros Hs Hp s'. unfold pins_of in Hp. pose proof (si_pool s Hs) as Hb.
  destruct (pageTable_ (st_pool s) !! _) as [i|] eqn:Hc; [|done].
  destruct (pi_table _ Hb _ i Hc) as (fr & Hfr & [Hkey _ _]). rewrite Hfr in Hp.
  set (fr' := mkFrame (fr_data fr) (fr_pageId fr) (fr_fileId fr) (fr_pageNum fr)
                (if d then true else fr_isDirty fr) (fr_pinCount fr - 1)).
  assert (Es' : s' = mkStore (st_disk s) (set_lru (i :: lruList_ (st_pool s)) ({[i]} ∪ lruMap_ (st_pool s))
                       (set_frame i fr' (st_pool s)))).
  { unfold s', Pool.unpinPage, Pool.frame_at, bind, get, lift. rewrite Hc. simpl. rewrite Hfr. simpl.
    rewrite (proj2 (Z.leb_gt (fr_pinCount fr) 0)) by lia.
    by assert ((fr_pinCount fr - 1 =? 0) = true) as -> by (apply Z.eqb_eq; lia). }
  exists i. rewrite Es'. split; [done|].
  assert (Hkeys : forall j, key_of (mkStore (st_disk s) (set_lru (i :: lruList_ (st_pool s)) ({[i]} ∪ lruMap_ (st_pool s))
    (set_frame i fr' (st_pool s)))) j = key_of s j) by (intros j; by apply (key_of_update s i fr fr')).
  split; [rewrite Hkeys; unfold key_of; by rewrite Hfr|]. intros j Hj. rewrite Hkeys. split; [done|].
  apply (pi_lru _ Hb) in Hj as (k & fj & Hk & Hj & Hpj). destruct (pi_table _ Hb k j Hk) as (fj' & Hj' & [Hkj _ _]).
  unfold key_of. rewrite Hj. intros E. assert (fj' = fj) as -> by congruence. rewrite E in Hkj. subst k.
  rewrite Hc in Hk. injection Hk as <-. rewrite Hfr in Hj. injection Hj as ->. lia.
Qed.

(** ** Every call keeps the store's invariant *)
Lemma fetch_inv s f p w :
  store_inv s -> call_ok s (CFetch f p w) -> store_inv (Pool.fetchPage f p w s).2.
Proof.
  intros Hs Hok. assert (Hfull : cached s f p = None -> ~ has_victim (st_pool s) -> store_inv (Pool.fetchPage f p w s).2).
  { intros Hc Hv. unfold has_victim in Hv. unfold Pool.fetchPage, bind, get. unfold cached in Hc. rewrite Hc.
    unfold Pool.load, Pool.acquire, Pool.findVictimFrame, bind, on_pool, modify, get. simpl.
    destruct (freeList_ (st_pool s)) eqn:Hf; [|by destruct Hv; left].
    destruct (lruList_ (st_pool s)) eqn:Hl; [|by destruct Hv; right]. by apply store_inv_stats. }
  destruct (decide (has_victim (st_pool s))) as [Hv|Hv].
  2: { destruct (cached s f p) as [i|] eqn:Hc; [|by apply Hfull]. destruct Hok as [[Hin Hp]|[Hvp Hnf]].
       - destruct (fetchPage_runs s f p w Hs Hin Hp) as (j & s' & Hr & Hft); [congruence|].
         unfold runs in Hr. rewrite Hr. apply Hft.
       - rewrite (not_cached s f p Hs Hvp) in Hc; [done|]. intros (h & Hh & _). congruence. }
  destruct Hok as [[Hin Hp]|[Hvp Hnf]].
  { destruct (fetchPage_runs s f p w Hs Hin Hp) as (j & s' & Hr & Hft); [done|]. unfold runs in Hr. rewrite Hr. apply Hft. }
  assert (Hc : cached s f p = None) by (apply not_cached; [done..|intros (h & Hh & _); congruence]).
  unfold Pool.fetchPage, bind at 1, get. unfold cached in Hc. rewrite Hc. unfold Pool.load, bind at 1, on_pool, modify.
  set (s0 := mkStore _ _). assert (Hs0 : store_inv s0) by by apply store_inv_stats.
  destruct (acquire_runs s0 Hs0 Hv) as (i & s1 & Hr & Haq). rewrite (bind_runs _ _ _ _ _ Hr).
  unfold bind, on_disk, zoom. rewrite readPage_no_file; [by destruct s1; apply Haq|].
  destruct (aq_files _ _ _ Haq) as [-> _]. done.
Qed.

Lemma flushPage_inv s f p : store_inv s -> valid_page f p -> store_inv (Pool.flushPage f p s).2.
Proof.
  intros Hs Hv. destruct (cached s f p) as [i|] eqn:Hc.
  - rewrite (flushPage_frame s f p i) by done. destruct (cached_frame s f p i Hs Hv Hc) as (fr & Hfr & _).
    destruct (flush_frame_runs s _ i fr Hs Hc Hfr) as (s' & Hr & Hf & _). unfold runs in Hr. rewrite Hr. apply Hf.
  - unfold Pool.flushPage, bind, get. unfold cached in Hc. by rewrite Hc.
Qed.

Lemma unpin_inv s f p d : store_inv s -> store_inv (Pool.unpinPage f p d s).2.
Proof.
  intros Hs. destruct (cached s f p) as [i|] eqn:Hc.
  2: { unfold Pool.unpinPage, bind, get. unfold cached in Hc. by rewrite Hc. }
  destruct (pi_table _ (si_pool s Hs) _ i Hc) as (fr & Hfr & _). destruct (Z.leb_spec (fr_pinCount fr) 0) as [Hp|Hp].
  - unfold Pool.unpinPage, Pool.frame_at, bind, get, lift. unfold cached in Hc. rewrite Hc. simpl. rewrite Hfr. simpl.
    by rewrite (proj2 (Z.leb_le _ _)).
  - destruct (unpinPage_runs s f p d i fr Hs Hc Hfr Hp) as (s' & fr' & Hr & Hup & _). unfold runs in Hr. rewrite Hr. apply Hup.
Qed.

Lemma call_inv s c : store_inv s -> call_ok s c -> store_inv (do_call c s).2.
Proof.
  intros Hs Hok.
  assert (Hret : forall A (m : M Store A), (bind m (fun _ => ret tt) s).2 = (m s).2).
  { intros A m. unfold bind. by destruct (m s) as [[a|e|] s1]. }
  destruct c as [f p w|f p d|i bs|f p|order|f|name]; cbn [do_call]; rewrite ?Hret; simpl in Hok.
  - by apply fetch_inv.
  - by apply unpin_inv.
  - destruct Hok as (Hlen & f & p & fr & Hc & Hi & Hd). by apply (write_data_updated s f p i fr).
  - by apply flushPage_inv.
  - destruct (flushAllPages_runs order s Hs Hok) as (s' & Hr & Hf & _). unfold runs in Hr. rewrite Hr. apply Hf.
  - destruct Hok as (h & Hf & Hc). destruct (allocateNewPage_store s f h Hs Hf Hc) as (s' & Hr & Hi & _).
    unfold runs in Hr. by rewrite Hr.
  - destruct (createFile_store s name Hs Hok) as (s' & Hr & Hi & _). unfold runs in Hr. by rewrite Hr.
Qed.

(** ** The LRU list is in the order of the releases *)
Record lru_ordered (h : list Z) (s : Store) : Prop := {
  lo_sorted : StronglySorted (fun i j => older h (key_of s j) (key_of s i)) (lruList_ (st_pool s));
  lo_released : forall i, i ∈ lruList_ (st_pool s) -> is_Some (age h (key_of s i));
}.

Lemma ordered_keeps h s s' : lru_ordered h s -> keeps_lru s s' -> lru_ordered h s'.
Proof.
  intros [Ho Hr] [Hl Hk]. split.
  - apply (StronglySorted_weaken (fun i j => older h (key_of s j) (key_of s i))).
    + intros i j Hi Hj. by rewrite !Hk.
    + by eapply StronglySorted_sub.
  - intros i Hi. rewrite Hk by done. apply Hr. by eapply elem_of_sublist.
Qed.

Lemma ordered_release h s s' i k :
  lru_ordered h s -> lruList_ (st_pool s') = i :: lruList_ (st_pool s) -> key_of s' i = k ->
  (forall j, j ∈ lruList_ (st_pool s) -> key_of s' j = key_of s j /\ key_of s j <> k) -> lru_ordered (k :: h) s'.
Proof.
  intros [Ho Hr] Hl Hi Hk. split; rewrite Hl.
  - constructor.
    + apply (StronglySorted_weaken (fun i j => older h (key_of s j) (key_of s i))); [|done].
      intros x y [Ex Hx]%Hk [Ey Hy]%Hk. rewrite Ex, Ey. by apply older_next.
    + apply Forall_forall. intros j Hj. destruct (Hk j Hj) as [Ej Hne]. rewrite Ej, Hi. by apply older_head; [|apply Hr].
  - intros j [->|Hj]%elem_of_cons; [rewrite Hi, age_head; by eexists|].
    destruct (Hk j Hj) as [Ej Hne]. rewrite Ej, age_next by done. apply fmap_is_Some. by apply Hr.
Qed.

Lemma call_ordered h s c :
  store_inv s -> call_ok s c -> lru_ordered h s -> lru_ordered (releases s c ++ h) (do_call c s).2.
Proof.
  intros Hs Hok Ho.
  assert (Hret : forall A (m : M Store A), keeps_lru s (m s).2 -> keeps_lru s (bind m (fun _ => ret tt) s).2).
  { intros A m Hm. by apply keeps_bind. }
  destruct c as [f p w|f p d|i bs|f p|order|f|name]; cbn [do_call releases app]; simpl in Hok.
  - eapply ordered_keeps; [done|]. by apply Hret, fetch_keeps.
  - case_decide as Hp; simpl; [|eapply ordered_keeps; [done|]; by apply unpin_keeps].
    destruct (unpin_releases s f p d Hs Hp) as (i & Hl & Hi & Hk). by eapply ordered_release.
  - eapply ordered_keeps; [done|]. apply write_keeps.
  - eapply ordered_keeps; [done|]. by apply flushPage_keeps.
  - eapply ordered_keeps; [done|]. unfold Pool.flushAllPages, bind, get. apply flush_entries_keeps.
  - eapply ordered_keeps; [done|]. apply Hret, on_disk_keeps.
  - eapply ordered_keeps; [done|]. apply Hret, on_disk_keeps.
Qed.

Lemma history_ordered s0 h s :
  store_inv s0 -> lruList_ (st_pool s0) = [] -> history s0 h s -> store_inv s /\ lru_ordered h s.
Proof.
  intros Hs0 Hl. induction 1 as [|h s c Hh [Hs Ho] Hok].
  - split; [done|]. split; rewrite Hl; [constructor|]. by intros i ?%elem_of_nil.
  - split; [by apply call_inv|by apply call_ordered].
Qed.

(** The frame of a page that is cached and not pinned is in the list. *)
Lemma unpinned_listed s k i :
  store_inv s -> pageTable_ (st_pool s) !! k = Some i -> pins_of s k = 0 -> i ∈ lruList_ (st_pool s) /\ key_of s i = k.
Proof.
  intros Hs Hk Hp. destruct (pi_table _ (si_pool s Hs) k i Hk) as (fr & Hfr & [-> _ _]).
  split; [|unfold key_of; by rewrite Hfr]. apply (pi_lru _ (si_pool s Hs)). exists (frame_key fr), fr.
  unfold pins_of in Hp. by rewrite Hk, Hfr in Hp.
Qed.
