(* ===== verification/PoolThms.v ===== *)
(** * Theorems of the buffer pool and the disk manager

    The pool caches pages without anyone noticing: it refines the plain array
    of pages per file, whatever is evicted and written back. The page evicted is
    the one released longest ago. Its errors and the ways it can lose a frame are
    here too. *)
From stdpp Require Import base numbers list strings gmap.
From Stdlib Require Import ZArith Lia.
From S2P Require Import Prelude Bytes Common Disk Page PageStore Pool PoolStore PoolSpec Heap HeapTable Storage PoolLru.

(** A page key identifies its file and page: distinct pages of the files a
    process can have open never share an entry of the page table. *)
Theorem makePageKey_injective f p f' p' :
  is_i32 f -> is_i32 f' -> is_u32 p -> is_u32 p' ->
  Pool.makePageKey f p = Pool.makePageKey f' p' -> f = f' /\ p = p'.
Proof. apply makePageKey_inj_lemma. Qed.

Lemma makePageKey_injective_witness :
  exists f p f' p', Pool.makePageKey f p = Pool.makePageKey f' p' /\ f = f' /\ p = p'.
Proof.
  exists 7, 4294967295, 7, 4294967295. split; [reflexivity|].
  apply (makePageKey_injective 7 4294967295 7 4294967295); (reflexivity || unfold_int; lia).
Defined.

#[local] Opaque Pool.makePageKey.

(** ** A flat memory of pages *)
Record flat := mkFlat { flat_count : gmap Z Z; flat_page : Z -> Z -> list byte }.

Inductive page_op :=
  | PRead (f p : Z)
  | PWrite (f p : Z) (bs : list byte)
  | PAlloc (f : Z)
  | PFlush.

Definition flat_has (m : flat) (f p : Z) : bool :=
  match flat_count m !! f with Some n => (0 <=? p) && (p <? n) | None => false end.

(** What each operation promises; [None] outside its preconditions. *)
Definition flat_step (op : page_op) (m : flat) : option (list byte * flat) :=
  match op with
  | PRead f p => if flat_has m f p then Some (flat_page m f p, m) else None
  | PWrite f p bs =>
      if flat_has m f p && (length bs =? PAGE_BYTES)%nat then
        Some ([], mkFlat (flat_count m)
          (fun f' p' => if decide (f' = f /\ p' = p) then bs else flat_page m f' p'))
      else None
  | PAlloc f =>
      n ← flat_count m !! f;
      if n <? INVALID_PAGE_ID then
        Some ([], mkFlat (<[f := n + 1]> (flat_count m))
          (fun f' p' => if decide (f' = f /\ p' = n) then zero_page else flat_page m f' p'))
      else None
  | PFlush => Some ([], m)
  end.

Fixpoint flat_run (ops : list page_op) (m : flat) : option (list (list byte) * flat) :=
  match ops with
  | [] => Some ([], m)
  | op :: rest =>
      r ← flat_step op m; q ← flat_run rest r.2; Some (r.1 :: q.1, q.2)
  end.

(** The same operations by the buffer pool's calls. *)
Definition pool_step (order : gmap Z nat -> list (Z * nat)) (op : page_op) : M Store (list byte) :=
  match op with
  | PRead f p =>
      h <- Pool.fetchPage f p false ;; bs <- gets (Pool.frame_data h) ;;
      Pool.unpinPage f p false ;; ret bs
  | PWrite f p bs =>
      h <- Pool.fetchPage f p true ;; modify (Pool.write_data h bs) ;;
      Pool.unpinPage f p true ;; ret []
  | PAlloc f => on_disk (Disk.allocateNewPage f) ;; ret []
  | PFlush => Pool.flushAllPages order ;; ret []
  end.

Fixpoint pool_run order (ops : list page_op) : M Store (list (list byte)) :=
  match ops with
  | [] => ret []
  | op :: rest => x <- pool_step order op ;; xs <- pool_run order rest ;; ret (x :: xs)
  end.

(** The pool shows the flat memory. *)
Record shows (s : Store) (m : flat) : Prop := {
  sh_idle : store_idle s;
  sh_count : forall f, flat_count m !! f = pageCount <$> files_ (st_disk s) !! f;
  sh_page : forall f p, in_file s f p -> page_of s f p = flat_page m f p;
}.

Lemma shows_in_file s m f p : shows s m -> flat_has m f p = true <-> in_file s f p.
Proof.
  intros [_ Hc _]. unfold flat_has, in_file. rewrite Hc.
  destruct (files_ (st_disk s) !! f) as [h|]; simpl.
  - rewrite andb_true_iff, Z.leb_le, Z.ltb_lt. split; [by eauto|]. by intros (? & [= <-] & ?).
  - split; [done|]. by intros (? & ? & _).
Qed.

Lemma shows_same s s' m :
  shows s m -> store_idle s' -> same_files s s' -> same_contents s s' -> shows s' m.
Proof.
  intros [_ Hc Hp] Hi Hf Hk. split; [done|by rewrite (proj1 Hf)|].
  intros f p Hin. apply (in_file_same s) in Hin; [|done]. rewrite Hk by done. by apply Hp.
Qed.

Lemma flushed_idle s s' : store_idle s -> flushed s s' -> store_idle s'.
Proof.
  intros [[_ Hl Hsz] Hp] Hf. split; [split|].
  - apply Hf.
  - intros i. rewrite (fl_size _ _ Hf), (fl_free _ _ Hf), (fl_table _ _ Hf). apply Hl.
  - by rewrite (fl_size _ _ Hf).
  - intros k. by rewrite (fl_pins _ _ Hf).
Qed.

Lemma step_read s m f p order :
  shows s m -> in_file s f p ->
  exists s', runs (pool_step order (PRead f p)) s (flat_page m f p) s' /\ shows s' m.
Proof.
  intros Hs Hin. destruct (idle_fetch s f p false (sh_idle _ _ Hs) Hin) as (h & s1 & Hr1 & Hh & Hf1 & Hk1).
  destruct (held_frame s1 f p h false Hh) as (fr & Hfr & _ & _ & Hpg).
  destruct (held_unpin s1 f p h false false Hh) as (s2 & Hr2 & Hi2 & Hf2 & Hk2).
  exists s2. split.
  - eapply runs_bind; [done|]. eapply (runs_bind _ _ _ (flat_page m f p) s1).
    + unfold runs, gets, Pool.frame_data. rewrite Hfr, <- Hpg, Hk1 by done. by rewrite (sh_page _ _ Hs).
    + by eapply runs_bind.
  - apply (shows_same s); [done|done|by eapply same_handles_trans|].
    intros f' p' Hin'. rewrite Hk2; [by apply Hk1|]. by apply (in_file_same s).
Qed.

Lemma step_write s m f p bs order :
  shows s m -> in_file s f p -> length bs = PAGE_BYTES ->
  exists s', runs (pool_step order (PWrite f p bs)) s [] s' /\
    shows s' (mkFlat (flat_count m)
      (fun f' p' => if decide (f' = f /\ p' = p) then bs else flat_page m f' p')).
Proof.
  intros Hs Hin Hlen.
  destruct (idle_fetch s f p true (sh_idle _ _ Hs) Hin) as (h & s1 & Hr1 & Hh & Hf1 & Hk1).
  destruct (held_write s1 f p h bs Hh Hlen) as (Hh2 & Hf2 & Hp2).
  destruct (held_unpin _ f p h true true Hh2) as (s3 & Hr3 & Hi3 & Hf3 & Hk3).
  exists s3. split.
  - eapply runs_bind; [done|]. eapply runs_bind; [done|]. by eapply runs_bind.
  - assert (Hf : same_files s s3)
      by (eapply same_handles_trans; [|exact Hf3]; eapply same_handles_trans; [exact Hf1|exact Hf2]).
    split; simpl; [done|rewrite (proj1 Hf); apply Hs|].
    intros f' p' Hin'. apply (in_file_same s) in Hin'; [|done].
    assert (Hin1 : in_file s1 f' p') by by apply (in_file_same s).
    rewrite Hk3 by (by apply (in_file_same s1)). rewrite Hp2, Hk1 by done.
    by rewrite (sh_page _ _ Hs).
Qed.

Lemma step_alloc s m f n order :
  shows s m -> flat_count m !! f = Some n -> n < INVALID_PAGE_ID ->
  exists s', runs (pool_step order (PAlloc f)) s [] s' /\
    shows s' (mkFlat (<[f := n + 1]> (flat_count m))
      (fun f' p' => if decide (f' = f /\ p' = n) then zero_page else flat_page m f' p')).
Proof.
  intros Hs Hn Hlt. pose proof Hn as Hh. rewrite (sh_count _ _ Hs) in Hh.
  apply fmap_Some in Hh as (h & Hf & ->). pose proof (so_inv s (proj1 (sh_idle _ _ Hs))) as Hinv.
  destruct (allocateNewPage_store s f h Hinv Hf Hlt) as (s' & Hr & Hinv' & Hp & Hfiles & Hz & Hk).
  exists s'. split; [by eapply runs_bind|]. split; simpl.
  - by apply (idle_same_pool s); [apply Hs| |].
  - intros f'. rewrite Hfiles. destruct (decide (f = f')) as [<-|Hne]; [by rewrite !lookup_insert_eq|].
    rewrite !lookup_insert_ne by done. apply Hs.
  - intros f' p' (h' & Hf' & Hp'). rewrite Hfiles in Hf'. case_decide as E.
    + by destruct E as [-> ->].
    + apply lookup_insert_Some in Hf' as [[<- <-]|[_ Hf']].
      * assert (Hold : in_file s f p') by (exists h; split; [done|]; simpl in Hp'; lia).
        rewrite Hk by done. by apply Hs.
      * rewrite Hk by (by exists h'). apply Hs. by exists h'.
Qed.

Lemma step_shows order op s m x m' :
  (forall t, order t ≡ₚ map_to_list t) -> shows s m -> flat_step op m = Some (x, m') ->
  exists s', runs (pool_step order op) s x s' /\ shows s' m'.
Proof.
  intros Hord Hs. destruct op as [f p|f p bs|f|]; simpl.
  - destruct (flat_has m f p) eqn:E; [|done]. intros [= <- <-].
    apply (step_read s m f p order Hs). by apply (shows_in_file s m).
  - destruct (flat_has m f p) eqn:E; [|done].
    destruct (Nat.eqb_spec (length bs) PAGE_BYTES) as [El|]; [|done]. intros [= <- <-].
    apply (step_write s m f p bs order Hs); [by apply (shows_in_file s m)|done].
  - intros (n & Hn & Hb)%bind_Some. destruct (Z.ltb_spec n INVALID_PAGE_ID); [|done].
    injection Hb as <- <-. by apply (step_alloc s m f n order).
  - intros [= <- <-]. pose proof (sh_idle _ _ Hs) as Hi.
    destruct (flushAllPages_runs order s (so_inv s (proj1 Hi)) Hord) as (s' & Hr & Hf & _).
    exists s'. split; [by eapply runs_bind|].
    apply (shows_same s); [done|by apply (flushed_idle s)|apply Hf|apply Hf].
Qed.

(** C7: the buffer pool over the disk refines a flat memory of pages: any
    sequence of reads, writes, page allocations and write-backs that the flat
    memory allows returns the same bytes from the pool, in a pool of any size
    of at least one frame, whatever it evicts in between. *)
Theorem pool_refines_flat order ops : forall s m xs m',
  (forall t, order t ≡ₚ map_to_list t) -> shows s m -> flat_run ops m = Some (xs, m') ->
  exists s', runs (pool_run order ops) s xs s' /\ shows s' m'.
Proof.
  induction ops as [|op ops IH]; intros s m xs m' Hord Hs Hrun; simpl in Hrun.
  { injection Hrun as <- <-. by exists s. }
  apply bind_Some in Hrun as ([x m1] & Hstep & Hrun).
  apply bind_Some in Hrun as ([ys m2] & Hrest & [= <- <-]).
  destruct (step_shows order op s m x m1 Hord Hs Hstep) as (s1 & Hr1 & Hs1).
  destruct (IH s1 m1 ys m2 Hord Hs1 Hrest) as (s2 & Hr2 & Hs2).
  exists s2. split; [|done]. eapply runs_bind; [done|]. by eapply runs_bind.
Qed.

(** Two writes, an allocation and a write-back in a pool of one frame. *)
Lemma pool_refines_flat_witness :
  exists s', runs (pool_run map_to_list
      [PAlloc 1; PWrite 1 0 (replicate PAGE_BYTES Byte.x07); PWrite 1 1 (replicate PAGE_BYTES Byte.x08);
       PFlush; PRead 1 0; PRead 1 1])
    (mkStore (mkDisk (mkFS {[Disk.full_path "t" := zero_page]} {[DATA_DIR]} ∅)
                     {[1 := mkHandle (Disk.full_path "t") 1 true]} 2) (Pool.init 1))
    [[]; []; []; []; replicate PAGE_BYTES Byte.x07; replicate PAGE_BYTES Byte.x08] s'.
Proof.
  set (d := mkDisk _ _ _).
  assert (Hok : disk_ok d).
  { apply reopened_ok; [vm_compute; reflexivity|done|vm_compute; split; congruence|vm_compute; reflexivity]. }
  assert (Hs : shows (mkStore d (Pool.init 1)) (mkFlat {[1 := 1]} (disk_page d))).
  { split.
    - apply init_idle; [done|done|]. intros f h. unfold d. simpl. by intros [<- <-]%lookup_singleton_Some.
    - intros f. unfold d. simpl. destruct (decide (f = 1)) as [->|]; [by rewrite !lookup_singleton_eq|].
      by rewrite !lookup_singleton_ne.
    - intros f p _. unfold page_of, cached. simpl. by rewrite lookup_empty. }
  edestruct (pool_refines_flat map_to_list
    [PAlloc 1; PWrite 1 0 (replicate PAGE_BYTES Byte.x07); PWrite 1 1 (replicate PAGE_BYTES Byte.x08);
     PFlush; PRead 1 0; PRead 1 1]) as (s' & Hr & _); [done|exact Hs|reflexivity|].
  exists s'. exact Hr.
Defined.

(** ** Durability *)

(** C8: write-back and restart lose nothing: after [flushAllPages], a new
    process that opens the table's file sees exactly the rows of the table, for
    files under 4 GiB. *)
Theorem restart_preserves_rows order s f h name n :
  table_ok s f -> (forall t, order t ≡ₚ map_to_list t) -> 0 < n ->
  files_ (st_disk s) !! f = Some h -> fileName h = Disk.full_path (name +:+ ".db") ->
  pageCount h * PAGE_SIZE + PAGE_SIZE <= 2 ^ 32 ->
  exists s1 s2, runs (Pool.flushAllPages order) s tt s1 /\
    runs (Heap.openTable name) (boot (disk_fs (st_disk s1)) n) 1 s2 /\ table_ok s2 1 /\
    forall r, lookup_row s2 1 r = lookup_row s f r.
Proof. apply restart_runs. Qed.

Lemma restart_preserves_rows_witness :
  exists s1 s2, runs (Pool.flushAllPages map_to_list) demo tt s1 /\
    runs (Heap.openTable "t") (boot (disk_fs (st_disk s1)) 3) 1 s2 /\ table_ok s2 1.
Proof.
  destruct demo_created as (Ht & _ & _).
  destruct (restart_preserves_rows map_to_list demo 1 (mkHandle (Disk.full_path "t.db") 1 true) "t" 3 Ht)
    as (s1 & s2 & Hr1 & Hr2 & Ht2 & _); [done|done|exact demo_file|reflexivity|simpl; unfold PAGE_SIZE; lia|].
  exists s1, s2. split; [exact Hr1|]. split; [exact Hr2|exact Ht2].
Defined.

(** ** Eviction *)

(** C9: eviction takes the least recently released page, and loses nothing.
    After any sequence of calls on the pool of a new process (fetches, which may
    fail, unpins, writes, write-backs, new pages and files), when no frame is
    free and some cached page is not pinned, the frame for the next miss is that
    of a page without pins, and every other cached page without pins was
    released after it: [h] lists the pages in the order in which their last pins
    were dropped. The contents of the victim reach the disk before the frame is
    reused, its entry leaves the page table, every other cached page stays where
    it was, and no page changes its contents. *)
Theorem eviction_is_lru_and_writes_back fs n h s k0 i0 :
  0 < n -> history (boot fs n) h s -> freeList_ (st_pool s) = [] ->
  pageTable_ (st_pool s) !! k0 = Some i0 -> pins_of s k0 = 0 ->
  exists i fr s1, runs Pool.acquire s i s1 /\ frames_ (st_pool s) !! i = Some fr /\ fr_pinCount fr = 0 /\
    cached s (fr_fileId fr) (fr_pageNum fr) = Some i /\
    (forall k j, pageTable_ (st_pool s) !! k = Some j -> pins_of s k = 0 -> k <> frame_key fr ->
       older h (frame_key fr) k) /\
    disk_page (st_disk s1) (fr_fileId fr) (fr_pageNum fr) = fr_data fr /\
    cached s1 (fr_fileId fr) (fr_pageNum fr) = None /\
    (forall f p j, cached s f p = Some j -> j <> i -> cached s1 f p = Some j) /\
    same_contents s s1.
Proof.
  intros Hn Hh Hfree Hk0 Hp0. destruct (history_ordered (boot fs n) h s) as [Hs Ho]; [apply boot_idle, Hn|done|done|].
  destruct (unpinned_listed s k0 i0 Hs Hk0 Hp0) as [Hin0 _].
  destruct (last (lruList_ (st_pool s))) as [i|] eqn:Hl; [|apply last_None in Hl; by rewrite Hl in Hin0; apply elem_of_nil in Hin0].
  destruct (acquire_lru s i Hs Hfree Hl) as (s1 & Hr & Ha). pose proof (si_pool s Hs) as Hp.
  assert (Hmem : i ∈ lruList_ (st_pool s))
    by (rewrite (last_removelast _ _ Hl); apply elem_of_app; right; by left).
  apply (pi_lru _ Hp) in Hmem as (k & fr & Hk & Hfr & Hpin).
  destruct (pi_table _ Hp k i Hk) as (fr1 & Hfr1 & [Hkey Hv _]). simplify_eq.
  destruct (si_cached s Hs _ i fr Hk Hfr) as [Hin _].
  assert (Hc1 : cached s1 (fr_fileId fr) (fr_pageNum fr) = None).
  { destruct (cached s1 _ _) as [j|] eqn:Hc; [|done].
    apply (aq_keeps _ _ _ Ha) in Hc as [Hj Hne]. unfold cached, frame_key in *. congruence. }
  exists i, fr, s1. split; [done|]. split; [done|]. split; [done|]. split; [done|].
  split; [|split; [|split; [done|split; [|apply Ha]]]].
  - intros k j Hkj Hpj Hne. destruct (unpinned_listed s k j Hs Hkj Hpj) as [Hj Ej].
    assert (Ei : key_of s i = frame_key fr) by (unfold key_of; by rewrite Hfr). rewrite <- Ei, <- Ej in *.
    apply (StronglySorted_last _ _ _ (lo_sorted _ _ Ho) Hl); [done|]. by intros ->.
  - pose proof (aq_pages _ _ _ Ha _ _ Hin) as Hpg. unfold page_of in Hpg. rewrite Hc1 in Hpg.
    unfold cached in Hpg. fold (frame_key fr) in Hpg. rewrite Hk in Hpg.
    unfold Pool.frame_data in Hpg. by rewrite Hfr in Hpg.
  - intros f p j Hj Hne. by apply (aq_keeps _ _ _ Ha).
Qed.

(** Two pages in a pool of two frames, the first written to and released before
    the second. *)
Definition lru_calls : list pool_call :=
  [CCreate "t"; CAlloc 1; CAlloc 1; CFetch 1 0 true; CWrite 0 (replicate PAGE_BYTES Byte.x07);
   CFetch 1 1 false; CUnpin 1 0 true; CUnpin 1 1 false].

Definition after_calls (cs : list pool_call) (s : Store) : Store := foldl (fun s c => (do_call c s).2) s cs.
Definition lru_demo (k : nat) : Store := after_calls (take k lru_calls) (boot (mkFS ∅ ∅ ∅) 2).

Lemma lru_demo_open k : (1 <= k)%nat -> (k <= 8)%nat -> exists h, files_ (st_disk (lru_demo k)) !! 1 = Some h /\
  pageCount h = Z.min (Z.of_nat k - 1) 2.
Proof. intros H1 H8. do 9 (destruct k as [|k]; [try lia; eexists; split; vm_compute; reflexivity|]). lia. Qed.

Lemma history_next s0 h s c h' s' :
  history s0 h s -> call_ok s c -> releases s c = h' -> s' = (do_call c s).2 -> history s0 (h' ++ h) s'.
Proof. intros Hh Hok <- ->. by apply hist_call. Qed.

Lemma lru_demo_history : history (boot (mkFS ∅ ∅ ∅) 2) [4294967297; 4294967296] (lru_demo 8).
Proof.
  assert (Hfile : forall k p, (3 <= k)%nat -> (k <= 8)%nat -> 0 <= p < 2 -> in_file (lru_demo k) 1 p).
  { intros k p H3 H8 Hp. destruct (lru_demo_open k) as (h & Hh & Hc); [lia|lia|]. exists h. split; [done|]. lia. }
  assert (Hvalid : forall p, 0 <= p < 2 -> valid_page 1 p) by (unfold valid_page, INVALID_PAGE_ID, INT_MAX; lia).
  assert (Hstep : forall k c, lru_calls !! k = Some c -> lru_demo (S k) = (do_call c (lru_demo k)).2).
  { intros k c Hc. unfold lru_demo, after_calls. by rewrite (take_S_r _ _ _ Hc), foldl_app. }
  assert (Halloc : forall k, (1 <= k)%nat -> (k <= 8)%nat -> call_ok (lru_demo k) (CAlloc 1)).
  { intros k H1 H8. destruct (lru_demo_open k H1 H8) as (h & Hh & Hc). exists h. split; [done|]. unfold INVALID_PAGE_ID. lia. }
  apply (history_next _ [4294967296] (lru_demo 7) (CUnpin 1 1 false) [4294967297]);
    [|by apply Hvalid|vm_compute; reflexivity|by apply Hstep].
  apply (history_next _ [] (lru_demo 6) (CUnpin 1 0 true) [4294967296]);
    [|by apply Hvalid|vm_compute; reflexivity|by apply Hstep].
  apply (history_next _ [] (lru_demo 5) (CFetch 1 1 false) []);
    [|left; split; [apply Hfile; lia|vm_compute; reflexivity]|done|by apply Hstep].
  apply (history_next _ [] (lru_demo 4) (CWrite 0 (replicate PAGE_BYTES Byte.x07)) []);
    [|split; [done|exists 1, 0; eexists; split; [vm_compute; reflexivity|split; vm_compute; reflexivity]]|done|by apply Hstep].
  apply (history_next _ [] (lru_demo 3) (CFetch 1 0 true) []);
    [|left; split; [apply Hfile; lia|vm_compute; reflexivity]|done|by apply Hstep].
  apply (history_next _ [] (lru_demo 2) (CAlloc 1) []); [|apply Halloc; lia|done|by apply Hstep].
  apply (history_next _ [] (lru_demo 1) (CAlloc 1) []); [|apply Halloc; lia|done|by apply Hstep].
  apply (history_next _ [] (lru_demo 0) (CCreate "t") []); [apply hist_start| |done|by apply Hstep].
  split; [by vm_compute|]. split; [|by vm_compute]. intros i h.
  assert (H : files_ (st_disk (lru_demo 0)) = ∅) by (vm_compute; reflexivity). by rewrite H, lookup_empty.
Qed.

(** The first page is the victim: it was released first, and is on the disk. *)
Lemma eviction_is_lru_and_writes_back_witness :
  exists s1, runs Pool.acquire (lru_demo 8) 0%nat s1 /\ disk_page (st_disk s1) 1 0 = replicate PAGE_BYTES Byte.x07.
Proof.
  destruct (eviction_is_lru_and_writes_back (mkFS ∅ ∅ ∅) 2 [4294967297; 4294967296] (lru_demo 8) 4294967296 0)
    as (i & fr & s1 & Hr & Hfr & _ & _ & _ & Hd & _);
    [lia|exact lru_demo_history|vm_compute; reflexivity|vm_compute; reflexivity|vm_compute; reflexivity|].
  exists s1. assert (Hi : (Pool.acquire (lru_demo 8)).1 = Ret 0%nat) by (vm_compute; reflexivity).
  assert (i = 0%nat) as -> by (unfold runs in Hr; rewrite Hr in Hi; by injection Hi).
  assert (Hd0 : (fun fr => (fr_fileId fr, fr_pageNum fr, fr_data fr)) <$> (frames_ (st_pool (lru_demo 8)) !! 0%nat)
                = Some (1, 0, replicate PAGE_BYTES Byte.x07)) by (vm_compute; reflexivity).
  rewrite Hfr in Hd0. injection Hd0 as E1 E2 E3. rewrite E1, E2, E3 in Hd. split; [exact Hr|exact Hd].
Defined.

(** When every frame is pinned, fetching a page that is not cached throws,
    and nothing but the miss counter changes. *)
Theorem fetchPage_all_pinned s f p w :
  freeList_ (st_pool s) = [] -> lruList_ (st_pool s) = [] -> cached s f p = None ->
  Pool.fetchPage f p w s =
    (Throw "BufferPool: all frames are pinned, cannot evict",
     mkStore (st_disk s)
       (set_stats (cacheHits_ (st_pool s)) (u64 (cacheMisses_ (st_pool s) + 1)) (st_pool s))).
Proof.
  intros Hf Hl Hc. unfold Pool.fetchPage, bind at 1, get. unfold cached in Hc. rewrite Hc.
  unfold Pool.load, Pool.acquire, Pool.findVictimFrame, bind, on_pool, modify, get. simpl.
  by rewrite Hf, Hl.
Qed.

Lemma fetchPage_all_pinned_witness :
  exists s', Pool.fetchPage 1 0 false (mkStore (Disk.init (mkFS ∅ ∅ ∅)) (Pool.init 0)) =
    (Throw "BufferPool: all frames are pinned, cannot evict", s').
Proof.
  eexists. apply (fetchPage_all_pinned (mkStore (Disk.init (mkFS ∅ ∅ ∅)) (Pool.init 0)) 1 0 false);
    reflexivity.
Defined.

(** ** A failed fetch loses its frame *)
Fixpoint fetch_failures (n : nat) (f p : Z) (s : Store) : Store :=
  match n with
  | O => s
  | S n' => fetch_failures n' f p (Pool.fetchPage f p false s).2
  end.

Lemma fetch_bad_file s f p i rest fr :
  freeList_ (st_pool s) = i :: rest -> frames_ (st_pool s) !! i = Some fr -> fr_fileId fr = -1 ->
  cached s f p = None -> files_ (st_disk s) !! f = None ->
  Pool.fetchPage f p false s =
    (Throw "DiskManager: invalid file ID",
     mkStore (st_disk s) (set_free rest
       (set_stats (cacheHits_ (st_pool s)) (u64 (cacheMisses_ (st_pool s) + 1)) (st_pool s)))).
Proof.
  intros Hf Hi Hid Hc Hnf. unfold Pool.fetchPage, bind at 1, get. unfold cached in Hc. rewrite Hc.
  unfold Pool.load, Pool.acquire, Pool.findVictimFrame, Pool.frame_at, Pool.evict, bind, on_pool,
    modify, get, lift. simpl. rewrite Hf. simpl. rewrite Hi. simpl. rewrite Hid. simpl.
  unfold on_disk, zoom. simpl. by rewrite readPage_no_file.
Qed.

Lemma fetch_failures_drain f p n : forall s,
  pool_inv (st_pool s) -> length (freeList_ (st_pool s)) = n -> lruList_ (st_pool s) = [] ->
  pageTable_ (st_pool s) = ∅ -> files_ (st_disk s) !! f = None ->
  let s' := fetch_failures n f p s in
  freeList_ (st_pool s') = [] /\ lruList_ (st_pool s') = [] /\ pageTable_ (st_pool s') = ∅ /\
  frames_ (st_pool s') = frames_ (st_pool s).
Proof.
  induction n as [|n IH]; intros s Hinv Hn Hl Ht Hnf; cbn [fetch_failures].
  { by apply nil_length_inv in Hn. }
  destruct (freeList_ (st_pool s)) as [|i rest] eqn:Hf; [done|]. injection Hn as Hn.
  destruct (pi_free _ Hinv i) as (fr & Hfr & Hid); [rewrite Hf; by left|].
  rewrite (fetch_bad_file s f p i rest fr) by
    (try done; unfold cached; by rewrite Ht, lookup_empty).
  destruct (take_victim_free _ i rest (inv_stats _ (cacheHits_ (st_pool s))
    (u64 (cacheMisses_ (st_pool s) + 1)) Hinv) Hf) as [Hinv' _].
  by apply (IH (mkStore (st_disk s) (set_free rest (set_stats (cacheHits_ (st_pool s))
    (u64 (cacheMisses_ (st_pool s) + 1)) (st_pool s))))).
Qed.

(** C10: fetching a page of a file that is not open throws after its victim
    frame was taken off the free list, and never gives the frame back: after as
    many failures as there are frames, the pool holds no page and no pin, and
    yet every fetch fails for want of a frame. *)
Theorem failed_fetches_exhaust_pool n fs f p f' p' w :
  0 < n ->
  let s := fetch_failures (Z.to_nat n) f p (boot fs n) in
  (forall k, pins_of s k = 0) /\ pageTable_ (st_pool s) = ∅ /\
  (Pool.fetchPage f' p' w s).1 = Throw "BufferPool: all frames are pinned, cannot evict".
Proof.
  intros Hn s. pose proof (boot_idle fs n Hn) as [[Hinv _ _] _].
  destruct (fetch_failures_drain f p (Z.to_nat n) (boot fs n)) as (Hf & Hl & Ht & _).
  - apply Hinv.
  - simpl. apply length_seq.
  - done.
  - done.
  - simpl. unfold Disk.init, Disk.ensureDataDir, modify. simpl.
    destruct (bool_decide _); simpl; by rewrite lookup_empty.
  - fold s in Hf, Hl, Ht. split; [|split; [done|]].
    + intros k. unfold pins_of. by rewrite Ht, lookup_empty.
    + unfold Pool.fetchPage, bind at 1, get. rewrite Ht, lookup_empty.
      unfold Pool.load, Pool.acquire, Pool.findVictimFrame, bind, on_pool, modify, get. simpl.
      by rewrite Hf, Hl.
Qed.

Lemma failed_fetches_exhaust_pool_witness :
  (Pool.fetchPage 1 0 false (fetch_failures 4 9 0 (boot (mkFS ∅ ∅ ∅) 4))).1 =
    Throw "BufferPool: all frames are pinned, cannot evict".
Proof. apply (failed_fetches_exhaust_pool 4 (mkFS ∅ ∅ ∅) 9 0 1 0 false). reflexivity. Defined.
