(* ===== verification/Locks.v ===== *)
(** * LockManager (src/src/transaction/LockManager.h, LockManager.cpp)

    The lock table, the wait-for graph and the depth-first search for a cycle.
    Every public call holds the manager's mutex except while it waits on the
    condition variable, so a lock call is two atomic pieces: the part up to its
    return or its wait ([lockShared], [lockExclusive]), and the part after the
    wait ([wake]). A waiting call keeps the reference [requests] into the table;
    each entry of the table carries the identity of its vector, and a reference
    whose entry was erased is dangling. *)
From stdpp Require Import base numbers list strings gmap sorting.
From Stdlib Require Import ZArith Lia.
From S2P Require Import Prelude.

Inductive LockMode := SHARED | EXCLUSIVE.
#[global] Instance LockMode_eq_dec : EqDecision LockMode.
Proof. solve_decision. Defined.

Record ResourceId := mkRes { res_table : string; res_page : Z; res_slot : Z }.
#[global] Instance ResourceId_eq_dec : EqDecision ResourceId.
Proof. solve_decision. Defined.
#[global] Instance ResourceId_countable : Countable ResourceId.
Proof.
  apply (inj_countable' (fun r => (res_table r, res_page r, res_slot r))
    (fun x => mkRes x.1.1 x.1.2 x.2)). by intros [].
Defined.
(** [ResourceId(table, page)]: a page-level lock *)
Definition page_resource (table : string) (page : Z) : ResourceId := mkRes table page 65535.

Record LockRequest := mkReq { rq_txn : Z; rq_mode : LockMode; rq_granted : bool }.
#[global] Instance LockRequest_eq_dec : EqDecision LockRequest.
Proof. solve_decision. Defined.

(** A vector of requests and its identity. *)
Record LockEntry := mkEntry { en_id : Z; en_requests : list LockRequest }.

Record LockManager := mkLM {
  lockTable_ : gmap ResourceId LockEntry;
  waitForGraph_ : gmap Z (gset Z);
  next_entry : Z;  (* the identity of the next vector *)
}.

Inductive lock_result := Granted | Refused | Waits (entry : Z).

Module Lock.
Definition init : LockManager := mkLM ∅ ∅ 0.

Definition set_lockTable (t : gmap ResourceId LockEntry) (l : LockManager) : LockManager :=
  mkLM t (waitForGraph_ l) (next_entry l).
Definition set_graph (g : gmap Z (gset Z)) (l : LockManager) : LockManager :=
  mkLM (lockTable_ l) g (next_entry l).

(** [lockTable_[res]]: a missing entry is created empty. *)
Definition at_res (res : ResourceId) : M LockManager LockEntry :=
  l <- get ;;
  match lockTable_ l !! res with
  | Some e => ret e
  | None =>
      let e := mkEntry (next_entry l) [] in
      put (mkLM (<[res := e]> (lockTable_ l)) (waitForGraph_ l) (next_entry l + 1)) ;;
      ret e
  end.
Definition set_requests (res : ResourceId) (e : LockEntry) (rs : list LockRequest)
    : M LockManager unit :=
  modify (fun l => set_lockTable (<[res := mkEntry (en_id e) rs]> (lockTable_ l)) l).
Definition push (res : ResourceId) (e : LockEntry) (r : LockRequest) : M LockManager unit :=
  set_requests res e (en_requests e ++ [r]).

Definition by_other (txnId : Z) (r : LockRequest) : bool := negb (rq_txn r =? txnId).
Definition is_exclusive (r : LockRequest) : bool :=
  match rq_mode r with EXCLUSIVE => true | SHARED => false end.

(** [waitForGraph_[txnId].insert(req.txnId)] for the requests granted to others *)
Definition edges_to (txnId : Z) (rs : list LockRequest) : list Z :=
  map rq_txn (filter (fun r => by_other txnId r && rq_granted r = true) rs).
Definition add_edge (txnId other : Z) (g : gmap Z (gset Z)) : gmap Z (gset Z) :=
  <[txnId := {[other]} ∪ default ∅ (g !! txnId)]> g.
Definition add_edges (txnId : Z) (rs : list LockRequest) : M LockManager unit :=
  modify (fun l =>
    set_graph (fold_left (fun g other => add_edge txnId other g) (edges_to txnId rs)
                         (waitForGraph_ l)) l).
Definition erase_edges (txnId : Z) : M LockManager unit :=
  modify (fun l => set_graph (delete txnId (waitForGraph_ l)) l).

(** ** Deadlock detection *)
Section detect.
Context (g : gmap Z (gset Z)) (order : gset Z -> list Z).

(** The loop over the neighbours; [search] is the recursive call. *)
Fixpoint neighbours (search : Z -> gset Z -> gset Z -> option (bool * gset Z * gset Z))
    (txnId : Z) (l : list Z) (visited inStack : gset Z) : option (bool * gset Z * gset Z) :=
  match l with
  | [] => Some (false, visited, inStack ∖ {[txnId]})
  | neighbor :: l' =>
      if bool_decide (neighbor ∈ inStack) then Some (true, visited, inStack)
      else if bool_decide (neighbor ∉ visited) then
        match search neighbor visited inStack with
        | None => None
        | Some (true, v, s) => Some (true, v, s)
        | Some (false, v, s) => neighbours search txnId l' v s
        end
      else neighbours search txnId l' visited inStack
  end.

(** The depth-first search: whether it found a cycle, [visited] and [inStack].
    A set of neighbours is iterated in the order [order] gives. *)
Fixpoint detectCycle (fuel : nat) (txnId : Z) (visited inStack : gset Z)
    : option (bool * gset Z * gset Z) :=
  match fuel with
  | O => None
  | S fuel' =>
      neighbours (detectCycle fuel') txnId
        (match g !! txnId with Some ns => order ns | None => [] end)
        ({[txnId]} ∪ visited) ({[txnId]} ∪ inStack)
  end.

(** the transactions of the graph *)
Definition nodes : gset Z := dom g ∪ ⋃ (map snd (map_to_list g)).

Definition hasDeadlock (txnId : Z) : outcome bool :=
  of_option ('(b, _, _) ← detectCycle (S (size ({[txnId]} ∪ nodes))) txnId ∅ ∅; Some b).
End detect.

(** ** The calls *)
Section calls.
Context (order : gset Z -> list Z).

(** From a request that cannot be granted to its return or its wait. *)
Definition wait_or_refuse (txnId : Z) (res : ResourceId) (mode : LockMode) (e : LockEntry)
    : M LockManager lock_result :=
  add_edges txnId (en_requests e) ;;
  l <- get ;;
  deadlock <- lift (hasDeadlock (waitForGraph_ l) order txnId) ;;
  if deadlock then erase_edges txnId ;; ret Refused
  else push res e (mkReq txnId mode false) ;; ret (Waits (en_id e)).

Definition lockShared (txnId : Z) (res : ResourceId) : M LockManager lock_result :=
  e <- at_res res ;;
  let requests := en_requests e in
  if existsb (fun r => (rq_txn r =? txnId) && rq_granted r) requests then ret Granted
  else if existsb (fun r => by_other txnId r && is_exclusive r && rq_granted r) requests
  then wait_or_refuse txnId res SHARED e
  else push res e (mkReq txnId SHARED true) ;; ret Granted.

Definition lockExclusive (txnId : Z) (res : ResourceId) : M LockManager lock_result :=
  e <- at_res res ;;
  let requests := en_requests e in
  if existsb (fun r => (rq_txn r =? txnId) && rq_granted r && is_exclusive r) requests
  then ret Granted
  else if existsb (fun r => by_other txnId r && rq_granted r) requests
  then wait_or_refuse txnId res EXCLUSIVE e
  else push res e (mkReq txnId EXCLUSIVE true) ;; ret Granted.
End calls.

Definition lock (order : gset Z -> list Z) (mode : LockMode) :=
  match mode with SHARED => lockShared order | EXCLUSIVE => lockExclusive order end.

(** The predicate of [cv_.wait]. *)
Definition may_proceed (txnId : Z) (mode : LockMode) (rs : list LockRequest) : bool :=
  negb (existsb (fun r => by_other txnId r && rq_granted r &&
    match mode with SHARED => is_exclusive r | EXCLUSIVE => true end) rs).

(** Grant the first pending request of the transaction. *)
Fixpoint grant (txnId : Z) (rs : list LockRequest) : list LockRequest :=
  match rs with
  | [] => []
  | r :: rs' =>
      if (rq_txn r =? txnId) && negb (rq_granted r)
      then mkReq (rq_txn r) (rq_mode r) true :: rs'
      else r :: grant txnId rs'
  end.

(** A waiting call evaluates its predicate; [true]: it goes on and returns. *)
Definition wake (txnId : Z) (res : ResourceId) (mode : LockMode) (entry : Z)
    : M LockManager bool :=
  e <- at_res res ;;
  if may_proceed txnId mode (en_requests e) then
    if en_id e =? entry then
      set_requests res e (grant txnId (en_requests e)) ;;
      erase_edges txnId ;;
      ret true
    else undef
  else ret false.

(** Erase the first granted request of the transaction. *)
Fixpoint erase_granted (txnId : Z) (rs : list LockRequest) : list LockRequest :=
  match rs with
  | [] => []
  | r :: rs' =>
      if (rq_txn r =? txnId) && rq_granted r then rs' else r :: erase_granted txnId rs'
  end.

Definition put_back (res : ResourceId) (e : LockEntry) (rs : list LockRequest)
    (t : gmap ResourceId LockEntry) : gmap ResourceId LockEntry :=
  match rs with [] => delete res t | _ => <[res := mkEntry (en_id e) rs]> t end.

Definition unlock (txnId : Z) (res : ResourceId) : M LockManager unit :=
  l <- get ;;
  match lockTable_ l !! res with
  | None => ret tt
  | Some e =>
      put (set_lockTable (put_back res e (erase_granted txnId (en_requests e)) (lockTable_ l)) l)
  end.

Definition mentions (txnId : Z) (e : LockEntry) : bool :=
  existsb (fun r => rq_txn r =? txnId) (en_requests e).
Definition release (txnId : Z) (t : gmap ResourceId LockEntry) (res : ResourceId)
    : gmap ResourceId LockEntry :=
  match t !! res with
  | None => t
  | Some e => put_back res e (filter (fun r => rq_txn r <> txnId) (en_requests e)) t
  end.

Definition unlockAll (txnId : Z) : M LockManager unit :=
  l <- get ;;
  let toUnlock := map fst (filter (fun x => mentions txnId x.2 = true) (map_to_list (lockTable_ l))) in
  put (set_graph (delete txnId (waitForGraph_ l))
    (set_lockTable (fold_left (release txnId) toUnlock (lockTable_ l)) l)).
End Lock.
