(* ===== verification/LockGraph.v ===== *)
(** * The deadlock detector of LockManager.cpp is a correct cycle search

    [detectCycle] colours nodes as a depth-first search does: white when not
    visited, grey when on the stack, black when done. It returns true exactly
    when a cycle can be reached, with fuel for each node of the graph once. *)
From stdpp Require Import base numbers list gmap relations.
From Stdlib Require Import ZArith Lia.
From S2P Require Import Prelude Locks.

(** [a] waits for [b] *)
Definition waits_for (g : gmap Z (gset Z)) (a b : Z) : Prop :=
  exists ns, g !! a = Some ns /\ b ∈ ns.

(** A transaction waits, through others, for a transaction that waits for
    itself. *)
Definition reaches_cycle (g : gmap Z (gset Z)) (t : Z) : Prop :=
  exists x, rtc (waits_for g) t x /\ tc (waits_for g) x x.

Section detect.
Context (g : gmap Z (gset Z)) (order : gset Z -> list Z).
Context (Horder : forall X, order X ≡ₚ elements X).

Abbreviation E := (waits_for g).
Abbreviation succs t := (match g !! t with Some ns => order ns | None => [] end).
Abbreviation search := (Lock.detectCycle g order).

Lemma elem_of_succs t n : n ∈ succs t <-> E t n.
Proof using Horder.
  unfold waits_for. destruct (g !! t) as [ns|].
  - rewrite (Horder ns), elem_of_elements. naive_solver.
  - rewrite elem_of_nil. naive_solver.
Qed.

(** Black nodes: their successors are black and no cycle goes through them. *)
Record coloured (V S : gset Z) : Prop := {
  co_stack : S ⊆ V;
  co_closed : forall b n, b ∈ V -> b ∉ S -> E b n -> n ∈ V /\ n ∉ S;
  co_acyclic : forall b, b ∈ V -> b ∉ S -> ~ tc E b b;
}.

Lemma black_closed V S b n : coloured V S -> b ∈ V -> b ∉ S -> rtc E b n -> n ∈ V /\ n ∉ S.
Proof.
  intros Hc Hb Hs Hr. revert Hb Hs. induction Hr as [|x y z Hxy _ IH]; intros Hb Hs; [done|].
  destruct (co_closed _ _ Hc x y) as [??]; auto.
Qed.

(** ** A search that finds nothing blackens the node *)
Definition search_false (f : Z -> gset Z -> gset Z -> option (bool * gset Z * gset Z)) : Prop :=
  forall t V S V' S', f t V S = Some (false, V', S') -> t ∉ V -> coloured V S ->
    S' = S /\ V ⊆ V' /\ t ∈ V' /\ coloured V' S.

Lemma neighbours_false f t l : forall V S V' S',
  search_false f -> Lock.neighbours f t l V S = Some (false, V', S') -> t ∈ S -> coloured V S ->
  S' = S ∖ {[t]} /\ V ⊆ V' /\ coloured V' S /\ forall n, n ∈ l -> n ∈ V' /\ n ∉ S.
Proof.
  induction l as [|n l IH]; intros V S V' S' Hf; simpl.
  { intros [= -> <-] _ Hc. split; [done|]. split; [done|]. split; [done|]. set_solver. }
  case_bool_decide as HS; [done|]. case_bool_decide as HV.
  - destruct (f n V S) as [[[[] v] s]|] eqn:Hn; try done. intros Hl Ht Hc.
    destruct (Hf n V S v s Hn HV Hc) as (-> & Hsub & Hin & Hc').
    destruct (IH v S V' S' Hf Hl Ht Hc') as (-> & Hsub' & Hc'' & Hall).
    split; [done|]. split; [set_solver|]. split; [done|].
    intros m [->|?]%elem_of_cons; [set_solver|auto].
  - intros Hl Ht Hc. destruct (IH V S V' S' Hf Hl Ht Hc) as (-> & Hsub' & Hc'' & Hall).
    split; [done|]. split; [done|]. split; [done|].
    intros m [->|?]%elem_of_cons; [|auto]. split; [|done]. apply Hsub'.
    destruct (decide (n ∈ V)); [done|contradiction].
Qed.

Lemma coloured_push t V S : coloured V S -> t ∉ V -> coloured ({[t]} ∪ V) ({[t]} ∪ S).
Proof.
  intros [Hs Hc Ha] Ht. split.
  - set_solver.
  - intros b n Hb Hbs Hn. destruct (Hc b n) as [??]; [set_solver|set_solver|done|].
    split; [set_solver|]. intros [->%elem_of_singleton|?]%elem_of_union; [set_solver|done].
  - intros b Hb Hbs. apply Ha; set_solver.
Qed.

Lemma coloured_pop t V S :
  coloured V ({[t]} ∪ S) -> t ∉ S -> (forall n, E t n -> n ∈ V /\ n ∉ {[t]} ∪ S) -> coloured V S.
Proof.
  intros Hc Ht Hn. split.
  - pose proof (co_stack _ _ Hc). set_solver.
  - intros b n Hb Hbs Hbn. destruct (decide (b = t)) as [->|Hne].
    + destruct (Hn n Hbn). set_solver.
    + destruct (co_closed _ _ Hc b n) as [??]; [done|set_solver|done|]. set_solver.
  - intros b Hb Hbs Hcyc. destruct (decide (b = t)) as [->|Hne].
    + inversion Hcyc as [? ? Hy|? y ? Hty Hyt]; subst.
      * destruct (Hn t Hy). set_solver.
      * destruct (Hn y Hty) as [Hy1 Hy2].
        destruct (black_closed _ _ y t Hc Hy1 Hy2) as [_ Hbad]; [by apply tc_rtc|set_solver].
    + by apply (co_acyclic _ _ Hc b); [|set_solver|].
Qed.

Lemma search_false_holds fuel : search_false (search fuel).
Proof using Horder.
  induction fuel as [|fuel IH]; intros t V S V' S'; [done|]. cbn [Lock.detectCycle].
  intros Hl Ht Hc. pose proof (co_stack _ _ Hc) as Hsub.
  destruct (neighbours_false _ _ _ _ _ _ _ IH Hl) as (-> & Hsub' & Hc' & Hall);
    [set_solver|by apply coloured_push|].
  split; [set_solver|]. split; [set_solver|]. split; [set_solver|].
  apply (coloured_pop t); [done|set_solver|]. intros n Hn. apply Hall. by apply elem_of_succs.
Qed.

(** ** A search that answers true has found a cycle *)
Definition search_true (f : Z -> gset Z -> gset Z -> option (bool * gset Z * gset Z)) : Prop :=
  forall t V S V' S', f t V S = Some (true, V', S') -> t ∉ V -> coloured V S ->
    (forall s, s ∈ S -> rtc E s t) -> reaches_cycle g t.

Lemma neighbours_true f t l : forall V S V' S',
  search_false f -> search_true f -> Lock.neighbours f t l V S = Some (true, V', S') ->
  t ∈ S -> coloured V S -> (forall s, s ∈ S -> rtc E s t) -> (forall n, n ∈ l -> E t n) ->
  reaches_cycle g t.
Proof.
  induction l as [|n l IH]; intros V S V' S' Hff Hft; simpl; [done|].
  intros Hrun Ht Hc Hs Hl. assert (Hn : E t n) by (apply Hl; by left).
  assert (Hl' : forall m, m ∈ l -> E t m) by (intros; apply Hl; by right). revert Hrun.
  case_bool_decide as HS; [|case_bool_decide as HV].
  - intros _. exists n. split; [by apply rtc_once|]. apply tc_rtc_l with t; [by apply Hs|by apply tc_once].
  - destruct (f n V S) as [[[[] v] s]|] eqn:Hr; try done.
    + intros _. destruct (Hft n V S v s Hr HV Hc) as (x & Hx & Hcyc).
      * intros s' Hs'. eapply rtc_r; [by apply Hs|done].
      * exists x. split; [by eapply rtc_l|done].
    + intros Hrun. destruct (Hff n V S v s Hr HV Hc) as (-> & _ & _ & Hc'). by eapply IH.
  - intros Hrun. by eapply IH.
Qed.

Lemma search_true_holds fuel : search_true (search fuel).
Proof using Horder.
  induction fuel as [|fuel IH]; intros t V S V' S'; [done|]. cbn [Lock.detectCycle].
  intros Hl Ht Hc Hs. eapply neighbours_true; [apply search_false_holds|exact IH|exact Hl|..].
  - set_solver.
  - by apply coloured_push.
  - intros s [->%elem_of_singleton|?]%elem_of_union; [done|auto].
  - intros n. apply elem_of_succs.
Qed.

(** ** The fuel is enough *)
Lemma search_fuel (N : gset Z) (HN : forall a b, a ∈ N -> E a b -> b ∈ N) fuel : forall t V S,
  (size (N ∖ V) < fuel)%nat -> t ∈ N -> t ∉ V -> coloured V S -> is_Some (search fuel t V S).
Proof using Horder.
  induction fuel as [|fuel IH]; intros t V S Hsz Ht HV Hc; [lia|]. cbn [Lock.detectCycle].
  assert (Hlt : (size (N ∖ ({[t]} ∪ V)) < fuel)%nat).
  { enough (size (N ∖ ({[t]} ∪ V)) < size (N ∖ V))%nat by lia. apply subset_size.
    split; [set_solver|]. intros Hbad. assert (t ∈ N ∖ V) by set_solver. set_solver. }
  assert (Hl : forall n, n ∈ succs t -> n ∈ N)
    by (intros n Hn%elem_of_succs; by apply (HN t)).
  revert Hlt. generalize (coloured_push t V S Hc HV).
  generalize ({[t]} ∪ V), ({[t]} ∪ S). clear V S HV Hc Hsz.
  induction (succs t) as [|n l IHl]; intros V S Hc Hlt; simpl; [done|].
  case_bool_decide as HS; [done|]. case_bool_decide as HVn.
  - destruct (IH n V S) as [[[b v] s] Hr]; [done|apply Hl; by left|done|done|].
    rewrite Hr. destruct b; [done|].
    destruct (search_false_holds fuel n V S v s Hr HVn Hc) as (-> & Hsub & _ & Hc').
    apply IHl; [intros; apply Hl; by right|done|].
    eapply Nat.le_lt_trans; [|exact Hlt]. apply subseteq_size. set_solver.
  - apply IHl; [intros; apply Hl; by right|done|done].
Qed.

Lemma coloured_empty : coloured ∅ ∅.
Proof. split; [done|..]; intros b; set_solver. Qed.

Lemma nodes_closed t a b : a ∈ {[t]} ∪ Lock.nodes g -> E a b -> b ∈ {[t]} ∪ Lock.nodes g.
Proof.
  intros _ (ns & Hg & Hb). apply elem_of_union_r. unfold Lock.nodes. apply elem_of_union_r.
  apply elem_of_union_list. exists ns. split; [|done]. apply list_elem_of_fmap.
  exists (a, ns). split; [done|]. by apply elem_of_map_to_list.
Qed.

(** [hasDeadlock] always answers, and answers whether a cycle is reached. *)
Lemma hasDeadlock_spec t :
  exists b, Lock.hasDeadlock g order t = Ret b /\ (b = true <-> reaches_cycle g t).
Proof using Horder.
  unfold Lock.hasDeadlock. set (N := {[t]} ∪ Lock.nodes g).
  destruct (search_fuel N (nodes_closed t) (S (size N)) t ∅ ∅) as [[[b V] S'] Hr];
    [|set_solver|set_solver|apply coloured_empty|].
  { enough (size (N ∖ ∅) <= size N)%nat by lia. apply subseteq_size. set_solver. }
  rewrite Hr. exists b. split; [done|]. split.
  - intros ->. eapply search_true_holds; [exact Hr|set_solver|apply coloured_empty|set_solver].
  - intros (x & Hx & Hcyc). destruct b; [done|].
    destruct (search_false_holds _ _ _ _ _ _ Hr) as (-> & _ & Ht & Hc);
      [set_solver|apply coloured_empty|].
    destruct (black_closed _ _ t x Hc) as [H1 H2]; [done|set_solver|done|].
    by destruct (co_acyclic _ _ Hc x H1 H2).
Qed.
End detect.
