(* ===== verification/LockSafety.v ===== *)
(** * The lock manager as a system of concurrent transactions

    Each transaction is one thread of control: it makes a call, or waits in
    one. The steps are the atomic pieces of Locks.v, in any interleaving; a
    waiting call may evaluate its predicate at any time. The invariant says that
    locks exclude each other and that the reference a waiting call keeps into
    the table is valid. *)
From stdpp Require Import base numbers list strings gmap relations.
From Stdlib Require Import ZArith Lia.
From S2P Require Import Prelude Locks LockGraph.

(** What a waiting transaction waits for. *)
Record Waiter := mkWaiter { wt_res : ResourceId; wt_mode : LockMode; wt_entry : Z }.

Record System := mkSys { sys_lm : LockManager; sys_waiters : gmap Z Waiter }.

Definition after_call (t : Z) (res : ResourceId) (mode : LockMode) (r : lock_result)
    (w : gmap Z Waiter) : gmap Z Waiter :=
  match r with Waits id => <[t := mkWaiter res mode id]> w | _ => w end.

Inductive lock_step (order : gset Z -> list Z) : System -> System -> Prop :=
  | step_lock lm w t res mode r lm' :
      w !! t = None -> runs (Lock.lock order mode t res) lm r lm' ->
      lock_step order (mkSys lm w) (mkSys lm' (after_call t res mode r w))
  | step_wake lm w t wt b lm' :
      w !! t = Some wt -> runs (Lock.wake t (wt_res wt) (wt_mode wt) (wt_entry wt)) lm b lm' ->
      lock_step order (mkSys lm w) (mkSys lm' (if b : bool then delete t w else w))
  | step_unlock lm w t res lm' :
      runs (Lock.unlock t res) lm tt lm' -> lock_step order (mkSys lm w) (mkSys lm' w)
  | step_unlockAll lm w t lm' :
      w !! t = None -> runs (Lock.unlockAll t) lm tt lm' ->
      lock_step order (mkSys lm w) (mkSys lm' w).

Definition initial : System := mkSys Lock.init ∅.
Definition reachable order : System -> Prop := rtc (lock_step order) initial.

(** ** The invariant *)
Definition pending (t : Z) (r : LockRequest) : Prop := rq_txn r = t /\ rq_granted r = false.
#[global] Instance pending_dec t r : Decision (pending t r).
Proof. unfold pending. apply _. Defined.

(** the requests of [t] that are pending at [res] *)
Definition expected (w : gmap Z Waiter) (t : Z) (res : ResourceId) : list LockRequest :=
  match w !! t with
  | Some wt => if decide (wt_res wt = res) then [mkReq t (wt_mode wt) false] else []
  | None => []
  end.

Definition excludes (rs : list LockRequest) : Prop :=
  forall r1 r2, r1 ∈ rs -> r2 ∈ rs -> rq_granted r1 = true -> rq_granted r2 = true ->
    rq_mode r1 = EXCLUSIVE -> rq_txn r1 = rq_txn r2.

Record table_inv (T : gmap ResourceId LockEntry) (w : gmap Z Waiter) : Prop := {
  ti_excl : forall res e, T !! res = Some e -> excludes (en_requests e);
  ti_pending : forall res e t, T !! res = Some e ->
    filter (pending t) (en_requests e) = expected w t res;
  ti_waiter : forall t wt, w !! t = Some wt ->
    exists e, T !! wt_res wt = Some e /\ en_id e = wt_entry wt;
}.
Definition lock_inv (s : System) : Prop := table_inv (lockTable_ (sys_lm s)) (sys_waiters s).

(** Replacing the requests of one entry. *)
Lemma table_inv_set T w w' res e rs :
  table_inv T w -> T !! res = Some e -> excludes rs ->
  (forall t, filter (pending t) rs = expected w' t res) ->
  (forall t res', res' <> res -> expected w' t res' = expected w t res') ->
  (forall t wt, w' !! t = Some wt -> w !! t = Some wt \/ (wt_res wt = res /\ wt_entry wt = en_id e)) ->
  table_inv (<[res := mkEntry (en_id e) rs]> T) w'.
Proof.
  intros [Hx Hp Hw] He Hex Hpend Hother Hw'. split.
  - intros res' e' [[<- <-]|[Hne H]]%lookup_insert_Some; [done|eauto].
  - intros res' e' t [[<- <-]|[Hne H]]%lookup_insert_Some; [done|].
    rewrite Hother by done. by apply Hp.
  - intros t wt Ht. destruct (Hw' t wt Ht) as [H|[Hr He']].
    + destruct (Hw t wt H) as (e0 & He0 & Hid). destruct (decide (res = wt_res wt)) as [E|Hne].
      * rewrite <- E, lookup_insert_eq. eexists. split; [done|]. simpl. congruence.
      * rewrite lookup_insert_ne by done. eauto.
    + rewrite Hr, lookup_insert_eq. eexists. split; [done|]. by simpl.
Qed.

Lemma table_inv_same T w res e rs :
  table_inv T w -> T !! res = Some e -> excludes rs ->
  (forall t, filter (pending t) rs = filter (pending t) (en_requests e)) ->
  table_inv (<[res := mkEntry (en_id e) rs]> T) w.
Proof.
  intros HT He Hex Hp. apply (table_inv_set T w); [done|done|done| |done|auto].
  intros t. rewrite Hp. by apply (ti_pending T w).
Qed.

(** Removing an entry nobody waits on. *)
Lemma table_inv_delete T w res :
  table_inv T w -> (forall t wt, w !! t = Some wt -> wt_res wt <> res) -> table_inv (delete res T) w.
Proof.
  intros [Hx Hp Hw] Hno. split.
  - intros res' e' [_ H]%lookup_delete_Some. eauto.
  - intros res' e' t [_ H]%lookup_delete_Some. eauto.
  - intros t wt Ht. destruct (Hw t wt Ht) as (e & He & Hid). exists e.
    rewrite lookup_delete_ne; [done|]. by apply not_eq_sym, (Hno t).
Qed.

Lemma waiter_pending T w t wt e :
  table_inv T w -> w !! t = Some wt -> T !! wt_res wt = Some e ->
  filter (pending t) (en_requests e) = [mkReq t (wt_mode wt) false].
Proof.
  intros HT Ht He. rewrite (ti_pending T w HT _ _ t He). unfold expected. rewrite Ht.
  by rewrite decide_True.
Qed.

Lemma put_back_inv T w res e rs :
  table_inv T w -> T !! res = Some e -> excludes rs ->
  (forall t, filter (pending t) rs = filter (pending t) (en_requests e)) ->
  table_inv (Lock.put_back res e rs T) w.
Proof.
  intros HT He Hex Hp. destruct rs as [|r rs]; [|by apply table_inv_same].
  simpl. apply table_inv_delete; [done|]. intros t wt Ht <-.
  pose proof (waiter_pending T w t wt e HT Ht He) as Hpe. by rewrite <- Hp in Hpe.
Qed.

(** [lockTable_[res]] *)
Lemma at_res_inv lm w res :
  table_inv (lockTable_ lm) w ->
  exists e lm1, runs (Lock.at_res res) lm e lm1 /\ lockTable_ lm1 !! res = Some e /\
    table_inv (lockTable_ lm1) w /\ waitForGraph_ lm1 = waitForGraph_ lm /\
    (forall e', lockTable_ lm !! res = Some e' -> e' = e /\ lm1 = lm) /\
    (lockTable_ lm !! res = None -> en_requests e = []).
Proof.
  intros HT. unfold runs, Lock.at_res, bind, get. destruct (lockTable_ lm !! res) as [e|] eqn:He.
  - exists e, lm. split; [done|]. split; [done|]. split; [done|]. split; [done|]. naive_solver.
  - eexists _, _. split; [done|]. simpl. rewrite lookup_insert_eq.
    split; [done|]. split; [|split; [done|split; [naive_solver|done]]]. split.
    + intros res' e' [[<- <-]|[_ H]]%lookup_insert_Some; [intros r1 r2 H1; by apply elem_of_nil in H1|].
      by apply (ti_excl _ _ HT res').
    + intros res' e' t [[<- <-]|[_ H]]%lookup_insert_Some; [|by apply (ti_pending _ _ HT)].
      simpl. unfold expected. destruct (w !! t) as [wt|] eqn:Ht; [|done].
      destruct (ti_waiter _ _ HT t wt Ht) as (e0 & He0 & _). rewrite decide_False; [done|congruence].
    + intros t wt Ht. destruct (ti_waiter _ _ HT t wt Ht) as (e0 & He0 & Hid). exists e0.
      rewrite lookup_insert_ne by congruence. done.
Qed.

(** ** One call *)

(** the transaction already holds the lock, or a stronger one *)
Definition holds (t : Z) (mode : LockMode) (rs : list LockRequest) : bool :=
  existsb (fun r => (rq_txn r =? t) && rq_granted r &&
    match mode with SHARED => true | EXCLUSIVE => Lock.is_exclusive r end) rs.

Lemma existsb_ext {A} (f g : A -> bool) l : (forall x, f x = g x) -> existsb f l = existsb g l.
Proof. intros H. induction l as [|x l IH]; simpl; [done|]. by rewrite H, IH. Qed.

(** Both calls are one, by mode. *)
Lemma lock_eq order mode t res lm :
  Lock.lock order mode t res lm =
    (e <- Lock.at_res res ;;
     if holds t mode (en_requests e) then ret Granted
     else if Lock.may_proceed t mode (en_requests e)
     then Lock.push res e (mkReq t mode true) ;; ret Granted
     else Lock.wait_or_refuse order t res mode e) lm.
Proof.
  unfold Lock.lock, Lock.lockShared, Lock.lockExclusive, holds, Lock.may_proceed, bind.
  destruct mode; destruct (Lock.at_res res lm) as [[e|?|] lm1]; try done; cbv zeta.
  - rewrite (existsb_ext (fun r => Lock.by_other t r && Lock.is_exclusive r && rq_granted r)
      (fun r => Lock.by_other t r && rq_granted r && Lock.is_exclusive r))
      by (intros r; by destruct (Lock.by_other t r), (rq_granted r), (Lock.is_exclusive r)).
    rewrite (existsb_ext (fun r => (rq_txn r =? t) && rq_granted r && true)
      (fun r => (rq_txn r =? t) && rq_granted r)) by (intros r; apply andb_true_r).
    by repeat match goal with |- context [existsb ?f ?l] => destruct (existsb f l) end.
  - rewrite (existsb_ext (fun r => Lock.by_other t r && rq_granted r && true)
      (fun r => Lock.by_other t r && rq_granted r)) by (intros r; apply andb_true_r).
    by repeat match goal with |- context [existsb ?f ?l] => destruct (existsb f l) end.
Qed.

Lemma may_proceed_spec t mode rs :
  Lock.may_proceed t mode rs = true <->
    forall r, r ∈ rs -> rq_txn r <> t -> rq_granted r = true ->
      mode = SHARED /\ rq_mode r = SHARED.
Proof.
  unfold Lock.may_proceed. rewrite negb_true_iff. split.
  - intros H r Hr Ht Hg. apply not_true_iff_false in H.
    destruct (decide (mode = SHARED /\ rq_mode r = SHARED)) as [|Hne]; [done|]. destruct H.
    apply existsb_exists. exists r. rewrite <- list_elem_of_In, !andb_true_iff.
    split; [done|]. split; [split; [|done]|].
    + unfold Lock.by_other. apply negb_true_iff. by apply Z.eqb_neq.
    + unfold Lock.is_exclusive. destruct mode, (rq_mode r); naive_solver.
  - intros H. apply not_true_iff_false. intros (r & Hr & Hb)%existsb_exists.
    rewrite <- list_elem_of_In in Hr. rewrite !andb_true_iff in Hb. destruct Hb as [[Ho Hg] Hm].
    unfold Lock.by_other in Ho. apply negb_true_iff, Z.eqb_neq in Ho.
    destruct (H r Hr Ho Hg) as [-> Hs]. unfold Lock.is_exclusive in Hm. by rewrite Hs in Hm.
Qed.

Lemma excludes_push rs t mode :
  excludes rs -> Lock.may_proceed t mode rs = true -> excludes (rs ++ [mkReq t mode true]).
Proof.
  intros Hx Hm r1 r2. rewrite !elem_of_app, !list_elem_of_singleton.
  rewrite may_proceed_spec in Hm.
  intros [H1| ->] [H2| ->] Hg1 Hg2 He; simpl in *; [by apply Hx| | |done].
  - destruct (decide (rq_txn r1 = t)) as [|Hne]; [done|].
    destruct (Hm r1 H1 Hne Hg1) as [_ ?]. congruence.
  - destruct (decide (rq_txn r2 = t)) as [|Hne]; [done|].
    destruct (Hm r2 H2 Hne Hg2) as [? _]. congruence.
Qed.

Lemma excludes_sub rs rs' :
  excludes rs -> (forall r, r ∈ rs' -> rq_granted r = true -> r ∈ rs) -> excludes rs'.
Proof. intros Hx Hsub r1 r2 H1 H2 Hg1 Hg2. apply Hx; auto. Qed.

Lemma excludes_push_pending rs t mode : excludes rs -> excludes (rs ++ [mkReq t mode false]).
Proof.
  intros Hx. apply (excludes_sub rs); [done|]. intros r. rewrite elem_of_app, list_elem_of_singleton.
  intros [?| ->]; done.
Qed.

(** The edges a waiting call adds. *)
Definition with_edges (t : Z) (rs : list LockRequest) (g : gmap Z (gset Z)) : gmap Z (gset Z) :=
  fold_left (fun g other => Lock.add_edge t other g) (Lock.edges_to t rs) g.

(** The outcome of a lock call that cannot be granted. *)
Lemma wait_or_refuse_runs order (Horder : forall X, order X ≡ₚ elements X) t res mode e lm :
  exists r lm', runs (Lock.wait_or_refuse order t res mode e) lm r lm' /\
    let g := with_edges t (en_requests e) (waitForGraph_ lm) in
    (r = Refused /\ reaches_cycle g t /\ lockTable_ lm' = lockTable_ lm /\
       waitForGraph_ lm' = delete t g) \/
    (r = Waits (en_id e) /\ ~ reaches_cycle g t /\ waitForGraph_ lm' = g /\
       lockTable_ lm' = <[res := mkEntry (en_id e) (en_requests e ++ [mkReq t mode false])]> (lockTable_ lm)).
Proof.
  set (g := with_edges t (en_requests e) (waitForGraph_ lm)).
  destruct (hasDeadlock_spec g order Horder t) as (b & Hd & Hb).
  unfold runs, Lock.wait_or_refuse, Lock.add_edges, modify, bind, get, lift. simpl.
  change (fold_left _ _ _) with g. rewrite Hd. destruct b; simpl.
  - eexists _, _. split; [done|]. left. split; [done|]. split; [by apply Hb|done].
  - eexists _, _. split; [done|]. right. split; [done|]. split; [|done]. intros H. by apply Hb in H.
Qed.

(** the requests at a resource *)
Definition requests_at (lm : LockManager) (res : ResourceId) : list LockRequest :=
  match lockTable_ lm !! res with Some e => en_requests e | None => [] end.

(** What a lock call answers and does to the requests of its resource. *)
Inductive lock_outcome (t : Z) (mode : LockMode) (rs : list LockRequest) (g : gmap Z (gset Z))
    : lock_result -> list LockRequest -> gmap Z (gset Z) -> Prop :=
  | lo_held : holds t mode rs = true -> lock_outcome t mode rs g Granted rs g
  | lo_granted : holds t mode rs = false -> Lock.may_proceed t mode rs = true ->
      lock_outcome t mode rs g Granted (rs ++ [mkReq t mode true]) g
  | lo_refused : holds t mode rs = false -> Lock.may_proceed t mode rs = false ->
      reaches_cycle (with_edges t rs g) t ->
      lock_outcome t mode rs g Refused rs (delete t (with_edges t rs g))
  | lo_waits id : holds t mode rs = false -> Lock.may_proceed t mode rs = false ->
      ~ reaches_cycle (with_edges t rs g) t ->
      lock_outcome t mode rs g (Waits id) (rs ++ [mkReq t mode false]) (with_edges t rs g).

Lemma filter_pending_push t t' mode b rs :
  filter (pending t') (rs ++ [mkReq t mode b]) =
    filter (pending t') rs ++ (if decide (t = t' /\ b = false) then [mkReq t mode b] else []).
Proof.
  rewrite filter_app. f_equal.
Qed.

Lemma lock_call order (Horder : forall X, order X ≡ₚ elements X) t res mode lm w :
  table_inv (lockTable_ lm) w -> w !! t = None ->
  exists r lm', runs (Lock.lock order mode t res) lm r lm' /\
    table_inv (lockTable_ lm') (after_call t res mode r w) /\
    lock_outcome t mode (requests_at lm res) (waitForGraph_ lm) r (requests_at lm' res)
      (waitForGraph_ lm').
Proof.
  intros HT Ht. destruct (at_res_inv lm w res HT) as (e & lm1 & Hr & He & HT1 & Hg & Hsome & Hnone).
  assert (Hrs : requests_at lm res = en_requests e).
  { unfold requests_at. destruct (lockTable_ lm !! res) as [e'|] eqn:E; [by destruct (Hsome e') as [-> _]|].
    symmetry. by apply Hnone. }
  pose proof (ti_excl _ _ HT1 res e He) as Hx.
  unfold runs. rewrite lock_eq, (bind_runs _ _ _ _ _ Hr), Hrs, <- Hg.
  destruct (holds t mode (en_requests e)) eqn:Hh.
  { exists Granted, lm1. split; [done|]. split; [done|]. unfold requests_at. rewrite He. by apply lo_held. }
  destruct (Lock.may_proceed t mode (en_requests e)) eqn:Hm.
  - eexists Granted, _. split; [reflexivity|]. simpl. split.
    + apply table_inv_same; [done|done|by apply excludes_push|]. intros t'.
      rewrite filter_pending_push, decide_False by naive_solver. apply app_nil_r.
    + unfold requests_at. simpl. rewrite lookup_insert_eq. by apply lo_granted.
  - destruct (wait_or_refuse_runs order Horder t res mode e lm1)
      as (r & lm' & Hw & [(-> & Hc & HT' & Hg')|(-> & Hc & Hg' & HT')]).
    + exists Refused, lm'. split; [done|]. rewrite Hg', HT'. split; [done|].
      unfold requests_at. rewrite HT', He. by apply lo_refused.
    + exists (Waits (en_id e)), lm'. split; [done|]. rewrite Hg'. split.
      * rewrite HT'. apply (table_inv_set _ w); [done|done|by apply excludes_push_pending| | |].
        -- intros t'. rewrite filter_pending_push, (ti_pending _ _ HT1 res e t' He).
           unfold expected. simpl. destruct (decide (t = t')) as [<-|Hne].
           ++ rewrite Ht, lookup_insert_eq. simpl. by rewrite !decide_True.
           ++ rewrite lookup_insert_ne by done. rewrite decide_False by naive_solver. apply app_nil_r.
        -- intros t' res' Hne. unfold expected. simpl. destruct (decide (t = t')) as [<-|Hne'].
           ++ rewrite Ht, lookup_insert_eq. simpl. by rewrite decide_False.
           ++ by rewrite lookup_insert_ne.
        -- intros t' wt. simpl. intros [[<- <-]|[_ ?]]%lookup_insert_Some; [by right|by left].
      * unfold requests_at. rewrite HT', lookup_insert_eq. by apply lo_waits.
Qed.

(** ** Waking, releasing *)
Lemma grant_pending t mode rs :
  filter (pending t) rs = [mkReq t mode false] ->
  exists l1 l2, rs = l1 ++ mkReq t mode false :: l2 /\
    Lock.grant t rs = l1 ++ mkReq t mode true :: l2 /\
    filter (pending t) l1 = [] /\ filter (pending t) l2 = [].
Proof.
  induction rs as [|r rs IH]; [done|]. rewrite filter_cons. simpl. case_decide as E.
  - intros [= Hr Hrest]. exists [], rs. subst r. rewrite Z.eqb_refl. simpl. done.
  - intros H. destruct (IH H) as (l1 & l2 & -> & Hg & H1 & H2). exists (r :: l1), l2.
    assert (Hb : (rq_txn r =? t) && negb (rq_granted r) = false).
    { destruct (Z.eqb_spec (rq_txn r) t), (rq_granted r) eqn:Eg; simpl; try done.
      destruct E. by split. }
    rewrite Hb, Hg. split; [done|]. split; [done|]. split; [|done].
    by rewrite filter_cons, decide_False.
Qed.

Lemma excludes_grant t mode l1 l2 :
  excludes (l1 ++ mkReq t mode false :: l2) ->
  Lock.may_proceed t mode (l1 ++ mkReq t mode false :: l2) = true ->
  excludes (l1 ++ mkReq t mode true :: l2).
Proof.
  intros Hx Hm. apply (excludes_sub ((l1 ++ mkReq t mode false :: l2) ++ [mkReq t mode true])).
  - by apply excludes_push.
  - intros r Hr Hg. rewrite !elem_of_app, elem_of_cons, list_elem_of_singleton.
    rewrite elem_of_app, elem_of_cons in Hr. naive_solver.
Qed.

Lemma wake_call t wt lm w :
  table_inv (lockTable_ lm) w -> w !! t = Some wt ->
  exists b lm', runs (Lock.wake t (wt_res wt) (wt_mode wt) (wt_entry wt)) lm b lm' /\
    table_inv (lockTable_ lm') (if b : bool then delete t w else w) /\
    (b = true <-> Lock.may_proceed t (wt_mode wt) (requests_at lm (wt_res wt)) = true) /\
    (b = false -> lm' = lm).
Proof.
  intros HT Ht. destruct (ti_waiter _ _ HT t wt Ht) as (e & He & Hid).
  assert (Hat : runs (Lock.at_res (wt_res wt)) lm e lm)
    by (unfold runs, Lock.at_res, bind, get; by rewrite He).
  unfold runs, Lock.wake, requests_at. rewrite (bind_runs _ _ _ _ _ Hat), He.
  destruct (Lock.may_proceed t (wt_mode wt) (en_requests e)) eqn:Hm.
  2:{ exists false, lm. done. }
  rewrite Hid, Z.eqb_refl. eexists true, _. split; [reflexivity|]. split; [|done]. simpl.
  pose proof (waiter_pending _ _ t wt e HT Ht He) as Hp.
  destruct (grant_pending t _ _ Hp) as (l1 & l2 & Hrs & Hgr & H1 & H2). rewrite Hgr.
  apply (table_inv_set _ w); [done|done| | | |].
  - pose proof (ti_excl _ _ HT _ e He) as Hx. rewrite Hrs in Hx, Hm. by apply excludes_grant.
  - intros t'. unfold expected. destruct (decide (t = t')) as [<-|Hne].
    + rewrite lookup_delete_eq, filter_app, filter_cons, decide_False by (by intros [_ ?]).
      by rewrite H1, H2.
    + rewrite lookup_delete_ne by done. pose proof (ti_pending _ _ HT _ e t' He) as Hp'.
      unfold expected in Hp'. rewrite <- Hp', Hrs, !filter_app, !filter_cons.
      by rewrite !decide_False by (by intros [? _]).
  - intros t' res' Hne. unfold expected. destruct (decide (t = t')) as [<-|Hne'].
    + by rewrite lookup_delete_eq, Ht, decide_False.
    + by rewrite lookup_delete_ne.
  - intros t' wt' [_ ?]%lookup_delete_Some. by left.
Qed.

Lemma erase_granted_sub t rs r : r ∈ Lock.erase_granted t rs -> r ∈ rs.
Proof.
  induction rs as [|r' rs IH]; simpl; [done|]. destruct ((rq_txn r' =? t) && rq_granted r').
  - by right.
  - rewrite !elem_of_cons. tauto.
Qed.

Lemma erase_granted_pending t t' rs :
  filter (pending t') (Lock.erase_granted t rs) = filter (pending t') rs.
Proof.
  induction rs as [|r rs IH]; simpl; [done|].
  destruct ((rq_txn r =? t) && rq_granted r) eqn:E.
  - apply andb_true_iff in E as [_ Hg]. rewrite filter_cons, decide_False; [done|].
    intros [_ ?]. congruence.
  - by rewrite !filter_cons, IH.
Qed.

Lemma unlock_call t res lm w :
  table_inv (lockTable_ lm) w ->
  exists lm', runs (Lock.unlock t res) lm tt lm' /\ table_inv (lockTable_ lm') w.
Proof.
  intros HT. unfold runs, Lock.unlock, bind, get. destruct (lockTable_ lm !! res) as [e|] eqn:He.
  - eexists. split; [done|]. simpl. apply put_back_inv; [done|done| |].
    + apply (excludes_sub (en_requests e)); [by apply (ti_excl _ _ HT res)|].
      intros r Hr _. by apply (erase_granted_sub t).
    + intros t'. apply erase_granted_pending.
  - by exists lm.
Qed.

(** What is left of an entry when a transaction's requests go. *)
Definition without (t : Z) (e : LockEntry) : option LockEntry :=
  match filter (fun r => rq_txn r <> t) (en_requests e) with
  | [] => None
  | rs => Some (mkEntry (en_id e) rs)
  end.

Lemma lookup_put_back res res' e rs T :
  Lock.put_back res e rs T !! res' =
    if decide (res' = res) then match rs with [] => None | _ => Some (mkEntry (en_id e) rs) end
    else T !! res'.
Proof.
  unfold Lock.put_back. case_decide as E; [subst|].
  - destruct rs; [by rewrite lookup_delete_eq|by rewrite lookup_insert_eq].
  - destruct rs; [by rewrite lookup_delete_ne|by rewrite lookup_insert_ne].
Qed.

Lemma lookup_release t res res' T :
  Lock.release t T res !! res' = if decide (res' = res) then T !! res ≫= without t else T !! res'.
Proof.
  unfold Lock.release. destruct (T !! res) as [e|] eqn:He.
  - rewrite lookup_put_back. case_decide; [|done]. simpl. unfold without. by destruct (filter _ _).
  - case_decide as E; [by subst|done].
Qed.

Lemma lookup_release_all t l : forall T res, NoDup l ->
  fold_left (Lock.release t) l T !! res =
    if decide (res ∈ l) then T !! res ≫= without t else T !! res.
Proof.
  induction l as [|x l IH]; intros T res Hnd; simpl; [done|]. apply NoDup_cons in Hnd as [Hx Hnd].
  rewrite IH, lookup_release by done. destruct (decide (res = x)) as [->|Hne].
  - rewrite (decide_False (P := x ∈ l)) by done. rewrite decide_True; [done|by left].
  - destruct (decide (res ∈ l)) as [Hin|Hin].
    + rewrite decide_True; [done|by right].
    + rewrite decide_False; [done|]. by intros [?|?]%elem_of_cons.
Qed.

Lemma mentions_spec t e : Lock.mentions t e = true <-> exists r, r ∈ en_requests e /\ rq_txn r = t.
Proof.
  unfold Lock.mentions. rewrite existsb_exists. split; intros (r & Hr & Ht); exists r.
  - rewrite list_elem_of_In. by rewrite Z.eqb_eq in Ht.
  - rewrite <- list_elem_of_In. by rewrite Z.eqb_eq.
Qed.

Lemma unlockAll_lookup t lm :
  exists lm', runs (Lock.unlockAll t) lm tt lm' /\
    waitForGraph_ lm' = delete t (waitForGraph_ lm) /\
    forall res, lockTable_ lm' !! res =
      match lockTable_ lm !! res with
      | Some e => if Lock.mentions t e then without t e else Some e
      | None => None
      end.
Proof.
  unfold runs, Lock.unlockAll, bind, get, put. cbv zeta. eexists. split; [reflexivity|].
  split; [done|]. intros res. simpl.
  rewrite lookup_release_all.
  2:{ apply (sublist_NoDup _ (map_to_list (lockTable_ lm)).*1); [apply NoDup_fst_map_to_list|].
      apply fmap_sublist, sublist_filter. }
  destruct (lockTable_ lm !! res) as [e|] eqn:He.
  - destruct (Lock.mentions t e) eqn:Hm.
    + rewrite decide_True; [done|]. apply list_elem_of_fmap. exists (res, e). split; [done|].
      apply list_elem_of_filter. split; [done|]. by apply elem_of_map_to_list.
    + rewrite decide_False; [done|]. intros (x & -> & Hin)%list_elem_of_fmap.
      apply list_elem_of_filter in Hin as [Hm' Hin]. destruct x as [res' e'].
      apply elem_of_map_to_list in Hin. simpl in *. congruence.
  - by case_decide.
Qed.

Lemma without_pending t t' (rs : list LockRequest) :
  t' <> t -> filter (pending t') (filter (fun r => rq_txn r <> t) rs) = filter (pending t') rs.
Proof.
  intros Hne. induction rs as [|r rs IH]; [done|]. rewrite filter_cons. case_decide as E.
  - by rewrite !filter_cons, IH.
  - rewrite IH, (filter_cons (pending t')), decide_False; [done|]. intros [? _].
    destruct (decide (rq_txn r = t)); [congruence|done].
Qed.

Lemma without_pending_self t (rs : list LockRequest) : filter (pending t) (filter (fun r => rq_txn r <> t) rs) = [].
Proof.
  induction rs as [|r rs IH]; [done|]. rewrite filter_cons. case_decide as E; [|done].
  rewrite filter_cons, decide_False; [done|]. by intros [? _].
Qed.

Lemma unlockAll_call t lm w :
  table_inv (lockTable_ lm) w -> w !! t = None ->
  exists lm', runs (Lock.unlockAll t) lm tt lm' /\ table_inv (lockTable_ lm') w.
Proof.
  intros HT Ht. destruct (unlockAll_lookup t lm) as (lm' & Hr & _ & Hl). exists lm'. split; [done|].
  assert (Hent : forall res e', lockTable_ lm' !! res = Some e' -> exists e,
    lockTable_ lm !! res = Some e /\ en_id e' = en_id e /\
    (en_requests e' = en_requests e \/
     en_requests e' = filter (fun r => rq_txn r <> t) (en_requests e))).
  { intros res e'. rewrite Hl. destruct (lockTable_ lm !! res) as [e|]; [|done].
    destruct (Lock.mentions t e); [|intros [= <-]; by eauto].
    unfold without. destruct (filter _ _) eqn:Ef; [done|]. intros [= <-].
    exists e. rewrite Ef. auto. }
  assert (Hself : forall res e, lockTable_ lm !! res = Some e -> filter (pending t) (en_requests e) = [])
    by (intros res e He; rewrite (ti_pending _ _ HT res e t He); unfold expected; by rewrite Ht).
  split.
  - intros res e' He'. destruct (Hent res e' He') as (e & He & _ & [->| ->]); [by apply (ti_excl _ _ HT res)|].
    apply (excludes_sub (en_requests e)); [by apply (ti_excl _ _ HT res)|].
    intros r Hr' _. by apply list_elem_of_filter in Hr' as [_ ?].
  - intros res e' t' He'. destruct (Hent res e' He') as (e & He & _ & Heq).
    rewrite <- (ti_pending _ _ HT res e t' He). destruct Heq as [->| ->]; [done|].
    destruct (decide (t' = t)) as [->|Hne]; [|by apply without_pending].
    rewrite without_pending_self. symmetry. by apply (Hself res).
  - intros t' wt Ht'. destruct (ti_waiter _ _ HT t' wt Ht') as (e & He & Hid).
    pose proof (waiter_pending _ _ t' wt e HT Ht' He) as Hp.
    rewrite Hl, He. destruct (Lock.mentions t e); [|by eauto].
    assert (Hne : t' <> t) by congruence. rewrite <- (without_pending t t') in Hp by done.
    unfold without. destruct (filter _ (en_requests e)); [discriminate Hp|].
    eexists. split; [done|]. by simpl.
Qed.

(** ** The invariant holds in every reachable state *)
Lemma lock_inv_step order (Horder : forall X, order X ≡ₚ elements X) s s' :
  lock_inv s -> lock_step order s s' -> lock_inv s'.
Proof.
  unfold lock_inv. intros HT Hstep.
  destruct Hstep as [lm w t res mode r lm' Ht Hr|lm w t wt b lm' Ht Hr|lm w t res lm' Hr|lm w t lm' Ht Hr];
    simpl in *.
  - destruct (lock_call order Horder t res mode lm w HT Ht) as (r1 & lm1 & Hr1 & HT1 & _).
    by destruct (runs_det _ _ _ _ _ _ Hr Hr1) as [-> ->].
  - destruct (wake_call t wt lm w HT Ht) as (b1 & lm1 & Hr1 & HT1 & _).
    by destruct (runs_det _ _ _ _ _ _ Hr Hr1) as [-> ->].
  - destruct (unlock_call t res lm w HT) as (lm1 & Hr1 & HT1).
    by destruct (runs_det _ _ _ _ _ _ Hr Hr1) as [_ ->].
  - destruct (unlockAll_call t lm w HT Ht) as (lm1 & Hr1 & HT1).
    by destruct (runs_det _ _ _ _ _ _ Hr Hr1) as [_ ->].
Qed.

Lemma lock_inv_initial : lock_inv initial.
Proof.
  split; simpl.
  - intros res e H. by apply lookup_empty_Some in H.
  - intros res e t H. by apply lookup_empty_Some in H.
  - intros t wt H. by apply lookup_empty_Some in H.
Qed.

Lemma lock_inv_reachable order (Horder : forall X, order X ≡ₚ elements X) s :
  reachable order s -> lock_inv s.
Proof.
  unfold reachable. intros H. pose proof lock_inv_initial as H0. revert H0.
  induction H as [|x y z Hxy _ IH]; [done|]. intros H0. apply IH. by eapply lock_inv_step.
Qed.
