(* ===== verification/Txn.v ===== *)
(** * Transactions (src/src/transaction/Transaction.h, Transaction.cpp)

    [TransactionManager] over the lock manager it holds a pointer to. Its
    mutex makes [begin], [commit] and [abort] atomic. *)
From stdpp Require Import base numbers list strings gmap.
From Stdlib Require Import ZArith Lia.
From S2P Require Import Prelude Locks LockGraph LockSafety.

Inductive TxnState := ACTIVE | COMMITTED | ABORTED.
#[global] Instance TxnState_eq_dec : EqDecision TxnState.
Proof. solve_decision. Defined.

Record Transaction := mkTxn {
  tx_id : Z;
  tx_state : TxnState;
  lockedResources_ : gset ResourceId;
}.

Record TransactionManager := mkTM { transactions_ : gmap Z Transaction; nextTxnId_ : Z }.

(** The manager and the lock manager behind [lockMgr_]. *)
Record TxnStore := mkTS { ts_txns : TransactionManager; ts_locks : LockManager }.

Definition on_locks {A} : M LockManager A -> M TxnStore A :=
  zoom ts_locks (fun l s => mkTS (ts_txns s) l).

Module Txn.
Definition new (txnId : Z) : Transaction := mkTxn txnId ACTIVE ∅.
Definition setState (st : TxnState) (x : Transaction) : Transaction :=
  mkTxn (tx_id x) st (lockedResources_ x).
Definition addLock (res : ResourceId) (x : Transaction) : Transaction :=
  mkTxn (tx_id x) (tx_state x) ({[res]} ∪ lockedResources_ x).

Definition init : TransactionManager := mkTM ∅ 1.

(** [emplace] keeps an entry that is there. *)
Definition begin : M TxnStore Z :=
  s <- get ;;
  let m := ts_txns s in
  let txnId := nextTxnId_ m in
  next <- lift (int_succ txnId) ;;
  let t := match transactions_ m !! txnId with
           | Some _ => transactions_ m
           | None => <[txnId := new txnId]> (transactions_ m)
           end in
  put (mkTS (mkTM t next) (ts_locks s)) ;;
  ret txnId.

(** [commit] and [abort], by the state they set *)
Definition finish (st : TxnState) (txnId : Z) : M TxnStore unit :=
  s <- get ;;
  let m := ts_txns s in
  match transactions_ m !! txnId with
  | None => ret tt
  | Some x =>
      put (mkTS (mkTM (<[txnId := setState st x]> (transactions_ m)) (nextTxnId_ m)) (ts_locks s)) ;;
      on_locks (Lock.unlockAll txnId)
  end.
Definition commit : Z -> M TxnStore unit := finish COMMITTED.
Definition abort : Z -> M TxnStore unit := finish ABORTED.

Definition getTransaction (txnId : Z) (m : TransactionManager) : option Transaction :=
  transactions_ m !! txnId.
End Txn.

(** Ids are handed out in order. *)
Definition txns_ok (m : TransactionManager) : Prop :=
  0 < nextTxnId_ m <= INT_MAX /\
  forall id x, transactions_ m !! id = Some x -> tx_id x = id /\ 0 < id < nextTxnId_ m.

Lemma requests_unlockAll t lm lm' res :
  runs (Lock.unlockAll t) lm tt lm' ->
  requests_at lm' res = filter (fun r => rq_txn r <> t) (requests_at lm res).
Proof.
  intros Hr. destruct (unlockAll_lookup t lm) as (lm1 & Hr1 & _ & Hl).
  destruct (runs_det _ _ _ _ _ _ Hr Hr1) as [_ ->]. unfold requests_at. rewrite Hl.
  destruct (lockTable_ lm !! res) as [e|]; [|done]. destruct (Lock.mentions t e) eqn:Hm.
  - unfold without. by destruct (filter _ (en_requests e)).
  - symmetry.
    assert (Hno : forall r, r ∈ en_requests e -> rq_txn r <> t).
    { intros r Hr' Ht. apply not_true_iff_false in Hm. apply Hm, mentions_spec. eauto. }
    clear -Hno. induction (en_requests e) as [|r rs IH]; [done|].
    rewrite filter_cons, decide_True, IH; [done| |].
    + intros r' Hr'. apply Hno. by right.
    + apply Hno. by left.
Qed.

Lemma finish_runs st t s x :
  transactions_ (ts_txns s) !! t = Some x ->
  exists s', runs (Txn.finish st t) s tt s' /\
    ts_txns s' = mkTM (<[t := Txn.setState st x]> (transactions_ (ts_txns s))) (nextTxnId_ (ts_txns s)) /\
    runs (Lock.unlockAll t) (ts_locks s) tt (ts_locks s').
Proof.
  intros Hx. destruct (unlockAll_lookup t (ts_locks s)) as (lm & Hr & _).
  exists (mkTS (mkTM (<[t := Txn.setState st x]> (transactions_ (ts_txns s))) (nextTxnId_ (ts_txns s))) lm).
  split; [|split; [done|exact Hr]].
  - unfold runs, Txn.finish, bind, get, put, on_locks, zoom. rewrite Hx. cbn [ts_locks ts_txns].
    unfold runs in Hr. by rewrite Hr.
Qed.

(** ** The calls keep the ids in order *)
Lemma begin_runs s :
  txns_ok (ts_txns s) -> nextTxnId_ (ts_txns s) < INT_MAX ->
  exists s', runs Txn.begin s (nextTxnId_ (ts_txns s)) s' /\ txns_ok (ts_txns s') /\
    transactions_ (ts_txns s) !! nextTxnId_ (ts_txns s) = None /\
    (forall id, Txn.getTransaction id (ts_txns s') =
       if decide (id = nextTxnId_ (ts_txns s)) then Some (Txn.new id)
       else Txn.getTransaction id (ts_txns s)) /\ ts_locks s' = ts_locks s /\
    nextTxnId_ (ts_txns s') = nextTxnId_ (ts_txns s) + 1.
Proof.
  intros [Hn Hok] Hlt. set (n := nextTxnId_ (ts_txns s)) in *.
  assert (Hnone : transactions_ (ts_txns s) !! n = None).
  { destruct (_ !! n) as [x|] eqn:E; [|done]. apply Hok in E. lia. }
  eexists. split.
  { unfold runs, Txn.begin, bind, get, put, lift, int_succ. fold n. rewrite decide_True by done.
    rewrite Hnone. reflexivity. }
  simpl. split; [|split; [done|split; [|done]]].
  - split; simpl; [lia|]. intros id x [[<- <-]|[_ H]]%lookup_insert_Some; [simpl; lia|].
    apply Hok in H. lia.
  - intros id. unfold Txn.getTransaction. simpl. case_decide as E.
    + rewrite E. by rewrite lookup_insert_eq.
    + by rewrite lookup_insert_ne.
Qed.

Lemma finish_ok st t s :
  txns_ok (ts_txns s) ->
  exists s', runs (Txn.finish st t) s tt s' /\ txns_ok (ts_txns s') /\
    nextTxnId_ (ts_txns s') = nextTxnId_ (ts_txns s).
Proof.
  intros [Hn Hok]. destruct (transactions_ (ts_txns s) !! t) as [x|] eqn:Hx.
  - destruct (finish_runs st t s x Hx) as (s' & Hr & Ht & _). exists s'. split; [done|].
    rewrite Ht. split; [|done]. split; simpl; [done|].
    intros id y [[<- <-]|[_ H]]%lookup_insert_Some; [|by apply Hok in H].
    apply Hok in Hx as [Hid Hr']. by split.
  - exists s. split; [|by split]. unfold runs, Txn.finish, bind, get. by rewrite Hx.
Qed.
