(* ===== verification/LockThms.v ===== *)
(** * Theorems of the lock manager and of transactions

    Locks exclude each other in every interleaving, a lock call answers by the
    lock table and the wait-for graph alone, and a transaction that ends gives
    everything back. Deadlocks formed while a call waits are not seen. *)
From stdpp Require Import base numbers list strings gmap relations.
From Stdlib Require Import ZArith Lia.
From S2P Require Import Prelude Locks LockGraph LockSafety Txn.

(** ** Runs of the lock manager, for the examples *)
Inductive call :=
  | CLock (t : Z) (mode : LockMode) (res : ResourceId)
  | CWake (t : Z)
  | CUnlock (t : Z) (res : ResourceId)
  | CUnlockAll (t : Z).

Definition exec_call (order : gset Z -> list Z) (c : call) (s : System) : option System :=
  match c with
  | CLock t mode res =>
      match sys_waiters s !! t, Lock.lock order mode t res (sys_lm s) with
      | None, (Ret r, lm) => Some (mkSys lm (after_call t res mode r (sys_waiters s)))
      | _, _ => None
      end
  | CWake t =>
      wt ← sys_waiters s !! t;
      match Lock.wake t (wt_res wt) (wt_mode wt) (wt_entry wt) (sys_lm s) with
      | (Ret b, lm) => Some (mkSys lm (if b : bool then delete t (sys_waiters s) else sys_waiters s))
      | _ => None
      end
  | CUnlock t res =>
      match Lock.unlock t res (sys_lm s) with
      | (Ret _, lm) => Some (mkSys lm (sys_waiters s))
      | _ => None
      end
  | CUnlockAll t =>
      match sys_waiters s !! t, Lock.unlockAll t (sys_lm s) with
      | None, (Ret _, lm) => Some (mkSys lm (sys_waiters s))
      | _, _ => None
      end
  end.

Fixpoint exec (order : gset Z -> list Z) (cs : list call) (s : System) : option System :=
  match cs with
  | [] => Some s
  | c :: rest => s' ← exec_call order c s; exec order rest s'
  end.

Lemma exec_call_step order c s s' : exec_call order c s = Some s' -> lock_step order s s'.
Proof.
  destruct s as [lm w], c as [t mode res|t|t res|t]; simpl.
  - destruct (w !! t) eqn:Hw; [done|].
    destruct (Lock.lock order mode t res lm) as [[r|?|] lm'] eqn:Hr; try done.
    intros [= <-]. by apply step_lock.
  - intros (wt & Hw & Hb)%bind_Some.
    destruct (Lock.wake _ _ _ _ lm) as [[b|?|] lm'] eqn:Hr; try done.
    injection Hb as <-. by eapply step_wake.
  - destruct (Lock.unlock t res lm) as [[[]|?|] lm'] eqn:Hr; try done.
    intros [= <-]. by eapply step_unlock.
  - destruct (w !! t) eqn:Hw; [done|].
    destruct (Lock.unlockAll t lm) as [[[]|?|] lm'] eqn:Hr; try done.
    intros [= <-]. by eapply step_unlockAll.
Qed.

Lemma exec_reachable order cs : forall s s',
  rtc (lock_step order) initial s -> exec order cs s = Some s' -> reachable order s'.
Proof.
  induction cs as [|c cs IH]; intros s s' Hs; simpl; [by intros [= <-]|].
  intros (s1 & Hc & Hrest)%bind_Some. apply (IH s1); [|done].
  eapply rtc_r; [exact Hs|]. by apply (exec_call_step order c).
Qed.

Definition rx : ResourceId := page_resource "accounts" 0.
Definition ry : ResourceId := page_resource "accounts" 1.

(** ** Safety *)

(** C16: in every state any interleaving of calls can reach, two granted
    requests for the same resource of which one is exclusive belong to the same
    transaction. *)
Theorem locks_exclude order s res e r1 r2 :
  (forall X, order X ≡ₚ elements X) -> reachable order s ->
  lockTable_ (sys_lm s) !! res = Some e -> r1 ∈ en_requests e -> r2 ∈ en_requests e ->
  rq_granted r1 = true -> rq_granted r2 = true -> rq_mode r1 = EXCLUSIVE -> rq_txn r1 = rq_txn r2.
Proof.
  intros Ho Hr He H1 H2. apply (ti_excl _ _ (lock_inv_reachable order Ho s Hr) res e He r1 r2 H1 H2).
Qed.

Definition demo_locks : option System :=
  exec elements [CLock 1 SHARED rx; CLock 2 SHARED rx; CLock 3 EXCLUSIVE rx; CUnlock 1 rx;
                 CUnlock 2 rx; CWake 3] initial.

Lemma locks_exclude_witness :
  exists s e, demo_locks = Some s /\ lockTable_ (sys_lm s) !! rx = Some e /\
    (mkReq 3 EXCLUSIVE true) ∈ en_requests e /\
    forall r, r ∈ en_requests e -> rq_granted r = true -> 3 = rq_txn r.
Proof.
  destruct demo_locks as [s|] eqn:Hs; [|vm_compute in Hs; discriminate].
  assert (Hr : reachable elements s) by (eapply exec_reachable; [apply rtc_refl|exact Hs]).
  assert (He : lockTable_ (sys_lm s) !! rx = Some (mkEntry 0 [mkReq 3 EXCLUSIVE true])).
  { vm_compute in Hs. injection Hs as <-. vm_compute. reflexivity. }
  exists s, (mkEntry 0 [mkReq 3 EXCLUSIVE true]). split; [reflexivity|]. split; [exact He|].
  split; [by left|]. intros r Hin Hg.
  apply (locks_exclude elements s rx _ (mkReq 3 EXCLUSIVE true) r (fun X => reflexivity _) Hr He);
    [by left|exact Hin|reflexivity|exact Hg|reflexivity].
Defined.

(** C17: in every reachable state every call that may be made runs to its return
    or its wait without undefined behaviour: the search for a cycle ends, and a
    waiting call's reference into the lock table is never dangling. *)
Theorem lock_calls_defined order s t :
  (forall X, order X ≡ₚ elements X) -> reachable order s ->
  match sys_waiters s !! t with
  | Some wt => exists b lm', runs (Lock.wake t (wt_res wt) (wt_mode wt) (wt_entry wt)) (sys_lm s) b lm'
  | None => forall mode res, exists r lm', runs (Lock.lock order mode t res) (sys_lm s) r lm'
  end.
Proof.
  intros Ho Hr. pose proof (lock_inv_reachable order Ho s Hr) as HT.
  destruct (sys_waiters s !! t) as [wt|] eqn:Hw.
  - destruct (wake_call t wt _ _ HT Hw) as (b & lm' & Hrun & _). by exists b, lm'.
  - intros mode res. destruct (lock_call order Ho t res mode _ _ HT Hw) as (r & lm' & Hrun & _).
    by exists r, lm'.
Qed.

Lemma lock_calls_defined_witness :
  exists r lm', runs (Lock.lock elements EXCLUSIVE 7 rx) Lock.init r lm'.
Proof.
  apply (lock_calls_defined elements initial 7 (fun X => reflexivity _) (rtc_refl _ _) EXCLUSIVE rx).
Defined.

(** ** What the calls answer *)

(** C18: a lock call in a reachable state answers by the requests on the resource
    and the wait-for graph alone: granted at once if already held or compatible
    with the locks granted to others; else, with the edges to the holders added,
    refused if the graph now leads the caller into a cycle, and made to wait if
    not. It changes the requests of that resource as the answer says. *)
Theorem lock_answers order lm w t res mode :
  (forall X, order X ≡ₚ elements X) -> reachable order (mkSys lm w) -> w !! t = None ->
  exists r lm', runs (Lock.lock order mode t res) lm r lm' /\
    lock_outcome t mode (requests_at lm res) (waitForGraph_ lm) r (requests_at lm' res)
      (waitForGraph_ lm').
Proof.
  intros Ho Hr Hw. pose proof (lock_inv_reachable order Ho _ Hr) as HT.
  destruct (lock_call order Ho t res mode lm w HT Hw) as (r & lm' & Hrun & _ & H). by exists r, lm'.
Qed.

Lemma lock_answers_witness :
  exists r lm', runs (Lock.lock elements SHARED 1 rx) Lock.init r lm' /\
    lock_outcome 1 SHARED [] ∅ r (requests_at lm' rx) (waitForGraph_ lm').
Proof.
  apply (lock_answers elements Lock.init ∅ 1 rx SHARED (fun X => reflexivity _) (rtc_refl _ _)).
  reflexivity.
Defined.

(** C19: the deadlock check always ends and is exact: it answers true if and only
    if the wait-for graph leads from the transaction into a cycle. *)
Theorem hasDeadlock_exact g order t :
  (forall X, order X ≡ₚ elements X) ->
  exists b, Lock.hasDeadlock g order t = Ret b /\ (b = true <-> reaches_cycle g t).
Proof. intros Ho. by apply hasDeadlock_spec. Qed.

Lemma hasDeadlock_exact_witness :
  reaches_cycle {[1 := {[2]}; 2 := {[1]}]} 1.
Proof.
  destruct (hasDeadlock_exact {[1 := {[2]}; 2 := {[1]}]} elements 1 (fun X => reflexivity _))
    as (b & Hb & Hc).
  apply Hc. assert (H : Lock.hasDeadlock {[1 := {[2]}; 2 := {[1]}]} elements 1 = Ret true)
    by (vm_compute; reflexivity).
  rewrite Hb in H. injection H as ->. reflexivity.
Defined.

(** ** Deadlocks that are missed *)

(** [a] cannot go on while [b] keeps its lock *)
Definition blocked_by (s : System) (a b : Z) : Prop :=
  exists wt r, sys_waiters s !! a = Some wt /\ r ∈ requests_at (sys_lm s) (wt_res wt) /\
    rq_txn r = b /\ rq_granted r = true /\
    Lock.may_proceed a (wt_mode wt) (requests_at (sys_lm s) (wt_res wt)) = false.

(** C20: the edges of a waiting call are never brought up to date: when another
    transaction takes the lock it waits for, two transactions can come to block
    each other for ever while the wait-for graph has no cycle to find. *)
Theorem deadlock_missed :
  exists s, reachable elements s /\ blocked_by s 1 3 /\ blocked_by s 3 1 /\
    Lock.hasDeadlock (waitForGraph_ (sys_lm s)) elements 1 = Ret false /\
    Lock.hasDeadlock (waitForGraph_ (sys_lm s)) elements 3 = Ret false.
Proof.
  destruct (exec elements [CLock 1 EXCLUSIVE ry; CLock 2 EXCLUSIVE rx; CLock 1 EXCLUSIVE rx;
    CUnlock 2 rx; CLock 3 EXCLUSIVE rx; CLock 3 EXCLUSIVE ry] initial) as [s|] eqn:Hs;
    [|vm_compute in Hs; discriminate].
  exists s. split; [eapply exec_reachable; [apply rtc_refl|exact Hs]|].
  vm_compute in Hs. injection Hs as <-. split; [|split; [|split; vm_compute; reflexivity]].
  - exists (mkWaiter rx EXCLUSIVE 1), (mkReq 3 EXCLUSIVE true).
    split; [vm_compute; reflexivity|]. split; [vm_compute; right; left|]. split; [done|].
    split; [done|]. vm_compute. reflexivity.
  - exists (mkWaiter ry EXCLUSIVE 0), (mkReq 1 EXCLUSIVE true).
    split; [vm_compute; reflexivity|]. split; [vm_compute; left|]. split; [done|].
    split; [done|]. vm_compute. reflexivity.
Qed.

(** [unlock] erases one granted request only: a transaction that locked a
    resource shared and then exclusive still holds it exclusively after
    unlocking it. *)
Theorem unlock_after_upgrade lm t res e rest :
  lockTable_ lm !! res = Some e ->
  en_requests e = mkReq t SHARED true :: mkReq t EXCLUSIVE true :: rest ->
  exists lm', runs (Lock.unlock t res) lm tt lm' /\
    requests_at lm' res = mkReq t EXCLUSIVE true :: rest.
Proof.
  intros He Hrs. unfold runs, Lock.unlock, bind, get, put. rewrite He, Hrs. simpl.
  rewrite Z.eqb_refl. simpl. eexists. split; [reflexivity|].
  unfold requests_at. simpl. by rewrite lookup_insert_eq.
Qed.

Lemma unlock_after_upgrade_witness :
  exists s lm', exec elements [CLock 5 SHARED rx; CLock 5 EXCLUSIVE rx] initial = Some s /\
    runs (Lock.unlock 5 rx) (sys_lm s) tt lm' /\ requests_at lm' rx = [mkReq 5 EXCLUSIVE true].
Proof.
  destruct (exec elements [CLock 5 SHARED rx; CLock 5 EXCLUSIVE rx] initial) as [s|] eqn:Hs;
    [|vm_compute in Hs; discriminate].
  destruct (unlock_after_upgrade (sys_lm s) 5 rx
    (mkEntry 0 [mkReq 5 SHARED true; mkReq 5 EXCLUSIVE true]) []) as (lm' & Hr & Hq).
  - vm_compute in Hs. injection Hs as <-. vm_compute. reflexivity.
  - reflexivity.
  - exists s, lm'. split; [reflexivity|]. split; [exact Hr|exact Hq].
Defined.

(** ** Transactions *)

(** [begin] gives ids in order, each new: the transaction is active, holds
    nothing, and the others are as they were. *)
Theorem begin_fresh s :
  txns_ok (ts_txns s) -> nextTxnId_ (ts_txns s) < INT_MAX ->
  exists s', runs Txn.begin s (nextTxnId_ (ts_txns s)) s' /\ txns_ok (ts_txns s') /\
    transactions_ (ts_txns s) !! nextTxnId_ (ts_txns s) = None /\
    (forall id, Txn.getTransaction id (ts_txns s') =
       if decide (id = nextTxnId_ (ts_txns s)) then Some (Txn.new id)
       else Txn.getTransaction id (ts_txns s)) /\ ts_locks s' = ts_locks s.
Proof.
  intros Hok Hlt. destruct (begin_runs s Hok Hlt) as (s' & Hr & Hok' & Hn & Hl & Hk & _). by exists s'.
Qed.

Lemma begin_fresh_witness :
  exists s', runs Txn.begin (mkTS Txn.init Lock.init) 1 s' /\ txns_ok (ts_txns s').
Proof.
  destruct (begin_fresh (mkTS Txn.init Lock.init)) as (s' & Hr & Hok & _).
  - split; simpl; [unfold INT_MAX; lia|]. intros id x H. by apply lookup_empty_Some in H.
  - simpl. unfold INT_MAX. lia.
  - exists s'. split; [exact Hr|exact Hok].
Defined.

(** C21: commit and abort set the state and release everything the transaction
    holds or waits for, and nothing of any other transaction; an id that was
    never begun is ignored. *)
Theorem finish_releases_all (aborted : bool) t s :
  let st := if aborted then ABORTED else COMMITTED in
  let op := if aborted then Txn.abort t else Txn.commit t in
  match Txn.getTransaction t (ts_txns s) with
  | None => runs op s tt s
  | Some x => exists s', runs op s tt s' /\
      Txn.getTransaction t (ts_txns s') = Some (Txn.setState st x) /\
      (forall id, id <> t -> Txn.getTransaction id (ts_txns s') = Txn.getTransaction id (ts_txns s)) /\
      (forall res, requests_at (ts_locks s') res =
         filter (fun r => rq_txn r <> t) (requests_at (ts_locks s) res)) /\
      waitForGraph_ (ts_locks s') = delete t (waitForGraph_ (ts_locks s))
  end.
Proof.
  intros st op. assert (Hop : op = Txn.finish st t) by (unfold op, st; by destruct aborted).
  rewrite Hop. unfold Txn.getTransaction. destruct (transactions_ (ts_txns s) !! t) as [x|] eqn:Hx.
  - destruct (finish_runs st t s x Hx) as (s' & Hr & Ht & Hl). exists s'. rewrite Ht. simpl.
    split; [done|]. split; [by rewrite lookup_insert_eq|].
    split; [intros id Hne; by rewrite lookup_insert_ne|]. split.
    + intros res. by apply requests_unlockAll.
    + destruct (unlockAll_lookup t (ts_locks s)) as (lm & Hr' & Hg & _).
      by destruct (runs_det _ _ _ _ _ _ Hl Hr') as [_ ->].
  - unfold runs, Txn.finish, bind, get. by rewrite Hx.
Qed.
