(* ===== verification/Wal.v ===== *)
(** * LogManager (src/src/recovery/LogManager.h, LogManager.cpp)

    The write-ahead log: records, their encoding, the append-only file behind an
    output stream with its buffer, and the reader used by recovery. Bytes
    written stay in the stream's buffer until a flush; the stream may hand any
    prefix of them to the operating system earlier ([spill]), and a process that
    dies loses what is left. The files of the model are those the operating
    system shows its processes: the code calls no fsync, so a machine that stops
    may lose any of their bytes. *)
From stdpp Require Import base numbers list strings gmap.
From Stdlib Require Import ZArith Lia.
From S2P Require Import Prelude Bytes Common Disk.

(** The enumeration has type [int] underneath: other codes are values too. *)
Inductive LogRecordType :=
  | INSERT | DELETE | UPDATE | BEGIN_TXN | COMMIT_TXN | ABORT_TXN | CHECKPOINT
  | OTHER (code : Z).
#[global] Instance LogRecordType_eq_dec : EqDecision LogRecordType.
Proof. solve_decision. Defined.

Record LogRecord := mkRec {
  lsn : Z;
  lr_type : LogRecordType;
  lr_txnId : Z;
  tableName : string;
  lr_rid : RID;
  oldData : list byte;
  newData : list byte;
}.

Record LogManager := mkLog {
  log_fs : FileSystem;
  log_buf : list byte;              (* written, not yet in the file *)
  log_stream : option bool;         (* [logFile_]: not open, or open and good or failed *)
  nextLSN_ : Z;
  walPath_ : string;
}.

Module Wal.
Definition type_code (t : LogRecordType) : Z :=
  match t with
  | INSERT => 0 | DELETE => 1 | UPDATE => 2 | BEGIN_TXN => 3 | COMMIT_TXN => 4
  | ABORT_TXN => 5 | CHECKPOINT => 6 | OTHER c => c
  end.
Definition type_of_code (c : Z) : LogRecordType :=
  if c =? 0 then INSERT else if c =? 1 then DELETE else if c =? 2 then UPDATE
  else if c =? 3 then BEGIN_TXN else if c =? 4 then COMMIT_TXN
  else if c =? 5 then ABORT_TXN else if c =? 6 then CHECKPOINT else OTHER c.

(** the default constructor *)
Definition empty_record : LogRecord := mkRec 0 BEGIN_TXN 0 "" Rid.default [] [].

Definition serializeRecord (r : LogRecord) : list byte :=
  let name := bytes_of (tableName r) in
  le_bytes 8 (lsn r) ++ le_bytes 1 (type_code (lr_type r)) ++ le_bytes 4 (lr_txnId r) ++
  le_bytes 2 (Z.of_nat (length name)) ++ name ++
  le_bytes 4 (pageId (lr_rid r)) ++ le_bytes 2 (slotNum (lr_rid r)) ++
  le_bytes 4 (Z.of_nat (length (oldData r))) ++ oldData r ++
  le_bytes 4 (Z.of_nat (length (newData r))) ++ newData r.

Definition read_record : M (list byte) LogRecord :=
  l <- get_le 8 ;;
  type <- get_le 1 ;;
  txn <- get_le 4 ;;
  nameLen <- get_le 2 ;;
  name <- get_bytes (Z.to_nat nameLen) ;;
  page <- get_le 4 ;;
  slot <- get_le 2 ;;
  oldLen <- get_le 4 ;;
  old <- get_bytes (Z.to_nat oldLen) ;;
  newLen <- get_le 4 ;;
  new <- get_bytes (Z.to_nat newLen) ;;
  ret (mkRec l (type_of_code type) (i32 txn) (text_of name) (mkRID page slot) old new).
Definition deserializeRecord (data : list byte) : outcome LogRecord := (read_record data).1.

(** The loop of [readAllRecords]; each turn consumes at least four bytes, so
    the length of the file is fuel enough. *)
Fixpoint read_records (fuel : nat) (bs : list byte) : outcome (list LogRecord) :=
  match fuel with
  | O => Ret []
  | S fuel' =>
      if decide (length bs < 4)%nat then Ret []
      else
        let recordSize := Z.to_nat (le_val (take 4 bs)) in
        let rest := drop 4 bs in
        if decide (length rest < recordSize)%nat then Ret []  (* incomplete record *)
        else
          rec <~ deserializeRecord (take recordSize rest) ;;
          recs <~ read_records fuel' (drop recordSize rest) ;;
          Ret (rec :: recs)
  end.
Definition read_log (bs : list byte) : outcome (list LogRecord) := read_records (S (length bs)) bs.

Definition readAllRecords : M LogManager (list LogRecord) :=
  l <- get ;;
  if open_inout (log_fs l) (walPath_ l)
  then lift (read_log (file_content (log_fs l) (walPath_ l)))
  else ret [].

(** The loop of [open] over the records found. *)
Definition next_lsn (next : Z) (recs : list LogRecord) : Z :=
  fold_left (fun n r => if n <=? lsn r then u64 (lsn r + 1) else n) recs next.

Definition set_log_fs (fs : FileSystem) (l : LogManager) : LogManager :=
  mkLog fs (log_buf l) (log_stream l) (nextLSN_ l) (walPath_ l).
Definition set_next (n : Z) (l : LogManager) : LogManager :=
  mkLog (log_fs l) (log_buf l) (log_stream l) n (walPath_ l).

Definition ensureDataDir : M LogManager unit :=
  modify (fun l =>
    if bool_decide (DATA_DIR ∈ fs_dirs (log_fs l)) then l
    else set_log_fs (mkFS (fs_files (log_fs l)) ({[DATA_DIR]} ∪ fs_dirs (log_fs l))
                          (fs_denied (log_fs l))) l).

(** [logFile_.open(walPath_, binary | app)]: a stream that is open already
    fails, a missing file is created. *)
Definition open_stream : M LogManager unit :=
  modify (fun l =>
    match log_stream l with
    | Some _ => mkLog (log_fs l) (log_buf l) (Some false) (nextLSN_ l) (walPath_ l)
    | None =>
        if can_open (log_fs l) (walPath_ l) then
          let fs := match fs_files (log_fs l) !! walPath_ l with
                    | Some _ => log_fs l
                    | None => set_file (walPath_ l) [] (log_fs l)
                    end in
          mkLog fs (log_buf l) (Some true) (nextLSN_ l) (walPath_ l)
        else l
    end).

Definition open (walPath : string) : M LogManager unit :=
  let path := if String.eqb walPath "" then DATA_DIR +:+ "/" +:+ WAL_FILE_NAME else walPath in
  modify (fun l => mkLog (log_fs l) (log_buf l) (log_stream l) (nextLSN_ l) path) ;;
  ensureDataDir ;;
  l <- get ;;
  (if open_inout (log_fs l) path then
     recs <- readAllRecords ;; modify (fun l => set_next (next_lsn (nextLSN_ l) recs) l)
   else ret tt) ;;
  open_stream ;;
  l <- get ;;
  match log_stream l with
  | Some _ => ret tt
  | None => throw ("LogManager: cannot open WAL file: " +:+ path)
  end.

(** [logFile_.write] *)
Definition write_log (bs : list byte) : M LogManager unit :=
  modify (fun l =>
    match log_stream l with
    | Some true => mkLog (log_fs l) (log_buf l ++ bs) (log_stream l) (nextLSN_ l) (walPath_ l)
    | _ => l
    end).

Definition frame (r : LogRecord) : list byte :=
  le_bytes 4 (Z.of_nat (length (serializeRecord r))) ++ serializeRecord r.

Definition with_lsn (n : Z) (r : LogRecord) : LogRecord :=
  mkRec n (lr_type r) (lr_txnId r) (tableName r) (lr_rid r) (oldData r) (newData r).

Definition appendLog (record : LogRecord) : M LogManager Z :=
  l <- get ;;
  let rec := with_lsn (nextLSN_ l) record in
  put (set_next (u64 (nextLSN_ l + 1)) l) ;;
  write_log (frame rec) ;;
  ret (lsn rec).

(** The first [n] bytes of the buffer reach the file the operating system
    keeps (not yet the disk). *)
Definition spill (n : nat) (l : LogManager) : LogManager :=
  mkLog (set_file (walPath_ l) (file_content (log_fs l) (walPath_ l) ++ take n (log_buf l)) (log_fs l))
        (drop n (log_buf l)) (log_stream l) (nextLSN_ l) (walPath_ l).

(** [logFile_.flush()]: the whole buffer goes to the operating system. *)
Definition flushLog : M LogManager unit :=
  modify (fun l =>
    match log_stream l with
    | Some true => spill (length (log_buf l)) l
    | _ => l
    end).

Definition txn_record (type : LogRecordType) (txnId : Z) : LogRecord :=
  mkRec 0 type txnId "" Rid.default [] [].

Definition logBegin (txnId : Z) : M LogManager Z := appendLog (txn_record BEGIN_TXN txnId).
Definition logCommit (txnId : Z) : M LogManager Z :=
  n <- appendLog (txn_record COMMIT_TXN txnId) ;; flushLog ;; ret n.
Definition logAbort (txnId : Z) : M LogManager Z := appendLog (txn_record ABORT_TXN txnId).
Definition logInsert (txnId : Z) (table : string) (rid : RID) (data : list byte) : M LogManager Z :=
  appendLog (mkRec 0 INSERT txnId table rid [] data).
Definition logDelete (txnId : Z) (table : string) (rid : RID) (old : list byte) : M LogManager Z :=
  appendLog (mkRec 0 DELETE txnId table rid old []).

(** the constructor *)
Definition init (fs : FileSystem) : LogManager := mkLog fs [] None 1 "".

(** [RecoveryManager::checkpoint] *)
Definition checkpoint : M LogManager unit :=
  appendLog (txn_record CHECKPOINT 0) ;; flushLog.
End Wal.
