(* ===== verification/WalThms.v ===== *)
(** * Theorems of the write-ahead log

    The encoding is read back, a log with a torn tail yields its whole records,
    a commit survives any crash, sequence numbers grow over restarts; and the
    records written after a torn tail are lost. *)
From stdpp Require Import base numbers list sorting strings gmap.
From Stdlib Require Import ZArith Lia.
From S2P Require Import Prelude Bytes Common Disk Wal.

(** ** Records *)
Definition type_ok (t : LogRecordType) : Prop :=
  match t with OTHER c => 7 <= c < 256 | _ => True end.

(** A record whose fields have the widths of their C++ types. *)
Record record_ok (r : LogRecord) : Prop := {
  ro_lsn : is_u64 (lsn r);
  ro_type : type_ok (lr_type r);
  ro_txn : is_i32 (lr_txnId r);
  ro_name : Z.of_nat (length (bytes_of (tableName r))) < 65536;
  ro_rid : Rid.wf (lr_rid r);
  ro_old : Z.of_nat (length (oldData r)) < 2 ^ 32;
  ro_new : Z.of_nat (length (newData r)) < 2 ^ 32;
}.

Lemma type_code_roundtrip t : type_ok t -> Wal.type_of_code (Wal.type_code t mod 256 ^ Z.of_nat 1) = t.
Proof.
  destruct t as [| | | | | | |c]; try done. simpl. intros Hc. change (256 ^ 1) with 256.
  rewrite Z.mod_small by lia. unfold Wal.type_of_code.
  repeat match goal with |- context [c =? ?k] => destruct (Z.eqb_spec c k); [lia|] end. done.
Qed.

(** One field of the encoding, read back. *)
Lemma get_le_small {A} n z rest (k : Z -> M (list byte) A) a rest' :
  0 <= z < 256 ^ Z.of_nat n -> runs (k z) rest a rest' ->
  runs (bind (get_le n) k) (le_bytes n z ++ rest) a rest'.
Proof.
  intros Hz Hk. eapply runs_bind; [apply get_le_app|]. by rewrite Z.mod_small.
Qed.

Lemma get_bytes_len {A} z bs rest (k : list byte -> M (list byte) A) a rest' :
  z = Z.of_nat (length bs) -> runs (k bs) rest a rest' ->
  runs (bind (get_bytes (Z.to_nat z)) k) (bs ++ rest) a rest'.
Proof. intros -> Hk. eapply runs_bind; [apply get_bytes_app; lia|done]. Qed.

Lemma read_record_app r rest :
  record_ok r -> runs Wal.read_record (Wal.serializeRecord r ++ rest) r rest.
Proof.
  intros [Hl Ht Hx Hn [Hp Hs] Ho Hw]. unfold Wal.serializeRecord. rewrite <- !app_assoc.
  unfold Wal.read_record, is_u64, is_u32, is_u16 in *.
  apply get_le_small; [done|].
  eapply runs_bind; [apply get_le_app|]. eapply runs_bind; [apply get_le_app|].
  apply get_le_small; [change (256 ^ Z.of_nat 2) with 65536; lia|].
  apply get_bytes_len; [done|].
  apply get_le_small; [done|]. apply get_le_small; [done|].
  apply get_le_small; [change (256 ^ Z.of_nat 4) with (2 ^ 32); lia|].
  apply get_bytes_len; [done|].
  apply get_le_small; [change (256 ^ Z.of_nat 4) with (2 ^ 32); lia|].
  apply get_bytes_len; [done|].
  unfold runs, ret. rewrite text_of_bytes, type_code_roundtrip by done.
  rewrite <- le_val_bytes, le_val_i32 by done. by destruct r as [? ? ? ? []].
Qed.

(** A log record is read back from its encoding exactly, whatever its type,
    name and images, as long as its fields have the widths of their types (a
    table name under 64 KiB). *)
Theorem record_roundtrip r :
  record_ok r -> Wal.deserializeRecord (Wal.serializeRecord r) = Ret r.
Proof.
  intros Hr. unfold Wal.deserializeRecord. pose proof (read_record_app r [] Hr) as H.
  rewrite app_nil_r in H. unfold runs in H. by rewrite H.
Qed.

Definition demo_insert : LogRecord :=
  mkRec 5 INSERT 2 "users" (mkRID 3 7) [] [Byte.x01; Byte.x2a; Byte.x00].

Lemma record_ok_demo : record_ok demo_insert.
Proof. split; vm_compute; intuition congruence. Qed.

Lemma record_roundtrip_witness :
  Wal.deserializeRecord (Wal.serializeRecord demo_insert) = Ret demo_insert.
Proof. apply (record_roundtrip demo_insert). apply record_ok_demo. Defined.

(** ** The log file *)
Definition frames (rs : list LogRecord) : list byte := concat (map Wal.frame rs).

(** A record that can be written: its encoding has a 32-bit length. *)
Definition writable (r : LogRecord) : Prop :=
  record_ok r /\ Z.of_nat (length (Wal.serializeRecord r)) < 2 ^ 32.

(** bytes that do not make up a whole record *)
Definition torn (bs : list byte) : Prop :=
  (length bs < 4)%nat \/ (length (drop 4 bs) < Z.to_nat (le_val (take 4 bs)))%nat.

Lemma le_val_u32_size n : Z.of_nat n < 2 ^ 32 -> Z.to_nat (le_val (le_bytes 4 (Z.of_nat n))) = n.
Proof. intros H. rewrite le_val_u32 by (unfold is_u32; lia). lia. Qed.

Lemma frame_parts r rest :
  take 4 (Wal.frame r ++ rest) = le_bytes 4 (Z.of_nat (length (Wal.serializeRecord r))) /\
  drop 4 (Wal.frame r ++ rest) = Wal.serializeRecord r ++ rest.
Proof.
  unfold Wal.frame. rewrite <- app_assoc.
  assert (H4 : 4%nat = length (le_bytes 4 (Z.of_nat (length (Wal.serializeRecord r)))))
    by (by rewrite length_le_bytes).
  split; [by apply take_app_length'|by apply drop_app_length'].
Qed.

Lemma length_frame r : length (Wal.frame r) = (4 + length (Wal.serializeRecord r))%nat.
Proof. unfold Wal.frame. by rewrite length_app, length_le_bytes. Qed.

Lemma read_records_frame fuel r rest :
  writable r -> Wal.read_records (S fuel) (Wal.frame r ++ rest) =
    (recs <~ Wal.read_records fuel rest ;; Ret (r :: recs)).
Proof.
  intros [Hok Hlen]. cbn [Wal.read_records]. destruct (frame_parts r rest) as [-> ->].
  rewrite le_val_u32_size by done. rewrite decide_False by (rewrite length_app, length_frame; lia).
  rewrite decide_False by (rewrite length_app; lia).
  rewrite take_app_length, drop_app_length. unfold Wal.deserializeRecord.
  pose proof (read_record_app r [] Hok) as H. rewrite app_nil_r in H. unfold runs in H. by rewrite H.
Qed.

Lemma read_records_torn fuel bs : torn bs -> Wal.read_records fuel bs = Ret [].
Proof.
  intros Ht. destruct fuel; [done|]. cbn [Wal.read_records].
  destruct (decide (length bs < 4)%nat); [done|]. by rewrite decide_True by (by destruct Ht).
Qed.

Lemma read_records_frames rs : forall fuel tail,
  Forall writable rs -> torn tail -> (length (frames rs) < fuel)%nat ->
  Wal.read_records fuel (frames rs ++ tail) = Ret rs.
Proof.
  induction rs as [|r rs IH]; intros fuel tail Hrs Ht Hf.
  { by apply read_records_torn. }
  apply Forall_cons in Hrs as [Hr Hrs]. destruct fuel as [|fuel]; [lia|].
  unfold frames in *. cbn [map concat] in *. rewrite length_app, length_frame in Hf.
  rewrite <- app_assoc, read_records_frame by done. by rewrite IH by (done || lia).
Qed.

Lemma read_log_frames rs tail :
  Forall writable rs -> torn tail -> Wal.read_log (frames rs ++ tail) = Ret rs.
Proof. intros Hrs Ht. apply read_records_frames; [done|done|]. rewrite length_app. lia. Qed.

(** C22: reading the log back gives exactly the records written, in order; a
    last record that was cut short, at any byte, is left out. *)
Theorem log_roundtrip rs tail :
  Forall writable rs -> torn tail -> Wal.read_log (frames rs ++ tail) = Ret rs.
Proof. apply read_log_frames. Qed.

Lemma demo_writable : writable demo_insert.
Proof. split; [apply record_ok_demo|]. vm_compute. reflexivity. Qed.

Lemma log_roundtrip_witness :
  Wal.read_log (frames [demo_insert; demo_insert] ++ take 20 (Wal.frame demo_insert)) =
    Ret [demo_insert; demo_insert].
Proof.
  apply (log_roundtrip [demo_insert; demo_insert] (take 20 (Wal.frame demo_insert))).
  - constructor; [|constructor; [|constructor]]; apply demo_writable.
  - right. vm_compute. lia.
Defined.

(** A proper prefix of a record is torn. *)
Lemma torn_prefix r n : writable r -> (n < length (Wal.frame r))%nat -> torn (take n (Wal.frame r)).
Proof.
  intros [_ Hlen] Hn. rewrite length_frame in Hn. unfold torn.
  destruct (decide (n < 4)%nat) as [H4|H4]; [left; rewrite length_take; lia|right].
  destruct (frame_parts r []) as [Ht Hd]. rewrite app_nil_r in Ht, Hd.
  rewrite take_take, Nat.min_l by lia. rewrite Ht, le_val_u32_size by done.
  rewrite length_drop, length_take, length_frame. lia.
Qed.

(** A prefix of a log is whole records and a torn one. *)
Lemma prefix_frames rs : forall n,
  Forall writable rs -> exists k tail, take n (frames rs) = frames (take k rs) ++ tail /\ torn tail.
Proof.
  induction rs as [|r rs IH]; intros n Hrs.
  { exists 0%nat, []. split; [by destruct n|left; simpl; lia]. }
  apply Forall_cons in Hrs as [Hr Hrs]. unfold frames. cbn [map concat].
  destruct (decide (n < length (Wal.frame r))%nat) as [Hn|Hn].
  - exists 0%nat, (take n (Wal.frame r)). split; [|by apply torn_prefix].
    rewrite take_app_le by lia. reflexivity.
  - destruct (IH (n - length (Wal.frame r))%nat Hrs) as (k & tail & Heq & Ht).
    exists (S k), tail. split; [|done]. cbn [take map concat].
    rewrite take_app_ge by lia. rewrite <- app_assoc. f_equal. exact Heq.
Qed.

(** ** Crashes *)

(** The log [l] after writes: [all] the records are in the file or on their way
    to it, and the file holds a prefix of their bytes. *)
Record logged (l : LogManager) (all : list LogRecord) : Prop := {
  lg_stream : log_stream l = Some true;
  lg_open : open_inout (log_fs l) (walPath_ l) = true;
  lg_bytes : file_content (log_fs l) (walPath_ l) ++ log_buf l = frames all;
  lg_ok : Forall writable all;
}.

(** the file holds these records already *)
Definition durable (l : LogManager) (rs : list LogRecord) : Prop :=
  frames rs `prefix_of` file_content (log_fs l) (walPath_ l).

(** What may happen to an open log: records are appended, the buffer is
    flushed, or the system takes a prefix of it by itself. *)
Inductive log_step : LogManager -> list LogRecord -> LogManager -> list LogRecord -> Prop :=
  | log_append l all r n l' :
      writable (Wal.with_lsn (nextLSN_ l) r) -> runs (Wal.appendLog r) l n l' ->
      log_step l all l' (all ++ [Wal.with_lsn (nextLSN_ l) r])
  | log_flush l all l' : runs Wal.flushLog l tt l' -> log_step l all l' all
  | log_spill l all n : log_step l all (Wal.spill n l) all.

Inductive log_steps : LogManager -> list LogRecord -> LogManager -> list LogRecord -> Prop :=
  | log_done l all : log_steps l all l all
  | log_more l all l1 all1 l2 all2 :
      log_step l all l1 all1 -> log_steps l1 all1 l2 all2 -> log_steps l all l2 all2.

Lemma frames_app a b : frames (a ++ b) = frames a ++ frames b.
Proof. unfold frames. by rewrite map_app, concat_app. Qed.

Lemma open_inout_set_same path c fs :
  open_inout fs path = true -> open_inout (set_file path c fs) path = true.
Proof.
  intros H. rewrite open_inout_set. apply andb_true_iff in H as [-> _]. apply bool_decide_eq_true.
  by left.
Qed.

Lemma spill_logged n l all rs :
  logged l all -> durable l rs -> logged (Wal.spill n l) all /\ durable (Wal.spill n l) rs.
Proof.
  intros [Hs Ho Hb Hok] Hd. unfold durable. simpl. rewrite file_content_set_eq. split.
  - split; simpl; [done|by apply open_inout_set_same| |done].
    rewrite file_content_set_eq, <- app_assoc, take_drop. exact Hb.
  - by apply prefix_app_r.
Qed.

Lemma append_logged l all r :
  logged l all -> writable (Wal.with_lsn (nextLSN_ l) r) ->
  exists l', runs (Wal.appendLog r) l (nextLSN_ l) l' /\
    logged l' (all ++ [Wal.with_lsn (nextLSN_ l) r]) /\ nextLSN_ l' = u64 (nextLSN_ l + 1) /\
    log_fs l' = log_fs l /\ walPath_ l' = walPath_ l.
Proof.
  intros [Hs Ho Hb Hok] Hw. eexists. split.
  { unfold runs, Wal.appendLog, bind, get, put, Wal.write_log, modify. simpl. rewrite Hs. reflexivity. }
  split; [|done]. split; simpl; [done|done| |].
  - rewrite frames_app, app_assoc, Hb. unfold frames at 3. cbn [map concat]. by rewrite app_nil_r.
  - apply Forall_app. split; [done|by constructor].
Qed.

Lemma log_step_logged l all l' all' rs :
  log_step l all l' all' -> logged l all -> durable l rs ->
  logged l' all' /\ durable l' rs /\ all `prefix_of` all'.
Proof.
  intros Hstep Hl Hd. destruct Hstep as [l all r n l' Hw Hr|l all l' Hr|l all n].
  - destruct (append_logged l all r Hl Hw) as (l1 & Hr1 & Hl1 & _ & Hfs & Hp).
    destruct (runs_det _ _ _ _ _ _ Hr Hr1) as [_ ->]. split; [done|]. unfold durable.
    rewrite Hfs, Hp. split; [done|by apply prefix_app_r].
  - assert (Hl' : l' = Wal.spill (length (log_buf l)) l).
    { unfold runs, Wal.flushLog, modify in Hr. rewrite (lg_stream _ _ Hl) in Hr. congruence. }
    rewrite Hl'. destruct (spill_logged (length (log_buf l)) l all rs Hl Hd). done.
  - destruct (spill_logged n l all rs Hl Hd). done.
Qed.

Lemma log_steps_logged l all l' all' rs :
  log_steps l all l' all' -> logged l all -> durable l rs ->
  logged l' all' /\ durable l' rs /\ all `prefix_of` all'.
Proof.
  induction 1 as [l all|l all l1 all1 l2 all2 Hs _ IH]; intros Hl Hd; [done|].
  destruct (log_step_logged _ _ _ _ _ Hs Hl Hd) as (Hl1 & Hd1 & Hp).
  destruct (IH Hl1 Hd1) as (? & ? & ?). split; [done|]. split; [done|]. by transitivity all1.
Qed.

(** What a crash of the process leaves: the file, as the operating system has
    it, and not the buffer of the stream. *)
Definition after_crash (l : LogManager) : list byte := file_content (log_fs l) (walPath_ l).

(** Reading a log cut at any byte, and which records survive the cut. *)
Lemma cut_frames all c n :
  Forall writable all -> c `prefix_of` all ->
  exists rs, Wal.read_log (take n (frames all)) = Ret rs /\ rs `prefix_of` all /\
    (c `prefix_of` rs <-> (length (frames c) <= n)%nat).
Proof.
  intros Hok [rest ->]. destruct (decide (length (frames c) <= n)%nat) as [Hn|Hn].
  - apply Forall_app in Hok as [Hok1 Hok2].
    destruct (prefix_frames rest (n - length (frames c)) Hok2) as (k & tail & Hk & Ht).
    exists (c ++ take k rest). split; [|split].
    + rewrite frames_app, take_app_ge, Hk, app_assoc, <- frames_app by done.
      apply read_log_frames; [|done]. apply Forall_app. split; [done|by apply Forall_take].
    + apply prefix_app. exists (drop k rest). by rewrite take_drop.
    + split; [done|]. intros _. by apply prefix_app_r.
  - destruct (prefix_frames (c ++ rest) n Hok) as (k & tail & Hk & Ht).
    exists (take k (c ++ rest)). split; [|split].
    + rewrite Hk. apply read_log_frames; [by apply Forall_take|done].
    + exists (drop k (c ++ rest)). by rewrite take_drop.
    + split; [|done]. intros [more Hmore]. apply (f_equal length) in Hk.
      rewrite Hmore, !frames_app, !length_app, length_take in Hk. lia.
Qed.

(** The same of the file of a log. *)
Lemma crash_reads l all rs k :
  logged l all -> durable l rs -> rs `prefix_of` all ->
  exists rs', Wal.read_log (take k (after_crash l)) = Ret rs' /\ rs' `prefix_of` all /\
    (rs `prefix_of` rs' <-> (length (frames rs) <= k)%nat).
Proof.
  intros [Hs Ho Hb Hok] Hd Hp.
  destruct (cut_frames all rs (k `min` length (after_crash l)) Hok Hp) as (rs' & Hr & Hp' & Hiff).
  exists rs'. split; [|split; [done|]].
  - rewrite <- Hr, <- Hb, take_app_le by (unfold after_crash; lia). f_equal.
    rewrite <- take_take, firstn_all. done.
  - rewrite Hiff. apply prefix_length in Hd. unfold after_crash. lia.
Qed.

Lemma commit_logged l all t :
  logged l all -> writable (Wal.with_lsn (nextLSN_ l) (Wal.txn_record COMMIT_TXN t)) ->
  let c := Wal.with_lsn (nextLSN_ l) (Wal.txn_record COMMIT_TXN t) in
  exists l', runs (Wal.logCommit t) l (nextLSN_ l) l' /\ logged l' (all ++ [c]) /\
    durable l' (all ++ [c]).
Proof.
  intros Hl Hw c. destruct (append_logged l all _ Hl Hw) as (l1 & Hr1 & Hl1 & _).
  assert (Hf : runs Wal.flushLog l1 tt (Wal.spill (length (log_buf l1)) l1)).
  { unfold runs, Wal.flushLog, modify. by rewrite (lg_stream _ _ Hl1). }
  exists (Wal.spill (length (log_buf l1)) l1). split.
  - unfold Wal.logCommit. eapply runs_bind; [done|]. by eapply runs_bind.
  - destruct (spill_logged (length (log_buf l1)) l1 _ [] Hl1) as [Hl2 _].
    { apply prefix_nil. }
    split; [done|]. unfold durable. simpl. rewrite file_content_set_eq, firstn_all.
    by rewrite (lg_bytes _ _ Hl1).
Qed.

(** C23: a commit survives the death of the process: on a log that holds whole
    records only, once [logCommit] has returned, whatever is appended or written
    out afterwards and wherever the process stops, reading the log returns all
    the records up to and including the commit, followed by some of the later
    ones, none damaged. The flush hands the bytes to the operating system and
    nothing forces them to the disk; so when the machine stops and only the
    first [k] bytes of the file are left, the log still reads as undamaged
    records, and the commit is among them exactly when those [k] bytes include
    it. A log with a torn record before the commit is the subject of
    [commit_after_torn_tail_lost]. *)
Theorem commit_survives_process_crash l all t :
  logged l all -> writable (Wal.with_lsn (nextLSN_ l) (Wal.txn_record COMMIT_TXN t)) ->
  exists l1, runs (Wal.logCommit t) l (nextLSN_ l) l1 /\
    let committed := all ++ [Wal.with_lsn (nextLSN_ l) (Wal.txn_record COMMIT_TXN t)] in
    forall l2 all2, log_steps l1 committed l2 all2 ->
      (exists rs, Wal.read_log (after_crash l2) = Ret rs /\ committed `prefix_of` rs /\ rs `prefix_of` all2) /\
      (forall k, exists rs, Wal.read_log (take k (after_crash l2)) = Ret rs /\ rs `prefix_of` all2 /\
         (committed `prefix_of` rs <-> (length (frames committed) <= k)%nat)).
Proof.
  intros Hl Hw. destruct (commit_logged l all t Hl Hw) as (l1 & Hr & Hl1 & Hd1).
  exists l1. split; [done|]. intros committed l2 all2 Hs.
  destruct (log_steps_logged _ _ _ _ _ Hs Hl1 Hd1) as (Hl2 & Hd2 & Hp).
  split; [|intros k; by apply crash_reads].
  destruct (crash_reads l2 all2 committed (length (after_crash l2)) Hl2 Hd2 Hp) as (rs & Hrs & Hp2 & Hiff).
  rewrite firstn_all in Hrs. exists rs. split; [done|]. split; [|done].
  apply Hiff. by apply prefix_length in Hd2.
Qed.

(** a new log on an empty file system *)
Definition demo_log : LogManager := (Wal.open "" (Wal.init (mkFS ∅ ∅ ∅))).2.

Lemma demo_logged : logged demo_log [].
Proof. split; [vm_compute; reflexivity..|constructor]. Qed.

Lemma commit_survives_process_crash_witness :
  exists l1, runs (Wal.logCommit 1) demo_log 1 l1 /\
    (exists rs, Wal.read_log (after_crash l1) = Ret rs /\
       [Wal.with_lsn 1 (Wal.txn_record COMMIT_TXN 1)] `prefix_of` rs) /\
    (exists rs, Wal.read_log (take 20 (after_crash l1)) = Ret rs /\
       ~ [Wal.with_lsn 1 (Wal.txn_record COMMIT_TXN 1)] `prefix_of` rs).
Proof.
  destruct (commit_survives_process_crash demo_log [] 1 demo_logged) as (l1 & Hr & Hd).
  - split; [split; vm_compute; intuition congruence|vm_compute; reflexivity].
  - exists l1. split; [exact Hr|]. destruct (Hd l1 _ (log_done _ _)) as [(rs & Hrs & Hp & _) Hk]. split.
    + exists rs. split; [exact Hrs|exact Hp].
    + destruct (Hk 20%nat) as (rs' & Hrs' & _ & Hiff). exists rs'. split; [exact Hrs'|].
      intros Hp'. apply Hiff in Hp'. vm_compute in Hp'. lia.
Defined.

(** ** Opening a log again *)
Lemma next_lsn_spec rs : forall n,
  Forall (fun r => lsn r + 1 < 2 ^ 64) rs -> Forall (fun r => 0 <= lsn r) rs -> 0 <= n ->
  n <= Wal.next_lsn n rs /\ Forall (fun r => lsn r < Wal.next_lsn n rs) rs.
Proof.
  induction rs as [|r rs IH]; intros n H1 H2 Hn; simpl; [split; [lia|constructor]|].
  apply Forall_cons in H1 as [Hr1 H1]. apply Forall_cons in H2 as [Hr2 H2].
  assert (Hu : u64 (lsn r + 1) = lsn r + 1) by (apply u64_small; unfold is_u64; lia).
  set (n1 := if n <=? lsn r then u64 (lsn r + 1) else n).
  assert (Hn1 : n <= n1 /\ lsn r < n1).
  { unfold n1. rewrite Hu. destruct (Z.leb_spec n (lsn r)); lia. }
  destruct (IH n1 H1 H2) as [Hle Hall]; [lia|]. fold (Wal.next_lsn n1 rs). split; [lia|].
  constructor; [lia|done].
Qed.

Lemma open_runs l path rs tail :
  path <> "" -> log_stream l = None -> log_buf l = [] ->
  open_inout (log_fs l) path = true -> file_content (log_fs l) path = frames rs ++ tail ->
  Forall writable rs -> torn tail ->
  runs (Wal.open path) l tt (mkLog (log_fs l) [] (Some true) (Wal.next_lsn (nextLSN_ l) rs) path).
Proof.
  intros Hp Hs Hbuf Ho Hc Hrs Ht. pose proof Ho as Hco. apply andb_true_iff in Hco as [Hco Hex].
  apply bool_decide_eq_true in Hex as [c Hex].
  assert (Hdir : bool_decide (DATA_DIR ∈ fs_dirs (log_fs l)) = true)
    by (unfold can_open in Hco; by apply andb_true_iff in Hco as [? _]).
  set (l0 := mkLog (log_fs l) [] None (nextLSN_ l) path).
  set (l1 := mkLog (log_fs l) [] None (Wal.next_lsn (nextLSN_ l) rs) path).
  set (l2 := mkLog (log_fs l) [] (Some true) (Wal.next_lsn (nextLSN_ l) rs) path).
  unfold Wal.open. rewrite (proj2 (String.eqb_neq path "")) by done.
  eapply (runs_bind _ _ _ tt l0); [unfold runs, modify; by rewrite Hs, Hbuf|].
  eapply (runs_bind _ _ _ tt l0); [unfold runs, Wal.ensureDataDir, modify; simpl; by rewrite Hdir|].
  eapply (runs_bind _ _ _ l0 l0); [done|].
  eapply (runs_bind _ _ _ tt l1).
  { cbn [log_fs l0]. rewrite Ho. eapply (runs_bind _ _ _ rs l0); [|done].
    unfold runs, Wal.readAllRecords, bind, get, lift. cbn [log_fs walPath_ l0].
    by rewrite Ho, Hc, read_log_frames. }
  eapply (runs_bind _ _ _ tt l2).
  { unfold runs, Wal.open_stream, modify. cbn [log_fs walPath_ log_stream l1]. by rewrite Hco, Hex. }
  eapply (runs_bind _ _ _ l2 l2); done.
Qed.

(** Opening a log that has records makes the next sequence number larger
    than any in it, also when its last record is torn, and changes no byte of
    the file. *)
Theorem open_resumes_lsn l path rs tail :
  path <> "" -> log_stream l = None -> log_buf l = [] -> 0 <= nextLSN_ l ->
  open_inout (log_fs l) path = true -> file_content (log_fs l) path = frames rs ++ tail ->
  Forall writable rs -> torn tail -> Forall (fun r => lsn r + 1 < 2 ^ 64) rs ->
  exists l', runs (Wal.open path) l tt l' /\ log_fs l' = log_fs l /\ log_stream l' = Some true /\
    nextLSN_ l <= nextLSN_ l' /\ Forall (fun r => lsn r < nextLSN_ l') rs.
Proof.
  intros Hp Hs Hb Hn Ho Hc Hrs Ht Hmax. eexists. split; [by eapply open_runs|].
  split; [done|]. split; [done|]. apply next_lsn_spec; [done| |done].
  eapply Forall_impl; [exact Hrs|]. intros r [Hok _]. apply (ro_lsn _ Hok).
Qed.

(** a log with one record, written by a process that is gone *)
Definition old_log (tail : list byte) : LogManager :=
  Wal.init (mkFS {["wal" := frames [demo_insert] ++ tail]} {[DATA_DIR]} ∅).

Lemma open_resumes_lsn_witness :
  exists l', runs (Wal.open "wal") (old_log []) tt l' /\ 5 < nextLSN_ l'.
Proof.
  destruct (open_resumes_lsn (old_log []) "wal" [demo_insert] []) as (l' & Hr & _ & _ & _ & Hall);
    [done|done|done|simpl; lia|vm_compute; reflexivity|vm_compute; reflexivity| |left; simpl; lia| |].
  - constructor; [apply demo_writable|constructor].
  - constructor; [vm_compute; reflexivity|constructor].
  - exists l'. split; [exact Hr|]. by apply Forall_cons in Hall as [? _].
Defined.



