(* ===== verification/BTree.v ===== *)
(** * B+ tree index (src/src/index/BPlusTree.h, BPlusTree.cpp)

    The nodes live in a [std::vector], and the code holds references into it. A
    [push_back] on a full vector moves the nodes and leaves the references
    dangling, so the model carries the vector's capacity and a generation that a
    move advances: a reference is an index with the generation it was taken in,
    and using one of an older generation is undefined. [grow] is the capacity
    the library picks for a full vector of a given size. Sizes, the entry count
    and node indices are [int]s: narrowed from the sizes of vectors ([i32]), and
    undefined where an increment or a decrement leaves their range. *)
From stdpp Require Import base numbers list strings pretty.
From Stdlib Require Import ZArith Lia.
From S2P Require Import Prelude Common.

Inductive BNodeType := INTERNAL | LEAF.
#[global] Instance BNodeType_eq_dec : EqDecision BNodeType.
Proof. solve_decision. Defined.

Record BPlusNode := mkNode {
  bn_type : BNodeType;
  isRoot : bool;
  bn_pageId : Z;
  parentIdx : Z;
  bn_size : Z;
  keys : list Z;
  values : list RID;
  childIndices : list Z;
  nextLeafIdx : Z;
}.

Record BPlusTree := mkTree {
  order_ : Z;
  maxLeafKeys_ : Z;
  minLeafKeys_ : Z;
  maxInternalKeys_ : Z;
  minInternalKeys_ : Z;
  nodes_ : list BPlusNode;
  nodes_cap : nat;
  nodes_gen : nat;
  rootIdx_ : Z;
  entryCount_ : Z;
}.

Definition set_isRoot b n := mkNode (bn_type n) b (bn_pageId n) (parentIdx n) (bn_size n)
  (keys n) (values n) (childIndices n) (nextLeafIdx n).
Definition set_parent p n := mkNode (bn_type n) (isRoot n) (bn_pageId n) p (bn_size n)
  (keys n) (values n) (childIndices n) (nextLeafIdx n).
Definition set_size s n := mkNode (bn_type n) (isRoot n) (bn_pageId n) (parentIdx n) s
  (keys n) (values n) (childIndices n) (nextLeafIdx n).
Definition set_keys k n := mkNode (bn_type n) (isRoot n) (bn_pageId n) (parentIdx n) (bn_size n)
  k (values n) (childIndices n) (nextLeafIdx n).
Definition set_values v n := mkNode (bn_type n) (isRoot n) (bn_pageId n) (parentIdx n) (bn_size n)
  (keys n) v (childIndices n) (nextLeafIdx n).
Definition set_children c n := mkNode (bn_type n) (isRoot n) (bn_pageId n) (parentIdx n) (bn_size n)
  (keys n) (values n) c (nextLeafIdx n).
Definition set_next x n := mkNode (bn_type n) (isRoot n) (bn_pageId n) (parentIdx n) (bn_size n)
  (keys n) (values n) (childIndices n) x.

Definition set_nodes ns (t : BPlusTree) := mkTree (order_ t) (maxLeafKeys_ t) (minLeafKeys_ t)
  (maxInternalKeys_ t) (minInternalKeys_ t) ns (nodes_cap t) (nodes_gen t) (rootIdx_ t) (entryCount_ t).
Definition set_root r (t : BPlusTree) := mkTree (order_ t) (maxLeafKeys_ t) (minLeafKeys_ t)
  (maxInternalKeys_ t) (minInternalKeys_ t) (nodes_ t) (nodes_cap t) (nodes_gen t) r (entryCount_ t).
Definition set_count c (t : BPlusTree) := mkTree (order_ t) (maxLeafKeys_ t) (minLeafKeys_ t)
  (maxInternalKeys_ t) (minInternalKeys_ t) (nodes_ t) (nodes_cap t) (nodes_gen t) (rootIdx_ t) c.

(** [std::vector] operations; out of range is undefined. *)
Section vectors.
Context {A : Type}.
Definition vec_at (l : list A) (i : Z) : outcome A :=
  if 0 <=? i then of_option (l !! Z.to_nat i) else Undef.
(** [insert(begin() + pos, x)] *)
Definition vec_insert (l : list A) (pos : Z) (x : A) : outcome (list A) :=
  if (0 <=? pos) && (pos <=? Z.of_nat (length l))
  then Ret (take (Z.to_nat pos) l ++ x :: drop (Z.to_nat pos) l) else Undef.
(** [erase(begin() + pos)] *)
Definition vec_erase (l : list A) (pos : Z) : outcome (list A) :=
  if (0 <=? pos) && (pos <? Z.of_nat (length l))
  then Ret (take (Z.to_nat pos) l ++ drop (S (Z.to_nat pos)) l) else Undef.
(** [assign(begin() + pos, end())] from another vector *)
Definition vec_from (l : list A) (pos : Z) : outcome (list A) :=
  if (0 <=? pos) && (pos <=? Z.of_nat (length l)) then Ret (drop (Z.to_nat pos) l) else Undef.
(** [resize(n)] to no more than the size *)
Definition vec_trim (l : list A) (n : Z) : outcome (list A) :=
  if (0 <=? n) && (n <=? Z.of_nat (length l)) then Ret (take (Z.to_nat n) l) else Undef.
Definition vec_back (l : list A) : outcome A := of_option (last l).
Definition vec_pop (l : list A) : outcome (list A) :=
  match l with [] => Undef | _ => Ret (removelast l) end.
End vectors.

(** [std::lower_bound] on a sorted vector: the first position not below. *)
Fixpoint lower_bound (ks : list Z) (key : Z) : Z :=
  match ks with
  | [] => 0
  | k :: ks' => if k <? key then lower_bound ks' key + 1 else 0
  end.

(** the first [n] elements of [a[0], a[1], ...] *)
Fixpoint first_n {A} (l : list A) (n : nat) : outcome (list A) :=
  match n with
  | O => Ret []
  | S n' => match l with [] => Undef | x :: l' => r <~ first_n l' n' ;; Ret (x :: r) end
  end.

Module BTree.
(** the constructor, for orders whose arithmetic does not overflow: below [INT_MAX] *)
Definition init (order : Z) : BPlusTree :=
  mkTree order (order - 1) ((order - 1 + 1) ÷ 2) (order - 1) ((order + 1) ÷ 2 - 1)
         [] 0 0 (-1) 0.

Section tree.
Context (grow : nat -> nat).

(** ** References into [nodes_] *)
Record ref := mkRef { ref_idx : Z; ref_gen : nat }.

(** [BPlusNode &x = nodes_[i]] *)
Definition node_ref (i : Z) : M BPlusTree ref :=
  t <- get ;;
  if (0 <=? i) && (i <? Z.of_nat (length (nodes_ t))) then ret (mkRef i (nodes_gen t)) else undef.
Definition deref (r : ref) : M BPlusTree BPlusNode :=
  t <- get ;;
  if (nodes_gen t =? ref_gen r)%nat then lift (vec_at (nodes_ t) (ref_idx r)) else undef.
Definition assign (r : ref) (n : BPlusNode) : M BPlusTree unit :=
  t <- get ;;
  if (nodes_gen t =? ref_gen r)%nat
  then modify (fun t => set_nodes (<[Z.to_nat (ref_idx r) := n]> (nodes_ t)) t) else undef.
(** [nodes_[i]] for one read or write *)
Definition node_at (i : Z) : M BPlusTree BPlusNode := r <- node_ref i ;; deref r.
Definition update (i : Z) (f : BPlusNode -> BPlusNode) : M BPlusTree unit :=
  r <- node_ref i ;; n <- deref r ;; assign r (f n).
Definition update_ref (r : ref) (f : BPlusNode -> BPlusNode) : M BPlusTree unit :=
  n <- deref r ;; assign r (f n).

Definition push_node (n : BPlusNode) (t : BPlusTree) : BPlusTree :=
  let full := (length (nodes_ t) =? nodes_cap t)%nat in
  mkTree (order_ t) (maxLeafKeys_ t) (minLeafKeys_ t) (maxInternalKeys_ t) (minInternalKeys_ t)
    (nodes_ t ++ [n])
    (if full then grow (nodes_cap t) else nodes_cap t)
    (if full then S (nodes_gen t) else nodes_gen t) (rootIdx_ t) (entryCount_ t).

(** [static_cast<uint32_t>] and [static_cast<int>] of a vector's size *)
Definition allocateNode (type : BNodeType) : M BPlusTree Z :=
  t <- get ;;
  modify (push_node (mkNode type false (u32 (Z.of_nat (length (nodes_ t)))) (-1) 0 [] [] [] (-1))) ;;
  t <- get ;;
  lift (int_pred (i32 (Z.of_nat (length (nodes_ t))))).

(** ** Search *)

(** The inner loop of [findLeaf] from [i] on, over the keys left. *)
Fixpoint child_pos (ks : list Z) (key : Z) (i : Z) (n : nat) : outcome Z :=
  match n with
  | O => Ret i
  | S n' =>
      match ks with
      | [] => Undef
      | k :: ks' => if k <=? key then child_pos ks' key (i + 1) n' else Ret i
      end
  end.

Fixpoint descend (fuel : nat) (current key : Z) : M BPlusTree Z :=
  match fuel with
  | O => undef
  | S fuel' =>
      node <- node_at current ;;
      match bn_type node with
      | LEAF => ret current
      | INTERNAL =>
          i <- lift (child_pos (keys node) key 0 (Z.to_nat (bn_size node))) ;;
          child <- lift (vec_at (childIndices node) i) ;;
          descend fuel' child key
      end
  end.

Definition findLeaf (key : Z) : M BPlusTree Z :=
  t <- get ;;
  if rootIdx_ t <? 0 then ret (-1)
  else descend (S (length (nodes_ t))) (rootIdx_ t) key.

(** the loop over a leaf's entries from [i] on *)
Fixpoint find_key (ks : list Z) (key : Z) (i : Z) (n : nat) : outcome (option Z) :=
  match n with
  | O => Ret None
  | S n' =>
      match ks with
      | [] => Undef
      | k :: ks' => if k =? key then Ret (Some i) else find_key ks' key (i + 1) n'
      end
  end.

Definition search (key : Z) : M BPlusTree (option RID) :=
  leafIdx <- findLeaf key ;;
  if leafIdx <? 0 then ret None
  else
    leaf <- node_at leafIdx ;;
    o <- lift (find_key (keys leaf) key 0 (Z.to_nat (bn_size leaf))) ;;
    match o with
    | Some i => v <- lift (vec_at (values leaf) i) ;; ret (Some v)
    | None => ret None
    end.

(** ** Insertion *)

(** [keys] and [values] with an entry inserted in order, and the new size *)
Definition put_entry (key : Z) (value : RID) (leaf : BPlusNode) : outcome BPlusNode :=
  let pos := i32 (lower_bound (keys leaf) key) in
  ks <~ vec_insert (keys leaf) pos key ;;
  vs <~ vec_insert (values leaf) pos value ;;
  s <~ int_succ (bn_size leaf) ;;
  Ret (set_size s (set_values vs (set_keys ks leaf))).

Definition insertIntoLeaf (leafIdx key : Z) (value : RID) : M BPlusTree unit :=
  leaf <- node_ref leafIdx ;;
  n <- deref leaf ;;
  n' <- lift (put_entry key value n) ;;
  assign leaf n'.

(** [keys] and [childIndices] with a child inserted in order *)
Definition put_child (key rightIdx : Z) (node : BPlusNode) : outcome BPlusNode :=
  let pos := i32 (lower_bound (keys node) key) in
  ks <~ vec_insert (keys node) pos key ;;
  cs <~ vec_insert (childIndices node) (pos + 1) rightIdx ;;
  s <~ int_succ (bn_size node) ;;
  Ret (set_size s (set_children cs (set_keys ks node))).

Fixpoint set_parents (children : list Z) (p : Z) : M BPlusTree unit :=
  match children with
  | [] => ret tt
  | c :: rest => update c (set_parent p) ;; set_parents rest p
  end.

(** A new root over two children. *)
Definition new_root (leftIdx key rightIdx : Z) : M BPlusTree unit :=
  newRootIdx <- allocateNode INTERNAL ;;
  newRoot <- node_ref newRootIdx ;;
  update_ref newRoot (fun n =>
    set_size 1 (set_children (childIndices n ++ [leftIdx; rightIdx])
      (set_keys (keys n ++ [key]) (set_isRoot true n)))) ;;
  update leftIdx (set_isRoot false) ;;
  update leftIdx (set_parent newRootIdx) ;;
  update rightIdx (set_parent newRootIdx) ;;
  modify (set_root newRootIdx).

(** [splitInternal] up to its recursive call: the key to promote and the new
    node. *)
Definition split_node (nodeIdx key rightChildIdx : Z) : M BPlusTree (Z * Z) :=
  node <- node_ref nodeIdx ;;
  n <- deref node ;;
  n1 <- lift (put_child key rightChildIdx n) ;;
  assign node n1 ;;
  n2 <- deref node ;;
  let mid := bn_size n2 ÷ 2 in
  promoteKey <- lift (vec_at (keys n2) mid) ;;
  newNodeIdx <- allocateNode INTERNAL ;;
  newNode <- node_ref newNodeIdx ;;
  n3 <- deref node ;;
  ks <- lift (vec_from (keys n3) (mid + 1)) ;;
  cs <- lift (vec_from (childIndices n3) (mid + 1)) ;;
  update_ref newNode (fun m => set_size (i32 (Z.of_nat (length ks))) (set_children cs (set_keys ks m))) ;;
  set_parents cs newNodeIdx ;;
  n4 <- deref node ;;
  ks' <- lift (vec_trim (keys n4) mid) ;;
  cs' <- lift (vec_trim (childIndices n4) (mid + 1)) ;;
  assign node (set_size mid (set_children cs' (set_keys ks' n4))) ;;
  n5 <- deref node ;;
  update_ref newNode (set_parent (parentIdx n5)) ;;
  ret (promoteKey, newNodeIdx).

(** [insertIntoParent] and [splitInternal]; each turn goes one level up. *)
Fixpoint insertIntoParent (fuel : nat) (leftIdx key rightIdx : Z) : M BPlusTree unit :=
  match fuel with
  | O => undef
  | S fuel' =>
      left <- node_at leftIdx ;;
      if isRoot left then new_root leftIdx key rightIdx
      else
        let p := parentIdx left in
        parent <- node_ref p ;;
        n <- deref parent ;;
        t <- get ;;
        if bn_size n <? maxInternalKeys_ t then
          n' <- lift (put_child key rightIdx n) ;;
          assign parent n' ;;
          update rightIdx (set_parent p)
        else
          update rightIdx (set_parent p) ;;
          pr <- split_node p key rightIdx ;;
          insertIntoParent fuel' p pr.1 pr.2
  end.

(** [splitLeafAndInsert]; [leaf] is used again after [allocateNode]. *)
Definition splitLeafAndInsert (leafIdx key : Z) (value : RID) : M BPlusTree unit :=
  leaf <- node_ref leafIdx ;;
  n <- deref leaf ;;
  n1 <- lift (put_entry key value n) ;;
  assign leaf n1 ;;
  newLeafIdx <- allocateNode LEAF ;;
  newLeaf <- node_ref newLeafIdx ;;
  n2 <- deref leaf ;;
  s <- lift (int_succ (bn_size n2)) ;;
  let splitPoint := s ÷ 2 in
  ks <- lift (vec_from (keys n2) splitPoint) ;;
  vs <- lift (vec_from (values n2) splitPoint) ;;
  update_ref newLeaf (fun m => set_size (i32 (Z.of_nat (length ks))) (set_values vs (set_keys ks m))) ;;
  ks' <- lift (vec_trim (keys n2) splitPoint) ;;
  vs' <- lift (vec_trim (values n2) splitPoint) ;;
  update_ref leaf (fun m => set_size splitPoint (set_values vs' (set_keys ks' m))) ;;
  n3 <- deref leaf ;;
  update_ref newLeaf (set_next (nextLeafIdx n3)) ;;
  update_ref leaf (set_next newLeafIdx) ;;
  m <- deref newLeaf ;;
  promoteKey <- lift (vec_at (keys m) 0) ;;
  n4 <- deref leaf ;;
  update_ref newLeaf (set_parent (parentIdx n4)) ;;
  t <- get ;;
  insertIntoParent (S (length (nodes_ t))) leafIdx promoteKey newLeafIdx.

(** [entryCount_++] and [entryCount_--] *)
Definition count_up : M BPlusTree unit :=
  t <- get ;; c <- lift (int_succ (entryCount_ t)) ;; modify (set_count c).
Definition count_down : M BPlusTree unit :=
  t <- get ;; c <- lift (int_pred (entryCount_ t)) ;; modify (set_count c).

Definition insert (key : Z) (value : RID) : M BPlusTree bool :=
  t <- get ;;
  if rootIdx_ t <? 0 then
    r <- allocateNode LEAF ;;
    modify (set_root r) ;;
    update r (fun n => set_size 1 (set_values (values n ++ [value]) (set_keys (keys n ++ [key])
                         (set_isRoot true n)))) ;;
    count_up ;;
    ret true
  else
    leafIdx <- findLeaf key ;;
    leaf <- node_at leafIdx ;;
    o <- lift (find_key (keys leaf) key 0 (Z.to_nat (bn_size leaf))) ;;
    match o with
    | Some _ => ret false
    | None =>
        (if bn_size leaf <? maxLeafKeys_ t then insertIntoLeaf leafIdx key value
         else splitLeafAndInsert leafIdx key value) ;;
        count_up ;;
        ret true
    end.

(** ** Removal: [nodes_] does not grow, so no reference is lost *)
Fixpoint index_of (l : list Z) (x : Z) (i : Z) : option Z :=
  match l with [] => None | y :: l' => if y =? x then Some i else index_of l' x (i + 1) end.

(** [std::find] over all of [keys] *)
Definition removeFromLeaf (leafIdx key : Z) : M BPlusTree bool :=
  leaf <- node_at leafIdx ;;
  match index_of (keys leaf) key 0 with
  | None => ret false
  | Some pos =>
      ks <- lift (vec_erase (keys leaf) (i32 pos)) ;;
      vs <- lift (vec_erase (values leaf) (i32 pos)) ;;
      s <- lift (int_pred (bn_size leaf)) ;;
      update leafIdx (fun n => set_size s (set_values vs (set_keys ks n))) ;;
      ret true
  end.

(** [parent.keys[i] = k] *)
Definition set_key (p i k : Z) : M BPlusTree unit :=
  parent <- node_at p ;;
  _ <- lift (vec_at (keys parent) i) ;;
  update p (set_keys (<[Z.to_nat i := k]> (keys parent))).

(** Borrow the last entry of the left sibling; [true]: done. *)
Definition borrow_left (nodeIdx p childPos : Z) : M BPlusTree bool :=
  parent <- node_at p ;;
  leftSibIdx <- lift (vec_at (childIndices parent) (childPos - 1)) ;;
  leftSib <- node_at leftSibIdx ;;
  node <- node_at nodeIdx ;;
  t <- get ;;
  if bool_decide (bn_type node = LEAF) && (minLeafKeys_ t <? bn_size leftSib) then
    k <- lift (vec_back (keys leftSib)) ;;
    v <- lift (vec_back (values leftSib)) ;;
    ks <- lift (vec_pop (keys leftSib)) ;;
    vs <- lift (vec_pop (values leftSib)) ;;
    up <- lift (int_succ (bn_size node)) ;;
    down <- lift (int_pred (bn_size leftSib)) ;;
    update nodeIdx (fun n => set_size up (set_values (v :: values n) (set_keys (k :: keys n) n))) ;;
    update leftSibIdx (fun n => set_size down (set_values vs (set_keys ks n))) ;;
    set_key p (childPos - 1) k ;;
    ret true
  else ret false.

(** Borrow the first entry of the right sibling. *)
Definition borrow_right (nodeIdx p childPos : Z) : M BPlusTree bool :=
  parent <- node_at p ;;
  rightSibIdx <- lift (vec_at (childIndices parent) (childPos + 1)) ;;
  rightSib <- node_at rightSibIdx ;;
  node <- node_at nodeIdx ;;
  t <- get ;;
  if bool_decide (bn_type node = LEAF) && (minLeafKeys_ t <? bn_size rightSib) then
    k <- lift (vec_at (keys rightSib) 0) ;;
    v <- lift (vec_at (values rightSib) 0) ;;
    ks <- lift (vec_erase (keys rightSib) 0) ;;
    vs <- lift (vec_erase (values rightSib) 0) ;;
    up <- lift (int_succ (bn_size node)) ;;
    down <- lift (int_pred (bn_size rightSib)) ;;
    update nodeIdx (fun n => set_size up (set_values (values n ++ [v]) (set_keys (keys n ++ [k]) n))) ;;
    update rightSibIdx (fun n => set_size down (set_values vs (set_keys ks n))) ;;
    first <- lift (vec_at ks 0) ;;
    set_key p childPos first ;;
    ret true
  else ret false.

(** Append the entries of leaf [src] to leaf [dst] and unlink [src]. *)
Definition append_leaf (dst src : Z) : M BPlusTree unit :=
  s <- node_at src ;;
  ks <- lift (first_n (keys s) (Z.to_nat (bn_size s))) ;;
  vs <- lift (first_n (values s) (Z.to_nat (bn_size s))) ;;
  d <- node_at dst ;;
  size <- lift (int_add (bn_size d) (bn_size s)) ;;
  update dst (fun n => set_next (nextLeafIdx s) (set_size size
    (set_values (values n ++ vs) (set_keys (keys n ++ ks) n)))).

(** Erase key [k] and child [c] of the parent. *)
Definition erase_child (p k c : Z) : M BPlusTree unit :=
  parent <- node_at p ;;
  ks <- lift (vec_erase (keys parent) k) ;;
  cs <- lift (vec_erase (childIndices parent) c) ;;
  s <- lift (int_pred (bn_size parent)) ;;
  update p (fun n => set_size s (set_children cs (set_keys ks n))).

Definition merge (nodeIdx p childPos : Z) : M BPlusTree unit :=
  parent <- node_at p ;;
  if 0 <? childPos then
    leftSibIdx <- lift (vec_at (childIndices parent) (childPos - 1)) ;;
    append_leaf leftSibIdx nodeIdx ;;
    erase_child p (childPos - 1) childPos
  else
    rightSibIdx <- lift (vec_at (childIndices parent) (childPos + 1)) ;;
    append_leaf nodeIdx rightSibIdx ;;
    erase_child p childPos (childPos + 1).

(** the node's position among its parent's children, or -1 *)
Definition child_position (parent : BPlusNode) (nodeIdx : Z) : Z :=
  match index_of (childIndices parent) nodeIdx 0 with Some i => i32 i | None => -1 end.

(** Each turn goes one level up. *)
Fixpoint handleUnderflow (fuel : nat) (nodeIdx : Z) : M BPlusTree unit :=
  match fuel with
  | O => undef
  | S fuel' =>
      node <- node_at nodeIdx ;;
      if isRoot node then ret tt
      else
        let p := parentIdx node in
        parent <- node_at p ;;
        let childPos := child_position parent nodeIdx in
        if childPos <? 0 then ret tt
        else
          left <- (if 0 <? childPos then borrow_left nodeIdx p childPos else ret false) ;;
          if left : bool then ret tt
          else
            top <- lift (int_pred (i32 (Z.of_nat (length (childIndices parent))))) ;;
            right <- (if childPos <? top then borrow_right nodeIdx p childPos else ret false) ;;
            if right : bool then ret tt
            else
              match bn_type node with
              | INTERNAL => ret tt
              | LEAF =>
                  merge nodeIdx p childPos ;;
                  parent <- node_at p ;;
                  t <- get ;;
                  if negb (isRoot parent) && (bn_size parent <? minInternalKeys_ t)
                  then handleUnderflow fuel' p else ret tt
              end
  end.

Definition is_empty_of (type : BNodeType) : M BPlusTree bool :=
  t <- get ;;
  if rootIdx_ t <? 0 then ret false
  else root <- node_at (rootIdx_ t) ;; ret (bool_decide (bn_type root = type) && (bn_size root =? 0)).

Definition remove (key : Z) : M BPlusTree bool :=
  leafIdx <- findLeaf key ;;
  if leafIdx <? 0 then ret false
  else
    found <- removeFromLeaf leafIdx key ;;
    if negb found then ret false
    else
      count_down ;;
      leaf <- node_at leafIdx ;;
      t <- get ;;
      (if negb (isRoot leaf) && (bn_size leaf <? minLeafKeys_ t)
       then handleUnderflow (S (length (nodes_ t))) leafIdx else ret tt) ;;
      collapse <- is_empty_of INTERNAL ;;
      t <- get ;;
      (if collapse : bool then
         root <- node_at (rootIdx_ t) ;;
         newRoot <- lift (vec_at (childIndices root) 0) ;;
         update newRoot (set_isRoot true) ;;
         update newRoot (set_parent (-1)) ;;
         modify (set_root newRoot)
       else ret tt) ;;
      empty <- is_empty_of LEAF ;;
      (if empty : bool then modify (set_root (-1)) else ret tt) ;;
      ret true.

(** ** Range scans *)

(** A leaf's entries in the range; [true]: a key above it was met. *)
Fixpoint scan_leaf (ks : list Z) (vs : list RID) (low high : Z) (n : nat)
    : outcome (list RID * bool) :=
  match n with
  | O => Ret ([], false)
  | S n' =>
      match ks, vs with
      | k :: ks', v :: vs' =>
          if high <? k then Ret ([], true)
          else
            r <~ scan_leaf ks' vs' low high n' ;;
            Ret (if low <=? k then v :: r.1 else r.1, r.2)
      | _, _ => Undef
      end
  end.

Fixpoint scan_chain (fuel : nat) (current low high : Z) : M BPlusTree (list RID) :=
  match fuel with
  | O => undef
  | S fuel' =>
      if current <? 0 then ret []
      else
        leaf <- node_at current ;;
        r <- lift (scan_leaf (keys leaf) (values leaf) low high (Z.to_nat (bn_size leaf))) ;;
        if r.2 then ret r.1
        else rest <- scan_chain fuel' (nextLeafIdx leaf) low high ;; ret (r.1 ++ rest)
  end.

Definition rangeScan (low high : Z) : M BPlusTree (list RID) :=
  leafIdx <- findLeaf low ;;
  if leafIdx <? 0 then ret []
  else t <- get ;; scan_chain (S (length (nodes_ t))) leafIdx low high.

Definition getSize (t : BPlusTree) : Z := entryCount_ t.
Definition isEmpty (t : BPlusTree) : bool := bool_decide (nodes_ t = []).

(** ** Printing: the lines on standard output *)

(** the first [n] keys, a comma after each but the last *)
Fixpoint keys_text (ks : list Z) (n : nat) : outcome string :=
  match n with
  | O => Ret EmptyString
  | S n' =>
      match ks with
      | [] => Undef
      | k :: ks' =>
          r <~ keys_text ks' n' ;;
          Ret (pretty k +:+ (if (n' =? 0)%nat then EmptyString else ", ") +:+ r)
      end
  end.

Fixpoint printNode (fuel : nat) (nodeIdx : Z) (depth : nat) : M BPlusTree (list string) :=
  match fuel with
  | O => undef
  | S fuel' =>
      node <- node_at nodeIdx ;;
      ks <- lift (keys_text (keys node) (Z.to_nat (bn_size node))) ;;
      let line name := spaces (depth * 2) +:+ name +:+ " [" +:+ ks +:+ "]" in
      if decide (bn_type node = LEAF) then ret [line "LEAF"]
      else
        rest <- (fix children (l : list Z) : M BPlusTree (list string) :=
                   match l with
                   | [] => ret []
                   | childIdx :: l' =>
                       a <- printNode fuel' childIdx (S depth) ;;
                       b <- children l' ;; ret (a ++ b)
                   end) (childIndices node) ;;
        ret (line "INTERNAL" :: rest)
  end.

(** No path from the root is longer than the vector of nodes. *)
Definition print : M BPlusTree (list string) :=
  t <- get ;;
  if rootIdx_ t <? 0 then ret ["(empty tree)"] else printNode (S (length (nodes_ t))) (rootIdx_ t) 0.
End tree.
End BTree.
