(* ===== verification/BTreeThms.v ===== *)
(** * Theorems of the B+ tree index

    While its entries fit in one leaf the index is a finite map with ordered
    range scans. The first split of a full root leaf goes through a dangling
    reference whenever the node vector has to move. *)
From stdpp Require Import base numbers list sorting strings gmap pretty.
From Stdlib Require Import ZArith Lia.
From S2P Require Import Prelude Common BTree.

Abbreviation entries := (list (Z * RID)).

(** ** Sorted entries *)
Definition key_sorted (kvs : entries) : Prop := StronglySorted Z.lt kvs.*1.

Lemma key_sorted_app pre post :
  key_sorted (pre ++ post) <->
    key_sorted pre /\ key_sorted post /\
    forall x y, x ∈ pre -> y ∈ post -> x.1 < y.1.
Proof.
  unfold key_sorted. rewrite fmap_app, StronglySorted_app. split.
  - intros (H1 & H2 & H3). split; [done|]. split; [done|]. intros x y Hx Hy.
    apply H1; by apply list_elem_of_fmap_2.
  - intros (H1 & H2 & H3). split; [|done].
    intros x y (a & -> & Ha)%list_elem_of_fmap (b & -> & Hb)%list_elem_of_fmap. auto.
Qed.

Lemma key_sorted_cons x kvs :
  key_sorted (x :: kvs) <-> key_sorted kvs /\ forall y, y ∈ kvs -> x.1 < y.1.
Proof.
  change (x :: kvs) with ([x] ++ kvs). rewrite key_sorted_app. split.
  - intros (_ & H1 & H2). split; [done|]. intros y Hy. apply H2; [by left|done].
  - intros [H1 H2]. split; [repeat constructor|]. split; [done|].
    intros a b Ha%list_elem_of_singleton Hb. subst. auto.
Qed.

Lemma key_sorted_nodup kvs : key_sorted kvs -> NoDup kvs.*1.
Proof.
  induction kvs as [|x kvs IH]; [by constructor|]. rewrite key_sorted_cons. intros [Hs Hx].
  simpl. constructor; [|auto]. intros (y & Hy & Hin)%list_elem_of_fmap.
  specialize (Hx y Hin). lia.
Qed.

(** where [lower_bound] cuts *)
Lemma lower_bound_cut kvs key :
  key_sorted kvs ->
  exists pre post, kvs = pre ++ post /\ lower_bound kvs.*1 key = Z.of_nat (length pre) /\
    (forall x, x ∈ pre -> x.1 < key) /\ (forall x, x ∈ post -> key <= x.1).
Proof.
  induction kvs as [|x kvs IH]; intros Hs.
  { exists [], []. split; [done|]. split; [done|]. split; intros y Hy; by apply elem_of_nil in Hy. }
  apply key_sorted_cons in Hs as [Hs Hx]. simpl. destruct (Z.ltb_spec x.1 key) as [Hlt|Hge].
  - destruct (IH Hs) as (pre & post & -> & Hl & Hpre & Hpost). exists (x :: pre), post.
    split; [done|]. split; [rewrite length_cons; change (list_fmap _ _ fst (pre ++ post)) with ((pre ++ post).*1); lia|]. split; [|done].
    intros y [->|Hy]%elem_of_cons; auto.
  - exists [], (x :: kvs). split; [done|]. split; [done|].
    split; [intros y Hy; by apply elem_of_nil in Hy|].
    intros y [->|Hy]%elem_of_cons; [done|]. specialize (Hx y Hy). lia.
Qed.

Lemma vec_insert_app {A} (pre post : list A) x p :
  p = Z.of_nat (length pre) -> vec_insert (pre ++ post) p x = Ret (pre ++ x :: post).
Proof.
  intros ->.
  unfold vec_insert. rewrite length_app, (proj2 (Z.leb_le _ _)), (proj2 (Z.leb_le _ _)) by lia. simpl.
  by rewrite Nat2Z.id, take_app_length, drop_app_length.
Qed.

Lemma vec_erase_app {A} (pre post : list A) x p :
  p = Z.of_nat (length pre) -> vec_erase (pre ++ x :: post) p = Ret (pre ++ post).
Proof.
  intros ->.
  unfold vec_erase. rewrite length_app, (proj2 (Z.leb_le _ _)), (proj2 (Z.ltb_lt _ _)) by (simpl; lia).
  simpl. rewrite Nat2Z.id, take_app_length. do 2 f_equal.
  change (x :: post) with ([x] ++ post). rewrite app_assoc.
  replace (S (length pre)) with (length (pre ++ [x])) by (rewrite length_app; simpl; lia).
  by rewrite drop_app_length.
Qed.

(** ** Leaves *)
Record leaf_holds (n : BPlusNode) (kvs : entries) : Prop := {
  lh_type : bn_type n = LEAF;
  lh_keys : keys n = kvs.*1;
  lh_values : values n = kvs.*2;
  lh_size : bn_size n = Z.of_nat (length kvs);
  lh_sorted : key_sorted kvs;
}.

Lemma put_entry_holds n pre post key v :
  leaf_holds n (pre ++ post) -> (forall x, x ∈ pre -> x.1 < key) -> (forall x, x ∈ post -> key < x.1) ->
  lower_bound (keys n) key = Z.of_nat (length pre) -> bn_size n < INT_MAX ->
  exists n', BTree.put_entry key v n = Ret n' /\ leaf_holds n' (pre ++ (key, v) :: post) /\
    isRoot n' = isRoot n /\ nextLeafIdx n' = nextLeafIdx n.
Proof.
  intros [Ht Hk Hv Hsz Hs] Hpre Hpost Hlb Hmax. unfold BTree.put_entry.
  rewrite length_app in Hsz. rewrite Hlb, Hk, Hv, i32_small by (unfold_int; lia).
  cbv zeta. rewrite !fmap_app, !vec_insert_app by (by rewrite length_fmap). cbn [obind].
  rewrite int_succ_ret by done. simpl.
  eexists. split; [reflexivity|]. split; [|done]. split; simpl; [done|by rewrite fmap_app|by rewrite fmap_app| |].
  - rewrite Hsz, !length_app. simpl. lia.
  - rewrite key_sorted_app in *. destruct Hs as (H1 & H2 & H3). split; [done|].
    rewrite key_sorted_cons. split; [split; [done|auto]|].
    intros x y Hx [->|Hy]%elem_of_cons; [by apply Hpre|auto].
Qed.

Lemma find_key_spec (kvs : entries) key : forall i,
  BTree.find_key kvs.*1 key i (length kvs) =
    Ret (match list_find (fun x => x.1 = key) kvs with Some (j, _) => Some (i + Z.of_nat j) | None => None end).
Proof.
  induction kvs as [|x kvs IH]; intros i; simpl; [done|]. destruct (Z.eqb_spec x.1 key) as [E|E].
  - rewrite decide_True by done. do 2 f_equal. lia.
  - rewrite decide_False by done. rewrite IH.
    destruct (list_find _ kvs) as [[j y]|]; simpl; do 2 f_equal; lia.
Qed.

Lemma index_of_spec (kvs : entries) key : forall i,
  BTree.index_of kvs.*1 key i =
    match list_find (fun x => x.1 = key) kvs with Some (j, _) => Some (i + Z.of_nat j) | None => None end.
Proof.
  induction kvs as [|x kvs IH]; intros i; simpl; [done|]. destruct (Z.eqb_spec x.1 key) as [E|E].
  - rewrite decide_True by done. f_equal. lia.
  - rewrite decide_False by done. rewrite IH.
    destruct (list_find _ kvs) as [[j y]|]; simpl; f_equal; lia.
Qed.

(** ** The map an index shows *)
Abbreviation imap := (gmap Z RID).

(** The root is a leaf, alone in its chain, with these entries. *)
Definition root_leaf (t : BPlusTree) (n : BPlusNode) (kvs : entries) : Prop :=
  0 <= rootIdx_ t /\ nodes_ t !! Z.to_nat (rootIdx_ t) = Some n /\ isRoot n = true /\
  nextLeafIdx n = -1 /\ leaf_holds n kvs.

(** The tree is empty, or its root is a leaf that holds the map's entries; the
    number of keys and the room of a leaf are [int]s. *)
Record index_shows (t : BPlusTree) (m : imap) : Prop := {
  is_count : entryCount_ t = Z.of_nat (size m);
  is_int : Z.of_nat (size m) <= INT_MAX;
  is_leaf_max : maxLeafKeys_ t < INT_MAX;
  is_root : (rootIdx_ t < 0 /\ m = ∅) \/
    (exists n kvs, root_leaf t n kvs /\ kvs <> [] /\ m = list_to_map kvs);
}.

Lemma lookup_entries kvs key :
  key_sorted kvs ->
  (list_to_map kvs : imap) !! key =
    match list_find (fun x => x.1 = key) kvs with Some (_, x) => Some x.2 | None => None end.
Proof.
  intros Hs. destruct (list_find _ kvs) as [[j x]|] eqn:Hf.
  - apply list_find_Some in Hf as (Hj & <- & _). apply elem_of_list_to_map_1; [by apply key_sorted_nodup|].
    destruct x. by eapply list_elem_of_lookup_2.
  - apply not_elem_of_list_to_map_1. intros (x & -> & Hx)%list_elem_of_fmap.
    apply list_find_None in Hf. rewrite Forall_forall in Hf. by apply (Hf x).
Qed.

Lemma node_ref_runs (t : BPlusTree) r :
  0 <= r < Z.of_nat (length (nodes_ t)) ->
  runs (BTree.node_ref r) t (BTree.mkRef r (nodes_gen t)) t.
Proof.
  intros Hr. unfold runs, BTree.node_ref, bind, get.
  by rewrite (proj2 (Z.leb_le _ _)), (proj2 (Z.ltb_lt _ _)) by lia.
Qed.

Lemma deref_runs (t : BPlusTree) n r :
  0 <= r -> nodes_ t !! Z.to_nat r = Some n ->
  runs (BTree.deref (BTree.mkRef r (nodes_gen t))) t n t.
Proof.
  intros Hr Hn. unfold runs, BTree.deref, bind, get. simpl. rewrite Nat.eqb_refl.
  unfold lift, vec_at. rewrite (proj2 (Z.leb_le _ _)) by lia. by rewrite Hn.
Qed.

Lemma assign_runs (t : BPlusTree) n r :
  runs (BTree.assign (BTree.mkRef r (nodes_gen t)) n) t tt
    (set_nodes (<[Z.to_nat r := n]> (nodes_ t)) t).
Proof. unfold runs, BTree.assign, bind, get. simpl. by rewrite Nat.eqb_refl. Qed.

Definition fresh_node (type : BNodeType) (idx : Z) : BPlusNode :=
  mkNode type false (u32 idx) (-1) 0 [] [] [] (-1).

Lemma allocateNode_runs grow (t : BPlusTree) type :
  Z.of_nat (length (nodes_ t)) < INT_MAX ->
  runs (BTree.allocateNode grow type) t (Z.of_nat (length (nodes_ t)))
    (BTree.push_node grow (fresh_node type (Z.of_nat (length (nodes_ t)))) t).
Proof.
  intros Hmax. unfold BTree.allocateNode. eapply runs_bind; [done|]. eapply runs_bind; [done|].
  eapply runs_bind; [done|]. unfold runs, lift. simpl. rewrite length_app. simpl.
  rewrite i32_small, int_pred_ret by (unfold_int; lia). do 2 f_equal. lia.
Qed.

Lemma count_up_runs t : entryCount_ t < INT_MAX -> runs BTree.count_up t tt (set_count (entryCount_ t + 1) t).
Proof.
  intros H. unfold BTree.count_up. eapply runs_bind; [done|].
  eapply runs_bind; [by unfold runs, lift; rewrite int_succ_ret|done].
Qed.
Lemma count_down_runs t : INT_MIN < entryCount_ t -> runs BTree.count_down t tt (set_count (entryCount_ t - 1) t).
Proof.
  intros H. unfold BTree.count_down. eapply runs_bind; [done|].
  eapply runs_bind; [by unfold runs, lift; rewrite int_pred_ret|done].
Qed.

Lemma node_at_root (t : BPlusTree) n r :
  0 <= r -> nodes_ t !! Z.to_nat r = Some n -> runs (BTree.node_at r) t n t.
Proof.
  intros Hr Hn. pose proof (lookup_lt_Some _ _ _ Hn) as Hlt. unfold BTree.node_at.
  eapply runs_bind; [apply node_ref_runs; lia|]. by apply deref_runs.
Qed.

Lemma update_runs (t : BPlusTree) n r f :
  0 <= r -> nodes_ t !! Z.to_nat r = Some n ->
  runs (BTree.update r f) t tt (set_nodes (<[Z.to_nat r := f n]> (nodes_ t)) t).
Proof.
  intros Hr Hn. pose proof (lookup_lt_Some _ _ _ Hn) as Hlt. unfold BTree.update.
  eapply runs_bind; [apply node_ref_runs; lia|].
  eapply runs_bind; [by apply deref_runs|]. apply assign_runs.
Qed.

Lemma findLeaf_root t n key :
  0 <= rootIdx_ t -> nodes_ t !! Z.to_nat (rootIdx_ t) = Some n -> bn_type n = LEAF ->
  runs (BTree.findLeaf key) t (rootIdx_ t) t.
Proof.
  intros Hr Hn Ht. unfold BTree.findLeaf. eapply runs_bind; [done|].
  destruct (Z.ltb_spec (rootIdx_ t) 0); [lia|]. cbn [BTree.descend].
  eapply runs_bind; [by apply node_at_root|]. by rewrite Ht.
Qed.

(** where a key that is not there goes *)
Lemma entry_place (kvs : entries) key :
  key_sorted kvs -> (list_to_map kvs : imap) !! key = None ->
  exists pre post, kvs = pre ++ post /\ lower_bound kvs.*1 key = Z.of_nat (length pre) /\
    (forall x, x ∈ pre -> x.1 < key) /\ (forall x, x ∈ post -> key < x.1).
Proof.
  intros Hs Hnone. destruct (lower_bound_cut kvs key Hs) as (pre & post & Hcut & Hlb & Hpre & Hpost).
  exists pre, post. split; [done|]. split; [done|]. split; [done|]. intros x Hx. specialize (Hpost x Hx).
  assert (x.1 <> key); [|lia]. intros <-. apply not_elem_of_list_to_map_2 in Hnone. apply Hnone.
  rewrite Hcut, fmap_app, elem_of_app. right. by apply list_elem_of_fmap_2.
Qed.

(** ** Each operation on such a tree *)
Lemma entries_size kvs : key_sorted kvs -> size (list_to_map kvs : imap) = length kvs.
Proof. intros Hs. apply map_size_list_to_map. by apply key_sorted_nodup. Qed.

Lemma search_runs t m key : index_shows t m -> runs (BTree.search key) t (m !! key) t.
Proof.
  intros [_ _ _ [[Hr ->]|(n & kvs & (Hr & Hn & _ & _ & Hl) & _ & ->)]]; unfold BTree.search.
  - eapply (runs_bind _ _ _ (-1) t); [|done]. unfold runs, BTree.findLeaf, bind, get.
    by rewrite (proj2 (Z.ltb_lt _ _)).
  - eapply runs_bind; [apply (findLeaf_root t n); [done|done|apply Hl]|].
    destruct (Z.ltb_spec (rootIdx_ t) 0); [lia|]. eapply runs_bind; [by apply node_at_root|].
    destruct Hl as [_ Hk Hv Hsz Hs]. rewrite Hk, Hv, Hsz, Nat2Z.id, find_key_spec.
    rewrite lookup_entries by done. eapply runs_bind; [done|].
    destruct (list_find _ kvs) as [[j x]|] eqn:Hf; [|done].
    apply list_find_Some in Hf as (Hj & _ & _).
    eapply (runs_bind _ _ _ x.2 t); [|done].
    unfold runs, lift, vec_at. rewrite (proj2 (Z.leb_le _ _)) by lia.
    replace (Z.to_nat (0 + Z.of_nat j)) with j by lia. by rewrite list_lookup_fmap, Hj.
Qed.

Lemma entries_insert (pre post : entries) key v :
  key_sorted (pre ++ (key, v) :: post) ->
  (list_to_map (pre ++ (key, v) :: post) : imap) = <[key := v]> (list_to_map (pre ++ post)).
Proof.
  intros Hs. change (<[key := v]> (list_to_map (pre ++ post)) : imap)
    with (list_to_map ((key, v) :: pre ++ post) : imap).
  apply list_to_map_proper; [by apply key_sorted_nodup|]. symmetry. apply Permutation_middle.
Qed.

Lemma entries_middle (pre post : entries) x :
  key_sorted (pre ++ x :: post) -> (list_to_map (pre ++ post) : imap) !! x.1 = None /\ key_sorted (pre ++ post).
Proof.
  rewrite !key_sorted_app, key_sorted_cons. intros (H1 & (H2 & H3) & H4). split.
  - apply not_elem_of_list_to_map_1. intros (y & Hy & Hin)%list_elem_of_fmap.
    apply elem_of_app in Hin as [Hin|Hin].
    + assert (y.1 < x.1) by (apply H4; [done|by left]). lia.
    + specialize (H3 y Hin). lia.
  - split; [done|]. split; [done|]. intros a b Ha Hb. apply H4; [done|by right].
Qed.

Lemma entries_delete (pre post : entries) x :
  key_sorted (pre ++ x :: post) ->
  (list_to_map (pre ++ post) : imap) = delete x.1 (list_to_map (pre ++ x :: post)).
Proof.
  intros Hs. destruct (entries_middle pre post x Hs) as [Hnone _]. destruct x as [k v].
  rewrite entries_insert by done. by rewrite delete_insert_id.
Qed.

Section grow.
Context (grow : nat -> nat).

Lemma insert_first t key v :
  rootIdx_ t < 0 -> entryCount_ t = 0 -> maxLeafKeys_ t < INT_MAX -> Z.of_nat (length (nodes_ t)) < INT_MAX ->
  exists t', runs (BTree.insert grow key v) t true t' /\ index_shows t' {[key := v]} /\
    maxLeafKeys_ t' = maxLeafKeys_ t /\ 0 <= rootIdx_ t' /\
    length (nodes_ t') = S (length (nodes_ t)) /\
    nodes_cap t' = if (length (nodes_ t) =? nodes_cap t)%nat then grow (nodes_cap t) else nodes_cap t.
Proof.
  intros Hr Hc Hlm Hmax. set (r := Z.of_nat (length (nodes_ t))).
  set (n0 := mkNode LEAF false (u32 r) (-1) 0 [] [] [] (-1)).
  set (t1 := set_root r (BTree.push_node grow n0 t)).
  set (n1 := set_size 1 (set_values [v] (set_keys [key] (set_isRoot true n0)))).
  assert (Hn0 : nodes_ t1 !! Z.to_nat r = Some n0).
  { unfold t1, r. simpl. rewrite Nat2Z.id, lookup_app_r, Nat.sub_diag by lia. done. }
  set (t2 := set_nodes (<[Z.to_nat r := n1]> (nodes_ t1)) t1).
  exists (set_count (entryCount_ t + 1) t2). split; [|split; [split|split; [done|split; [simpl; lia|]]]].
  - unfold BTree.insert. eapply runs_bind; [done|]. rewrite (proj2 (Z.ltb_lt _ _)) by done.
    eapply (runs_bind _ _ _ r (BTree.push_node grow n0 t)); [by apply allocateNode_runs|].
    eapply (runs_bind _ _ _ tt t1); [done|].
    eapply runs_bind; [apply (update_runs t1 n0); [lia|done]|].
    eapply runs_bind; [apply (count_up_runs t2); simpl; rewrite Hc; done|done].
  - simpl. rewrite Hc. by rewrite map_size_singleton.
  - by rewrite map_size_singleton.
  - done.
  - right. exists n1, [(key, v)]. split; [|split; [done|simpl; by rewrite insert_empty]].
    split; [simpl; lia|]. split; [|split; [done|split; [done|]]].
    + simpl. apply list_lookup_insert_eq. by eapply lookup_lt_Some.
    + split; try done. unfold key_sorted. simpl. repeat constructor.
  - split; [|done]. simpl. rewrite length_insert, length_app. simpl. lia.
Qed.

Lemma list_find_none_lookup kvs key :
  key_sorted kvs -> (list_to_map kvs : imap) !! key = None <-> list_find (fun x => x.1 = key) kvs = None.
Proof. intros Hs. rewrite lookup_entries by done. by destruct (list_find _ kvs) as [[? ?]|]. Qed.

Lemma insert_leaf t n kvs key v :
  root_leaf t n kvs -> kvs <> [] -> Z.of_nat (length kvs) < maxLeafKeys_ t ->
  (list_to_map kvs : imap) !! key = None -> entryCount_ t = Z.of_nat (length kvs) -> maxLeafKeys_ t < INT_MAX ->
  exists t', runs (BTree.insert grow key v) t true t' /\
    index_shows t' (<[key := v]> (list_to_map kvs)) /\ maxLeafKeys_ t' = maxLeafKeys_ t /\
    0 <= rootIdx_ t' /\ length (nodes_ t') = length (nodes_ t) /\ nodes_cap t' = nodes_cap t.
Proof.
  intros (Hr & Hn & Hroot & Hnext & Hl) Hne Hroom Hnone Hc Hlm. pose proof Hl as [Ht Hk Hv Hsz Hs].
  pose proof Hnone as Hfind. rewrite list_find_none_lookup in Hfind by done.
  destruct (entry_place kvs key Hs Hnone) as (pre & post & Hcut & Hlb & Hpre & Hpost).
  destruct (put_entry_holds n pre post key v) as (n' & Hput & Hl' & Hroot' & Hnext');
    [by rewrite <- Hcut|done|done|by rewrite Hk|lia|].
  set (t1 := set_nodes (<[Z.to_nat (rootIdx_ t) := n']> (nodes_ t)) t).
  pose proof (lookup_lt_Some _ _ _ Hn) as Hlt.
  assert (Hins : runs (BTree.insertIntoLeaf (rootIdx_ t) key v) t tt t1).
  { unfold BTree.insertIntoLeaf. eapply runs_bind; [apply node_ref_runs; lia|].
    eapply runs_bind; [by apply deref_runs|].
    eapply (runs_bind _ _ _ n' t); [by unfold runs, lift; rewrite Hput|]. apply assign_runs. }
  exists (set_count (entryCount_ t + 1) t1). split; [|split; [split|split; [done|split; [done|]]]].
  - unfold BTree.insert. eapply runs_bind; [done|]. destruct (Z.ltb_spec (rootIdx_ t) 0); [lia|].
    eapply runs_bind; [by apply (findLeaf_root t n)|]. eapply runs_bind; [by apply node_at_root|].
    eapply (runs_bind _ _ _ None t).
    { unfold runs, lift. by rewrite Hk, Hsz, Nat2Z.id, find_key_spec, Hfind. }
    eapply (runs_bind _ _ _ tt t1); [by rewrite Hsz, (proj2 (Z.ltb_lt _ _))|].
    eapply runs_bind; [apply (count_up_runs t1); simpl; lia|done].
  - simpl. rewrite map_size_insert_None, entries_size by done. lia.
  - rewrite map_size_insert_None, entries_size by done. lia.
  - done.
  - right. exists n', (pre ++ (key, v) :: post). split; [|split].
    + split; [done|]. split; [simpl; by apply list_lookup_insert_eq|].
      rewrite Hroot', Hnext'. done.
    + by destruct pre.
    + by rewrite entries_insert, <- Hcut by apply Hl'.
  - split; [|done]. simpl. by rewrite length_insert.
Qed.

Lemma insert_runs t m key v :
  index_shows t m -> (m !! key = None -> Z.of_nat (size m) < maxLeafKeys_ t) ->
  Z.of_nat (length (nodes_ t)) < INT_MAX ->
  exists t', runs (BTree.insert grow key v) t (bool_decide (m !! key = None)) t' /\
    index_shows t' (match m !! key with None => <[key := v]> m | Some _ => m end) /\
    maxLeafKeys_ t' = maxLeafKeys_ t /\ (length (nodes_ t') <= S (length (nodes_ t)))%nat.
Proof.
  intros Hi Hsz Hmax. pose proof Hi as [Hc _ Hlm [[Hr ->]|(n & kvs & Hroot & Hne & ->)]].
  { rewrite lookup_empty, bool_decide_true by done.
    destruct (insert_first t key v Hr) as (t' & Hrun & Hs & Hp & _ & Hlen & _); [by rewrite Hc, map_size_empty|done..|].
    exists t'. rewrite insert_empty. split_and!; [done..|lia]. }
  pose proof Hroot as (Hr & Hn & _ & _ & Hl). pose proof Hl as [Ht Hk _ Hlen Hs].
  rewrite entries_size in Hsz, Hc by done.
  destruct ((list_to_map kvs : imap) !! key) as [v'|] eqn:E.
  - exists t. rewrite bool_decide_false by done. split; [|split_and!; [done..|lia]].
    unfold BTree.insert. eapply runs_bind; [done|]. destruct (Z.ltb_spec (rootIdx_ t) 0); [lia|].
    eapply runs_bind; [by apply (findLeaf_root t n)|]. eapply runs_bind; [by apply node_at_root|].
    rewrite lookup_entries in E by done.
    destruct (list_find _ kvs) as [[j x]|] eqn:Hf; [|done].
    eapply (runs_bind _ _ _ (Some (0 + Z.of_nat j)) t); [|done].
    unfold runs, lift. by rewrite Hk, Hlen, Nat2Z.id, find_key_spec, Hf.
  - rewrite bool_decide_true by done.
    destruct (insert_leaf t n kvs key v Hroot Hne (Hsz eq_refl) E Hc) as (t' & ? & ? & ? & _ & Hlen' & _); [done|].
    exists t'. split_and!; [done..|lia].
Qed.
End grow.

(** *** Removal *)
Lemma removeFromLeaf_runs t n pre post key v :
  root_leaf t n (pre ++ (key, v) :: post) -> Z.of_nat (length (pre ++ (key, v) :: post)) <= INT_MAX ->
  exists n', root_leaf (set_nodes (<[Z.to_nat (rootIdx_ t) := n']> (nodes_ t)) t) n' (pre ++ post) /\
    runs (BTree.removeFromLeaf (rootIdx_ t) key) t true
      (set_nodes (<[Z.to_nat (rootIdx_ t) := n']> (nodes_ t)) t).
Proof.
  intros (Hr & Hn & Hroot & Hnext & [Ht Hk Hv Hsz Hs]) Hmax. pose proof (lookup_lt_Some _ _ _ Hn) as Hlt.
  rewrite length_app in Hmax. pose proof Hs as Hs'. rewrite key_sorted_app in Hs'. destruct Hs' as (_ & _ & Hpre).
  set (n' := set_size (bn_size n - 1) (set_values (pre ++ post).*2 (set_keys (pre ++ post).*1 n))).
  exists n'. split.
  - split; [done|]. split; [by apply list_lookup_insert_eq|]. split; [done|]. split; [done|].
    split; try done; simpl.
    + rewrite Hsz, !length_app. simpl. lia.
    + by apply (entries_middle pre post (key, v)).
  - unfold BTree.removeFromLeaf. eapply runs_bind; [by apply node_at_root|].
    rewrite Hk, Hv, index_of_spec.
    assert (Hf : list_find (fun x => x.1 = key) (pre ++ (key, v) :: post) = Some (length pre, (key, v))).
    { apply list_find_Some. rewrite lookup_app_r, Nat.sub_diag by lia. split; [done|]. split; [done|].
      intros j y Hj Hlt' E. rewrite lookup_app_l in Hj by done.
      assert (y.1 < key) by (apply (Hpre y (key, v)); [by eapply list_elem_of_lookup_2|by left]). lia. }
    rewrite Hf, !fmap_app, i32_small by (unfold_int; lia). cbn [fmap list_fmap].
    eapply (runs_bind _ _ _ (pre.*1 ++ post.*1) t);
      [unfold runs, lift; by rewrite vec_erase_app by (rewrite length_fmap; lia)|].
    eapply (runs_bind _ _ _ (pre.*2 ++ post.*2) t);
      [unfold runs, lift; by rewrite vec_erase_app by (rewrite length_fmap; lia)|].
    eapply (runs_bind _ _ _ (bn_size n - 1) t); [unfold runs, lift; rewrite Hsz, int_pred_ret by (unfold_int; lia); done|].
    eapply runs_bind; [by apply (update_runs t n)|]. unfold runs, ret, n'. by rewrite !fmap_app.
Qed.

Lemma is_empty_of_root t n kvs type :
  root_leaf t n kvs ->
  runs (BTree.is_empty_of type) t (bool_decide (LEAF = type) && (Z.of_nat (length kvs) =? 0)) t.
Proof.
  intros (Hr & Hn & _ & _ & [Ht _ _ Hsz _]). unfold BTree.is_empty_of. eapply runs_bind; [done|].
  destruct (Z.ltb_spec (rootIdx_ t) 0); [lia|].
  eapply runs_bind; [by apply node_at_root|]. by rewrite Ht, Hsz.
Qed.

Lemma remove_present t n pre post key v :
  root_leaf t n (pre ++ (key, v) :: post) ->
  entryCount_ t = Z.of_nat (length (pre ++ (key, v) :: post)) -> entryCount_ t <= INT_MAX ->
  maxLeafKeys_ t < INT_MAX ->
  exists t', runs (BTree.remove key) t true t' /\
    index_shows t' (list_to_map (pre ++ post)) /\ maxLeafKeys_ t' = maxLeafKeys_ t /\
    length (nodes_ t') = length (nodes_ t).
Proof.
  intros Hl Hc Hci Hlm. destruct (removeFromLeaf_runs t n pre post key v Hl ltac:(by rewrite <- Hc)) as (n' & Hl1 & Hrun1).
  pose proof Hl as (Hr & Hn & _ & _ & [Ht _ _ _ Hs]).
  set (t1 := set_nodes _ t) in *. set (t2 := set_count (entryCount_ t1 - 1) t1).
  assert (Hl2 : root_leaf t2 n' (pre ++ post)) by exact Hl1.
  assert (Hs2 : key_sorted (pre ++ post)) by apply Hl2.
  set (t3 := if Z.of_nat (length (pre ++ post)) =? 0 then set_root (-1) t2 else t2).
  assert (Hrun : runs (BTree.remove key) t true t3).
  { unfold BTree.remove. eapply runs_bind; [by apply (findLeaf_root t n)|].
    destruct (Z.ltb_spec (rootIdx_ t) 0); [lia|]. eapply runs_bind; [exact Hrun1|]. simpl negb.
    eapply (runs_bind _ _ _ tt t2); [apply (count_down_runs t1); simpl; rewrite Hc; unfold_int; lia|].
    destruct Hl2 as (Hr2 & Hn2 & Hroot2 & Hrest) eqn:E2. clear E2.
    eapply (runs_bind _ _ _ n' t2); [apply (node_at_root t2); done|].
    eapply (runs_bind _ _ _ t2 t2); [done|]. rewrite Hroot2. simpl.
    eapply (runs_bind _ _ _ tt t2); [done|].
    eapply (runs_bind _ _ _ false t2); [by apply (is_empty_of_root t2 n' (pre ++ post))|].
    eapply (runs_bind _ _ _ t2 t2); [done|]. eapply (runs_bind _ _ _ tt t2); [done|].
    eapply runs_bind; [by apply (is_empty_of_root t2 n' (pre ++ post))|].
    rewrite bool_decide_true by done. simpl. unfold t3.
    destruct (Z.of_nat (length (pre ++ post)) =? 0); [by eapply (runs_bind _ _ _ tt)|by eapply (runs_bind _ _ _ tt)]. }
  assert (Hcount : entryCount_ t2 = Z.of_nat (length (pre ++ post))).
  { unfold t2. simpl. rewrite Hc, !length_app. simpl. lia. }
  exists t3. split; [done|]. unfold t3. split; [|split].
  - destruct (Z.eqb_spec (Z.of_nat (length (pre ++ post))) 0) as [E|E]; split.
    + rewrite entries_size by done. exact Hcount.
    + rewrite entries_size by done. revert Hci Hc. rewrite !length_app. simpl. lia.
    + done.
    + left. split; [done|]. by assert (pre ++ post = []) as -> by (apply nil_length_inv; lia).
    + rewrite entries_size by done. exact Hcount.
    + rewrite entries_size by done. revert Hci Hc. rewrite !length_app. simpl. lia.
    + done.
    + right. exists n', (pre ++ post). split; [done|]. split; [|done]. intros E'. by rewrite E' in E.
  - by destruct (_ =? 0).
  - assert (H : length (nodes_ t2) = length (nodes_ t)) by (unfold t2, t1; simpl; apply length_insert).
    by destruct (_ =? 0).
Qed.

Lemma remove_runs t m key :
  index_shows t m ->
  exists t', runs (BTree.remove key) t (bool_decide (is_Some (m !! key))) t' /\
    index_shows t' (delete key m) /\ maxLeafKeys_ t' = maxLeafKeys_ t /\
    length (nodes_ t') = length (nodes_ t).
Proof.
  intros Hi. pose proof Hi as [Hc Hci Hlm [[Hr ->]|(n & kvs & Hroot & Hne & ->)]].
  { exists t. rewrite lookup_empty, bool_decide_false by (by intros [??]). rewrite delete_empty.
    split; [|done]. unfold BTree.remove. eapply (runs_bind _ _ _ (-1) t); [|done].
    unfold runs, BTree.findLeaf, bind, get. by rewrite (proj2 (Z.ltb_lt _ _)). }
  pose proof Hroot as (Hr & Hn & _ & _ & Hl). pose proof Hl as [Ht Hk _ Hlen Hs].
  rewrite entries_size in Hc, Hci by done. rewrite lookup_entries by done.
  destruct (list_find (fun x => x.1 = key) kvs) as [[j [k v]]|] eqn:Hf.
  - rewrite bool_decide_true by (by eexists).
    apply list_find_Some in Hf as (Hj & <- & _). apply list_elem_of_split_length in Hj as (pre & post & -> & _).
    destruct (remove_present t n pre post k v Hroot Hc) as (t' & Hrun & Hs' & Hp & Hlen'); [lia|done|].
    exists t'. split; [done|]. split; [|done]. by rewrite <- (entries_delete pre post (k, v)).
  - rewrite bool_decide_false by (by intros [??]).
    exists t. split; [|split; [|done]].
    + unfold BTree.remove. eapply runs_bind; [by apply (findLeaf_root t n)|].
      destruct (Z.ltb_spec (rootIdx_ t) 0); [lia|]. eapply (runs_bind _ _ _ false t); [|done].
      unfold BTree.removeFromLeaf. eapply runs_bind; [by apply node_at_root|].
      by rewrite Hk, index_of_spec, Hf.
    + rewrite delete_id; [done|]. rewrite lookup_entries by done. by rewrite Hf.
Qed.

(** *** Range scans *)
Definition in_range (low high : Z) (x : Z * RID) : Prop := low <= x.1 <= high.
#[export] Instance in_range_dec low high x : Decision (in_range low high x).
Proof. unfold in_range. apply _. Defined.

(** The values of the keys in a range, in the order of the keys. *)
Definition range_values (m : imap) (low high : Z) (l : list RID) : Prop :=
  exists kvs, key_sorted kvs /\ l = kvs.*2 /\
    forall x, x ∈ kvs <-> m !! x.1 = Some x.2 /\ in_range low high x.

Lemma key_sorted_filter (P : Z * RID -> Prop) `{!forall x, Decision (P x)} kvs :
  key_sorted kvs -> key_sorted (filter P kvs).
Proof.
  induction kvs as [|x kvs IH]; [done|]. rewrite key_sorted_cons, filter_cons. intros [Hs Hx].
  case_decide; [|by apply IH]. apply key_sorted_cons. split; [by apply IH|].
  intros y [_ Hy]%list_elem_of_filter. by apply Hx.
Qed.

(** the entries of a sorted list are those of its map *)
Lemma entries_elem (kvs : entries) x :
  key_sorted kvs -> x ∈ kvs <-> (list_to_map kvs : imap) !! x.1 = Some x.2.
Proof. intros Hs. destruct x as [k v]. apply elem_of_list_to_map. by apply key_sorted_nodup. Qed.

Lemma filter_range (kvs : entries) low high x : key_sorted kvs ->
  x ∈ filter (in_range low high) kvs <-> (list_to_map kvs : imap) !! x.1 = Some x.2 /\ in_range low high x.
Proof. intros Hs. rewrite list_elem_of_filter, entries_elem by done. tauto. Qed.

Lemma scan_leaf_spec (kvs : entries) low high :
  key_sorted kvs ->
  exists b, BTree.scan_leaf kvs.*1 kvs.*2 low high (length kvs) =
    Ret ((filter (in_range low high) kvs).*2, b) /\ (b = true <-> exists x, x ∈ kvs /\ high < x.1).
Proof.
  induction kvs as [|x kvs IH].
  { intros _. exists false. split; [done|]. split; [done|]. by intros (x & ?%elem_of_nil & _). }
  rewrite key_sorted_cons. intros [Hs Hx].
  cbn [fmap list_fmap length BTree.scan_leaf]. destruct (Z.ltb_spec high x.1) as [Hh|Hh].
  - exists true. split; [|split; [intros _; exists x; split; [by left|done]|done]].
    do 2 f_equal. rewrite filter_cons, decide_False by (unfold in_range; lia).
    assert (Hnil : filter (in_range low high) kvs = []); [|by rewrite Hnil].
    clear IH Hs. induction kvs as [|y kvs IH]; [done|].
    rewrite filter_cons, decide_False; [apply IH; intros z Hz; apply Hx; by right|].
    specialize (Hx y ltac:(by left)). unfold in_range. lia.
  - destruct (IH Hs) as (b & Hb & Hbt). exists b. rewrite Hb. cbn [obind]. split.
    + rewrite filter_cons. destruct (Z.leb_spec low x.1).
      * by rewrite decide_True by (unfold in_range; lia).
      * by rewrite decide_False by (unfold in_range; lia).
    + rewrite Hbt. split; [intros (y & Hy & ?); exists y; split; [by right|done]|].
      intros (y & [->|Hy]%elem_of_cons & ?); [lia|by exists y].
Qed.

Lemma rangeScan_runs t m low high :
  index_shows t m -> exists l, runs (BTree.rangeScan low high) t l t /\ range_values m low high l.
Proof.
  intros [_ _ _ [[Hr ->]|(n & kvs & (Hr & Hn & _ & Hnext & Hl) & _ & ->)]].
  - exists []. split.
    + unfold BTree.rangeScan. eapply (runs_bind _ _ _ (-1) t); [|done].
      unfold runs, BTree.findLeaf, bind, get. by rewrite (proj2 (Z.ltb_lt _ _)).
    + exists []. split; [by constructor|]. split; [done|]. intros x. rewrite lookup_empty, elem_of_nil. naive_solver.
  - pose proof Hl as [Ht Hk Hv Hsz Hs]. destruct (scan_leaf_spec kvs low high Hs) as (b & Hb & _).
    exists (filter (in_range low high) kvs).*2. split.
    2: { exists (filter (in_range low high) kvs). split; [by apply key_sorted_filter|]. split; [done|].
         intros x. by apply filter_range. }
    unfold BTree.rangeScan. eapply runs_bind; [by apply (findLeaf_root t n)|].
    destruct (Z.ltb_spec (rootIdx_ t) 0); [lia|]. eapply (runs_bind _ _ _ t t); [done|].
    pose proof (lookup_lt_Some _ _ _ Hn) as Hlt.
    destruct (length (nodes_ t)) as [|len]; [lia|]. cbn [BTree.scan_chain].
    rewrite (proj2 (Z.ltb_ge _ _)) by done.
    eapply runs_bind; [by apply node_at_root|].
    eapply (runs_bind _ _ _ ((filter (in_range low high) kvs).*2, b) t).
    { unfold runs, lift. by rewrite Hk, Hv, Hsz, Nat2Z.id, Hb. }
    destruct b; [done|]. cbn [fst snd].
    eapply (runs_bind _ _ _ [] t); [by rewrite Hnext|]. unfold runs, ret. by rewrite app_nil_r.
Qed.

(** *** Printing *)
Definition keys_line (ks : list Z) : string := "LEAF [" +:+ String.concat ", " (map pretty ks) +:+ "]".

Lemma keys_text_spec ks : BTree.keys_text ks (length ks) = Ret (String.concat ", " (map pretty ks)).
Proof.
  induction ks as [|k ks IH]; [done|]. cbn [length BTree.keys_text]. rewrite IH. cbn [obind].
  destruct ks as [|k' ks]; [|done]. change (Ret (pretty k +:+ EmptyString) = Ret (pretty k)).
  by rewrite string_app_nil_r.
Qed.

(** one line with the keys in order *)
Definition prints_map (m : imap) (ls : list string) : Prop :=
  if decide (m = ∅) then ls = ["(empty tree)"]
  else exists ks, StronglySorted Z.lt ks /\ (forall k, k ∈ ks <-> is_Some (m !! k)) /\ ls = [keys_line ks].

Lemma print_runs t m : index_shows t m -> exists ls, runs BTree.print t ls t /\ prints_map m ls.
Proof.
  intros [Hc _ _ [[Hr ->]|(n & kvs & Hroot & Hne & ->)]].
  { exists ["(empty tree)"]. unfold prints_map, BTree.print. split; [|done]. eapply runs_bind; [done|].
    by rewrite (proj2 (Z.ltb_lt _ _)). }
  pose proof Hroot as (Hr & Hn & _ & _ & [Ht Hk _ Hsz Hs]). exists [keys_line kvs.*1]. split.
  - unfold BTree.print. eapply runs_bind; [done|]. destruct (Z.ltb_spec (rootIdx_ t) 0); [lia|].
    cbn [BTree.printNode]. eapply runs_bind; [by apply node_at_root|].
    eapply (runs_bind _ _ _ (String.concat ", " (map pretty kvs.*1)) t).
    { unfold runs, lift. by rewrite Hk, Hsz, Nat2Z.id, <- (length_fmap fst kvs), keys_text_spec. }
    by rewrite decide_True.
  - unfold prints_map. rewrite decide_False.
    + exists kvs.*1. split; [done|]. split; [|done]. intros k. split.
      * intros Hin. destruct (list_to_map kvs !! k) as [v|] eqn:E; [done|].
        by apply not_elem_of_list_to_map in E.
      * intros [v Hv]. apply elem_of_list_to_map_2 in Hv. apply list_elem_of_fmap. by exists (k, v).
    + intros E. apply (f_equal size) in E. rewrite entries_size, map_size_empty in E by done.
      by destruct kvs.
Qed.

(** ** Sequences of operations *)
Inductive index_op :=
  | IInsert (key : Z) (v : RID)
  | IRemove (key : Z)
  | ISearch (key : Z)
  | IRange (low high : Z)
  | IPrint.

Inductive index_answer :=
  | ABool (b : bool)
  | AFound (o : option RID)
  | AList (l : list RID)
  | ALines (l : list string).

Definition run_op (grow : nat -> nat) (op : index_op) : M BPlusTree index_answer :=
  match op with
  | IInsert k v => b <- BTree.insert grow k v ;; ret (ABool b)
  | IRemove k => b <- BTree.remove k ;; ret (ABool b)
  | ISearch k => o <- BTree.search k ;; ret (AFound o)
  | IRange lo hi => l <- BTree.rangeScan lo hi ;; ret (AList l)
  | IPrint => l <- BTree.print ;; ret (ALines l)
  end.

Fixpoint run_index (grow : nat -> nat) (ops : list index_op) : M BPlusTree (list index_answer) :=
  match ops with
  | [] => ret []
  | op :: ops' => a <- run_op grow op ;; rest <- run_index grow ops' ;; ret (a :: rest)
  end.

(** A finite map answers the same operations. *)
Definition map_after (m : imap) (op : index_op) : imap :=
  match op with
  | IInsert k v => match m !! k with None => <[k := v]> m | Some _ => m end
  | IRemove k => delete k m
  | _ => m
  end.

Definition map_answers (m : imap) (op : index_op) (a : index_answer) : Prop :=
  match op with
  | IInsert k _ => a = ABool (bool_decide (m !! k = None))
  | IRemove k => a = ABool (bool_decide (is_Some (m !! k)))
  | ISearch k => a = AFound (m !! k)
  | IRange lo hi => exists l, a = AList l /\ range_values m lo hi l
  | IPrint => exists l, a = ALines l /\ prints_map m l
  end.

Fixpoint answers_all (m : imap) (ops : list index_op) (l : list index_answer) : Prop :=
  match ops, l with
  | [], [] => True
  | op :: ops', a :: l' => map_answers m op a /\ answers_all (map_after m op) ops' l'
  | _, _ => False
  end.

(** The map never holds more than [cap] keys. *)
Fixpoint stays_within (cap : Z) (m : imap) (ops : list index_op) : bool :=
  match ops with
  | [] => true
  | op :: ops' =>
      let m' := map_after m op in (Z.of_nat (size m') <=? cap) && stays_within cap m' ops'
  end.

Lemma run_op_refines grow op t m :
  index_shows t m -> Z.of_nat (size (map_after m op)) <= maxLeafKeys_ t -> Z.of_nat (length (nodes_ t)) < INT_MAX ->
  exists a t', runs (run_op grow op) t a t' /\ map_answers m op a /\
    index_shows t' (map_after m op) /\ maxLeafKeys_ t' = maxLeafKeys_ t /\
    (length (nodes_ t') <= S (length (nodes_ t)))%nat.
Proof.
  intros Hi Hcap Hmax. destruct op as [k v|k|k|lo hi|]; simpl in *.
  - destruct (insert_runs grow t m k v Hi) as (t' & Hrun & Hi' & Hp & Hlen).
    { intros E. rewrite E, map_size_insert_None in Hcap by done. lia. }
    { done. }
    eexists _, t'. split; [by eapply runs_bind|]. done.
  - destruct (remove_runs t m k Hi) as (t' & Hrun & Hi' & Hp & Hlen).
    eexists _, t'. split; [by eapply runs_bind|]. split_and!; [done..|lia].
  - eexists _, t. split; [by eapply runs_bind; [by apply search_runs|]|]. split_and!; [done..|lia].
  - destruct (rangeScan_runs t m lo hi Hi) as (l & Hrun & Hl).
    eexists _, t. split; [by eapply runs_bind|]. split_and!; [by exists l|done..|lia].
  - destruct (print_runs t m Hi) as (l & Hrun & Hl).
    eexists _, t. split; [by eapply runs_bind|]. split_and!; [by exists l|done..|lia].
Qed.

Lemma run_index_refines grow ops : forall t m,
  index_shows t m -> stays_within (maxLeafKeys_ t) m ops = true ->
  Z.of_nat (length (nodes_ t) + length ops) <= INT_MAX ->
  exists l t', runs (run_index grow ops) t l t' /\ answers_all m ops l.
Proof.
  induction ops as [|op ops IH]; intros t m Hi Hcap Hmax; [by exists [], t|].
  simpl in Hcap, Hmax. apply andb_true_iff in Hcap as [Hsz Hcap]. apply Z.leb_le in Hsz.
  destruct (run_op_refines grow op t m Hi Hsz) as (a & t' & Hrun & Ha & Hi' & Hp & Hlen); [lia|].
  rewrite <- Hp in Hcap. destruct (IH t' _ Hi' Hcap) as (l & t'' & Hrun' & Hl); [lia|].
  exists (a :: l), t''. split; [|done]. simpl. eapply runs_bind; [done|]. by eapply runs_bind.
Qed.

Lemma init_shows order : order < INT_MAX -> index_shows (BTree.init order) ∅.
Proof. intros Ho. split; [by rewrite map_size_empty|by rewrite map_size_empty|simpl; lia|]. left. done. Qed.

(** C12: while its keys fit in one leaf a fresh index answers every sequence of
    insertions, removals, searches, range scans and printings as a finite map
    does: an insertion of a present key is refused and keeps the old row, and a
    range scan lists the values in the order of their keys. The order is one
    that the constructor's [int] arithmetic takes, and the operations are no more
    than [INT_MAX], since each may use up an index of the vector of nodes. *)
Theorem index_refines_map grow order ops :
  order < INT_MAX -> Z.of_nat (length ops) <= INT_MAX -> stays_within (order - 1) ∅ ops = true ->
  exists l t', runs (run_index grow ops) (BTree.init order) l t' /\ answers_all ∅ ops l.
Proof. intros Ho Hn H. by apply run_index_refines; [apply init_shows|..]. Qed.

Lemma index_refines_map_witness :
  let ops := [IInsert 5 (mkRID 1 0); IInsert 2 (mkRID 2 3); IInsert 5 (mkRID 9 9);
              IRange 0 9; IRemove 5; ISearch 5; IInsert (-3) (mkRID 0 1); IRange (-9) 2; IPrint] in
  exists l t', runs (run_index (fun n => n + n)%nat ops) (BTree.init 4) l t' /\ answers_all ∅ ops l.
Proof. intros ops. apply index_refines_map; [reflexivity|vm_compute; discriminate|vm_compute; reflexivity]. Defined.

(** ** The first split *)
Definition insert_all (grow : nat -> nat) (kvs : entries) : M BPlusTree (list index_answer) :=
  run_index grow (map (fun x => IInsert x.1 x.2) kvs).

(** A root leaf that is full, in a vector that is full. *)
Lemma full_split_undefined grow t m key v :
  index_shows t m -> 0 <= rootIdx_ t -> Z.of_nat (size m) = maxLeafKeys_ t -> m !! key = None ->
  length (nodes_ t) = nodes_cap t -> Z.of_nat (length (nodes_ t)) < INT_MAX ->
  (BTree.insert grow key v t).1 = Undef.
Proof.
  intros [_ _ Hlm [[Hr _]|(n & kvs & (Hr & Hn & _ & _ & Hl) & Hne & ->)]] Hr0 Hfull Hnone Htight Hmax; [lia|].
  pose proof Hl as [Ht Hk Hv Hsz Hs]. rewrite entries_size in Hfull by done.
  pose proof Hnone as Hfind. rewrite list_find_none_lookup in Hfind by done.
  unfold BTree.insert. rewrite (bind_runs _ _ t t t), (proj2 (Z.ltb_ge _ _)) by done.
  rewrite (bind_runs _ _ t (rootIdx_ t) t) by (by apply (findLeaf_root t n)).
  rewrite (bind_runs _ _ t n t) by (by apply node_at_root).
  rewrite (bind_runs _ _ t None t)
    by (unfold runs, lift; by rewrite Hk, Hsz, Nat2Z.id, find_key_spec, Hfind).
  rewrite Hsz, Hfull, Z.ltb_irrefl.
  destruct (lower_bound_cut kvs key Hs) as (pre & post & Hcut & Hlb & Hpre & Hpost).
  assert (Hput : exists n1, BTree.put_entry key v n = Ret n1).
  { unfold BTree.put_entry. rewrite Hk, Hlb, Hv, Hsz, Hcut. cbv zeta.
    rewrite Hcut, length_app in Hfull. rewrite i32_small by (unfold_int; lia).
    rewrite !fmap_app, !vec_insert_app by (by rewrite length_fmap). cbn [obind].
    rewrite int_succ_ret by (rewrite length_app; lia). by eexists. }
  destruct Hput as (n1 & Hput). pose proof (lookup_lt_Some _ _ _ Hn) as Hlt.
  set (r := rootIdx_ t) in *. set (leaf := BTree.mkRef r (nodes_gen t)).
  apply undef_bind. unfold BTree.splitLeafAndInsert.
  eapply (undef_after _ _ _ leaf t); [apply node_ref_runs; lia|].
  eapply (undef_after _ _ _ n t); [by apply deref_runs|].
  eapply (undef_after _ _ _ n1 t); [by unfold runs, lift; rewrite Hput|].
  set (t1 := set_nodes (<[Z.to_nat r := n1]> (nodes_ t)) t).
  eapply (undef_after _ _ _ tt t1); [by apply assign_runs|].
  assert (Hl1 : length (nodes_ t1) = nodes_cap t) by (simpl; by rewrite length_insert).
  eapply undef_after; [apply allocateNode_runs; rewrite Hl1; lia|]. set (t2 := BTree.push_node _ _ _).
  assert (Hg2 : nodes_gen t2 = S (nodes_gen t)).
  { unfold t2, BTree.push_node. cbn [nodes_gen]. by rewrite Hl1, Nat.eqb_refl. }
  eapply undef_after.
  { apply node_ref_runs. split; [lia|]. unfold t2. simpl. rewrite length_app. simpl. lia. }
  apply undef_bind. unfold BTree.deref, bind, get.
  by rewrite Hg2, (proj2 (Nat.eqb_neq _ _)) by (simpl; lia).
Qed.

(** New keys into a root leaf with room. *)
Lemma fill_root grow kvs : forall t m,
  index_shows t m -> 0 <= rootIdx_ t -> NoDup kvs.*1 -> (forall k, k ∈ kvs.*1 -> m !! k = None) ->
  Z.of_nat (size m + length kvs) <= maxLeafKeys_ t ->
  exists l t' m', runs (insert_all grow kvs) t l t' /\ index_shows t' m' /\ 0 <= rootIdx_ t' /\
    maxLeafKeys_ t' = maxLeafKeys_ t /\ length (nodes_ t') = length (nodes_ t) /\
    nodes_cap t' = nodes_cap t /\ size m' = (size m + length kvs)%nat /\
    (forall k, k ∉ kvs.*1 -> m' !! k = m !! k).
Proof.
  induction kvs as [|[k v] kvs IH]; intros t m Hi Hr Hnd Hfresh Hcap.
  { exists [], t, m. split; [done|]. split; [done|]. split; [done|]. split; [done|]. split; [done|]. split; [done|].
    split; [simpl; lia|done]. }
  apply NoDup_cons in Hnd as [Hk Hnd]. simpl in Hcap.
  pose proof Hi as [Hc _ Hlm [[Hr' _]|(n & es & Hroot & Hne & ->)]]; [lia|].
  pose proof (Hfresh k ltac:(by left)) as Hnone.
  assert (Hs : key_sorted es) by apply Hroot. rewrite entries_size in * by done.
  destruct (insert_leaf grow t n es k v Hroot Hne) as (t1 & Hrun & Hi1 & Hp1 & Hr1 & Hl1 & Hc1);
    [lia|done|done|done|].
  destruct (IH t1 _ Hi1 Hr1 Hnd) as (l & t' & m' & Hrun' & Hi' & Hr2 & Hp2 & Hl2 & Hc2 & Hsz & Hsame).
  { intros k' Hk'. rewrite lookup_insert_ne by (by intros ->). apply Hfresh. by right. }
  { rewrite map_size_insert_None, entries_size by done. rewrite Hp1. lia. }
  exists (ABool true :: l), t', m'. split.
  { unfold insert_all. simpl. eapply runs_bind; [by eapply runs_bind|]. by eapply runs_bind. }
  rewrite Hp2, Hl2, Hc2. repeat (split; [done|]). split.
  - rewrite Hsz, map_size_insert_None, entries_size by done. simpl. lia.
  - intros k' Hk'. rewrite Hsame by (intros ?; apply Hk'; by right).
    apply lookup_insert_ne. intros ->. apply Hk'. by left.
Qed.

(** C14: when the node vector starts empty and its first allocation holds one
    node, as in the library the program is built with, the insertion that
    overfills the first leaf uses a reference into memory the vector has
    released: [order - 1] distinct keys are accepted and the next one is
    undefined behaviour, whatever the order of the tree, as far as [int]s go. *)
Theorem first_split_undefined grow order kvs key v :
  grow O = 1%nat -> order < INT_MAX -> Z.of_nat (length kvs) = order - 1 -> kvs <> [] -> NoDup (key :: kvs.*1) ->
  exists l t, runs (insert_all grow kvs) (BTree.init order) l t /\
    (BTree.insert grow key v t).1 = Undef.
Proof.
  intros Hgrow Ho Hlen Hne Hnd. apply NoDup_cons in Hnd as [Hkey Hnd].
  destruct kvs as [|[k0 v0] kvs]; [done|]. apply NoDup_cons in Hnd as [Hk0 Hnd].
  destruct (insert_first grow (BTree.init order) k0 v0) as (t1 & Hrun & Hi & Hp & Hr & Hl & Hc);
    [done|done|simpl; lia|done|].
  simpl in Hlen, Hp, Hl, Hc. rewrite Hgrow in Hc.
  destruct (fill_root grow kvs t1 _ Hi Hr Hnd) as (l & t' & m' & Hrun' & Hi' & Hr' & Hp' & Hl' & Hc' & Hsz & Hsame).
  { intros k Hk. rewrite lookup_singleton_ne; [done|]. by intros ->. }
  { rewrite map_size_singleton, Hp. lia. }
  exists (ABool true :: l), t'. split.
  { unfold insert_all. simpl. eapply runs_bind; [by eapply runs_bind|]. by eapply runs_bind. }
  apply (full_split_undefined grow t' m'); [done|done| | |lia|unfold INT_MAX; lia].
  - rewrite Hsz, map_size_singleton, Hp', Hp. lia.
  - rewrite Hsame by (intros ?; apply Hkey; by right).
    apply lookup_singleton_ne. intros ->. apply Hkey. by left.
Qed.

Lemma first_split_undefined_witness :
  let grow := fun n : nat => if (n =? 0)%nat then 1%nat else (n + n)%nat in
  let kvs := map (fun i => (i, mkRID 0 (u16 i))) (seqZ 1 127) in
  exists l t, runs (insert_all grow kvs) (BTree.init 128) l t /\
    (BTree.insert grow 128 (mkRID 0 0) t).1 = Undef.
Proof.
  intros grow kvs. apply first_split_undefined.
  - reflexivity.
  - reflexivity.
  - vm_compute. reflexivity.
  - vm_compute. discriminate.
  - apply (bool_decide_unpack _). vm_compute. exact I.
Defined.

(** [isEmpty] stays false once an entry has been inserted: after the only
    entry is removed the tree has size 0 and no root, yet is not "empty". *)
Theorem isEmpty_after_remove grow order key v :
  order < INT_MAX ->
  exists t, runs (BTree.insert grow key v ;; BTree.remove key) (BTree.init order) true t /\
    BTree.getSize t = 0 /\ rootIdx_ t < 0 /\ BTree.isEmpty t = false.
Proof.
  intros Ho.
  destruct (insert_first grow (BTree.init order) key v) as (t1 & Hrun & Hi & _ & Hr & Hl1 & _); [done|done|simpl; lia|done|].
  pose proof Hi as [Hc _ Hlm [[Hr' _]|(n & kvs & Hroot & Hne & E)]]; [lia|].
  assert (Hs : key_sorted kvs) by apply Hroot.
  assert (Hsz : length kvs = 1%nat) by (by rewrite <- entries_size, <- E, map_size_singleton).
  destruct kvs as [|[k v'] [|? ?]]; try done.
  assert (k = key) as ->.
  { simpl in E. rewrite insert_empty in E.
    assert (H : ({[key := v]} : imap) !! k = Some v') by (rewrite E; apply lookup_singleton_eq).
    by apply lookup_singleton_Some in H as [-> _]. }
  destruct (remove_present t1 n [] [] key v' Hroot) as (t2 & Hrun2 & Hi2 & _ & Hn2);
    [by rewrite Hc, map_size_singleton|by rewrite Hc, map_size_singleton|done|].
  exists t2. split; [by eapply runs_bind|]. destruct Hi2 as [Hc2 _ _ [[Hr2 _]|(n2 & kvs2 & Hroot2 & Hne2 & E2)]].
  - split; [exact Hc2|]. split; [done|]. unfold BTree.isEmpty.
    rewrite bool_decide_false; [done|]. intros E'. by rewrite E', Hl1 in Hn2.
  - exfalso. assert (Hs2 : key_sorted kvs2) by apply Hroot2.
    pose proof (entries_size kvs2 Hs2) as Hsz2. rewrite <- E2 in Hsz2. simpl in Hsz2.
    rewrite map_size_empty in Hsz2. by destruct kvs2.
Qed.
