(* ===== verification/IndexTree.v ===== *)
(** * Trees of any size (src/src/index/BPlusTree.cpp)

    The invariant of a B+ tree of any height, as conditions on single nodes:
    every node has an interval of keys and a depth, an internal node's keys cut
    its interval into those of its children, the entries of a leaf are in its
    interval, and the next leaf starts where it ends. And what a split does to
    it, on the map from indices to nodes. *)
From stdpp Require Import base numbers list sorting strings gmap functions.
From Stdlib Require Import ZArith Lia.
From S2P Require Import Prelude Common BTree BTreeThms.

(** ** Intervals of keys *)
Abbreviation bound := (option Z).

Definition above (l : bound) (k : Z) : Prop := match l with None => True | Some x => x <= k end.
Definition below (k : Z) (u : bound) : Prop := match u with None => True | Some x => k < x end.
Definition within (i : bound * bound) (k : Z) : Prop := above i.1 k /\ below k i.2.
(** an interval that is not empty *)
Definition blt (l u : bound) : Prop := match l, u with Some a, Some b => a < b | _, _ => True end.

Ltac interval := unfold within, above, below, blt in *; simpl in *;
  repeat match goal with
    | o : option Z |- _ => destruct o
    | |- context [match ?o with Some _ => _ | None => _ end] => destruct o
    | H : context [match ?o with Some _ => _ | None => _ end] |- _ => destruct o
    end; try done; try lia.

Lemma blt_trans l k u : blt l (Some k) -> blt (Some k) u -> blt l u.
Proof. interval. Qed.

Lemma within_point l u : blt l u -> exists x, within (l, u) x.
Proof.
  destruct l as [a|], u as [b|]; intros H; [exists a|exists a|exists (b - 1)|exists 0]; interval.
Qed.

(** ** The children of a node *)
(** The keys [ks] cut the interval from [l] to [u] into those of [cs]. *)
Fixpoint kids (P : Z -> bound -> bound -> Prop) (l : bound) (ks cs : list Z) (u : bound) : Prop :=
  match ks, cs with
  | [], [c] => P c l u
  | k :: ks', c :: cs' => P c l (Some k) /\ kids P (Some k) ks' cs' u
  | _, _ => False
  end.

Section kids.
Context (P : Z -> bound -> bound -> Prop).

Lemma kids_length l ks cs u : kids P l ks cs u -> length cs = S (length ks).
Proof.
  revert l cs. induction ks as [|k ks IH]; intros l [|c cs]; simpl; [done| |done|].
  - by destruct cs.
  - intros [_ H]. f_equal. by apply (IH (Some k)).
Qed.

Lemma kids_app ks1 k ks2 cs1 cs2 l u :
  length cs1 = S (length ks1) ->
  kids P l (ks1 ++ k :: ks2) (cs1 ++ cs2) u <-> kids P l ks1 cs1 (Some k) /\ kids P (Some k) ks2 cs2 u.
Proof.
  revert l cs1. induction ks1 as [|k1 ks1 IH]; intros l [|c cs1] Hl; simpl in Hl; try lia.
  - destruct cs1; [|done]. done.
  - cbn [app kids]. rewrite IH by lia. tauto.
Qed.

Lemma kids_mono (Q : Z -> bound -> bound -> Prop) l ks cs u :
  (forall c a b, c ∈ cs -> P c a b -> Q c a b) -> kids P l ks cs u -> kids Q l ks cs u.
Proof.
  revert l cs. induction ks as [|k ks IH]; intros l [|c cs] HPQ; simpl; try done.
  - destruct cs; [|done]. apply HPQ. by left.
  - intros [H1 H2]. split; [apply HPQ; [by left|done]|]. apply IH; [|done].
    intros d a b Hd. apply HPQ. by right.
Qed.

Context (HP : forall c a b, P c a b -> blt a b).

Lemma kids_blt l ks cs u : kids P l ks cs u -> blt l u.
Proof.
  revert l cs. induction ks as [|k ks IH]; intros l [|c cs]; simpl; try done.
  - destruct cs; [|done]. apply HP.
  - intros [H1 H2]. eapply blt_trans; [by eapply HP|by eapply IH].
Qed.

Lemma kids_keys l ks cs u x : kids P l ks cs u -> x ∈ ks -> blt l (Some x) /\ blt (Some x) u.
Proof.
  revert l cs. induction ks as [|k ks IH]; intros l [|c cs]; simpl; [by intros _ ?%elem_of_nil..|done|].
  intros [H1 H2] [->|Hx]%elem_of_cons; [split; [exact (HP _ _ _ H1)|exact (kids_blt _ _ _ _ H2)]|].
  destruct (IH (Some k) cs H2 Hx) as [H3 H4]. split; [|done]. eapply blt_trans; [by eapply HP|done].
Qed.

Lemma kids_elem l ks cs u c :
  kids P l ks cs u -> c ∈ cs -> exists a b, P c a b /\ forall x, within (a, b) x -> within (l, u) x.
Proof.
  revert l cs. induction ks as [|k ks IH]; intros l [|d cs]; simpl; try done.
  - destruct cs; [|done]. intros H ->%list_elem_of_singleton. by exists l, u.
  - intros [H1 H2] [->|Hc]%elem_of_cons.
    + exists l, (Some k). split; [done|]. intros x Hx. pose proof (kids_blt _ _ _ _ H2). interval.
    + destruct (IH (Some k) cs H2 Hc) as (a & b & Hab & Hw). exists a, b. split; [done|].
      intros x Hx%Hw. pose proof (HP _ _ _ H1). interval.
Qed.

(** the child that the search for [x] goes to *)
Lemma kids_find l ks cs u x i :
  kids P l ks cs u -> within (l, u) x ->
  exists j c a b, BTree.child_pos ks x i (length ks) = Ret (i + Z.of_nat j) /\ cs !! j = Some c /\
    P c a b /\ within (a, b) x.
Proof.
  revert l cs i. induction ks as [|k ks IH]; intros l [|c cs] i; simpl; try done.
  - destruct cs; [|done]. intros H Hx. exists 0%nat, c, l, u. split; [f_equal; lia|done].
  - intros [H1 H2] Hx. destruct (Z.leb_spec k x) as [Hk|Hk].
    + destruct (IH (Some k) cs (i + 1) H2) as (j & d & a & b & -> & Hj & H); [interval|].
      exists (S j), d, a, b. split; [f_equal; lia|done].
    + exists 0%nat, c, l, (Some k). split; [f_equal; lia|]. split; [done|]. split; [done|interval].
Qed.
End kids.

(** Children with intervals of their own are distinct. *)
Section intervals.
Context (iv : Z -> bound * bound) (P : Z -> bound -> bound -> Prop).
Context (HP : forall c a b, P c a b -> blt a b) (Hiv : forall c a b, P c a b -> iv c = (a, b)).

Lemma kids_unique l ks cs u c d x :
  kids P l ks cs u -> c ∈ cs -> d ∈ cs -> within (iv c) x -> within (iv d) x -> c = d.
Proof.
  revert l cs. induction ks as [|k ks IH]; intros l [|e cs]; simpl; try done.
  - destruct cs; [|done]. by intros _ ->%list_elem_of_singleton ->%list_elem_of_singleton.
  - intros [H1 H2]. pose proof (Hiv _ _ _ H1) as He.
    assert (Htail : forall y, y ∈ cs -> within (iv y) x -> within (iv e) x -> False).
    { intros y Hy Hwy Hwe. destruct (kids_elem P HP _ _ _ _ y H2 Hy) as (a & b & Hab & Hw).
      rewrite (Hiv _ _ _ Hab) in Hwy. apply Hw in Hwy. rewrite He in Hwe. clear -Hwy Hwe. interval. }
    intros Hc Hd Hwc Hwd. apply elem_of_cons in Hc as [->|Hc], Hd as [->|Hd]; [done|..].
    + by destruct (Htail d).
    + by destruct (Htail c).
    + by eapply IH.
Qed.

Lemma kids_nodup l ks cs u : kids P l ks cs u -> NoDup cs.
Proof.
  revert l cs. induction ks as [|k ks IH]; intros l [|e cs]; simpl; try done.
  - destruct cs; [|done]. intros _. apply NoDup_singleton.
  - intros [H1 H2]. constructor; [|by eapply IH]. intros Hin.
    destruct (kids_elem P HP _ _ _ _ e H2 Hin) as (a & b & Hab & Hw).
    destruct (within_point l (Some k)) as [x Hx]; [by eapply HP|].
    pose proof (Hiv _ _ _ H1) as E1. rewrite (Hiv _ _ _ Hab) in E1. injection E1 as -> ->.
    specialize (Hw x Hx). clear -Hw Hx. interval.
Qed.
End intervals.

(** A child split in two at a new key. *)
Lemma kids_hole P l ks cs1 c cs2 u :
  (forall c a b, P c a b -> blt a b) -> kids P l ks (cs1 ++ c :: cs2) u ->
  exists ks1 ks2 a b, ks = ks1 ++ ks2 /\ length ks1 = length cs1 /\ P c a b /\
    (forall x, x ∈ ks1 -> exists z, a = Some z /\ x <= z) /\ (forall x, x ∈ ks2 -> exists z, b = Some z /\ z <= x) /\
    (forall y, l = Some y -> exists z, a = Some z /\ y <= z) /\
    forall Q k c1 c2, (forall d a b, d ∈ cs1 ++ cs2 -> P d a b -> Q d a b) ->
      Q c1 a (Some k) -> Q c2 (Some k) b -> kids Q l (ks1 ++ k :: ks2) (cs1 ++ c1 :: c2 :: cs2) u.
Proof.
  intros HP. revert l ks. induction cs1 as [|d cs1 IH]; intros l ks H; simpl in H.
  - exists [], ks. destruct ks as [|k0 ks]; simpl in H.
    + destruct cs2; [|done]. exists l, u. split; [done|]. split; [done|]. split; [done|].
      split; [by intros x ?%elem_of_nil|]. split; [by intros x ?%elem_of_nil|].
      split; [intros y ->; by exists y|]. intros Q k c1 c2 _ H1 H2. done.
    + destruct H as [H1 H2]. exists l, (Some k0). split; [done|]. split; [done|]. split; [done|].
      split; [by intros x ?%elem_of_nil|]. split.
      { intros x Hx. exists k0. split; [done|]. apply elem_of_cons in Hx as [->|Hx]; [done|].
        destruct (kids_keys P HP _ _ _ _ x H2 Hx). interval. }
      split; [intros y ->; by exists y|]. intros Q k c1 c2 HQ Q1 Q2. split; [done|]. split; [done|].
      eapply kids_mono; [|done]. intros e a b He. by apply HQ.
  - destruct ks as [|k0 ks]; simpl in H; [by destruct cs1|]. destruct H as [H1 H2].
    destruct (IH (Some k0) ks H2) as (ks1 & ks2 & a & b & -> & Hl & Hc & Hk1 & Hk2 & Ha & HQ).
    destruct (Ha k0 eq_refl) as (z & -> & Hz).
    exists (k0 :: ks1), ks2, (Some z), b. split; [done|]. split; [simpl; lia|]. split; [done|].
    split. { intros x Hx. apply elem_of_cons in Hx as [->|Hx]; [by exists z|by apply Hk1]. }
    split; [done|]. split.
    { intros y ->. exists z. split; [done|]. pose proof (HP _ _ _ H1). interval. }
    intros Q k c1 c2 HPQ Q1 Q2. split; [apply HPQ; [by left|done]|].
    apply HQ; [|done..]. intros e a b' He. apply HPQ. by right.
Qed.

Lemma lower_bound_app ks1 ks2 k :
  (forall x, x ∈ ks1 -> x < k) -> (forall x, x ∈ ks2 -> k <= x) ->
  lower_bound (ks1 ++ ks2) k = Z.of_nat (length ks1).
Proof.
  induction ks1 as [|x ks1 IH]; intros H1 H2.
  - destruct ks2 as [|x ks2]; [done|]. simpl. specialize (H2 x ltac:(by left)).
    by rewrite (proj2 (Z.ltb_ge _ _)).
  - simpl. specialize (H1 x ltac:(by left)) as Hx. rewrite (proj2 (Z.ltb_lt _ _)) by done.
    rewrite IH; [lia| |done]. intros y Hy. apply H1. by right.
Qed.

Definition with_child ks1 k ks2 cs1 c j cs2 (n : BPlusNode) : BPlusNode :=
  set_size (bn_size n + 1) (set_children (cs1 ++ c :: j :: cs2) (set_keys (ks1 ++ k :: ks2) n)).

Lemma put_child_spec n ks1 ks2 cs1 c cs2 k j :
  keys n = ks1 ++ ks2 -> childIndices n = cs1 ++ c :: cs2 -> length ks1 = length cs1 ->
  (forall x, x ∈ ks1 -> x < k) -> (forall x, x ∈ ks2 -> k <= x) ->
  bn_size n = Z.of_nat (length (keys n)) -> bn_size n < INT_MAX ->
  BTree.put_child k j n = Ret (with_child ks1 k ks2 cs1 c j cs2 n).
Proof.
  intros Hk Hc Hl H1 H2 Hs Hmax. unfold BTree.put_child. rewrite Hk, length_app in Hs.
  rewrite Hk, lower_bound_app by done. rewrite i32_small by (unfold_int; lia). cbv zeta.
  rewrite vec_insert_app by done. cbn [obind]. rewrite Hc.
  change (cs1 ++ c :: cs2) with (cs1 ++ [c] ++ cs2). rewrite app_assoc.
  rewrite vec_insert_app by (rewrite length_app; simpl; lia). cbn [obind].
  rewrite int_succ_ret by done. by rewrite <- app_assoc.
Qed.

Lemma put_child_max n n' k j : BTree.put_child k j n = Ret n' -> bn_size n < INT_MAX.
Proof.
  unfold BTree.put_child, int_succ. cbv zeta. destruct (vec_insert _ _ k); [|done..]. cbn [obind].
  destruct (vec_insert _ _ j); [|done..]. cbn [obind]. by case_decide.
Qed.

(** ** The invariant *)
Abbreviation heap := (gmap Z BPlusNode).

(** what a node stands for: its interval, its height over the leaves and, of
    a leaf, its entries *)
Record ghost := mkGhost { iv : Z -> bound * bound; dep : Z -> nat; ent : Z -> entries }.

Definition child_ok (G : ghost) (h : heap) (p : Z) (d : nat) (c : Z) (l u : bound) : Prop :=
  iv G c = (l, u) /\ blt l u /\ dep G c = d /\
  exists n, h !! c = Some n /\ parentIdx n = p /\ isRoot n = false.

Definition next_ok (G : ghost) (h : heap) (i : Z) (n : BPlusNode) : Prop :=
  match (iv G i).2 with
  | None => nextLeafIdx n = -1
  | Some u => exists n', h !! nextLeafIdx n = Some n' /\ bn_type n' = LEAF /\
                         (iv G (nextLeafIdx n)).1 = Some u
  end.

Record leaf_inv (G : ghost) (h : heap) (i : Z) (n : BPlusNode) : Prop := {
  li_holds : leaf_holds n (ent G i);
  li_dep : dep G i = 0%nat;
  li_within : forall x, x ∈ ent G i -> within (iv G i) x.1;
  li_next : next_ok G h i n;
}.

Record inner_inv (G : ghost) (h : heap) (i : Z) (n : BPlusNode) (d : nat) : Prop := {
  ii_type : bn_type n = INTERNAL;
  ii_size : bn_size n = Z.of_nat (length (keys n));
  ii_dep : dep G i = S d;
  ii_kids : kids (child_ok G h i d) (iv G i).1 (keys n) (childIndices n) (iv G i).2;
}.

Definition node_inv G h i n : Prop := leaf_inv G h i n \/ exists d, inner_inv G h i n d.

(** A node that is not the root is a child of its parent. *)
Definition up_inv G (h : heap) (root i : Z) (n : BPlusNode) : Prop :=
  if isRoot n then i = root /\ iv G i = (None, None)
  else exists p, h !! parentIdx n = Some p /\ bn_type p = INTERNAL /\ i ∈ childIndices p.

Record tree_inv (G : ghost) (h : heap) (root : Z) (m : imap) : Prop := {
  tv_node : forall i n, h !! i = Some n -> node_inv G h i n;
  tv_up : forall i n, h !! i = Some n -> up_inv G h root i n;
  tv_root : exists n, h !! root = Some n /\ isRoot n = true;
  tv_dep : forall i n, h !! i = Some n -> (dep G i <= dep G root)%nat;
  tv_map : forall i n k, h !! i = Some n -> bn_type n = LEAF -> within (iv G i) k ->
             m !! k = (list_to_map (ent G i) : imap) !! k;
}.

Lemma child_ok_blt G h p d c a b : child_ok G h p d c a b -> blt a b.
Proof. by intros (_ & ? & _). Qed.
Lemma child_ok_iv G h p d c a b : child_ok G h p d c a b -> iv G c = (a, b).
Proof. by intros (? & _). Qed.
#[export] Hint Resolve child_ok_blt child_ok_iv : minidb.

Section tree.
Context (G : ghost) (h : heap) (root : Z) (m : imap) (HT : tree_inv G h root m).

Lemma leaf_node i n : h !! i = Some n -> bn_type n = LEAF -> leaf_inv G h i n.
Proof. intros Hn Ht. destruct (tv_node _ _ _ _ HT i n Hn) as [H|[d H]]; [done|]. destruct H. congruence. Qed.
Lemma inner_node i n : h !! i = Some n -> bn_type n = INTERNAL -> exists d, inner_inv G h i n d.
Proof. intros Hn Ht. destruct (tv_node _ _ _ _ HT i n Hn) as [[[] _ _ _]|H]; [congruence|done]. Qed.

Lemma kid_ok i n d c :
  inner_inv G h i n d -> c ∈ childIndices n ->
  child_ok G h i d c (iv G c).1 (iv G c).2 /\ forall x, within (iv G c) x -> within (iv G i) x.
Proof.
  intros Hi Hc.
  destruct (kids_elem _ (child_ok_blt G h i d) _ _ _ _ c (ii_kids _ _ _ _ _ Hi) Hc) as (a & b & Hab & Hw).
  pose proof (child_ok_iv _ _ _ _ _ _ _ Hab) as E. rewrite E. split; [done|]. intros x Hx%Hw.
  by destruct (iv G i).
Qed.

(** what the parent of a node knows *)
Lemma parent_of i n :
  h !! i = Some n -> isRoot n = false ->
  exists p, h !! parentIdx n = Some p /\ i ∈ childIndices p /\
    inner_inv G h (parentIdx n) p (dep G i) /\
    child_ok G h (parentIdx n) (dep G i) i (iv G i).1 (iv G i).2 /\
    forall x, within (iv G i) x -> within (iv G (parentIdx n)) x.
Proof.
  intros Hn Hr. pose proof (tv_up _ _ _ _ HT i n Hn) as Hu. unfold up_inv in Hu. rewrite Hr in Hu.
  destruct Hu as (p & Hp & Ht & Hc). destruct (inner_node _ p Hp Ht) as [d Hd].
  destruct (kid_ok _ p d i Hd Hc) as [Hk Hw]. assert (dep G i = d) as -> by apply Hk. by exists p.
Qed.

Lemma parent_dep i n p : h !! i = Some n -> isRoot n = false -> h !! parentIdx n = Some p -> dep G (parentIdx n) = S (dep G i).
Proof. intros Hn Hr Hp. destruct (parent_of i n Hn Hr) as (p' & Hp' & _ & Hi & _). apply Hi. Qed.

(** A key is in the interval of one node of each depth. *)
Lemma node_unique k : forall d i j n n',
  (dep G root - dep G i = d)%nat -> h !! i = Some n -> h !! j = Some n' -> dep G i = dep G j ->
  within (iv G i) k -> within (iv G j) k -> i = j.
Proof.
  assert (Htop : forall i n, h !! i = Some n -> dep G i = dep G root -> i = root).
  { intros i n Hn Hd. pose proof (tv_up _ _ _ _ HT i n Hn) as Hu. unfold up_inv in Hu.
    destruct (isRoot n) eqn:Hr; [apply Hu|]. destruct (parent_of i n Hn Hr) as (p & Hp & _ & Hi & _).
    pose proof (tv_dep _ _ _ _ HT _ _ Hp). rewrite (ii_dep _ _ _ _ _ Hi) in H. lia. }
  assert (Hroot : forall i n, h !! i = Some n -> isRoot n = true -> i = root).
  { intros i n Hn Hr. pose proof (tv_up _ _ _ _ HT i n Hn) as Hu. unfold up_inv in Hu. rewrite Hr in Hu. apply Hu. }
  induction d as [|d IH]; intros i j n n' Hd Hi Hj Hij Hwi Hwj.
  - pose proof (tv_dep _ _ _ _ HT i n Hi). rewrite (Htop i n), (Htop j n'); [done|done|lia|done|lia].
  - destruct (isRoot n) eqn:Hr. { assert (i = root) as -> by by eapply Hroot. lia. }
    destruct (isRoot n') eqn:Hr'. { assert (j = root) as -> by by eapply Hroot. lia. }
    destruct (parent_of i n Hi Hr) as (p & Hp & Hci & Hpi & Hki & Hpw).
    destruct (parent_of j n' Hj Hr') as (q & Hq & Hcj & Hqi & Hkj & Hqw).
    assert (E : parentIdx n = parentIdx n').
    { eapply (IH _ _ p q); [|done|done| |by apply Hpw|by apply Hqw].
      - rewrite (ii_dep _ _ _ _ _ Hpi). lia.
      - by rewrite (ii_dep _ _ _ _ _ Hpi), (ii_dep _ _ _ _ _ Hqi), Hij. }
    rewrite <- E in *. assert (q = p) as -> by congruence.
    eapply (kids_unique (iv G)); [apply child_ok_blt|apply child_ok_iv|apply Hpi|done..].
Qed.
End tree.

(** ** A node split in two *)
(** [nl] and [nr] are the halves of [n], the node at [i]; the new one is at [j]
    and its keys are those from [k] on. *)
Inductive splits (G : ghost) (i : Z) (n : BPlusNode) (k j : Z) (nl nr : BPlusNode) (e1 e2 : entries) : Prop :=
  | split_leaf :
      bn_type n = LEAF -> leaf_holds nl e1 -> leaf_holds nr e2 -> ent G i = e1 ++ e2 ->
      (forall x, x ∈ e1 -> x.1 < k) -> (forall x, x ∈ e2 -> k <= x.1) ->
      nextLeafIdx nl = j -> nextLeafIdx nr = nextLeafIdx n -> childIndices nr = [] ->
      splits G i n k j nl nr e1 e2
  | split_inner :
      bn_type n = INTERNAL -> bn_type nl = INTERNAL -> bn_type nr = INTERNAL ->
      bn_size nl = Z.of_nat (length (keys nl)) -> bn_size nr = Z.of_nat (length (keys nr)) ->
      keys n = keys nl ++ k :: keys nr -> childIndices n = childIndices nl ++ childIndices nr ->
      length (childIndices nl) = S (length (keys nl)) ->
      splits G i n k j nl nr e1 e2.

Definition split_ghost (G : ghost) (i j k : Z) (e1 e2 : entries) : ghost :=
  mkGhost (<[i := ((iv G i).1, Some k)]> (<[j := (Some k, (iv G i).2)]> (iv G)))
          (<[j := dep G i]> (dep G)) (<[i := e1]> (<[j := e2]> (ent G))).

(** the children of the new node get a new parent *)
Definition moved_to (j : Z) (cs : list Z) (x : Z) (n : BPlusNode) : BPlusNode :=
  if decide (x ∈ cs) then set_parent j n else n.

Section split.
Context (G : ghost) (h h' : heap) (root : Z) (m : imap) (HT : tree_inv G h root m).
Context (i j k : Z) (n nq nl nr nq' : BPlusNode) (e1 e2 : entries).
Let q := parentIdx n.
Let G' := split_ghost G i j k e1 e2.
Context (Hn : h !! i = Some n) (Hr : isRoot n = false) (Hq : h !! q = Some nq) (Hj : h !! j = None).
Context (Hlo : blt (iv G i).1 (Some k)) (Hhi : blt (Some k) (iv G i).2).
Context (Hsplit : splits G i n k j nl nr e1 e2).
Context (Hrl : isRoot nl = false) (Hrr : isRoot nr = false) (Hpl : parentIdx nl = q) (Hpr : parentIdx nr = q).
Context (Hput : BTree.put_child k j nq = Ret nq').
Context (Hi' : h' !! i = Some nl) (Hj' : h' !! j = Some nr) (Hq' : h' !! q = Some nq').
Context (Ho : forall x, x <> i -> x <> j -> x <> q -> h' !! x = moved_to j (childIndices nr) x <$> h !! x).

Lemma split_ij : i <> j.
Proof. intros ->. congruence. Qed.
Lemma split_qj : q <> j.
Proof. intros E. rewrite E in Hq. congruence. Qed.
Lemma split_dep_q : dep G q = S (dep G i).
Proof. by eapply parent_dep. Qed.
Lemma split_qi : q <> i.
Proof. intros E. pose proof split_dep_q as H. rewrite E in H. lia. Qed.

Lemma split_put : exists ks1 ks2 cs1 cs2,
  keys nq = ks1 ++ ks2 /\ childIndices nq = cs1 ++ i :: cs2 /\ nq' = with_child ks1 k ks2 cs1 i j cs2 nq /\
  forall Q, (forall d a b, d ∈ cs1 ++ cs2 -> child_ok G h q (dep G i) d a b -> Q d a b) ->
    Q i (iv G i).1 (Some k) -> Q j (Some k) (iv G i).2 ->
    kids Q (iv G q).1 (keys nq') (childIndices nq') (iv G q).2.
Proof.
  destruct (parent_of G h root m HT i n Hn Hr) as (p & Hp & Hc & Hpi & Hki & _).
  assert (p = nq) as -> by (fold q in Hp; congruence).
  apply list_elem_of_split in Hc as (cs1 & cs2 & Hcs).
  pose proof (ii_kids _ _ _ _ _ Hpi) as Hkids. rewrite Hcs in Hkids.
  destruct (kids_hole _ _ _ _ _ _ _ (child_ok_blt G h q (dep G i)) Hkids)
    as (ks1 & ks2 & a & b & Hks & Hl & Hiab & H1 & H2 & _ & HQ).
  pose proof (child_ok_iv _ _ _ _ _ _ _ Hiab) as Eiv. rewrite Eiv in Hlo, Hhi. simpl in Hlo, Hhi.
  assert (Hput' : BTree.put_child k j nq = Ret (with_child ks1 k ks2 cs1 i j cs2 nq)).
  { apply put_child_spec; [done..| | |apply Hpi|by eapply put_child_max].
    - intros x Hx. destruct (H1 x Hx) as (z & -> & ?). clear -Hlo H. interval.
    - intros x Hx. destruct (H2 x Hx) as (z & -> & ?). clear -Hhi H. interval. }
  assert (nq' = with_child ks1 k ks2 cs1 i j cs2 nq) as Enq by congruence.
  exists ks1, ks2, cs1, cs2. split; [done|]. split; [done|]. split; [done|].
  intros Q HPQ Q1 Q2. rewrite Eiv in Q1, Q2. rewrite Enq. by apply HQ.
Qed.

Lemma split_iv x : x <> i -> x <> j -> iv G' x = iv G x.
Proof. intros Hi Hx. unfold G'. simpl. by rewrite !fn_lookup_insert_ne. Qed.
Lemma split_iv_i : iv G' i = ((iv G i).1, Some k).
Proof. unfold G'. simpl. by rewrite fn_lookup_insert. Qed.
Lemma split_iv_j : iv G' j = (Some k, (iv G i).2).
Proof. unfold G'. simpl. rewrite fn_lookup_insert_ne by apply split_ij. by rewrite fn_lookup_insert. Qed.
Lemma split_dep x : x <> j -> dep G' x = dep G x.
Proof. intros Hx. unfold G'. simpl. by rewrite fn_lookup_insert_ne. Qed.
Lemma split_dep_j : dep G' j = dep G i.
Proof. unfold G'. simpl. by rewrite fn_lookup_insert. Qed.
Lemma split_ent x : x <> i -> x <> j -> ent G' x = ent G x.
Proof. intros Hi Hx. unfold G'. simpl. by rewrite !fn_lookup_insert_ne. Qed.
Lemma split_ent_i : ent G' i = e1.
Proof. unfold G'. simpl. by rewrite fn_lookup_insert. Qed.
Lemma split_ent_j : ent G' j = e2.
Proof. unfold G'. simpl. rewrite fn_lookup_insert_ne by apply split_ij. by rewrite fn_lookup_insert. Qed.

Lemma split_nq : bn_type nq' = bn_type nq /\ isRoot nq' = isRoot nq /\ parentIdx nq' = parentIdx nq /\
  bn_size nq' = bn_size nq + 1.
Proof. by destruct split_put as (ks1 & ks2 & cs1 & cs2 & _ & _ & -> & _). Qed.

Lemma moved_same x nx : bn_type (moved_to j (childIndices nr) x nx) = bn_type nx /\
  isRoot (moved_to j (childIndices nr) x nx) = isRoot nx /\ keys (moved_to j (childIndices nr) x nx) = keys nx /\
  values (moved_to j (childIndices nr) x nx) = values nx /\ bn_size (moved_to j (childIndices nr) x nx) = bn_size nx /\
  childIndices (moved_to j (childIndices nr) x nx) = childIndices nx /\
  nextLeafIdx (moved_to j (childIndices nr) x nx) = nextLeafIdx nx.
Proof. unfold moved_to. by case_decide. Qed.

(** No node disappears or changes its type. *)
Lemma split_keeps x nx : h !! x = Some nx -> exists nx', h' !! x = Some nx' /\ bn_type nx' = bn_type nx /\ isRoot nx' = isRoot nx.
Proof.
  intros Hx. destruct (decide (x = i)) as [->|Hxi].
  { exists nl. split; [done|]. assert (nx = n) as -> by congruence. split; [|congruence].
    destruct Hsplit as [Ht [Htl _ _ _ _]|]; congruence. }
  destruct (decide (x = q)) as [->|Hxq].
  { exists nq'. split; [done|]. assert (nx = nq) as -> by congruence. split; apply split_nq. }
  assert (x <> j) by congruence. exists (moved_to j (childIndices nr) x nx). rewrite Ho, Hx by done.
  split; [done|]. split; apply moved_same.
Qed.

Lemma moved_parent c : c ∈ childIndices nr ->
  exists d, inner_inv G h i n d /\ child_ok G h i d c (iv G c).1 (iv G c).2.
Proof.
  intros Hc. destruct Hsplit as [? ? ? ? ? ? ? ? E|Ht ? ? ? ? ? Hcs ?]; [rewrite E in Hc; by apply elem_of_nil in Hc|].
  destruct (inner_node G h root m HT i n Hn Ht) as [d Hd]. exists d. split; [done|].
  apply (kid_ok G h i n d c Hd). rewrite Hcs. apply elem_of_app. by right.
Qed.

(** the children of other nodes *)
Lemma split_child p d c a b :
  child_ok G h p d c a b -> p <> i -> c <> i -> child_ok G' h' p d c a b.
Proof.
  intros (Hiv & Hab & Hd & nc & Hc & Hp & Hrc) Hpi Hci. assert (c <> j) by congruence.
  split; [by rewrite split_iv|]. split; [done|]. split; [by rewrite split_dep|].
  destruct (decide (c = q)) as [->|Hcq].
  { exists nq'. split; [done|]. assert (nc = nq) as -> by congruence.
    destruct split_nq as (_ & -> & -> & _). done. }
  exists nc. split; [|done]. rewrite Ho, Hc by done. simpl. f_equal. unfold moved_to.
  rewrite decide_False; [done|]. intros Hin. destruct (moved_parent c Hin) as (e & _ & _ & _ & _ & nc' & Hc' & Hp' & _).
  congruence.
Qed.

(** the children of the halves *)
Lemma half_child d c a b :
  inner_inv G h i n d -> child_ok G h i d c a b ->
  (c ∈ childIndices nr -> child_ok G' h' j d c a b) /\ (c ∉ childIndices nr -> child_ok G' h' i d c a b).
Proof.
  intros Hi (Hiv & Hab & Hd & nc & Hc & Hp & Hrc). assert (c <> j) by congruence.
  pose proof (ii_dep _ _ _ _ _ Hi) as Hdi. pose proof split_dep_q as Hdq.
  assert (c <> i) by (intros ->; lia). assert (c <> q) by (intros ->; lia).
  split; intros Hin; (split; [by rewrite split_iv|split; [done|split; [by rewrite split_dep|]]]);
    rewrite Ho, Hc by done; simpl; unfold moved_to.
  - rewrite decide_True by done. by eexists.
  - rewrite decide_False by done. by exists nc.
Qed.

Lemma next_kept y u :
  (exists n', h !! y = Some n' /\ bn_type n' = LEAF /\ (iv G y).1 = Some u) ->
  exists n', h' !! y = Some n' /\ bn_type n' = LEAF /\ (iv G' y).1 = Some u.
Proof.
  intros (ny & Hy & Ht & Hu). destruct (split_keeps y ny Hy) as (ny' & Hy' & Ht' & _). exists ny'.
  split; [done|]. split; [congruence|]. destruct (decide (y = i)) as [->|Hyi]; [by rewrite split_iv_i|].
  rewrite split_iv; [done|done|congruence].
Qed.

Lemma leaf_halves :
  bn_type n = LEAF -> leaf_holds nl e1 -> leaf_holds nr e2 -> ent G i = e1 ++ e2 ->
  (forall x, x ∈ e1 -> x.1 < k) -> (forall x, x ∈ e2 -> k <= x.1) ->
  nextLeafIdx nl = j -> nextLeafIdx nr = nextLeafIdx n ->
  leaf_inv G' h' i nl /\ leaf_inv G' h' j nr.
Proof.
  intros Ht Hl1 Hl2 He H1 H2 Hnl Hnr. destruct (leaf_node G h root m HT i n Hn Ht) as [_ Hd Hw Hnx].
  rewrite He in Hw. split; split.
  - by rewrite split_ent_i.
  - rewrite split_dep; [done|apply split_ij].
  - rewrite split_ent_i, split_iv_i. intros x Hx. specialize (H1 x Hx).
    specialize (Hw x ltac:(apply elem_of_app; by left)). clear -H1 Hw. interval.
  - unfold next_ok. rewrite split_iv_i. cbn [snd]. rewrite Hnl. exists nr. split; [done|]. split; [apply Hl2|].
    by rewrite split_iv_j.
  - by rewrite split_ent_j.
  - by rewrite split_dep_j.
  - rewrite split_ent_j, split_iv_j. intros x Hx. specialize (H2 x Hx).
    specialize (Hw x ltac:(apply elem_of_app; by right)). clear -H2 Hw. interval.
  - unfold next_ok in *. rewrite split_iv_j. cbn [snd]. rewrite Hnr.
    revert Hnx. generalize (iv G i).2. intros [u|]; [apply next_kept|done].
Qed.

Lemma inner_halves :
  bn_type n = INTERNAL -> bn_type nl = INTERNAL -> bn_type nr = INTERNAL ->
  bn_size nl = Z.of_nat (length (keys nl)) -> bn_size nr = Z.of_nat (length (keys nr)) ->
  keys n = keys nl ++ k :: keys nr -> childIndices n = childIndices nl ++ childIndices nr ->
  length (childIndices nl) = S (length (keys nl)) ->
  exists d, inner_inv G' h' i nl d /\ inner_inv G' h' j nr d.
Proof.
  intros Ht Htl Htr Hsl Hsr Hks Hcs Hlen. destruct (inner_node G h root m HT i n Hn Ht) as [d Hd]. exists d.
  pose proof Hd as [_ _ Hdep Hkids]. rewrite Hks, Hcs in Hkids.
  pose proof (kids_nodup (iv G) _ (child_ok_blt G h i d) (child_ok_iv G h i d) _ _ _ _ Hkids) as Hnd.
  apply list.NoDup_app in Hnd as (_ & Hnd & _). apply kids_app in Hkids as [Hk1 Hk2]; [|done].
  split; split; [done|done|by rewrite split_dep by apply split_ij| |done|done|by rewrite split_dep_j|].
  - rewrite split_iv_i. eapply kids_mono; [|exact Hk1]. intros c a b Hc Hok.
    apply (half_child d c a b Hd Hok). by apply Hnd.
  - rewrite split_iv_j. eapply kids_mono; [|exact Hk2]. intros c a b Hc Hok.
    by apply (half_child d c a b Hd Hok).
Qed.

Lemma halves_inv : node_inv G' h' i nl /\ node_inv G' h' j nr.
Proof.
  destruct Hsplit as [H1 H2 H3 H4 H5 H6 H7 H8 H9|H1 H2 H3 H4 H5 H6 H7 H8].
  - destruct leaf_halves as [Hl Hr']; [done..|]. split; by left.
  - destruct inner_halves as (d & Hl & Hr'); [done..|]. split; right; by exists d.
Qed.

Lemma parent_inv : node_inv G' h' q nq'.
Proof.
  destruct (parent_of G h root m HT i n Hn Hr) as (p & Hp & _ & Hpi & Hki & _). fold q in Hp, Hpi, Hki.
  assert (p = nq) as -> by congruence. destruct split_put as (ks1 & ks2 & cs1 & cs2 & Hks & Hcs & Enq & HQ).
  destruct Hpi as [Ht Hs Hd Hkids]. right. exists (dep G i). split.
  - rewrite <- Ht. apply split_nq.
  - rewrite Enq. simpl. rewrite Hs, Hks, !length_app. simpl. lia.
  - by rewrite split_dep by apply split_qj.
  - rewrite split_iv by (apply split_qi || apply split_qj). apply HQ.
    + intros c a b Hc Hok. apply split_child; [done|apply split_qi|]. intros ->.
      rewrite Hcs in Hkids.
      pose proof (kids_nodup (iv G) _ (child_ok_blt G h q _) (child_ok_iv G h q _) _ _ _ _ Hkids) as Hnd.
      apply list.NoDup_app in Hnd as (_ & Hnd1 & Hnd2). apply elem_of_app in Hc as [Hc|Hc].
      * apply (Hnd1 i Hc). by left.
      * by apply list.NoDup_cons in Hnd2 as [? _].
    + split; [apply split_iv_i|]. split; [done|]. split; [by rewrite split_dep by apply split_ij|].
      exists nl. done.
    + split; [apply split_iv_j|]. split; [done|]. split; [apply split_dep_j|]. exists nr. done.
Qed.

Lemma other_inv x nx : h !! x = Some nx -> x <> i -> x <> j -> x <> q ->
  node_inv G' h' x (moved_to j (childIndices nr) x nx).
Proof.
  intros Hx Hxi Hxj Hxq. destruct (moved_same x nx) as (Et & Er & Ek & Ev & Es & Ec & En).
  destruct (tv_node _ _ _ _ HT x nx Hx) as [[Hl Hd Hw Hnx]|[d [Ht Hs Hd Hkids]]].
  - left. split.
    + rewrite split_ent by done. destruct Hl. split; congruence.
    + by rewrite split_dep.
    + by rewrite split_ent, split_iv.
    + unfold next_ok in *. rewrite split_iv, En by done.
      revert Hnx. generalize (iv G x).2. intros [u|]; [apply next_kept|done].
  - right. exists d. split; [congruence|congruence|by rewrite split_dep|].
    rewrite split_iv, Ek, Ec by done. eapply kids_mono; [|exact Hkids]. intros c a b Hc Hok.
    apply split_child; [done|done|]. intros ->. destruct Hok as (_ & _ & _ & ni & Hni & Hp & _).
    assert (ni = n) as -> by congruence. done.
Qed.

Lemma split_cases x nx' :
  h' !! x = Some nx' ->
  (x = i /\ nx' = nl) \/ (x = j /\ nx' = nr) \/ (x = q /\ nx' = nq') \/
  (x <> i /\ x <> j /\ x <> q /\ exists nx, h !! x = Some nx /\ nx' = moved_to j (childIndices nr) x nx).
Proof.
  intros Hx. destruct (decide (x = i)) as [->|]; [left; split; [done|congruence]|].
  destruct (decide (x = j)) as [->|]; [right; left; split; [done|congruence]|].
  destruct (decide (x = q)) as [->|]; [do 2 right; left; split; [done|congruence]|].
  do 3 right. rewrite Ho in Hx by done. destruct (h !! x) as [nx|]; [|done].
  injection Hx as <-. split; [done|]. split; [done|]. split; [done|]. by exists nx.
Qed.

(** A child is still one of its parent's, unless it was moved. *)
Lemma child_kept x p np :
  h !! p = Some np -> bn_type np = INTERNAL -> x ∈ childIndices np -> x ∉ childIndices nr ->
  exists np', h' !! p = Some np' /\ bn_type np' = INTERNAL /\ x ∈ childIndices np'.
Proof.
  intros Hp Ht Hc Hm. destruct (decide (p = i)) as [->|Hpi].
  { exists nl. split; [done|]. assert (np = n) as -> by congruence.
    destruct Hsplit as [? _ _ _ _ _ _ _ _|_ ? _ _ _ _ E _]; [congruence|]. split; [done|].
    rewrite E in Hc. apply elem_of_app in Hc as [?|?]; [done|by destruct Hm]. }
  destruct (decide (p = q)) as [->|Hpq].
  { exists nq'. split; [done|]. assert (np = nq) as -> by congruence. split; [rewrite <- Ht; apply split_nq|].
    destruct split_put as (ks1 & ks2 & cs1 & cs2 & _ & Hcs & -> & _). rewrite Hcs in Hc. simpl.
    rewrite !elem_of_app, !elem_of_cons in *. tauto. }
  assert (p <> j) by congruence. exists (moved_to j (childIndices nr) p np). rewrite Ho, Hp by done.
  destruct (moved_same p np) as (-> & _ & _ & _ & _ & -> & _). done.
Qed.

Lemma split_up x nx' : h' !! x = Some nx' -> up_inv G' h' root x nx'.
Proof.
  intros Hx. assert (Hhalf : forall y, y = i \/ y = j -> exists p, h' !! q = Some p /\ bn_type p = INTERNAL /\ y ∈ childIndices p).
  { intros y Hy. exists nq'. split; [done|].
    destruct (parent_of G h root m HT i n Hn Hr) as (p & Hp & _ & Hpi & _). assert (p = nq) as -> by (fold q in Hp; congruence).
    split; [rewrite <- (ii_type _ _ _ _ _ Hpi); apply split_nq|].
    destruct split_put as (ks1 & ks2 & cs1 & cs2 & _ & _ & -> & _). simpl.
    rewrite elem_of_app, !elem_of_cons. destruct Hy; tauto. }
  assert (Hkeep : forall y ny, h !! y = Some ny -> y <> i -> y <> j -> y ∉ childIndices nr -> forall ny',
    isRoot ny' = isRoot ny -> parentIdx ny' = parentIdx ny -> up_inv G' h' root y ny').
  { intros y ny Hy Hyi Hyj Hm ny' Er Ep. pose proof (tv_up _ _ _ _ HT y ny Hy) as Hu.
    unfold up_inv in *. rewrite Er, Ep. destruct (isRoot ny); [by rewrite split_iv|].
    destruct Hu as (p & Hp & Ht & Hc). by eapply child_kept. }
  destruct (split_cases x nx' Hx) as [[-> ->]|[[-> ->]|[[-> ->]|(Hxi & Hxj & Hxq & nx & Hnx & ->)]]].
  - unfold up_inv. rewrite Hrl, Hpl. apply Hhalf. by left.
  - unfold up_inv. rewrite Hrr, Hpr. apply Hhalf. by right.
  - apply (Hkeep q nq Hq split_qi split_qj); [|apply split_nq..]. intros Hm.
    destruct (moved_parent q Hm) as (d & Hd & _ & _ & Hdq & _). pose proof (ii_dep _ _ _ _ _ Hd).
    pose proof split_dep_q. lia.
  - destruct (decide (x ∈ childIndices nr)) as [Hm|Hm].
    + destruct (moved_parent x Hm) as (d & _ & _ & _ & _ & nc & Hc & _ & Hrc). assert (nc = nx) as -> by congruence.
      unfold up_inv, moved_to. rewrite decide_True by done. simpl. rewrite Hrc. exists nr. split; [done|].
      destruct Hsplit as [? ? ? ? ? ? ? ? E|? ? ? ? ? ? ? ?]; [rewrite E in Hm; by apply elem_of_nil in Hm|done].
    + apply (Hkeep x nx); [done..|apply moved_same|]. unfold moved_to. by rewrite decide_False.
Qed.

Lemma split_map x nx' y : h' !! x = Some nx' -> bn_type nx' = LEAF -> within (iv G' x) y ->
  m !! y = (list_to_map (ent G' x) : imap) !! y.
Proof.
  intros Hx Ht Hw.
  assert (Hnone : forall e : entries, (forall z, z ∈ e -> z.1 <> y) -> (list_to_map e : imap) !! y = None).
  { intros e He. apply not_elem_of_list_to_map_1. intros (z & -> & Hz)%list_elem_of_fmap. by apply (He z). }
  destruct (split_cases x nx' Hx) as [[-> ->]|[[-> ->]|[[-> ->]|(Hxi & Hxj & Hxq & nx & Hnx & ->)]]].
  - destruct Hsplit as [Htn _ _ He H1 H2 _ _ _|]; [|congruence]. rewrite split_iv_i in Hw. rewrite split_ent_i.
    rewrite (tv_map _ _ _ _ HT i n y Hn Htn), He, list_to_map_app by (clear -Hw Hhi; interval).
    apply lookup_union_l. apply Hnone. intros z Hz. specialize (H2 z Hz). clear -H2 Hw. interval.
  - destruct Hsplit as [Htn _ _ He H1 H2 _ _ _|]; [|congruence]. rewrite split_iv_j in Hw. rewrite split_ent_j.
    rewrite (tv_map _ _ _ _ HT i n y Hn Htn), He, list_to_map_app by (clear -Hw Hlo; interval).
    apply lookup_union_r. apply Hnone. intros z Hz. specialize (H1 z Hz). clear -H1 Hw. interval.
  - destruct (parent_of G h root m HT i n Hn Hr) as (p & Hp & _ & Hpi & _). assert (p = nq) as -> by (fold q in Hp; congruence).
    pose proof (ii_type _ _ _ _ _ Hpi). destruct split_nq as (E & _). congruence.
  - rewrite split_iv in Hw by done. rewrite split_ent by done. apply (tv_map _ _ _ _ HT x nx y Hnx); [|done].
    by rewrite <- Ht, (proj1 (moved_same x nx)).
Qed.

(** The split tree is a tree of the same map. *)
Lemma split_inv : tree_inv G' h' root m.
Proof.
  assert (Hroot : exists nx, h !! root = Some nx /\ isRoot nx = true) by apply (tv_root _ _ _ _ HT).
  destruct Hroot as (nx & Hnx & Hrx). assert (root <> j) by congruence. split.
  - intros x nx' Hx. destruct (split_cases x nx' Hx) as [[-> ->]|[[-> ->]|[[-> ->]|(Hxi & Hxj & Hxq & nx0 & Hnx0 & ->)]]].
    + apply halves_inv.
    + apply halves_inv.
    + apply parent_inv.
    + by apply other_inv.
  - apply split_up.
  - destruct (split_keeps root nx Hnx) as (nx' & ? & _ & ?). exists nx'. split; [done|congruence].
  - intros x nx' Hx. rewrite (split_dep root) by done. destruct (decide (x = j)) as [->|Hxj].
    + rewrite split_dep_j. by apply (tv_dep _ _ _ _ HT i n).
    + rewrite split_dep by done. destruct (split_cases x nx' Hx) as [[-> _]|[[-> _]|[[-> _]|(_ & _ & _ & nx0 & Hnx0 & _)]]];
        [by eapply (tv_dep _ _ _ _ HT)|done|by eapply (tv_dep _ _ _ _ HT)..].
  - intros x nx' y. apply split_map.
Qed.
End split.

(** ** A new root over the old one *)
Definition over (n : BPlusNode) (root : Z) : BPlusNode :=
  set_children [root] (set_isRoot true n).

Section grown.
Context (G : ghost) (h : heap) (root r : Z) (m : imap) (n : BPlusNode) (HT : tree_inv G h root m).
Context (Hn : h !! root = Some n) (Hr : h !! r = None).

Definition grown_ghost : ghost :=
  mkGhost (<[r := (None, None)]> (iv G)) (<[r := S (dep G root)]> (dep G)) (ent G).
Definition lowered : BPlusNode := set_parent r (set_isRoot false n).
Definition grown (page : Z) : heap :=
  <[r := mkNode INTERNAL true page (-1) 0 [] [] [root] (-1)]> (<[root := lowered]> h).

Lemma root_facts : isRoot n = true /\ iv G root = (None, None).
Proof.
  destruct (tv_root _ _ _ _ HT) as (n' & Hn' & Hr'). assert (n' = n) as -> by congruence.
  split; [done|]. pose proof (tv_up _ _ _ _ HT root n Hn) as Hu. unfold up_inv in Hu. rewrite Hr' in Hu. apply Hu.
Qed.

Lemma grown_lookup page x nx' :
  grown page !! x = Some nx' ->
  (x = r /\ nx' = mkNode INTERNAL true page (-1) 0 [] [] [root] (-1)) \/
  (x <> r /\ exists nx, h !! x = Some nx /\ bn_type nx' = bn_type nx /\ keys nx' = keys nx /\
     values nx' = values nx /\ bn_size nx' = bn_size nx /\ childIndices nx' = childIndices nx /\
     nextLeafIdx nx' = nextLeafIdx nx /\
     (x = root /\ isRoot nx' = false /\ parentIdx nx' = r \/ x <> root /\ nx' = nx)).
Proof.
  unfold grown. rewrite !lookup_insert. case_decide as E1; [intros [= <-]; by left|].
  case_decide as E2; [intros [= <-]|]; intros; right; (split; [done|]).
  - exists n. subst x. split; [done|]. do 6 (split; [done|]). by left.
  - exists nx'. split; [done|]. do 6 (split; [done|]). by right.
Qed.

Lemma grown_next page x u :
  (exists n', h !! x = Some n' /\ bn_type n' = LEAF /\ (iv G x).1 = Some u) ->
  exists n', grown page !! x = Some n' /\ bn_type n' = LEAF /\ (iv grown_ghost x).1 = Some u.
Proof.
  intros (nx & Hx & Ht & Hu). assert (x <> r) by congruence.
  assert (iv grown_ghost x = iv G x) as -> by (unfold grown_ghost; simpl; by rewrite fn_lookup_insert_ne).
  unfold grown. rewrite lookup_insert_ne by done. destruct (decide (x = root)) as [->|Hne].
  - rewrite lookup_insert_eq. exists lowered. split; [done|]. assert (nx = n) as -> by congruence. done.
  - rewrite lookup_insert_ne by done. by exists nx.
Qed.

Lemma grown_inv page : tree_inv grown_ghost (grown page) r m.
Proof.
  destruct root_facts as [Hrn Hivr]. assert (Hne : root <> r) by congruence.
  assert (Hiv : forall x, x <> r -> iv grown_ghost x = iv G x)
    by (intros x Hx; unfold grown_ghost; simpl; by rewrite fn_lookup_insert_ne).
  assert (Hdep : forall x, x <> r -> dep grown_ghost x = dep G x)
    by (intros x Hx; unfold grown_ghost; simpl; by rewrite fn_lookup_insert_ne).
  assert (Hivr' : iv grown_ghost r = (None, None)) by (unfold grown_ghost; simpl; by rewrite fn_lookup_insert).
  assert (Hdepr : dep grown_ghost r = S (dep G root)) by (unfold grown_ghost; simpl; by rewrite fn_lookup_insert).
  assert (Hroot : grown page !! root = Some lowered).
  { unfold grown. rewrite lookup_insert_ne by done. apply lookup_insert_eq. }
  split.
  - intros x nx' Hx. destruct (grown_lookup page x nx' Hx) as [[-> ->]|(Hxr & nx & Hnx & Et & Ek & Ev & Es & Ec & En & _)].
    + right. exists (dep G root). split; [done|done|done|]. rewrite Hivr'. simpl.
      split; [by rewrite Hiv|]. split; [done|]. split; [by rewrite Hdep|]. by exists lowered.
    + destruct (tv_node _ _ _ _ HT x nx Hnx) as [[Hl Hd Hw Hnext]|[d [Ht Hs Hd Hk]]].
      * left. split; [change (leaf_holds nx' (ent G x)); destruct Hl; split; congruence|by rewrite Hdep|by rewrite Hiv|].
        unfold next_ok in *. rewrite Hiv, En by done.
        revert Hnext. generalize (iv G x).2. intros [u|]; [apply grown_next|done].
      * right. exists d. split; [congruence|congruence|by rewrite Hdep|]. rewrite Hiv, Ek, Ec by done.
        eapply kids_mono; [|exact Hk]. intros c a b Hc (H1 & H2 & H3 & nc & H4 & H5 & H6).
        assert (c <> r) by congruence. assert (c <> root) by congruence.
        split; [by rewrite Hiv|]. split; [done|]. split; [by rewrite Hdep|]. exists nc.
        unfold grown. by rewrite !lookup_insert_ne.
  - intros x nx' Hx. unfold up_inv.
    destruct (grown_lookup page x nx' Hx) as [[-> ->]|(Hxr & nx & Hnx & Et & _ & _ & _ & _ & _ & [(-> & -> & ->)|[Hx' ->]])].
    + done.
    + eexists. split; [apply lookup_insert_eq|]. split; [done|]. by left.
    + pose proof (tv_up _ _ _ _ HT x nx Hnx) as Hu. unfold up_inv in Hu. destruct (isRoot nx) eqn:Hrx; [by destruct Hu|].
      destruct Hu as (p & Hp & Htp & Hc). assert (parentIdx nx <> r) by congruence.
      destruct (decide (parentIdx nx = root)) as [E|E].
      * exists lowered. rewrite E. split; [done|]. assert (p = n) as -> by congruence. done.
      * exists p. unfold grown. by rewrite !lookup_insert_ne.
  - eexists. split; [apply lookup_insert_eq|done].
  - intros x nx' Hx. rewrite Hdepr.
    destruct (grown_lookup page x nx' Hx) as [[-> ->]|(Hxr & nx & Hnx & _)]; [lia|].
    rewrite Hdep by done. pose proof (tv_dep _ _ _ _ HT x nx Hnx). lia.
  - intros x nx' y Hx Ht Hw. destruct (grown_lookup page x nx' Hx) as [[-> ->]|(Hxr & nx & Hnx & Et & _)]; [done|].
    rewrite Hiv in Hw by done. apply (tv_map _ _ _ _ HT x nx y Hnx); [congruence|done].
Qed.
End grown.

(** ** An entry put into a leaf *)
Section entry.
Context (G : ghost) (h : heap) (root : Z) (m : imap) (HT : tree_inv G h root m).
Context (i k : Z) (v : RID) (n n' : BPlusNode) (pre post : entries).
Context (Hn : h !! i = Some n) (Ht : bn_type n = LEAF) (He : ent G i = pre ++ post) (Hw : within (iv G i) k).
Context (Hl : leaf_holds n' (pre ++ (k, v) :: post)).
Context (Hr : isRoot n' = isRoot n) (Hp : parentIdx n' = parentIdx n) (Hx : nextLeafIdx n' = nextLeafIdx n).

Definition entry_ghost : ghost := mkGhost (iv G) (dep G) (<[i := pre ++ (k, v) :: post]> (ent G)).

Lemma entry_keeps x nx : h !! x = Some nx ->
  exists nx', <[i := n']> h !! x = Some nx' /\ bn_type nx' = bn_type nx /\ isRoot nx' = isRoot nx /\
    parentIdx nx' = parentIdx nx /\ (bn_type nx = INTERNAL -> nx' = nx).
Proof.
  intros Hnx. rewrite lookup_insert. case_decide as E; [|by exists nx]. subst x. assert (nx = n) as -> by congruence.
  exists n'. rewrite (lh_type _ _ Hl), Ht. done.
Qed.

Lemma entry_next x u :
  (exists n0, h !! x = Some n0 /\ bn_type n0 = LEAF /\ (iv G x).1 = Some u) ->
  exists n0, <[i := n']> h !! x = Some n0 /\ bn_type n0 = LEAF /\ (iv entry_ghost x).1 = Some u.
Proof.
  intros (nx & Hnx & Et & Eu). destruct (entry_keeps x nx Hnx) as (nx' & ? & ? & _). exists nx'.
  split; [done|]. split; [congruence|done].
Qed.

Lemma entry_inv : tree_inv entry_ghost (<[i := n']> h) root (<[k := v]> m).
Proof.
  assert (Hchild : forall p d c a b, child_ok G h p d c a b -> child_ok entry_ghost (<[i := n']> h) p d c a b).
  { intros p d c a b (H1 & H2 & H3 & nc & Hc & H4 & H5). split; [done|]. split; [done|]. split; [done|].
    destruct (entry_keeps c nc Hc) as (nc' & ? & _ & ? & ? & _). exists nc'. split; [done|]. split; congruence. }
  assert (Hother : forall x, x <> i -> ent entry_ghost x = ent G x)
    by (intros x Hxi; unfold entry_ghost; simpl; by rewrite fn_lookup_insert_ne).
  assert (Hthis : ent entry_ghost i = pre ++ (k, v) :: post) by (unfold entry_ghost; simpl; by rewrite fn_lookup_insert).
  pose proof (leaf_node G h root m HT i n Hn Ht) as [Hln Hdn Hwn Hnn]. split.
  - intros x nx Hnx. rewrite lookup_insert in Hnx. case_decide as E.
    + subst x. injection Hnx as <-. left. split; [by rewrite Hthis|done| |].
      * rewrite Hthis. intros y. rewrite elem_of_app, elem_of_cons. intros [Hy|[->|Hy]]; [|done|];
          apply Hwn; rewrite He, elem_of_app; tauto.
      * unfold next_ok in *. rewrite Hx. simpl. revert Hnn. generalize (iv G i).2. intros [u|]; [apply entry_next|done].
    + destruct (tv_node _ _ _ _ HT x nx Hnx) as [[H1 H2 H3 H4]|[d [H1 H2 H3 H4]]].
      * left. split; [by rewrite Hother|done|by rewrite Hother|]. unfold next_ok in *. simpl.
        revert H4. generalize (iv G x).2. intros [u|]; [apply entry_next|done].
      * right. exists d. split; [done..|]. eapply kids_mono; [|exact H4]. intros c a b _. apply Hchild.
  - intros x nx Hnx. assert (Hold : exists nx0, h !! x = Some nx0 /\ isRoot nx = isRoot nx0 /\ parentIdx nx = parentIdx nx0).
    { rewrite lookup_insert in Hnx. case_decide as E; [|by exists nx]. subst x. injection Hnx as <-. by exists n. }
    destruct Hold as (nx0 & Hnx0 & Er & Ep). pose proof (tv_up _ _ _ _ HT x nx0 Hnx0) as Hu. unfold up_inv in *.
    rewrite Er, Ep. destruct (isRoot nx0); [done|]. destruct Hu as (p & Hpp & Htp & Hc).
    destruct (entry_keeps _ p Hpp) as (p' & Hp' & _ & _ & _ & Eq). exists p. rewrite <- (Eq Htp) at 1. done.
  - destruct (tv_root _ _ _ _ HT) as (nr & Hnr & Hrr). destruct (entry_keeps root nr Hnr) as (nr' & ? & _ & ? & _).
    exists nr'. split; [done|congruence].
  - intros x nx Hnx. rewrite lookup_insert in Hnx. case_decide as E; [subst x|]; by eapply (tv_dep _ _ _ _ HT).
  - intros x nx y Hnx Htx Hwy. change (within (iv G x) y) in Hwy. rewrite lookup_insert in Hnx. case_decide as E.
    + subst x. rewrite Hthis, entries_insert by apply Hl. rewrite !lookup_insert, (tv_map _ _ _ _ HT i n y) by done.
      by rewrite He.
    + rewrite Hother by done. rewrite lookup_insert_ne; [by apply (tv_map _ _ _ _ HT x nx y)|]. intros ->. apply E.
      pose proof (leaf_node G h root m HT x nx Hnx Htx) as [_ Hdx _ _].
      eapply (node_unique G h root m HT y); [reflexivity|done|done|congruence|done|done].
Qed.
End entry.
