(* ===== verification/IndexGrowth.v ===== *)
(** * Insertion into trees of any size (src/src/index/BPlusTree.cpp)

    The steps of an insertion on the vector of nodes keep the invariant of
    IndexTree.v: splits of leaves and of internal nodes, and new roots; or the
    vector was full and its move leaves the reference of a split dangling. How
    full it can be is counted by a weight: a tree has fewer nodes than twice its
    entries. *)
From stdpp Require Import base numbers list sorting strings gmap functions.
From Stdlib Require Import ZArith Lia.
From S2P Require Import Prelude Common BTree BTreeThms IndexTree.

(** ** The vector as a map *)
Definition nmap (ns : list BPlusNode) : heap := map_seqZ 0 ns.

Lemma nmap_lookup ns i n : nmap ns !! i = Some n <-> 0 <= i /\ ns !! Z.to_nat i = Some n.
Proof. unfold nmap. by rewrite lookup_map_seqZ_Some, Z.sub_0_r. Qed.

Lemma nmap_insert ns i n n0 : nmap ns !! i = Some n0 -> nmap (<[Z.to_nat i := n]> ns) = <[i := n]> (nmap ns).
Proof.
  rewrite nmap_lookup. intros [Hi Hn]. apply map_eq. intros x. apply option_eq. intros y.
  rewrite nmap_lookup, lookup_insert_Some, nmap_lookup. pose proof (lookup_lt_Some _ _ _ Hn).
  destruct (decide (i = x)) as [->|Hne].
  - rewrite list_lookup_insert_eq by done. naive_solver.
  - split.
    + intros [Hx Hy]. right. rewrite list_lookup_insert_ne in Hy by lia. done.
    + intros [[? _]|(_ & Hx & Hy)]; [done|]. rewrite list_lookup_insert_ne by lia. done.
Qed.

Lemma nmap_app ns n : nmap (ns ++ [n]) = <[Z.of_nat (length ns) := n]> (nmap ns).
Proof. unfold nmap. by rewrite map_seqZ_snoc. Qed.
Lemma nmap_fresh ns i : Z.of_nat (length ns) <= i -> nmap ns !! i = None.
Proof.
  intros Hi. destruct (nmap ns !! i) as [n|] eqn:E; [|done].
  apply nmap_lookup in E as [_ E%lookup_lt_Some]. lia.
Qed.
Lemma nmap_size ns : size (nmap ns) = length ns.
Proof.
  induction ns as [|n ns IH] using rev_ind; [done|].
  rewrite nmap_app, map_size_insert_None, IH, length_app by by apply nmap_fresh. simpl. lia.
Qed.

Definition put (i : Z) (n : BPlusNode) (t : BPlusTree) : BPlusTree :=
  set_nodes (<[Z.to_nat i := n]> (nodes_ t)) t.
Definition alloc (n : BPlusNode) (t : BPlusTree) : BPlusTree := set_nodes (nodes_ t ++ [n]) t.

Section runs.
Context (t : BPlusTree) (i : Z) (n : BPlusNode) (Hn : nmap (nodes_ t) !! i = Some n).

Lemma nmap_put n' : nmap (nodes_ (put i n' t)) = <[i := n']> (nmap (nodes_ t)).
Proof. simpl. by eapply nmap_insert. Qed.
Lemma node_ref_nmap : runs (BTree.node_ref i) t (BTree.mkRef i (nodes_gen t)) t.
Proof. apply nmap_lookup in Hn as [Hi Hl%lookup_lt_Some]. apply node_ref_runs. lia. Qed.
Lemma deref_nmap : runs (BTree.deref (BTree.mkRef i (nodes_gen t))) t n t.
Proof. apply nmap_lookup in Hn as [Hi Hl]. by apply deref_runs. Qed.
Lemma node_at_nmap : runs (BTree.node_at i) t n t.
Proof. eapply runs_bind; [apply node_ref_nmap|apply deref_nmap]. Qed.
Lemma update_ref_nmap f : runs (BTree.update_ref (BTree.mkRef i (nodes_gen t)) f) t tt (put i (f n) t).
Proof. eapply runs_bind; [apply deref_nmap|apply assign_runs]. Qed.
Lemma update_nmap f : runs (BTree.update i f) t tt (put i (f n) t).
Proof. eapply runs_bind; [apply node_ref_nmap|]. apply update_ref_nmap. Qed.
End runs.

Lemma alloc_runs grow t type :
  length (nodes_ t) <> nodes_cap t -> Z.of_nat (length (nodes_ t)) < INT_MAX ->
  runs (BTree.allocateNode grow type) t (Z.of_nat (length (nodes_ t)))
    (alloc (fresh_node type (Z.of_nat (length (nodes_ t)))) t).
Proof.
  intros Hc Hmax. pose proof (allocateNode_runs grow t type Hmax) as H. unfold BTree.push_node in H.
  rewrite (proj2 (Nat.eqb_neq _ _)) in H by lia. exact H.
Qed.

(** ** Calls that move the vector *)
(** The call pushes a node onto a full vector, which is too short for [E]
    entries, and then uses a reference from before the move. *)
Record moves {A} (c : M BPlusTree A) (t : BPlusTree) (E : Z) : Prop := {
  mv_undef : (c t).1 = Undef;
  mv_moved : nodes_gen (c t).2 = S (nodes_gen t);
  mv_short : Z.of_nat (nodes_cap t) < 2 * E;
}.

Lemma moves_bind {A B} (c : M BPlusTree A) (k : A -> M BPlusTree B) t E : moves c t E -> moves (bind c k) t E.
Proof.
  intros [Hu Hg Hs]. assert (Eb : bind c k t = (Undef, (c t).2)).
  { unfold bind. by destruct (c t) as [[a|e|] t']. }
  split; rewrite ?Eb; done.
Qed.

Lemma moves_after {A B} (c : M BPlusTree A) (k : A -> M BPlusTree B) t a t1 E :
  runs c t a t1 -> nodes_gen t1 = nodes_gen t -> nodes_cap t1 = nodes_cap t -> moves (k a) t1 E -> moves (bind c k) t E.
Proof. intros Hr Eg Ec [Hu Hg Hs]. split; rewrite ?(bind_runs _ _ _ _ _ Hr); congruence. Qed.

(** a reference taken before a node was pushed onto a full vector *)
Lemma stale_moves {B} grow t type i (k : Z -> BTree.ref -> BPlusNode -> M BPlusTree B) E :
  length (nodes_ t) = nodes_cap t -> Z.of_nat (length (nodes_ t)) < INT_MAX -> Z.of_nat (nodes_cap t) < 2 * E ->
  moves (N <- BTree.allocateNode grow type ;; m <- BTree.node_ref N ;;
         n <- BTree.deref (BTree.mkRef i (nodes_gen t)) ;; k N m n) t E.
Proof.
  intros Hfull Hmax Hs. pose proof (allocateNode_runs grow t type Hmax) as Ha. set (t1 := BTree.push_node _ _ _) in Ha.
  assert (Hg : nodes_gen t1 = S (nodes_gen t)) by (unfold t1, BTree.push_node; cbn [nodes_gen]; by rewrite Hfull, Nat.eqb_refl).
  assert (Hr : runs (BTree.node_ref (Z.of_nat (length (nodes_ t)))) t1 (BTree.mkRef (Z.of_nat (length (nodes_ t))) (nodes_gen t1)) t1).
  { apply node_ref_runs. unfold t1. simpl. rewrite length_app. simpl. lia. }
  split; [| |done]; rewrite (bind_runs _ _ _ _ _ Ha), (bind_runs _ _ _ _ _ Hr); unfold bind at 1, BTree.deref;
    cbn [BTree.ref_gen]; unfold bind at 1, get; by rewrite Hg, (proj2 (Nat.eqb_neq _ _)) by lia.
Qed.

(** parts of a vector *)
Lemma vec_from_app {A} (l1 l2 : list A) p : p = Z.of_nat (length l1) -> vec_from (l1 ++ l2) p = Ret l2.
Proof.
  intros ->. unfold vec_from. rewrite length_app, !(proj2 (Z.leb_le _ _)) by lia. simpl.
  by rewrite Nat2Z.id, drop_app_length.
Qed.
Lemma vec_trim_app {A} (l1 l2 : list A) p : p = Z.of_nat (length l1) -> vec_trim (l1 ++ l2) p = Ret l1.
Proof.
  intros ->. unfold vec_trim. rewrite length_app, !(proj2 (Z.leb_le _ _)) by lia. simpl.
  by rewrite Nat2Z.id, take_app_length.
Qed.
Lemma vec_at_app {A} (l1 l2 : list A) x p : p = Z.of_nat (length l1) -> vec_at (l1 ++ x :: l2) p = Ret x.
Proof.
  intros ->. unfold vec_at. rewrite (proj2 (Z.leb_le _ _)) by lia.
  by rewrite Nat2Z.id, lookup_app_r, Nat.sub_diag by lia.
Qed.

(** ** How many nodes there are *)
(** Every node weighs two at least, and the weights of a tree add up to twice
    its entries and one for each node but the root. *)
Definition weight_of (n : BPlusNode) : Z :=
  match bn_type n with
  | LEAF => 2 * Z.of_nat (length (keys n))
  | INTERNAL => Z.of_nat (length (childIndices n))
  end.
Definition total (w : gmap Z Z) : Z := map_fold (fun _ x s => x + s) 0 w.
Definition weight (h : heap) : Z := total (weight_of <$> h).
Definition full (h : heap) : Prop := map_Forall (fun _ n => 2 <= weight_of n) h.

Lemma total_insert w i x : w !! i = None -> total (<[i := x]> w) = x + total w.
Proof. intros Hi. unfold total. rewrite map_fold_insert_L; [done| |done]. intros. lia. Qed.
Lemma total_replace w i x y : w !! i = Some y -> total (<[i := x]> w) = total w - y + x.
Proof.
  intros Hi. rewrite <- (insert_delete_id w i y) at 2 by done. rewrite <- insert_delete_eq.
  rewrite !total_insert by apply lookup_delete_eq. lia.
Qed.

Lemma weight_new h i n : h !! i = None -> weight (<[i := n]> h) = weight h + weight_of n.
Proof. intros Hi. unfold weight. rewrite fmap_insert, total_insert; [lia|]. by rewrite lookup_fmap, Hi. Qed.
Lemma weight_replace h i n n0 : h !! i = Some n0 -> weight (<[i := n]> h) = weight h - weight_of n0 + weight_of n.
Proof. intros Hi. unfold weight. rewrite fmap_insert. apply total_replace. by rewrite lookup_fmap, Hi. Qed.

Lemma weight_full h : full h -> 2 * Z.of_nat (size h) <= weight h.
Proof.
  induction h as [|i n h Hi IH] using map_ind; intros Hf; [done|].
  apply map_Forall_insert in Hf as [Hn Hf]; [|done]. rewrite weight_new, map_size_insert_None by done.
  specialize (IH Hf). lia.
Qed.

(** No node is heavier than the whole less two for each other node. *)
Lemma weight_node h i n : full h -> h !! i = Some n -> weight_of n + 2 * Z.of_nat (size h) <= weight h + 2.
Proof.
  intros Hf Hi. rewrite <- (insert_delete_id h i n) by done.
  rewrite weight_new, map_size_insert_None by apply lookup_delete_eq.
  assert (Hd : full (delete i h)) by by apply map_Forall_delete. apply weight_full in Hd. lia.
Qed.

(** No node has more children than an [int] counts. *)
Lemma children_bound h E : full h -> weight h + 1 <= 2 * E + Z.of_nat (size h) -> 2 * E <= INT_MAX ->
  forall x nx, h !! x = Some nx -> bn_type nx = INTERNAL -> Z.of_nat (length (childIndices nx)) <= INT_MAX.
Proof.
  intros Hf Hw Hmax x nx Hx Htx. pose proof (weight_node h x nx Hf Hx) as Hn. unfold weight_of in Hn. rewrite Htx in Hn.
  destruct (decide (size h = 0%nat)) as [E0|?]; [|lia]. apply map_size_empty_iff in E0. by rewrite E0 in Hx.
Qed.

Lemma full_insert h i n : full h -> 2 <= weight_of n -> full (<[i := n]> h).
Proof. intros Hf Hn. by apply map_Forall_insert_2. Qed.

(** [n] at [i] split into [a] there and [b] at [j]; other nodes keep their
    weights. *)
Lemma weight_split h h' i j n a b :
  h !! i = Some n -> h !! j = None -> h' !! i = Some a -> h' !! j = Some b ->
  (forall x, x <> i -> x <> j -> weight_of <$> h' !! x = weight_of <$> h !! x) ->
  weight h' = weight h - weight_of n + weight_of a + weight_of b /\
  (full h -> 2 <= weight_of a -> 2 <= weight_of b -> full h').
Proof.
  intros Hi Hj Hi' Hj' Ho. assert (i <> j) by congruence. split.
  - unfold weight. assert (weight_of <$> h' = <[j := weight_of b]> (<[i := weight_of a]> (weight_of <$> h))) as ->.
    { apply map_eq. intros x. rewrite lookup_fmap, !lookup_insert, lookup_fmap.
      case_decide as E; [subst x; by rewrite Hj'|]. case_decide as E'; [subst x; by rewrite Hi'|]. by rewrite Ho. }
    rewrite total_insert; [rewrite (total_replace _ i _ (weight_of n)); [lia|by rewrite lookup_fmap, Hi]|].
    by rewrite lookup_insert_ne, lookup_fmap, Hj.
  - intros Hf Ha Hb x nx Hx. destruct (decide (x = i)) as [->|Hxi]; [congruence|].
    destruct (decide (x = j)) as [->|Hxj]; [congruence|]. specialize (Ho x Hxi Hxj). rewrite Hx in Ho.
    destruct (h !! x) as [ny|] eqn:E; [|done]. injection Ho as ->. by apply (Hf x).
Qed.

(** ** A child that its parent does not have yet *)
Lemma lower_bound_range ks k : 0 <= lower_bound ks k <= Z.of_nat (length ks).
Proof. induction ks as [|x ks IH]; simpl; [lia|]. case_match; lia. Qed.

Lemma put_child_defined n k j :
  length (childIndices n) = S (length (keys n)) -> bn_size n = Z.of_nat (length (keys n)) ->
  Z.of_nat (length (childIndices n)) <= INT_MAX ->
  exists n', BTree.put_child k j n = Ret n' /\ bn_type n' = bn_type n /\ isRoot n' = isRoot n /\
    parentIdx n' = parentIdx n /\ bn_size n' = bn_size n + 1 /\
    length (childIndices n') = S (length (childIndices n)).
Proof.
  intros Hl Hs Hmax. unfold BTree.put_child, vec_insert. pose proof (lower_bound_range (keys n) k) as Hb.
  rewrite i32_small by (unfold_int; lia). cbv zeta. rewrite !(proj2 (Z.leb_le _ _)) by lia. cbn [andb obind].
  rewrite int_succ_ret by lia. eexists. split; [reflexivity|].
  do 4 (split; [done|]). simpl. rewrite length_app, length_take, length_cons, length_drop. lia.
Qed.

(** [right] is a node with the keys from [key] on next to [left]: once its
    parent has it, or a new root over both at [r], the tree is whole. *)
Definition attached (G : ghost) (h : heap) (root left key right r : Z) (m : imap) : Prop :=
  exists nl nr, h !! left = Some nl /\ h !! right = Some nr /\ left <> right /\
    if isRoot nl then left = root /\
      tree_inv G (<[r := mkNode INTERNAL true (u32 r) (-1) 1 [key] [] [left; right] (-1)]>
        (<[right := set_parent r nr]> (<[left := set_parent r (set_isRoot false nl)]> h))) r m
    else exists q nq nq', parentIdx nl = q /\ q <> left /\ q <> right /\ h !! q = Some nq /\
      bn_type nq = INTERNAL /\ length (childIndices nq) = S (length (keys nq)) /\
      bn_size nq = Z.of_nat (length (keys nq)) /\ dep G q = S (dep G left) /\ (dep G q <= dep G root)%nat /\
      BTree.put_child key right nq = Ret nq' /\
      tree_inv G (<[q := nq']> (<[right := set_parent q nr]> h)) root m.

Lemma splits_parent G i n k j nl nr e1 e2 p b c q :
  splits G i n k j nl nr e1 e2 ->
  splits G i (set_parent p (set_isRoot b n)) k j (set_parent p (set_isRoot c nl)) (set_parent q nr) e1 e2.
Proof.
  intros [H1 [] [] H4 H5 H6 H7 H8 H9|]; [left|right]; done.
Qed.

Section attach.
Context (G : ghost) (h h2 : heap) (root : Z) (m : imap) (HT : tree_inv G h root m).
Context (i j r k : Z) (n nl nr : BPlusNode) (e1 e2 : entries).
Context (Hn : h !! i = Some n) (Hj : h !! j = None) (Hrf : h !! r = None) (Hjr : j <> r).
Context (Hs : splits G i n k j nl nr e1 e2) (Hlo : blt (iv G i).1 (Some k)) (Hhi : blt (Some k) (iv G i).2).
Context (Hrl : isRoot nl = isRoot n) (Hpl : parentIdx nl = parentIdx n) (Hrr : isRoot nr = false).
Context (Hi2 : h2 !! i = Some nl) (Hj2 : h2 !! j = Some nr).
Context (Ho2 : forall x, x <> i -> x <> j -> h2 !! x = moved_to j (childIndices nr) x <$> h !! x).
Context (Hmax : forall x nx, h !! x = Some nx -> bn_type nx = INTERNAL -> Z.of_nat (length (childIndices nx)) <= INT_MAX).

Lemma attach_child : isRoot n = false ->
  attached (split_ghost G i j k e1 e2) h2 root i k j r m.
Proof.
  intros Hr. assert (Hij : i <> j) by congruence. exists nl, nr. split; [done|]. split; [done|]. split; [done|].
  rewrite Hrl, Hr. destruct (parent_of G h root m HT i n Hn Hr) as (nq & Hq & Hci & Hqi & _).
  pose proof (split_dep_q G h root m HT i n nq Hn Hr Hq) as Hdq.
  assert (Hqi' : parentIdx n <> i) by (intros E; rewrite E in Hdq; lia).
  assert (Hqj : parentIdx n <> j) by congruence.
  pose proof (kids_length _ _ _ _ _ (ii_kids _ _ _ _ _ Hqi)) as Hlen.
  pose proof (ii_size _ _ _ _ _ Hqi) as Hqs.
  destruct (put_child_defined nq k j Hlen Hqs (Hmax _ _ Hq (ii_type _ _ _ _ _ Hqi))) as (nq' & Hput & _).
  assert (Hq2 : h2 !! parentIdx n = Some nq).
  { rewrite Ho2, Hq by done. simpl. f_equal. unfold moved_to. rewrite decide_False; [done|]. intros Hm.
    destruct (moved_parent G h root m HT i j k n nl nr e1 e2 Hn Hs _ Hm) as (d & Hd & _ & _ & Hdq' & _).
    pose proof (ii_dep _ _ _ _ _ Hd). lia. }
  exists (parentIdx n), nq, nq'. split; [done|]. split; [done|]. split; [done|]. split; [done|].
  split; [apply Hqi|]. split; [done|]. split; [done|]. split.
  { unfold split_ghost. simpl. by rewrite !fn_lookup_insert_ne. }
  split.
  { unfold split_ghost. simpl. destruct (tv_root _ _ _ _ HT) as (nt & Hnt & _).
    rewrite !fn_lookup_insert_ne by congruence. by apply (tv_dep _ _ _ _ HT _ nq). }
  split; [done|].
  pose proof (splits_parent _ _ _ _ _ _ _ _ _ (parentIdx n) (isRoot n) (isRoot n) (parentIdx n) Hs) as Hs'.
  eapply (split_inv G h _ root m HT i j k n nq nl (set_parent (parentIdx n) nr) nq' e1 e2); try done.
  - by destruct Hs as [? ? [] ? ? ? ? ? ?|]; [left|right].
  - congruence.
  - by rewrite !lookup_insert_ne.
  - rewrite lookup_insert_ne by done. apply lookup_insert_eq.
  - apply lookup_insert_eq.
  - intros x Hxi Hxj Hxq. rewrite !lookup_insert_ne by done. by apply Ho2.
Qed.

Lemma attach_root : isRoot n = true ->
  exists G', attached G' h2 root i k j r m /\ forall x, x <> j -> x <> r -> dep G' x = dep G x.
Proof.
  intros Hr. assert (Hij : i <> j) by congruence.
  assert (i = root) as ->. { pose proof (tv_up _ _ _ _ HT i n Hn) as Hu. unfold up_inv in Hu. rewrite Hr in Hu. apply Hu. }
  assert (Hr0 : root <> r) by congruence.
  pose proof (grown_inv G h root r m n HT Hn Hrf (u32 r)) as HT1.
  set (G1 := grown_ghost G root r) in *. set (h1 := grown h root r n (u32 r)) in *.
  set (nq := mkNode INTERNAL true (u32 r) (-1) 0 [] [] [root] (-1)).
  set (nq' := mkNode INTERNAL true (u32 r) (-1) 1 [k] [] [root; j] (-1)).
  assert (Hiv : iv G1 root = iv G root) by (unfold G1; simpl; by rewrite fn_lookup_insert_ne).
  exists (split_ghost G1 root j k e1 e2). split.
  2: { intros x Hxj Hxr. unfold G1. simpl. by rewrite !fn_lookup_insert_ne. }
  exists nl, nr. split; [done|]. split; [done|]. split; [done|].
  rewrite Hrl, Hr. split; [done|].
  eapply (split_inv G1 h1 _ r m HT1 root j k (lowered r n) nq (set_parent r (set_isRoot false nl))
            (set_parent r nr) nq' e1 e2); try done.
  - unfold h1, grown. rewrite lookup_insert_ne by done. apply lookup_insert_eq.
  - apply lookup_insert_eq.
  - unfold h1, grown. by rewrite !lookup_insert_ne.
  - by rewrite Hiv.
  - by rewrite Hiv.
  - pose proof (splits_parent _ _ _ _ _ _ _ _ _ r false false r Hs) as Hs'.
    by destruct Hs'; [left|right].
  - rewrite !lookup_insert_ne by done. apply lookup_insert_eq.
  - rewrite lookup_insert_ne by done. apply lookup_insert_eq.
  - apply lookup_insert_eq.
  - intros x Hxi Hxj Hxq. rewrite !lookup_insert_ne by done. rewrite Ho2 by done.
    unfold h1, grown. rewrite !lookup_insert_ne by done. done.
Qed.

Lemma attach : exists G', attached G' h2 root i k j r m /\ forall x, x <> j -> x <> r -> dep G' x = dep G x.
Proof.
  case_eq (isRoot n); intros Hr; [by apply attach_root|]. exists (split_ghost G i j k e1 e2).
  split; [by apply attach_child|]. intros x Hxj _. simpl. by rewrite fn_lookup_insert_ne.
Qed.
End attach.

(** ** The steps of an insertion *)
Lemma set_parents_runs j : forall cs t,
  (forall c, c ∈ cs -> is_Some (nmap (nodes_ t) !! c)) ->
  exists ns, runs (BTree.set_parents cs j) t tt (set_nodes ns t) /\ length ns = length (nodes_ t) /\
    forall x, nmap ns !! x = moved_to j cs x <$> nmap (nodes_ t) !! x.
Proof.
  induction cs as [|c cs IH]; intros t Hc.
  { exists (nodes_ t). split; [by destruct t|]. split; [done|]. intros x. unfold moved_to.
    by destruct (nmap _ !! x). }
  destruct (Hc c ltac:(by left)) as [nc Hnc].
  pose proof (nmap_put t c nc Hnc (set_parent j nc)) as E. set (t1 := put c (set_parent j nc) t) in *.
  destruct (IH t1) as (ns & Hrun & Hlen & Hns).
  { intros d Hd. rewrite E. apply lookup_insert_is_Some'. right. apply Hc. by right. }
  exists ns. split; [|split].
  - cbn [BTree.set_parents]. eapply runs_bind; [by apply (update_nmap t c nc Hnc)|]. exact Hrun.
  - rewrite Hlen. unfold t1, put. simpl. apply length_insert.
  - intros x. rewrite Hns, E, lookup_insert. case_decide as Ex; unfold moved_to.
    + subst x. rewrite Hnc. cbn [fmap option_fmap option_map]. repeat case_decide; done || set_solver.
    + destruct (nmap (nodes_ t) !! x); [|done]. cbn [fmap option_fmap option_map]. repeat case_decide; done || set_solver.
Qed.

Section split_node.
Context (grow : nat -> nat) (t : BPlusTree) (p key right k : Z) (n n1 : BPlusNode) (ks1 ks2 cs1 cs2 : list Z).
Let N := Z.of_nat (length (nodes_ t)).
Context (Hn : nmap (nodes_ t) !! p = Some n) (Hput : BTree.put_child key right n = Ret n1).
Context (Hk : keys n1 = ks1 ++ k :: ks2) (Hc : childIndices n1 = cs1 ++ cs2).
Context (Hmid : bn_size n1 ÷ 2 = Z.of_nat (length ks1)) (Hl : length cs1 = S (length ks1)).
Context (Hmax : Z.of_nat (length (nodes_ t)) < INT_MAX) (Hks : Z.of_nat (length ks2) <= INT_MAX).
Context (Hcs : forall c, c ∈ cs2 -> is_Some (nmap (nodes_ t) !! c)) (Hp : p ∉ cs2).

(** The vector is full: the reference to the node is lost. *)
Lemma split_node_moves E :
  length (nodes_ t) = nodes_cap t -> Z.of_nat (nodes_cap t) < 2 * E -> moves (BTree.split_node grow p key right) t E.
Proof.
  intros Hfull Hs. pose proof (nmap_put t p n Hn n1) as E1. set (t1 := put p n1 t) in *.
  assert (L1 : length (nodes_ t1) = length (nodes_ t)) by (unfold t1, put; simpl; apply length_insert).
  unfold BTree.split_node. eapply moves_after; [by apply (node_ref_nmap t p n)|done|done|].
  eapply moves_after; [by apply (deref_nmap t p n)|done|done|].
  eapply (moves_after _ _ _ n1 t); [unfold runs, lift; by rewrite Hput|done|done|].
  eapply (moves_after _ _ _ tt t1); [apply assign_runs|done|done|].
  eapply (moves_after _ _ _ n1 t1); [apply (deref_nmap t1 p n1); rewrite E1; apply lookup_insert_eq|done|done|].
  cbv zeta. rewrite Hmid. eapply (moves_after _ _ _ k t1); [unfold runs, lift; by rewrite Hk, vec_at_app|done|done|].
  apply (stale_moves grow t1); rewrite ?L1; done.
Qed.

Context (Hcap : length (nodes_ t) <> nodes_cap t).

Lemma split_node_runs : exists ns,
  runs (BTree.split_node grow p key right) t (k, N) (set_nodes ns t) /\
  length ns = S (length (nodes_ t)) /\
  nmap ns !! p = Some (set_size (Z.of_nat (length ks1)) (set_children cs1 (set_keys ks1 n1))) /\
  nmap ns !! N = Some (mkNode INTERNAL false (u32 N) (parentIdx n1) (Z.of_nat (length ks2)) ks2 [] cs2 (-1)) /\
  forall x, x <> p -> x <> N -> nmap ns !! x = moved_to N cs2 x <$> nmap (nodes_ t) !! x.
Proof.
  set (f := fresh_node INTERNAL N). set (m1 := set_size (Z.of_nat (length ks2)) (set_children cs2 (set_keys ks2 f))).
  set (a := set_size (Z.of_nat (length ks1)) (set_children cs1 (set_keys ks1 n1))).
  assert (HpN : p <> N). { apply nmap_lookup in Hn as [? ?%lookup_lt_Some]. lia. }
  assert (HN : nmap (nodes_ t) !! N = None) by by apply nmap_fresh.
  pose proof (nmap_put t p n Hn n1) as E1. set (t1 := put p n1 t) in *.
  assert (L1 : length (nodes_ t1) = length (nodes_ t)) by (unfold t1, put; simpl; apply length_insert).
  assert (E2 : nmap (nodes_ (alloc f t1)) = <[N := f]> (<[p := n1]> (nmap (nodes_ t)))).
  { change (nodes_ (alloc f t1)) with (nodes_ t1 ++ [f]). by rewrite nmap_app, L1, E1. }
  set (t2 := alloc f t1) in *.
  assert (H2N : nmap (nodes_ t2) !! N = Some f) by (rewrite E2; apply lookup_insert_eq).
  pose proof (nmap_put t2 N f H2N m1) as E3. set (t3 := put N m1 t2) in *.
  assert (HcN : N ∉ cs2). { intros Hin. destruct (Hcs N Hin). congruence. }
  assert (E3' : nmap (nodes_ t3) = <[N := m1]> (<[p := n1]> (nmap (nodes_ t)))) by by rewrite E3, E2, insert_insert_eq.
  destruct (set_parents_runs N cs2 t3) as (ns4 & Hrun4 & L4 & E4).
  { intros c Hin. rewrite E3'. apply lookup_insert_is_Some'. right. apply lookup_insert_is_Some'. right. by apply Hcs. }
  set (t4 := set_nodes ns4 t3) in *.
  assert (H4p : nmap (nodes_ t4) !! p = Some n1).
  { simpl. rewrite E4, E3', lookup_insert_ne, lookup_insert_eq by done. simpl. unfold moved_to. by rewrite decide_False. }
  assert (H4N : nmap (nodes_ t4) !! N = Some m1).
  { simpl. rewrite E4, E3', lookup_insert_eq. simpl. unfold moved_to. by rewrite decide_False. }
  pose proof (nmap_put t4 p n1 H4p a) as E5. set (t5 := put p a t4) in *.
  assert (H5p : nmap (nodes_ t5) !! p = Some a) by (rewrite E5; apply lookup_insert_eq).
  assert (H5N : nmap (nodes_ t5) !! N = Some m1) by (rewrite E5, lookup_insert_ne by done; exact H4N).
  pose proof (nmap_put t5 N m1 H5N (set_parent (parentIdx a) m1)) as E6.
  exists (nodes_ (put N (set_parent (parentIdx a) m1) t5)). split; [|split; [|split; [|split]]].
  - unfold BTree.split_node. eapply runs_bind; [by apply (node_ref_nmap t p n)|].
    eapply runs_bind; [by apply (deref_nmap t p n)|]. eapply (runs_bind _ _ _ n1 t); [unfold runs, lift; by rewrite Hput|].
    eapply (runs_bind _ _ _ tt t1); [apply assign_runs|].
    eapply (runs_bind _ _ _ n1 t1); [apply (deref_nmap t1 p n1); rewrite E1; apply lookup_insert_eq|].
    cbv zeta. rewrite Hmid.
    eapply (runs_bind _ _ _ k t1); [unfold runs, lift; by rewrite Hk, vec_at_app|].
    eapply (runs_bind _ _ _ N t2).
    { pose proof (alloc_runs grow t1 INTERNAL ltac:(by rewrite L1) ltac:(by rewrite L1)) as Ha. rewrite L1 in Ha. exact Ha. }
    eapply (runs_bind _ _ _ _ t2); [by apply (node_ref_nmap t2 N f)|].
    eapply (runs_bind _ _ _ n1 t2). { apply (deref_nmap t2 p n1). rewrite E2, lookup_insert_ne by done. apply lookup_insert_eq. }
    eapply (runs_bind _ _ _ ks2 t2).
    { unfold runs, lift. rewrite Hk. change (ks1 ++ k :: ks2) with (ks1 ++ [k] ++ ks2). rewrite app_assoc.
      rewrite vec_from_app; [done|]. rewrite length_app. simpl. lia. }
    eapply (runs_bind _ _ _ cs2 t2). { unfold runs, lift. rewrite Hc, vec_from_app; [done|]. lia. }
    rewrite i32_small by (unfold_int; lia).
    eapply (runs_bind _ _ _ tt t3); [by apply (update_ref_nmap t2 N f)|].
    eapply (runs_bind _ _ _ tt t4); [exact Hrun4|].
    eapply (runs_bind _ _ _ n1 t4); [by apply (deref_nmap t4 p n1)|].
    eapply (runs_bind _ _ _ ks1 t4); [unfold runs, lift; by rewrite Hk, vec_trim_app|].
    eapply (runs_bind _ _ _ cs1 t4). { unfold runs, lift. rewrite Hc, vec_trim_app; [done|]. lia. }
    eapply (runs_bind _ _ _ tt t5); [apply (assign_runs t4)|].
    eapply (runs_bind _ _ _ a t5); [by apply (deref_nmap t5 p a)|].
    eapply (runs_bind _ _ _ tt _); [by apply (update_ref_nmap t5 N m1)|]. done.
  - unfold t5, t4, t3, t2, t1, put, alloc. simpl. rewrite !length_insert. rewrite L4.
    unfold t3, t2, t1, put, alloc. simpl. rewrite length_insert, length_app, length_insert. simpl. lia.
  - rewrite E6, lookup_insert_ne by done. exact H5p.
  - rewrite E6. apply lookup_insert_eq.
  - intros x Hxp HxN. rewrite E6, lookup_insert_ne, E5, lookup_insert_ne by done. simpl. rewrite E4, E3'.
    by rewrite !lookup_insert_ne.
Qed.
End split_node.

Lemma new_root_runs grow t left key right nl nr :
  let N := Z.of_nat (length (nodes_ t)) in
  nmap (nodes_ t) !! left = Some nl -> nmap (nodes_ t) !! right = Some nr -> left <> right ->
  Z.of_nat (length (nodes_ t)) < INT_MAX ->
  exists ns, runs (BTree.new_root grow left key right) t tt
      (set_root N (set_nodes ns (BTree.push_node grow (fresh_node INTERNAL N) t))) /\
    length ns = S (length (nodes_ t)) /\
    nmap ns = <[N := mkNode INTERNAL true (u32 N) (-1) 1 [key] [] [left; right] (-1)]>
      (<[right := set_parent N nr]> (<[left := set_parent N (set_isRoot false nl)]> (nmap (nodes_ t)))).
Proof.
  intros N Hl Hr Hlr Hmax. set (f := fresh_node INTERNAL N). set (h := nmap (nodes_ t)) in *.
  assert (HN : h !! N = None) by by apply nmap_fresh.
  assert (N <> left) by congruence. assert (N <> right) by congruence.
  assert (E1 : nmap (nodes_ (BTree.push_node grow f t)) = <[N := f]> h).
  { change (nodes_ (BTree.push_node grow f t)) with (nodes_ t ++ [f]). by rewrite nmap_app. }
  set (t1 := BTree.push_node grow f t) in *. set (m := mkNode INTERNAL true (u32 N) (-1) 1 [key] [] [left; right] (-1)).
  assert (H1 : nmap (nodes_ t1) !! N = Some f) by (rewrite E1; apply lookup_insert_eq).
  pose proof (nmap_put t1 N f H1 m) as E2. set (t2 := put N m t1) in *. rewrite E1, insert_insert_eq in E2.
  assert (H2 : nmap (nodes_ t2) !! left = Some nl) by (rewrite E2, lookup_insert_ne by done; exact Hl).
  pose proof (nmap_put t2 left nl H2 (set_isRoot false nl)) as E3. set (t3 := put left (set_isRoot false nl) t2) in *.
  assert (H3 : nmap (nodes_ t3) !! left = Some (set_isRoot false nl)) by (rewrite E3; apply lookup_insert_eq).
  pose proof (nmap_put t3 left _ H3 (set_parent N (set_isRoot false nl))) as E4.
  set (t4 := put left (set_parent N (set_isRoot false nl)) t3) in *. rewrite E3, insert_insert_eq in E4.
  assert (H4 : nmap (nodes_ t4) !! right = Some nr).
  { rewrite E4, lookup_insert_ne, E2, lookup_insert_ne by done. exact Hr. }
  pose proof (nmap_put t4 right nr H4 (set_parent N nr)) as E5.
  exists (nodes_ (put right (set_parent N nr) t4)). split; [|split].
  - unfold BTree.new_root. eapply (runs_bind _ _ _ N t1); [by apply (allocateNode_runs grow t INTERNAL)|].
    eapply runs_bind; [by apply (node_ref_nmap t1 N f)|].
    eapply (runs_bind _ _ _ tt t2); [by apply (update_ref_nmap t1 N f)|].
    eapply (runs_bind _ _ _ tt t3); [by apply (update_nmap t2 left nl)|].
    eapply (runs_bind _ _ _ tt t4); [by apply (update_nmap t3 left (set_isRoot false nl))|].
    eapply runs_bind; [by apply (update_nmap t4 right nr)|]. done.
  - unfold t4, t3, t2, t1, put. simpl. rewrite !length_insert, length_app. simpl. lia.
  - rewrite E5, E4, E2. apply map_eq. intros x. rewrite !lookup_insert. repeat case_decide; congruence.
Qed.

(** The tree is whole again, with entries for a weight of [E]. *)
Record settled (t t' : BPlusTree) (m : imap) (E : Z) : Prop := {
  se_inv : exists G, tree_inv G (nmap (nodes_ t')) (rootIdx_ t') m;
  se_full : full (nmap (nodes_ t'));
  se_weight : weight (nmap (nodes_ t')) + 1 = 2 * E + Z.of_nat (length (nodes_ t'));
  se_count : entryCount_ t' = entryCount_ t;
  se_leaf : maxLeafKeys_ t' = maxLeafKeys_ t;
  se_inner : maxInternalKeys_ t' = maxInternalKeys_ t;
}.

(** [right] is yet to be attached: its parent is short of one child. *)
Record pending (G : ghost) (t : BPlusTree) (left key right : Z) (m : imap) (E : Z) : Prop := {
  pe_attached : attached G (nmap (nodes_ t)) (rootIdx_ t) left key right (Z.of_nat (length (nodes_ t))) m;
  pe_full : full (nmap (nodes_ t));
  pe_weight : weight (nmap (nodes_ t)) + 2 = 2 * E + Z.of_nat (length (nodes_ t));
  pe_int : 2 * E <= INT_MAX;
  pe_inner : 2 <= maxInternalKeys_ t;
}.

Lemma pending_room G t left key right m E :
  pending G t left key right m E -> Z.of_nat (length (nodes_ t)) < 2 * E /\ 2 * E <= INT_MAX.
Proof. intros [_ Hf Hw Hc _]. apply weight_full in Hf. rewrite nmap_size in Hf. lia. Qed.

Lemma settled_root grow G t left key right m E nl :
  pending G t left key right m E -> nmap (nodes_ t) !! left = Some nl -> isRoot nl = true ->
  exists t', runs (BTree.new_root grow left key right) t tt t' /\ settled t t' m E.
Proof.
  intros Hp Hl Hroot. pose proof (pending_room _ _ _ _ _ _ _ Hp) as [Hcap Hint].
  destruct Hp as [(nl' & nr & Hl' & Hr & Hlr & Ha) Hf Hw _ _]. assert (nl' = nl) as -> by congruence.
  rewrite Hroot in Ha. destruct Ha as [_ HT].
  destruct (new_root_runs grow t left key right nl nr Hl Hr Hlr ltac:(lia)) as (ns & Hrun & Hlen & Ens).
  set (N := Z.of_nat (length (nodes_ t))) in *. set (h := nmap (nodes_ t)) in *.
  assert (HN : h !! N = None) by by apply nmap_fresh.
  eexists. split; [exact Hrun|]. split; try done; simpl.
  - rewrite Ens. by exists G.
  - rewrite Ens. apply full_insert; [|done]. apply full_insert; [|by apply (Hf _ _ Hr)].
    apply full_insert; [done|by apply (Hf _ _ Hl)].
  - rewrite Ens, Hlen, weight_new by (rewrite !lookup_insert_ne by congruence; done).
    rewrite (weight_replace _ right _ nr) by by rewrite lookup_insert_ne.
    rewrite (weight_replace _ left _ nl) by done.
    change (weight_of (set_parent N nr)) with (weight_of nr).
    change (weight_of (set_parent N (set_isRoot false nl))) with (weight_of nl).
    assert (weight_of (mkNode INTERNAL true (u32 N) (-1) 1 [key] [] [left; right] (-1)) = 2) as -> by done. lia.
Qed.

(** where an internal node splits *)
Lemma half_of n :
  bn_size n = Z.of_nat (length (keys n)) -> length (childIndices n) = S (length (keys n)) -> 3 <= bn_size n ->
  exists ks1 k ks2 cs1 cs2, keys n = ks1 ++ k :: ks2 /\ childIndices n = cs1 ++ cs2 /\
    bn_size n ÷ 2 = Z.of_nat (length ks1) /\ length cs1 = S (length ks1) /\
    (2 <= length cs1)%nat /\ (2 <= length cs2)%nat.
Proof.
  intros Hs Hl H3. set (mid := Z.to_nat (bn_size n ÷ 2)).
  assert (Hq : 2 * (bn_size n ÷ 2) <= bn_size n < 2 * (bn_size n ÷ 2) + 2).
  { rewrite Z.quot_div_nonneg by lia. pose proof (Z.div_mod (bn_size n) 2). pose proof (Z.mod_pos_bound (bn_size n) 2). lia. }
  destruct (lookup_lt_is_Some_2 (keys n) mid) as [k Hk]; [lia|].
  exists (take mid (keys n)), k, (drop (S mid) (keys n)), (take (S mid) (childIndices n)), (drop (S mid) (childIndices n)).
  split; [symmetry; by apply take_drop_middle|]. split; [symmetry; apply take_drop|].
  rewrite !length_take, length_drop. lia.
Qed.

(** the parent once it has the child *)
Lemma parent_weight nq nq' key right :
  BTree.put_child key right nq = Ret nq' -> bn_type nq = INTERNAL -> length (childIndices nq) = S (length (keys nq)) ->
  bn_size nq = Z.of_nat (length (keys nq)) ->
  weight_of nq' = weight_of nq + 1 /\ isRoot nq' = isRoot nq /\ parentIdx nq' = parentIdx nq /\
  bn_type nq' = INTERNAL /\ bn_size nq' = bn_size nq + 1.
Proof.
  intros Hput Ht Hl Hs. pose proof (put_child_max _ _ _ _ Hput) as Hmax.
  destruct (put_child_defined nq key right Hl Hs ltac:(lia)) as (n' & Hput' & Ht' & Hr & Hp & Hs' & Hlen).
  assert (n' = nq') as -> by congruence. unfold weight_of. rewrite Ht', Ht, Hlen. split; [lia|by rewrite Hr, Hp].
Qed.

Section parent.
Context (G : ghost) (t : BPlusTree) (left key right q : Z) (m : imap) (E : Z) (nr nq nq' : BPlusNode).
Let h1 := <[q := nq']> (<[right := set_parent q nr]> (nmap (nodes_ t))).
Context (Hp : pending G t left key right m E) (Hr : nmap (nodes_ t) !! right = Some nr) (Hqr : q <> right).
Context (Hq : nmap (nodes_ t) !! q = Some nq) (Ht : bn_type nq = INTERNAL).
Context (Hlen : length (childIndices nq) = S (length (keys nq))) (Hqs : bn_size nq = Z.of_nat (length (keys nq))).
Context (Hput : BTree.put_child key right nq = Ret nq').
Context (HT : tree_inv G h1 (rootIdx_ t) m).

Lemma parent_full : full h1 /\ weight h1 + 1 = 2 * E + Z.of_nat (length (nodes_ t)).
Proof.
  destruct Hp as [_ Hf Hw _ _]. destruct (parent_weight nq nq' key right Hput Ht Hlen Hqs) as (Hwq & _ & _).
  unfold h1. split.
  - apply full_insert; [|rewrite Hwq; pose proof (Hf _ _ Hq); simpl in *; lia].
    apply full_insert; [done|by apply (Hf _ _ Hr)].
  - rewrite (weight_replace _ q _ nq) by by rewrite lookup_insert_ne.
    rewrite (weight_replace _ right _ nr) by done.
    change (weight_of (set_parent q nr)) with (weight_of nr). lia.
Qed.

(** There is room in the parent. *)
Lemma settled_parent : exists t',
  runs (BTree.assign (BTree.mkRef q (nodes_gen t)) nq' ;; BTree.update right (set_parent q)) t tt t' /\
  settled t t' m E.
Proof.
  pose proof (nmap_put t q nq Hq nq') as E1. set (t1 := put q nq' t) in *.
  assert (H1 : nmap (nodes_ t1) !! right = Some nr) by (rewrite E1, lookup_insert_ne by done; exact Hr).
  pose proof (nmap_put t1 right nr H1 (set_parent q nr)) as E2. exists (put right (set_parent q nr) t1).
  assert (Eh : nmap (nodes_ (put right (set_parent q nr) t1)) = h1).
  { rewrite E2, E1. unfold h1. by apply insert_insert_ne. }
  assert (Hl : length (nodes_ (put right (set_parent q nr) t1)) = length (nodes_ t)).
  { unfold t1, put. simpl. by rewrite !length_insert. }
  split.
  - eapply runs_bind; [apply assign_runs|]. by apply (update_nmap t1 right nr).
  - destruct parent_full as [Hf Hw]. split; try done.
    + exists G. by rewrite Eh.
    + by rewrite Eh.
    + by rewrite Eh, Hl.
Qed.

(** There is none, and the parent splits: on a full vector its reference is
    lost, *)
Lemma pending_moves grow : 2 <= bn_size nq -> length (nodes_ t) = nodes_cap t ->
  moves (BTree.update right (set_parent q) ;; BTree.split_node grow q key right) t E.
Proof.
  intros Hsz Hcap. pose proof (pending_room _ _ _ _ _ _ _ Hp) as [Hroom Hint].
  destruct (parent_weight nq nq' key right Hput Ht Hlen Hqs) as (_ & _ & _ & Ht' & Hsz').
  destruct (inner_node G h1 _ m HT q nq' (lookup_insert_eq _ _ _) Ht') as [d Hd].
  destruct (half_of nq' (ii_size _ _ _ _ _ Hd) (kids_length _ _ _ _ _ (ii_kids _ _ _ _ _ Hd)))
    as (ks1 & k & ks2 & _ & _ & Hk & _ & Hmid & _); [lia|].
  pose proof (nmap_put t right nr Hr (set_parent q nr)) as E1. set (t1 := put right (set_parent q nr) t) in *.
  assert (L1 : length (nodes_ t1) = length (nodes_ t)) by (unfold t1, put; simpl; apply length_insert).
  eapply moves_after; [by apply (update_nmap t right nr)|done|done|].
  apply (split_node_moves grow t1 q key right k nq nq' ks1 ks2);
    [by rewrite E1, lookup_insert_ne|done..|rewrite L1; lia|by rewrite L1|simpl; lia].
Qed.

(** and otherwise its second half is to be attached. *)
Lemma pending_parent grow : 2 <= bn_size nq -> length (nodes_ t) <> nodes_cap t -> exists k N t' G',
  runs (BTree.update right (set_parent q) ;; BTree.split_node grow q key right) t (k, N) t' /\
  pending G' t' q k N m E /\ dep G' (rootIdx_ t) = dep G (rootIdx_ t) /\ dep G' q = dep G q /\
  exists ns, t' = set_nodes ns t.
Proof.
  intros Hsz Hroom. pose proof (pending_room _ _ _ _ _ _ _ Hp) as [Hcap Hint]. destruct parent_full as [Hf Hw].
  destruct (parent_weight nq nq' key right Hput Ht Hlen Hqs) as (Hwq & _ & _ & Ht' & Hsz').
  assert (H1q : h1 !! q = Some nq') by apply lookup_insert_eq.
  assert (Es : size h1 = length (nodes_ t)).
  { unfold h1. rewrite !map_size_insert, lookup_insert_ne, Hq, Hr, nmap_size by done. done. }
  pose proof (children_bound h1 E Hf ltac:(lia) Hint) as Hch.
  destruct (inner_node G h1 _ m HT q nq' H1q Ht') as [d Hd].
  destruct (half_of nq' (ii_size _ _ _ _ _ Hd) (kids_length _ _ _ _ _ (ii_kids _ _ _ _ _ Hd)))
    as (ks1 & k & ks2 & cs1 & cs2 & Hk & Hc & Hmid & Hl & Hn1 & Hn2); [lia|].
  pose proof (nmap_put t right nr Hr (set_parent q nr)) as E1. set (t1 := put right (set_parent q nr) t) in *.
  assert (L1 : length (nodes_ t1) = length (nodes_ t)) by (unfold t1, put; simpl; apply length_insert).
  assert (Hkid : forall c, c ∈ cs2 -> c <> q /\ is_Some (nmap (nodes_ t1) !! c)).
  { intros c Hin. destruct (kid_ok G h1 q nq' d c Hd) as [(_ & _ & Hdc & nc & Hnc & _) _].
    { rewrite Hc. apply elem_of_app. by right. }
    pose proof (ii_dep _ _ _ _ _ Hd). assert (c <> q) by (intros ->; lia). split; [done|].
    unfold h1 in Hnc. rewrite lookup_insert_ne in Hnc by done. rewrite E1. by exists nc. }
  destruct (split_node_runs grow t1 q key right k nq nq' ks1 ks2 cs1 cs2) as (ns & Hrun & Hns & Hi2 & Hj2 & Ho2);
    [by rewrite E1, lookup_insert_ne|done|done|done|done|done|rewrite L1; lia| |by intros c [_ Hc2]%Hkid| |by rewrite L1|].
  { pose proof (Hch q nq' H1q Ht') as Hc2. rewrite (kids_length _ _ _ _ _ (ii_kids _ _ _ _ _ Hd)), Hk, length_app in Hc2.
    simpl in Hc2. lia. }
  { intros Hin. by destruct (Hkid q Hin). }
  rewrite L1 in *. set (N := Z.of_nat (length (nodes_ t))) in *.
  assert (HqN : q <> N). { apply nmap_lookup in Hq as [? ?%lookup_lt_Some]. lia. }
  assert (HrN : right <> N). { apply nmap_lookup in Hr as [? ?%lookup_lt_Some]. lia. }
  assert (Hfresh : forall x, N <= x -> h1 !! x = None).
  { intros x Hx. unfold h1. apply nmap_lookup in Hq as [? ?%lookup_lt_Some], Hr as [? ?%lookup_lt_Some].
    rewrite !lookup_insert_ne by lia. by apply nmap_fresh. }
  assert (Ho : forall x, x <> q -> x <> N -> nmap ns !! x = moved_to N cs2 x <$> h1 !! x).
  { intros x Hxq HxN. rewrite Ho2, E1 by done. unfold h1. by rewrite (lookup_insert_ne _ q). }
  assert (Hkk : blt (iv G q).1 (Some k) /\ blt (Some k) (iv G q).2).
  { apply (kids_keys _ (child_ok_blt G h1 q d) _ _ _ _ k (ii_kids _ _ _ _ _ Hd)). rewrite Hk, elem_of_app. right. by left. }
  set (a := set_size _ _) in Hi2. set (b := mkNode _ _ _ _ _ _ _ _ _) in Hj2.
  destruct (attach G h1 (nmap ns) (rootIdx_ t) m HT q N (Z.of_nat (length ns)) k nq' a b [] []) as (G' & Ha & Hdep);
    [done|apply Hfresh; lia|apply Hfresh; lia|lia| |apply Hkk|apply Hkk|done..|].
  { right; try done; simpl; congruence. }
  assert (Hw2 : weight (nmap ns) = weight h1 - weight_of nq' + weight_of a + weight_of b /\
    (full h1 -> 2 <= weight_of a -> 2 <= weight_of b -> full (nmap ns))).
  { apply (weight_split h1 (nmap ns) q N); [done|apply Hfresh; lia|done|done|].
    intros x Hxq HxN. rewrite Ho by done. destruct (h1 !! x); [|done]. simpl. unfold moved_to. by case_decide. }
  assert (weight_of nq' = Z.of_nat (length (cs1 ++ cs2))) as Eq by (unfold weight_of; by rewrite Ht', Hc).
  assert (weight_of a = Z.of_nat (length cs1)) as Ea by (unfold weight_of, a; simpl; by rewrite Ht').
  assert (weight_of b = Z.of_nat (length cs2)) as Eb by done.
  rewrite Eq, Ea, Eb, length_app in Hw2. destruct Hw2 as [Hw2 Hf2].
  exists k, N, (set_nodes ns t1), G'. split; [|split; [|split; [|split]]].
  - eapply runs_bind; [by apply (update_nmap t right nr)|]. exact Hrun.
  - destruct Hp as [_ _ _ Hc1 Hc2]. split; [done|apply Hf2; [done|lia..]| |done|done]. simpl. rewrite Hns. lia.
  - destruct (tv_root _ _ _ _ HT) as (nt & Hnt & _). apply Hdep; intros E'; rewrite E', Hfresh in Hnt by lia; done.
  - apply Hdep; [done|]. intros E'. rewrite E', Hfresh in H1q by lia. done.
  - by exists ns.
Qed.
End parent.

(** [insertIntoParent]: one turn for each level up to the root. *)
Lemma insertIntoParent_runs grow E m : forall fuel t G left key right,
  pending G t left key right m E -> (dep G (rootIdx_ t) - dep G left < fuel)%nat ->
  (exists t', runs (BTree.insertIntoParent grow fuel left key right) t tt t' /\ settled t t' m E) \/
  moves (BTree.insertIntoParent grow fuel left key right) t E.
Proof.
  induction fuel as [|fuel IH]; intros t G left key right Hp Hfuel; [lia|].
  pose proof Hp as [(nl & nr & Hl & Hr & Hlr & Ha) _ _ _ Hmax]. cbn [BTree.insertIntoParent].
  destruct (isRoot nl) eqn:Hroot.
  { destruct (settled_root grow _ _ _ _ _ _ _ nl Hp Hl Hroot) as (t' & Hrun & Hs). left. exists t'. split; [|done].
    eapply runs_bind; [by apply (node_at_nmap t left nl)|]. by rewrite Hroot. }
  destruct Ha as (q & nq & nq' & Hq & Hql & Hqr & Hnq & Ht & Hlen & Hqs & Hdep & Hdr & Hput & HT).
  destruct (Z.ltb_spec (bn_size nq) (maxInternalKeys_ t)) as [Hroom|Hfull].
  { destruct (settled_parent G t left key right q m E nr nq nq' Hp Hr Hqr Hnq Ht Hlen Hqs Hput HT) as (t' & Hrun & Hs).
    left. exists t'. split; [|done].
    eapply runs_bind; [by apply (node_at_nmap t left nl)|]. rewrite Hroot, Hq.
    eapply runs_bind; [by apply (node_ref_nmap t q nq)|]. eapply runs_bind; [by apply (deref_nmap t q nq)|].
    eapply runs_bind; [done|]. rewrite (proj2 (Z.ltb_lt _ _)) by done.
    eapply (runs_bind _ _ _ nq' t); [unfold runs, lift; by rewrite Hput|]. exact Hrun. }
  assert (Hstart : bind (BTree.node_at left) (fun left0 => if isRoot left0 then BTree.new_root grow left key right else
      parent <- BTree.node_ref (parentIdx left0) ;; n <- BTree.deref parent ;; t0 <- get ;;
      if bn_size n <? maxInternalKeys_ t0 then
        n' <- lift (BTree.put_child key right n) ;; BTree.assign parent n' ;; BTree.update right (set_parent (parentIdx left0))
      else
        BTree.update right (set_parent (parentIdx left0)) ;; pr <- BTree.split_node grow (parentIdx left0) key right ;;
        BTree.insertIntoParent grow fuel (parentIdx left0) pr.1 pr.2) t =
    bind (BTree.update right (set_parent q) ;; BTree.split_node grow q key right)
      (fun pr => BTree.insertIntoParent grow fuel q pr.1 pr.2) t).
  { rewrite (bind_runs _ _ _ _ _ (node_at_nmap t left nl Hl)), Hroot, Hq.
    rewrite (bind_runs _ _ _ _ _ (node_ref_nmap t q nq Hnq)), (bind_runs _ _ _ _ _ (deref_nmap t q nq Hnq)).
    rewrite (bind_runs get _ t t t) by done. rewrite (proj2 (Z.ltb_ge _ _)) by done. symmetry. apply bind_assoc. }
  destruct (decide (length (nodes_ t) = nodes_cap t)) as [Hcap|Hcap].
  { right. pose proof (pending_moves G t left key right q m E nr nq nq' Hp Hr Hqr Hnq Ht Hlen Hqs Hput HT grow ltac:(lia) Hcap) as Hm.
    apply (moves_bind _ (fun pr => BTree.insertIntoParent grow fuel q pr.1 pr.2)) in Hm as [H1 H2 H3].
    split; [rewrite Hstart; exact H1|rewrite Hstart; exact H2|done]. }
  destruct (pending_parent G t left key right q m E nr nq nq' Hp Hr Hqr Hnq Ht Hlen Hqs Hput HT grow)
    as (k & N & t1 & G1 & Hrun & Hp1 & Hd1 & Hd2 & ns & ->); [lia|done|].
  destruct (IH (set_nodes ns t) G1 q k N Hp1) as [(t' & Hrun' & [H1 H2 H3 H4 H5 H6])|[H1 H2 H3]].
  { change (rootIdx_ (set_nodes ns t)) with (rootIdx_ t). rewrite Hd1, Hd2. lia. }
  - left. exists t'. split; [|by split]. unfold runs. rewrite Hstart. by eapply runs_bind.
  - right. split; [rewrite Hstart; by eapply undef_after| |done]. by rewrite Hstart, (bind_runs _ _ _ _ _ Hrun).
Qed.

(** [splitLeafAndInsert] up to its call of [insertIntoParent] *)
Section split_leaf.
Context (grow : nat -> nat) (t : BPlusTree) (i key k : Z) (v w : RID) (n n1 : BPlusNode) (e1 e2 : entries).
Let N := Z.of_nat (length (nodes_ t)).
Context (Hn : nmap (nodes_ t) !! i = Some n) (Hput : BTree.put_entry key v n = Ret n1).
Context (Hl : leaf_holds n1 (e1 ++ (k, w) :: e2)).
Context (Hmid : (bn_size n1 + 1) ÷ 2 = Z.of_nat (length e1)).
Context (Hmax : Z.of_nat (length (nodes_ t)) < INT_MAX) (Hint : Z.of_nat (length (e1 ++ (k, w) :: e2)) < INT_MAX).

Definition left_leaf : BPlusNode :=
  set_next N (set_size (Z.of_nat (length e1)) (set_values e1.*2 (set_keys e1.*1 n1))).
Definition right_leaf : BPlusNode :=
  mkNode LEAF false (u32 N) (parentIdx n1) (Z.of_nat (length ((k, w) :: e2))) ((k, w) :: e2).*1 ((k, w) :: e2).*2
    [] (nextLeafIdx n1).

(** The vector is full: the reference to the leaf is lost. *)
Lemma split_leaf_moves E :
  length (nodes_ t) = nodes_cap t -> Z.of_nat (nodes_cap t) < 2 * E -> moves (BTree.splitLeafAndInsert grow i key v) t E.
Proof.
  intros Hfull Hs. pose proof (nmap_put t i n Hn n1) as E1. set (t1 := put i n1 t) in *.
  assert (L1 : length (nodes_ t1) = length (nodes_ t)) by (unfold t1, put; simpl; apply length_insert).
  unfold BTree.splitLeafAndInsert. eapply moves_after; [by apply (node_ref_nmap t i n)|done|done|].
  eapply moves_after; [by apply (deref_nmap t i n)|done|done|].
  eapply (moves_after _ _ _ n1 t); [unfold runs, lift; by rewrite Hput|done|done|].
  eapply (moves_after _ _ _ tt t1); [apply assign_runs|done|done|].
  apply (stale_moves grow t1); rewrite ?L1; done.
Qed.

(** Otherwise both halves are written and [insertIntoParent] runs, or moves. *)
Lemma split_leaf_runs : length (nodes_ t) <> nodes_cap t -> exists ns,
  BTree.splitLeafAndInsert grow i key v t = BTree.insertIntoParent grow (S (length ns)) i k N (set_nodes ns t) /\
  length ns = S (length (nodes_ t)) /\ nmap ns = <[N := right_leaf]> (<[i := left_leaf]> (nmap (nodes_ t))).
Proof.
  intros Hcap. set (r2 := (k, w) :: e2) in *. pose proof Hl as [_ Hk Hv _ _]. rewrite fmap_app in Hk. rewrite fmap_app in Hv.
  set (f := fresh_node LEAF N).
  set (m1 := set_size (Z.of_nat (length r2.*1)) (set_values r2.*2 (set_keys r2.*1 f))).
  set (a1 := set_size (Z.of_nat (length e1)) (set_values e1.*2 (set_keys e1.*1 n1))).
  set (m2 := set_next (nextLeafIdx n1) m1). set (m3 := set_parent (parentIdx n1) m2).
  assert (HiN : i <> N). { apply nmap_lookup in Hn as [? ?%lookup_lt_Some]. lia. }
  assert (HN : nmap (nodes_ t) !! N = None) by by apply nmap_fresh. set (h := nmap (nodes_ t)) in *.
  pose proof (nmap_put t i n Hn n1) as E1. set (t1 := put i n1 t) in *.
  assert (L1 : length (nodes_ t1) = length (nodes_ t)) by (unfold t1, put; simpl; apply length_insert).
  assert (E2 : nmap (nodes_ (alloc f t1)) = <[N := f]> (<[i := n1]> h)).
  { change (nodes_ (alloc f t1)) with (nodes_ t1 ++ [f]). by rewrite nmap_app, L1, E1. }
  set (t2 := alloc f t1) in *.
  assert (H2 : nmap (nodes_ t2) !! N = Some f) by (rewrite E2; apply lookup_insert_eq).
  pose proof (nmap_put t2 N f H2 m1) as E3. set (t3 := put N m1 t2) in *. rewrite E2, insert_insert_eq in E3.
  assert (H3 : nmap (nodes_ t3) !! i = Some n1) by (rewrite E3, lookup_insert_ne by done; apply lookup_insert_eq).
  pose proof (nmap_put t3 i n1 H3 a1) as E4. set (t4 := put i a1 t3) in *.
  assert (H4i : nmap (nodes_ t4) !! i = Some a1) by (rewrite E4; apply lookup_insert_eq).
  assert (H4 : nmap (nodes_ t4) !! N = Some m1) by (rewrite E4, lookup_insert_ne, E3 by done; apply lookup_insert_eq).
  pose proof (nmap_put t4 N m1 H4 m2) as E5. set (t5 := put N m2 t4) in *.
  assert (H5 : nmap (nodes_ t5) !! i = Some a1) by (rewrite E5, lookup_insert_ne by done; exact H4i).
  pose proof (nmap_put t5 i a1 H5 left_leaf) as E6. set (t6 := put i left_leaf t5) in *.
  assert (H6 : nmap (nodes_ t6) !! N = Some m2) by (rewrite E6, lookup_insert_ne, E5 by done; apply lookup_insert_eq).
  pose proof (nmap_put t6 N m2 H6 m3) as E7. set (t7 := put N m3 t6) in *.
  assert (H6i : nmap (nodes_ t6) !! i = Some left_leaf) by (rewrite E6; apply lookup_insert_eq).
  exists (nodes_ t7). split; [|split].
  - unfold BTree.splitLeafAndInsert. rewrite (bind_runs _ _ _ _ _ (node_ref_nmap t i n Hn)).
    rewrite (bind_runs _ _ _ _ _ (deref_nmap t i n Hn)), (bind_runs _ _ _ n1 t) by (unfold runs, lift; by rewrite Hput).
    rewrite (bind_runs _ _ _ tt t1) by apply assign_runs. rewrite (bind_runs _ _ _ N t2).
    2: { pose proof (alloc_runs grow t1 LEAF ltac:(by rewrite L1) ltac:(by rewrite L1)) as Ha. rewrite L1 in Ha. exact Ha. }
    rewrite (bind_runs _ _ _ _ _ (node_ref_nmap t2 N f H2)), (bind_runs _ _ _ n1 t2).
    2: { apply (deref_nmap t2 i n1). rewrite E2, lookup_insert_ne by done. apply lookup_insert_eq. }
    rewrite (bind_runs _ _ _ (bn_size n1 + 1) t2) by (unfold runs, lift; by rewrite int_succ_ret by by rewrite (lh_size _ _ Hl)).
    cbv zeta. rewrite Hmid.
    rewrite (bind_runs _ _ _ r2.*1 t2) by (unfold runs, lift; by rewrite Hk, vec_from_app by by rewrite length_fmap).
    rewrite (bind_runs _ _ _ r2.*2 t2) by (unfold runs, lift; by rewrite Hv, vec_from_app by by rewrite length_fmap).
    rewrite i32_small by (rewrite length_fmap; revert Hint; fold r2; rewrite length_app; unfold_int; lia).
    rewrite (bind_runs _ _ _ _ _ (update_ref_nmap t2 N f H2 _)). fold m1. fold t3.
    rewrite (bind_runs _ _ _ e1.*1 t3) by (unfold runs, lift; by rewrite Hk, vec_trim_app by by rewrite length_fmap).
    rewrite (bind_runs _ _ _ e1.*2 t3) by (unfold runs, lift; by rewrite Hv, vec_trim_app by by rewrite length_fmap).
    rewrite (bind_runs _ _ _ tt t4) by by apply (update_ref_nmap t3 i n1).
    rewrite (bind_runs _ _ _ a1 t4) by by apply (deref_nmap t4 i a1).
    rewrite (bind_runs _ _ _ tt t5) by by apply (update_ref_nmap t4 N m1).
    rewrite (bind_runs _ _ _ tt t6) by by apply (update_ref_nmap t5 i a1).
    rewrite (bind_runs _ _ _ m2 t6) by by apply (deref_nmap t6 N m2).
    rewrite (bind_runs _ _ _ k t6) by done.
    rewrite (bind_runs _ _ _ left_leaf t6) by by apply (deref_nmap t6 i left_leaf).
    rewrite (bind_runs _ _ _ tt t7) by by apply (update_ref_nmap t6 N m2).
    by rewrite (bind_runs _ _ _ t7 t7).
  - unfold t7, t6, t5, t4, t3, t2, t1, put, alloc. simpl. rewrite !length_insert, length_app, length_insert. simpl. lia.
  - assert (m3 = right_leaf) as <- by (unfold m3, m2, m1, right_leaf; fold r2; by rewrite length_fmap).
    rewrite E7, E6, E5, E4, E3. apply map_eq. intros x. rewrite !lookup_insert. repeat case_decide; congruence.
Qed.
End split_leaf.
