(* ===== verification/IndexThms.v ===== *)
(** * Theorems of trees of any size

    Search, insertion and range scans on trees of any height are those of a
    finite map until the vector of nodes moves while a node is split, which is
    undefined; removal, which does not refill internal nodes, is undefined in
    every tree where it leaves a parent with one leaf. *)
From stdpp Require Import base numbers list sorting strings gmap functions.
From Stdlib Require Import ZArith Lia.
From S2P Require Import Prelude Common BTree BTreeThms IndexTree IndexGrowth.

(** ** The search from the root *)
Section walk.
Context (t : BPlusTree) (G : ghost) (m : imap) (HT : tree_inv G (nmap (nodes_ t)) (rootIdx_ t) m).

Lemma descend_runs key : forall fuel i n,
  nmap (nodes_ t) !! i = Some n -> within (iv G i) key -> (dep G i < fuel)%nat ->
  exists l nl, runs (BTree.descend fuel i key) t l t /\ nmap (nodes_ t) !! l = Some nl /\
    bn_type nl = LEAF /\ within (iv G l) key.
Proof.
  induction fuel as [|fuel IH]; intros i n Hn Hw Hd; [lia|]. cbn [BTree.descend].
  destruct (bn_type n) eqn:Ht.
  - destruct (inner_node G _ _ m HT i n Hn Ht) as [d [_ Hs Hdep Hkids]].
    destruct (kids_find _ _ _ _ _ key 0 Hkids) as (j & c & a & b & Hpos & Hc & Hok & Hwc);
      [by destruct (iv G i)|].
    destruct Hok as (Hiv & _ & Hdc & nc & Hnc & _).
    destruct (IH c nc Hnc) as (l & nl & Hrun & H); [by rewrite Hiv|lia|]. exists l, nl. split; [|done].
    eapply runs_bind; [by apply (node_at_nmap t i n)|]. rewrite Ht, Hs, Nat2Z.id.
    eapply (runs_bind _ _ _ (0 + Z.of_nat j) t); [unfold runs, lift; by rewrite Hpos|].
    eapply (runs_bind _ _ _ c t); [|exact Hrun]. unfold runs, lift, vec_at.
    rewrite (proj2 (Z.leb_le _ _)) by lia. replace (Z.to_nat (0 + Z.of_nat j)) with j by lia. by rewrite Hc.
  - exists i, n. split; [|done]. eapply runs_bind; [by apply (node_at_nmap t i n)|]. by rewrite Ht.
Qed.

(** Every depth below the root's has a node, so the vector is long enough. *)
Lemma depth_nodes : forall e d, (d + e = dep G (rootIdx_ t))%nat -> exists i n, nmap (nodes_ t) !! i = Some n /\ dep G i = d.
Proof.
  induction e as [|e IH]; intros d Hd.
  - destruct (tv_root _ _ _ _ HT) as (n & Hn & _). exists (rootIdx_ t), n. split; [done|lia].
  - destruct (IH (S d)) as (i & n & Hn & Hi); [lia|].
    destruct (tv_node _ _ _ _ HT i n Hn) as [[_ H0 _ _]|[d' [_ _ Hd' Hk]]]; [lia|].
    assert (d' = d) as -> by lia. destruct (childIndices n) as [|c cs] eqn:Ec; [by destruct (keys n)|].
    destruct (kids_elem _ (child_ok_blt G _ i d) _ _ _ _ c Hk ltac:(by left)) as (a & b & (_ & _ & Hdc & nc & Hnc & _) & _).
    by exists c, nc.
Qed.

Lemma depth_bound : (dep G (rootIdx_ t) < length (nodes_ t))%nat.
Proof.
  assert (Hsub : seq 0 (S (dep G (rootIdx_ t))) ⊆+ (dep G <$> seqZ 0 (Z.of_nat (length (nodes_ t))))).
  { apply NoDup_submseteq; [apply NoDup_seq|]. intros d Hd%elem_of_seq.
    destruct (depth_nodes (dep G (rootIdx_ t) - d) d) as (i & n & Hn & <-); [lia|].
    apply list_elem_of_fmap_2. apply elem_of_seqZ. apply nmap_lookup in Hn as [? ?%lookup_lt_Some]. lia. }
  apply submseteq_length in Hsub. rewrite length_fmap, length_seqZ, length_seq in Hsub. lia.
Qed.

Lemma findLeaf_runs key : exists l nl, runs (BTree.findLeaf key) t l t /\ 0 <= l /\
  nmap (nodes_ t) !! l = Some nl /\ bn_type nl = LEAF /\ within (iv G l) key /\ leaf_inv G (nmap (nodes_ t)) l nl.
Proof.
  destruct (tv_root _ _ _ _ HT) as (n & Hn & Hr). pose proof (tv_up _ _ _ _ HT _ n Hn) as Hu.
  unfold up_inv in Hu. rewrite Hr in Hu. destruct Hu as [_ Hiv].
  destruct (descend_runs key (S (length (nodes_ t))) (rootIdx_ t) n Hn) as (l & nl & Hrun & Hl & Ht & Hw).
  { by rewrite Hiv. }
  { pose proof depth_bound. lia. }
  exists l, nl. split; [|split; [by apply nmap_lookup in Hl as [? _]|split; [done|split; [done|split; [done|]]]]].
  - unfold BTree.findLeaf. eapply runs_bind; [done|].
    apply nmap_lookup in Hn as [? _]. by rewrite (proj2 (Z.ltb_ge _ _)).
  - by eapply leaf_node.
Qed.

(** the loop over the leaf's keys, when it is found there or not *)
Lemma find_key_leaf l nl key : leaf_inv G (nmap (nodes_ t)) l nl ->
  exists o, BTree.find_key (keys nl) key 0 (Z.to_nat (bn_size nl)) = Ret o /\
    match o with
    | Some j => exists v, vec_at (values nl) j = Ret v /\ (list_to_map (ent G l) : imap) !! key = Some v
    | None => (list_to_map (ent G l) : imap) !! key = None
    end.
Proof.
  intros [[_ Hk Hv Hsz Hs] _ _ _]. rewrite Hk, Hv, Hsz, Nat2Z.id, find_key_spec, lookup_entries by done.
  destruct (list_find _ (ent G l)) as [[j x]|] eqn:Hf; eexists; (split; [done|]); simpl; [|done].
  apply list_find_Some in Hf as (Hj & _ & _). exists x.2. split; [|done]. unfold vec_at.
  rewrite (proj2 (Z.leb_le _ _)) by lia. replace (Z.to_nat (0 + Z.of_nat j)) with j by lia.
  by rewrite list_lookup_fmap, Hj.
Qed.

Lemma search_tree key : runs (BTree.search key) t (m !! key) t.
Proof.
  destruct (findLeaf_runs key) as (l & nl & Hrun & Hl0 & Hl & Ht & Hw & Hli).
  destruct (find_key_leaf l nl key Hli) as (o & Ho & Hm).
  rewrite (tv_map _ _ _ _ HT l nl key Hl Ht Hw). unfold BTree.search.
  eapply runs_bind; [exact Hrun|]. rewrite (proj2 (Z.ltb_ge _ _)) by done.
  eapply runs_bind; [by apply (node_at_nmap t l nl)|].
  eapply (runs_bind _ _ _ o t); [unfold runs, lift; by rewrite Ho|].
  destruct o as [j|]; [|by rewrite Hm]. destruct Hm as (v & Hv & ->).
  eapply (runs_bind _ _ _ v t); [unfold runs, lift; by rewrite Hv|]. done.
Qed.
End walk.

(** ** Insertion *)
(** The tree shows the map. *)
Record tree_shows (t : BPlusTree) (m : imap) : Prop := {
  ts_count : entryCount_ t = Z.of_nat (size m);
  ts_leaf : 2 <= maxLeafKeys_ t;
  ts_inner : 2 <= maxInternalKeys_ t;
  ts_root : (rootIdx_ t < 0 /\ m = ∅ /\ nodes_ t = []) \/
    ((exists G, tree_inv G (nmap (nodes_ t)) (rootIdx_ t) m) /\ full (nmap (nodes_ t)) /\
     weight (nmap (nodes_ t)) + 1 = 2 * Z.of_nat (size m) + Z.of_nat (length (nodes_ t)));
}.

Lemma put_entry_fields key v n n' : BTree.put_entry key v n = Ret n' ->
  parentIdx n' = parentIdx n /\ childIndices n' = childIndices n.
Proof.
  unfold BTree.put_entry. cbv zeta. destruct (vec_insert _ _ key); [|done..]. cbn [obind].
  destruct (vec_insert _ _ v); [|done..]. cbn [obind]. destruct (int_succ _); [|done..]. by intros [= <-].
Qed.

(** where a full leaf splits *)
Lemma leaf_halves_of (kvs : entries) : (2 <= length kvs)%nat ->
  exists e1 k w e2, kvs = e1 ++ (k, w) :: e2 /\ e1 <> [] /\ (Z.of_nat (length kvs) + 1) ÷ 2 = Z.of_nat (length e1).
Proof.
  intros H2. set (sp := Z.to_nat ((Z.of_nat (length kvs) + 1) ÷ 2)).
  assert (Hq : 2 * ((Z.of_nat (length kvs) + 1) ÷ 2) <= Z.of_nat (length kvs) + 1 <
               2 * ((Z.of_nat (length kvs) + 1) ÷ 2) + 2).
  { rewrite Z.quot_div_nonneg by lia. pose proof (Z.div_mod (Z.of_nat (length kvs) + 1) 2).
    pose proof (Z.mod_pos_bound (Z.of_nat (length kvs) + 1) 2). lia. }
  destruct (lookup_lt_is_Some_2 kvs sp) as [[k w] Hk]; [lia|].
  exists (take sp kvs), k, w, (drop (S sp) kvs). split; [symmetry; by apply take_drop_middle|].
  split; [|rewrite length_take; lia]. intros E. apply (f_equal length) in E. rewrite length_take in E. simpl in E. lia.
Qed.

Section into_leaf.
Context (grow : nat -> nat) (t : BPlusTree) (G : ghost) (m : imap) (i key : Z) (v : RID) (n n1 : BPlusNode) (pre post : entries).
Let h := nmap (nodes_ t).
Let h1 := <[i := n1]> h.
Let G1 := entry_ghost G i key v pre post.
Context (HT1 : tree_inv G1 h1 (rootIdx_ t) (<[key := v]> m)) (Hfull : full h).
Context (Hw : weight h + 1 = 2 * Z.of_nat (size m) + Z.of_nat (length (nodes_ t))) (Hnone : m !! key = None).
Context (Hn : h !! i = Some n) (Ht : bn_type n = LEAF) (Hkeys : length (keys n) = length (pre ++ post)).
Context (Hput : BTree.put_entry key v n = Ret n1) (Hl : leaf_holds n1 (pre ++ (key, v) :: post)).

Lemma entry_size : size h1 = length (nodes_ t).
Proof. unfold h1, h. rewrite <- (nmap_insert _ _ n1 _ Hn), nmap_size. apply length_insert. Qed.

Lemma entry_weight : full h1 /\
  weight h1 + 1 = 2 * Z.of_nat (size (<[key := v]> m)) + Z.of_nat (length (nodes_ t)).
Proof.
  assert (Hw1 : weight_of n1 = weight_of n + 2).
  { unfold weight_of. rewrite (lh_type _ _ Hl), Ht, (lh_keys _ _ Hl), Hkeys, length_fmap, !length_app. simpl. lia. }
  split; [apply full_insert; [done|]; pose proof (Hfull _ _ Hn); simpl in *; lia|].
  unfold h1. rewrite (weight_replace _ i _ n), map_size_insert_None by done. lia.
Qed.

Context (Hmax : 2 <= maxInternalKeys_ t) (Hint : 2 * Z.of_nat (size (<[key := v]> m)) <= INT_MAX).
Context (Hlong : (2 <= length (pre ++ (key, v) :: post))%nat).

(** The leaf is cut at [k], and the vector then holds both halves. *)
Section cut.
Context (ns : list BPlusNode) (e1 e2 : entries) (k : Z) (w : RID).
Let N := Z.of_nat (length (nodes_ t)).
Let a := left_leaf t n1 e1.
Let b := right_leaf t k w n1 e2.
Context (Ekvs : pre ++ (key, v) :: post = e1 ++ (k, w) :: e2) (He1 : e1 <> []).
Context (Hns : length ns = S (length (nodes_ t))) (Ens : nmap ns = <[N := b]> (<[i := a]> h)).

Lemma cut_index : i < N.
Proof. pose proof Hn as [_ ?%lookup_lt_Some]%nmap_lookup. pose proof Hn as [? _]%nmap_lookup. lia. Qed.
Lemma cut_fresh x : N <= x -> h1 !! x = None.
Proof. intros Hx. pose proof cut_index. unfold h1. rewrite lookup_insert_ne by lia. by apply nmap_fresh. Qed.
Lemma cut_holds : leaf_holds n1 (e1 ++ (k, w) :: e2).
Proof. by rewrite <- Ekvs. Qed.
Lemma cut_lookup : nmap ns !! i = Some a /\ nmap ns !! N = Some b /\
  forall x, x <> i -> x <> N -> nmap ns !! x = h1 !! x.
Proof.
  pose proof cut_index. rewrite Ens. split; [rewrite lookup_insert_ne by lia; apply lookup_insert_eq|].
  split; [apply lookup_insert_eq|]. intros x Hxi HxN. unfold h1. by rewrite !lookup_insert_ne.
Qed.

Lemma cut_splits : splits G1 i n1 k N a b e1 ((k, w) :: e2).
Proof.
  pose proof cut_holds as [Hlt Hlk Hlv Hls Hs]. apply key_sorted_app in Hs as (Hs1 & Hs2 & Hs12).
  left; [done|by split|by split| | | |done|done|done].
  - unfold G1, entry_ghost. simpl. by rewrite fn_lookup_insert.
  - intros x Hx. by apply (Hs12 x (k, w) Hx ltac:(by left)).
  - intros x Hx. apply key_sorted_cons in Hs2 as [_ Hs2]. apply elem_of_cons in Hx as [->|Hx]; [done|].
    specialize (Hs2 x Hx). simpl in Hs2. lia.
Qed.

Lemma cut_bounds : blt (iv G1 i).1 (Some k) /\ blt (Some k) (iv G1 i).2.
Proof.
  pose proof cut_holds as [Hlt _ _ _ Hs]. apply key_sorted_app in Hs as (_ & _ & Hs12).
  pose proof (leaf_node G1 h1 _ _ HT1 i n1 (lookup_insert_eq _ _ _) Hlt) as [_ _ Hw1 _].
  assert (Hent : ent G1 i = e1 ++ (k, w) :: e2) by (unfold G1, entry_ghost; simpl; by rewrite fn_lookup_insert).
  rewrite Hent in Hw1. pose proof (Hw1 (k, w) ltac:(apply elem_of_app; right; by left)) as Hwk. clear -Hwk Hw1 He1 Hs12.
  destruct e1 as [|x e1']; [done|]. pose proof (Hw1 x ltac:(by left)) as Hwx.
  pose proof (Hs12 x (k, w) ltac:(by left) ltac:(by left)) as Hxk. clear -Hwk Hwx Hxk. simpl in Hwk, Hxk. split; interval.
Qed.

Lemma cut_attached : exists G', attached G' (nmap ns) (rootIdx_ t) i k N (Z.of_nat (length ns)) (<[key := v]> m) /\
  (dep G' (rootIdx_ t) - dep G' i < S (length ns))%nat.
Proof.
  pose proof cut_index. destruct cut_lookup as (Hi2 & Hj2 & Ho2).
  destruct (attach G1 h1 (nmap ns) (rootIdx_ t) _ HT1 i N (Z.of_nat (length ns)) k n1 a b e1 ((k, w) :: e2))
    as (G' & Ha & Hdep); [apply lookup_insert_eq|apply cut_fresh; lia|apply cut_fresh; lia|lia|apply cut_splits
      |apply cut_bounds|apply cut_bounds|done..| | |].
  { intros x Hxi HxN. rewrite Ho2 by done. unfold moved_to. simpl. by destruct (h1 !! x). }
  { destruct entry_weight as [Hf1 Hw1]. apply (children_bound h1 (Z.of_nat (size (<[key := v]> m)))); [done| |done].
    rewrite entry_size. lia. }
  exists G'. split; [done|]. destruct (tv_root _ _ _ _ HT1) as (nt & Hnt & _).
  assert (forall x, N <= x -> rootIdx_ t <> x) as Hne by (intros x Hx E; rewrite E, cut_fresh in Hnt; done).
  rewrite !Hdep by (lia || apply Hne; lia). assert (Eh : nmap (nodes_ (put i n1 t)) = h1) by by apply (nmap_put t i n).
  assert (HTp : tree_inv G1 (nmap (nodes_ (put i n1 t))) (rootIdx_ (put i n1 t)) (<[key := v]> m)) by by rewrite Eh.
  pose proof (depth_bound (put i n1 t) G1 _ HTp) as Hb. unfold put in Hb. simpl in Hb. rewrite length_insert in Hb.
  change (dep G1 (rootIdx_ t)) with (dep G (rootIdx_ t)). lia.
Qed.

Lemma cut_weight : full (nmap ns) /\ weight (nmap ns) = weight h1.
Proof.
  pose proof cut_index. destruct cut_lookup as (Hi2 & Hj2 & Ho2). pose proof cut_holds as [Hlt Hlk _ _ _].
  assert (Ea : weight_of a = 2 * Z.of_nat (length e1)).
  { unfold weight_of, a, left_leaf. simpl. by rewrite Hlt, length_fmap. }
  assert (Eb : weight_of b = 2 * Z.of_nat (S (length e2))).
  { unfold weight_of, b, right_leaf. simpl. by rewrite length_fmap. }
  assert (En : weight_of n1 = 2 * Z.of_nat (length e1) + 2 * Z.of_nat (S (length e2))).
  { unfold weight_of. rewrite Hlt, Hlk, length_fmap, length_app. simpl. lia. }
  destruct (weight_split h1 (nmap ns) i N n1 a b) as [Hw2 Hf2];
    [apply lookup_insert_eq|apply cut_fresh; lia|done|done|intros x Hxi HxN; by rewrite Ho2|].
  assert (length e1 <> 0)%nat by by destruct e1. split; [apply Hf2; [apply entry_weight|lia..]|lia].
Qed.
End cut.

Lemma entry_nodes : Z.of_nat (length (nodes_ t)) < 2 * Z.of_nat (size (<[key := v]> m)).
Proof. destruct entry_weight as [Hf1 Hw1]. apply weight_full in Hf1. rewrite entry_size in Hf1. lia. Qed.

Lemma entry_length : Z.of_nat (length (pre ++ (key, v) :: post)) < INT_MAX.
Proof.
  destruct entry_weight as [Hf1 Hw1]. pose proof (weight_node h1 i n1 Hf1 (lookup_insert_eq _ _ _)) as Hn1.
  unfold weight_of in Hn1. rewrite (lh_type _ _ Hl), (lh_keys _ _ Hl), length_fmap, entry_size in Hn1.
  pose proof Hn as [_ ?%lookup_lt_Some]%nmap_lookup. assert (E : INT_MAX = 2147483647) by done. lia.
Qed.

Lemma split_insert :
  (exists t', runs (BTree.splitLeafAndInsert grow i key v) t tt t' /\
    settled t t' (<[key := v]> m) (Z.of_nat (size (<[key := v]> m)))) \/
  moves (BTree.splitLeafAndInsert grow i key v) t (Z.of_nat (size (<[key := v]> m))).
Proof.
  destruct entry_weight as [_ Hw1]. pose proof entry_nodes as Hroom. pose proof entry_length as Hlen.
  destruct (leaf_halves_of _ Hlong) as (e1 & k & w & e2 & Ekvs & He1 & Hmid).
  destruct (decide (length (nodes_ t) = nodes_cap t)) as [Hcap|Hcap].
  { right. apply (split_leaf_moves grow t i key v n n1); [done|done|lia|done|lia]. }
  destruct (split_leaf_runs grow t i key k v w n n1 e1 e2) as (ns & Hrun & Hns & Ens);
    [done|done|by apply cut_holds|by rewrite (lh_size _ _ Hl)|lia|by rewrite <- Ekvs|done|].
  destruct (cut_attached ns e1 e2 k w Ekvs He1 Hns Ens) as (G' & Ha & Hfuel).
  destruct (cut_weight ns e1 e2 k w Ekvs He1 Hns Ens) as [Hf2 Hw2].
  destruct (insertIntoParent_runs grow (Z.of_nat (size (<[key := v]> m))) (<[key := v]> m) (S (length ns))
              (set_nodes ns t) G' i k (Z.of_nat (length (nodes_ t)))) as [(t' & Hrun' & Hset)|[H1 H2 H3]]; [|done|..].
  - split; [done|done| |done|done]. simpl. rewrite Hns. lia.
  - left. exists t'. split; [by unfold runs; rewrite Hrun|]. destruct Hset. by split.
  - right. split; rewrite ?Hrun; done.
Qed.
End into_leaf.

Section insert.
Context (grow : nat -> nat).

(** The first entry makes a leaf. *)
Lemma insert_empty_tree t key v :
  tree_shows t ∅ -> rootIdx_ t < 0 -> nodes_ t = [] ->
  exists t', runs (BTree.insert grow key v) t true t' /\ tree_shows t' {[key := v]}.
Proof.
  intros [Hc Hml Hmi _] Hr Hnil.
  set (n0 := fresh_node LEAF 0). set (t1 := set_root 0 (BTree.push_node grow n0 t)).
  set (n1 := set_size 1 (set_values [v] (set_keys [key] (set_isRoot true n0)))).
  assert (E1 : nodes_ t1 = [n0]) by (unfold t1, BTree.push_node; simpl; by rewrite Hnil).
  assert (H1 : nmap (nodes_ t1) !! 0 = Some n0) by by rewrite E1.
  assert (E2 : nodes_ (put 0 n1 t1) = [n1]) by (unfold put; simpl; by rewrite Hnil).
  exists (set_count (entryCount_ t + 1) (put 0 n1 t1)). split.
  - unfold BTree.insert. eapply runs_bind; [done|]. rewrite (proj2 (Z.ltb_lt _ _)) by done.
    eapply (runs_bind _ _ _ 0 (BTree.push_node grow n0 t)).
    { pose proof (allocateNode_runs grow t LEAF) as H. rewrite Hnil in H. by apply H. }
    eapply (runs_bind _ _ _ tt t1); [done|].
    eapply (runs_bind _ _ _ tt (put 0 n1 t1)); [by apply (update_nmap t1 0 n0)|].
    eapply runs_bind; [apply (count_up_runs (put 0 n1 t1)); simpl; by rewrite Hc|done].
  - assert (EM : nmap [n1] = {[0 := n1]}) by done.
    assert (Hat : forall x nx, nmap [n1] !! x = Some nx -> x = 0 /\ nx = n1).
    { intros x nx. rewrite EM, lookup_singleton_Some. by intros [-> ->]. }
    split; [rewrite map_size_singleton; simpl; rewrite Hc, map_size_empty; lia|done|done|]. right.
    change (nodes_ (set_count (entryCount_ t + 1) (put 0 n1 t1))) with (nodes_ (put 0 n1 t1)). rewrite E2.
    split; [|split].
    + exists (mkGhost (fun _ => (None, None)) (fun _ => 0%nat) (fun _ => [(key, v)])). split.
      * intros x nx [-> ->]%Hat. left. split; try done. split; try done. repeat constructor.
      * intros x nx [-> ->]%Hat. done.
      * by exists n1.
      * done.
      * intros x nx k [-> ->]%Hat _ _. simpl. by rewrite insert_empty.
    + intros x nx [-> ->]%Hat. done.
    + by rewrite map_size_singleton.
Qed.

Definition after_insert (m : imap) (key : Z) (v : RID) : imap :=
  match m !! key with None => <[key := v]> m | Some _ => m end.

(** an insertion once its leaf is found and searched *)
Lemma insert_starts t G m key v l nl o :
  tree_inv G (nmap (nodes_ t)) (rootIdx_ t) m -> runs (BTree.findLeaf key) t l t -> nmap (nodes_ t) !! l = Some nl ->
  BTree.find_key (keys nl) key 0 (Z.to_nat (bn_size nl)) = Ret o ->
  BTree.insert grow key v t = match o with Some _ => ret false | None =>
    (if bn_size nl <? maxLeafKeys_ t then BTree.insertIntoLeaf l key v else BTree.splitLeafAndInsert grow l key v) ;;
    BTree.count_up ;; ret true end t.
Proof.
  intros HT Hrun Hl Ho. unfold BTree.insert. rewrite (bind_runs _ _ t t t) by done.
  destruct (tv_root _ _ _ _ HT) as (nt & [Hr0 _]%nmap_lookup & _). rewrite (proj2 (Z.ltb_ge _ _)) by done.
  rewrite (bind_runs _ _ _ _ _ Hrun), (bind_runs _ _ _ _ _ (node_at_nmap t l nl Hl)).
  by rewrite (bind_runs _ _ _ o t) by (unfold runs, lift; by rewrite Ho).
Qed.

Lemma insertIntoLeaf_runs t l nl n1 key v :
  nmap (nodes_ t) !! l = Some nl -> BTree.put_entry key v nl = Ret n1 -> entryCount_ t < INT_MAX ->
  runs (BTree.insertIntoLeaf l key v ;; BTree.count_up ;; ret true) t true (set_count (entryCount_ t + 1) (put l n1 t)).
Proof.
  intros Hl Hput Hc. eapply (runs_bind _ _ _ tt (put l n1 t)); [|eapply runs_bind; [by apply count_up_runs|done]].
  unfold BTree.insertIntoLeaf. eapply runs_bind; [by apply (node_ref_nmap t l nl)|].
  eapply runs_bind; [by apply (deref_nmap t l nl)|].
  eapply (runs_bind _ _ _ n1 t); [unfold runs, lift; by rewrite Hput|]. apply assign_runs.
Qed.

Lemma insert_tree t m key v :
  tree_shows t m -> 2 * (Z.of_nat (size m) + 1) <= INT_MAX ->
  (exists t', runs (BTree.insert grow key v) t (bool_decide (m !! key = None)) t' /\
    tree_shows t' (after_insert m key v)) \/
  (m !! key = None /\ moves (BTree.insert grow key v) t (Z.of_nat (size m) + 1)).
Proof.
  intros Hs Hint. pose proof Hs as [Hc Hml Hmi [(Hr & -> & Hnil)|((G & HT) & Hf & Hw)]].
  { destruct (insert_empty_tree t key v Hs Hr Hnil) as (t' & Hrun & Hs').
    left. exists t'. unfold after_insert. by rewrite lookup_empty, insert_empty. }
  destruct (findLeaf_runs t G m HT key) as (l & nl & Hrun & Hl0 & Hl & Ht & Hwl & Hli).
  destruct (find_key_leaf t G l nl key Hli) as (o & Ho & Hm).
  pose proof (tv_map _ _ _ _ HT l nl key Hl Ht Hwl) as Hmk. unfold after_insert in *.
  pose proof (insert_starts t G m key v l nl o HT Hrun Hl Ho) as Hstart.
  destruct o as [j|].
  { destruct Hm as (w & _ & Hm). rewrite Hmk, Hm in *. rewrite bool_decide_false by done. left. by exists t. }
  rewrite Hm in Hmk. rewrite Hmk in *. rewrite bool_decide_true by done.
  assert (Esize : Z.of_nat (size (<[key := v]> m)) = Z.of_nat (size m) + 1) by (rewrite map_size_insert_None by done; lia).
  pose proof Hli as [Hlh _ _ _]. destruct (entry_place (ent G l) key) as (pre & post & Hent & Hlb & Hpre & Hpost);
    [apply Hlh|done|].
  rewrite Hent in Hlh.
  assert (Hkeys : length (keys nl) = length (pre ++ post)) by by rewrite (lh_keys _ _ Hlh), length_fmap.
  assert (Hmax : bn_size nl < INT_MAX).
  { rewrite (lh_size _ _ Hlh). pose proof (weight_node _ l nl Hf Hl) as Hwn. unfold weight_of in Hwn.
    rewrite Ht, Hkeys, nmap_size in Hwn. pose proof Hl as [_ ?%lookup_lt_Some]%nmap_lookup. lia. }
  destruct (put_entry_holds nl pre post key v Hlh Hpre Hpost) as (n1 & Hput & Hl1 & Hr1 & Hx1);
    [by rewrite (lh_keys _ _ Hlh), <- Hent|done|].
  destruct (put_entry_fields _ _ _ _ Hput) as [Hp1 _].
  pose proof (entry_inv G _ _ m HT l key v nl n1 pre post Hl Ht Hent Hwl Hl1 Hr1 Hp1 Hx1) as HT1.
  destruct (Z.ltb_spec (bn_size nl) (maxLeafKeys_ t)) as [Hlt|Hge].
  - destruct (entry_weight t m l key v nl n1 pre post) as [Hf1 Hw1]; [done..|].
    left. exists (set_count (entryCount_ t + 1) (put l n1 t)). split.
    + unfold runs. rewrite Hstart. apply (insertIntoLeaf_runs t l nl); [done|done|lia].
    + split; [simpl; rewrite Hc; lia|done|done|]. right.
      change (nodes_ (set_count (entryCount_ t + 1) (put l n1 t))) with (nodes_ (put l n1 t)).
      rewrite (nmap_put t l nl Hl n1). split; [by eexists|]. split; [done|].
      unfold put. simpl. by rewrite length_insert.
  - destruct (split_insert grow t G m l key v nl n1 pre post) as [(t' & Hrun' & [H1 H2 H3 H4 H5 H6])|Hm']; try done.
    { by rewrite Esize. }
    { rewrite length_app. simpl. rewrite (lh_size _ _ Hlh), length_app in Hge. lia. }
    + left. exists (set_count (entryCount_ t' + 1) t'). split.
      * unfold runs. rewrite Hstart. eapply runs_bind; [exact Hrun'|].
        eapply runs_bind; [apply (count_up_runs t'); rewrite H4, Hc; lia|done].
      * split; [simpl; rewrite H4, Hc; lia|simpl; by rewrite H5|simpl; by rewrite H6|]. right. done.
    + right. split; [done|]. rewrite Esize in Hm'.
      apply (moves_bind _ (fun _ => BTree.count_up ;; ret true)) in Hm' as [M1 M2 M3]. split; rewrite ?Hstart; done.
Qed.
End insert.

(** ** Range scans along the leaves *)
Definition lower (a b : bound) : Prop :=
  match a, b with None, Some _ => True | Some x, Some y => x < y | _, None => False end.
#[local] Instance lower_dec a b : Decision (lower a b).
Proof. destruct a, b; simpl; apply _. Defined.

Section scan.
Context (t : BPlusTree) (G : ghost) (m : imap) (HT : tree_inv G (nmap (nodes_ t)) (rootIdx_ t) m) (low high : Z).

(** the leaves that start after one *)
Definition after (l : Z) : list Z :=
  filter (fun j => lower (iv G l).1 (iv G j).1) (seqZ 0 (Z.of_nat (length (nodes_ t)))).

Lemma after_next l l' n' : nmap (nodes_ t) !! l' = Some n' -> lower (iv G l).1 (iv G l').1 ->
  (length (after l') < length (after l))%nat.
Proof.
  intros Hl' Hlo. assert (Hsub : l' :: after l' ⊆+ after l).
  { apply NoDup_submseteq.
    - constructor; [|apply list.NoDup_filter, NoDup_seqZ]. unfold after. rewrite list_elem_of_filter.
      intros [H _]. clear -H. destruct ((iv G l').1); simpl in H; lia || done.
    - intros x [->|Hx]%elem_of_cons; apply list_elem_of_filter.
      + split; [done|]. apply nmap_lookup in Hl' as [? ?%lookup_lt_Some]. apply elem_of_seqZ. lia.
      + apply list_elem_of_filter in Hx as [Hx ?]. split; [|done]. revert Hlo Hx.
        generalize (iv G l).1 (iv G l').1 (iv G x).1. intros [a|] [b|] [c|]; simpl; try done. lia. }
  apply submseteq_length in Hsub. simpl in Hsub. lia.
Qed.

Lemma leaf_interval l n : nmap (nodes_ t) !! l = Some n -> forall u, (iv G l).2 = Some u -> lower (iv G l).1 (Some u).
Proof.
  intros Hn u Hu. destruct (isRoot n) eqn:Hr.
  - pose proof (tv_up _ _ _ _ HT l n Hn) as H. unfold up_inv in H. rewrite Hr in H. destruct H as [_ E]. by rewrite E in Hu.
  - destruct (parent_of G _ _ m HT l n Hn Hr) as (_ & _ & _ & _ & (_ & Hb & _) & _). rewrite Hu in Hb.
    revert Hb. by generalize (iv G l).1; intros [a|].
Qed.

(** the entries from a leaf on *)
Definition from (l : Z) (kvs : entries) : Prop :=
  key_sorted kvs /\ forall x, x ∈ kvs <-> m !! x.1 = Some x.2 /\ in_range low high x /\ above (iv G l).1 x.1.

Lemma leaf_elem l n x : nmap (nodes_ t) !! l = Some n -> bn_type n = LEAF ->
  x ∈ ent G l <-> m !! x.1 = Some x.2 /\ within (iv G l) x.1.
Proof.
  intros Hn Ht. pose proof (leaf_node G _ _ m HT l n Hn Ht) as [Hl _ Hw _]. rewrite entries_elem by apply Hl. split.
  - intros Hx. assert (Hin : within (iv G l) x.1) by (apply Hw; apply entries_elem; [apply Hl|done]).
    split; [|done]. by rewrite (tv_map _ _ _ _ HT l n x.1 Hn Ht Hin).
  - intros [Hx Hin]. by rewrite <- (tv_map _ _ _ _ HT l n x.1 Hn Ht Hin).
Qed.

(** a leaf with a key above the range, or the last one *)
Lemma from_last l n : nmap (nodes_ t) !! l = Some n -> bn_type n = LEAF ->
  (exists x, x ∈ ent G l /\ high < x.1) \/ (iv G l).2 = None -> from l (filter (in_range low high) (ent G l)).
Proof.
  intros Hn Ht Hend. pose proof (leaf_node G _ _ m HT l n Hn Ht) as [Hl _ Hw _]. split; [apply key_sorted_filter, Hl|].
  intros x. rewrite list_elem_of_filter, (leaf_elem l n x Hn Ht). unfold within. split; [tauto|].
  intros (H1 & H2 & H3). split; [done|]. split; [done|]. split; [done|]. destruct Hend as [(y & Hy & Hh)|E].
  - specialize (Hw y Hy). unfold in_range in H2. destruct Hw as [_ Hw]. revert Hw. generalize (iv G l).2.
    intros [u|]; simpl; [lia|done].
  - by rewrite E.
Qed.

(** and one before others *)
Lemma from_next l n l' kvs u : nmap (nodes_ t) !! l = Some n -> bn_type n = LEAF ->
  (iv G l).2 = Some u -> (iv G l').1 = Some u -> from l' kvs -> from l (filter (in_range low high) (ent G l) ++ kvs).
Proof.
  intros Hn Ht Hu Hl' [Hs Hk]. rewrite Hl' in Hk. pose proof (leaf_node G _ _ m HT l n Hn Ht) as [Hl _ Hw _].
  pose proof (leaf_interval l n Hn u Hu) as Hlo. split.
  - apply key_sorted_app. split; [apply key_sorted_filter, Hl|]. split; [done|].
    intros x y [_ Hx]%list_elem_of_filter (_ & _ & Hy)%Hk. specialize (Hw x Hx). destruct Hw as [_ Hw].
    rewrite Hu in Hw. simpl in Hy, Hw. lia.
  - intros x. rewrite elem_of_app, list_elem_of_filter, (leaf_elem l n x Hn Ht), Hk. unfold within. rewrite Hu. simpl.
    destruct (Z.lt_ge_cases x.1 u) as [Hx|Hx]; [intuition lia|]. split; [intros [(_ & _ & _ & ?)|H]; [lia|]|].
    + destruct H as (H1 & H2 & _). split; [done|]. split; [done|]. revert Hlo. generalize (iv G l).1.
      intros [a|]; simpl; [lia|done].
    + intros (H1 & H2 & _). by right.
Qed.

Lemma scan_chain_runs : forall fuel l n,
  nmap (nodes_ t) !! l = Some n -> bn_type n = LEAF -> (S (length (after l)) < fuel)%nat ->
  exists kvs, runs (BTree.scan_chain fuel l low high) t kvs.*2 t /\ from l kvs.
Proof.
  induction fuel as [|fuel IH]; intros l n Hn Ht Hf; [lia|]. cbn [BTree.scan_chain].
  pose proof (leaf_node G _ _ m HT l n Hn Ht) as [[_ Hk Hv Hsz Hs] _ _ Hnext].
  destruct (scan_leaf_spec (ent G l) low high Hs) as (b & Hb & Hbt).
  assert (Hstart : forall rest, runs (if b then ret (filter (in_range low high) (ent G l)).*2 else
      (r <- BTree.scan_chain fuel (nextLeafIdx n) low high ;; ret ((filter (in_range low high) (ent G l)).*2 ++ r))) t rest t ->
    runs (if l <? 0 then ret [] else
      leaf <- BTree.node_at l ;;
      r <- lift (BTree.scan_leaf (keys leaf) (values leaf) low high (Z.to_nat (bn_size leaf))) ;;
      if r.2 then ret r.1 else rest <- BTree.scan_chain fuel (nextLeafIdx leaf) low high ;; ret (r.1 ++ rest)) t rest t).
  { intros rest Hrest. pose proof Hn as [Hl0 _]%nmap_lookup. rewrite (proj2 (Z.ltb_ge _ _)) by done.
    eapply runs_bind; [by apply (node_at_nmap t l n)|].
    eapply (runs_bind _ _ _ ((filter (in_range low high) (ent G l)).*2, b) t).
    { unfold runs, lift. by rewrite Hk, Hv, Hsz, Nat2Z.id, Hb. }
    exact Hrest. }
  destruct b.
  { eexists. split; [by apply Hstart|]. apply (from_last l n Hn Ht). left. by apply Hbt. }
  unfold next_ok in Hnext. case_eq ((iv G l).2).
  - intros u Hu. rewrite Hu in Hnext. destruct Hnext as (n' & Hn' & Ht' & Hiv').
    destruct (IH _ n' Hn' Ht') as (kvs & Hrun & Hfrom).
    { assert (length (after (nextLeafIdx n)) < length (after l))%nat; [|lia]. apply (after_next _ _ n' Hn').
      rewrite Hiv'. by eapply leaf_interval. }
    exists (filter (in_range low high) (ent G l) ++ kvs). split; [|by eapply from_next].
    apply Hstart. rewrite fmap_app. eapply runs_bind; [exact Hrun|done].
  - intros Hu. rewrite Hu in Hnext. exists (filter (in_range low high) (ent G l)). split; [|apply (from_last l n); auto].
    apply Hstart. eapply (runs_bind _ _ _ [] t).
    + rewrite Hnext. destruct fuel as [|fuel']; [lia|]. done.
    + by rewrite app_nil_r.
Qed.

Lemma rangeScan_tree : exists l, runs (BTree.rangeScan low high) t l t /\ range_values m low high l.
Proof.
  destruct (findLeaf_runs t G m HT low) as (l & n & Hrun & Hl0 & Hl & Ht & Hw & _).
  destruct (scan_chain_runs (S (length (nodes_ t))) l n Hl Ht) as (kvs & Hscan & Hs & Hk).
  { pose proof Hl as [_ Hlt%lookup_lt_Some]%nmap_lookup. assert (Hsub : l :: after l ⊆+ seqZ 0 (Z.of_nat (length (nodes_ t)))).
    { apply NoDup_submseteq.
      - constructor; [|apply list.NoDup_filter, NoDup_seqZ]. unfold after. rewrite list_elem_of_filter.
        intros [H _]. clear -H. destruct ((iv G l).1); simpl in H; lia || done.
      - intros x [->|Hx]%elem_of_cons; [apply elem_of_seqZ; lia|]. by apply list_elem_of_filter in Hx as [_ ?]. }
    apply submseteq_length in Hsub. rewrite length_seqZ in Hsub. simpl in Hsub. lia. }
  exists kvs.*2. split.
  - unfold BTree.rangeScan. eapply runs_bind; [exact Hrun|]. rewrite (proj2 (Z.ltb_ge _ _)) by done.
    eapply (runs_bind _ _ _ t t); [done|]. exact Hscan.
  - exists kvs. split; [done|]. split; [done|]. intros x. rewrite Hk. split; [tauto|]. intros [H1 H2].
    split; [done|]. split; [done|]. unfold in_range in H2. destruct Hw as [Hw _]. revert Hw. generalize (iv G l).1.
    intros [a|]; simpl; [lia|done].
Qed.
End scan.

(** ** Sequences of operations *)
Definition grows (op : index_op) : bool :=
  match op with IInsert _ _ | ISearch _ | IRange _ _ => true | IRemove _ | IPrint => false end.

(** The call answers as the map, or it is an insertion of a new key that moves
    the vector. *)
Lemma run_op_tree grow op t m :
  tree_shows t m -> grows op = true -> 2 * (Z.of_nat (size m) + 1) <= INT_MAX ->
  (exists a t', runs (run_op grow op) t a t' /\ map_answers m op a /\ tree_shows t' (map_after m op)) \/
  (exists k v, op = IInsert k v /\ m !! k = None /\ moves (BTree.insert grow k v) t (Z.of_nat (size m) + 1)).
Proof.
  intros Hs Hg Hint. destruct op as [k v|k|k|lo hi|]; try done; cbn [run_op map_after map_answers] in *.
  - destruct (insert_tree grow t m k v Hs Hint) as [(t' & Hrun & Hs')|[Hk Hm]]; [left|right; by exists k, v].
    eexists _, t'. split; [by eapply runs_bind|]. by split.
  - left. pose proof Hs as [_ _ _ [(Hr & -> & _)|((G & HT) & _)]].
    + eexists _, t. split; [|by split]. eapply (runs_bind _ _ _ None t); [|done].
      unfold BTree.search. eapply (runs_bind _ _ _ (-1) t); [|done].
      unfold runs, BTree.findLeaf, bind, get. by rewrite (proj2 (Z.ltb_lt _ _)).
    + eexists _, t. split; [|by split]. eapply runs_bind; [by apply (search_tree t G)|]. done.
  - left. pose proof Hs as [_ _ _ [(Hr & -> & _)|((G & HT) & _)]].
    + exists (AList []), t. split; [|split; [|done]].
      * eapply (runs_bind _ _ _ [] t); [|done]. unfold BTree.rangeScan. eapply (runs_bind _ _ _ (-1) t); [|done].
        unfold runs, BTree.findLeaf, bind, get. by rewrite (proj2 (Z.ltb_lt _ _)).
      * exists []. split; [done|]. exists []. split; [by constructor|]. split; [done|].
        intros x. rewrite lookup_empty, elem_of_nil. naive_solver.
    + destruct (rangeScan_tree t G m HT lo hi) as (l & Hrun & Hl).
      exists (AList l), t. split; [by eapply runs_bind|]. split; [by exists l|done].
Qed.

Lemma map_after_size m op : (size (map_after m op) <= S (size m))%nat.
Proof.
  destruct op as [k v|k|k|lo hi|]; simpl; try lia.
  - destruct (m !! k) eqn:E; [lia|]. by rewrite map_size_insert_None.
  - destruct (m !! k) as [v|] eqn:E; [|by rewrite delete_id by done; lia].
    rewrite map_size_delete_Some by by eexists. lia.
Qed.

(** A prefix of the operations is answered as by the map, and the next one
    inserts a new key and moves the vector under a reference. *)
Definition moved_at grow (t : BPlusTree) (m : imap) (ops : list index_op) : Prop :=
  exists ops1 k v ops2 l t1, ops = ops1 ++ IInsert k v :: ops2 /\
    runs (run_index grow ops1) t l t1 /\ answers_all m ops1 l /\
    fold_left map_after ops1 m !! k = None /\
    moves (BTree.insert grow k v) t1 (Z.of_nat (size (fold_left map_after ops1 m)) + 1).

Lemma run_index_tree grow ops : forall t m,
  tree_shows t m -> forallb grows ops = true -> 2 * (Z.of_nat (size m) + Z.of_nat (length ops)) <= INT_MAX ->
  (exists l t', runs (run_index grow ops) t l t' /\ answers_all m ops l) \/ moved_at grow t m ops.
Proof.
  induction ops as [|op ops IH]; intros t m Hs Hg Hint; [left; by exists [], t|].
  simpl in Hg, Hint. apply andb_true_iff in Hg as [Hg1 Hg2].
  destruct (run_op_tree grow op t m Hs Hg1) as [(a & t' & Hrun & Ha & Hs')|(k & v & -> & Hk & Hm)]; [lia| |].
  2: { right. by exists [], k, v, ops, [], t. }
  pose proof (map_after_size m op).
  destruct (IH t' _ Hs' Hg2) as [(l & t'' & Hrun' & Hl)|(ops1 & k & v & ops2 & l & t1 & -> & Hrun' & Hl & Hm)]; [lia|left|right].
  - exists (a :: l), t''. split; [|done]. simpl. eapply runs_bind; [done|]. by eapply runs_bind.
  - exists (op :: ops1), k, v, ops2, (a :: l), t1. split; [done|]. split; [|done].
    simpl. eapply runs_bind; [done|]. by eapply runs_bind.
Qed.

(** C13: the index is a map of any size until the vector of nodes moves under a
    reference. In a tree of any order, with any growth of the vector, every
    sequence of insertions, searches and range scans is answered as by a finite
    map, whatever leaves and internal nodes split on the way and however often
    the root is replaced; or a prefix of it is, and the next operation inserts a
    new key, splits a node while the vector is full and too short for twice the
    keys, and uses the reference to the node it splits after the vector has
    moved ([moves]), which is undefined. The bound on the operations keeps the
    node indices and the entry count in an [int]. *)
Theorem index_right_until_moved grow order ops :
  3 <= order < INT_MAX -> forallb grows ops = true -> 2 * Z.of_nat (length ops) <= INT_MAX ->
  (exists l t', runs (run_index grow ops) (BTree.init order) l t' /\ answers_all ∅ ops l) \/
  moved_at grow (BTree.init order) ∅ ops.
Proof.
  intros Ho Hg Hint. apply run_index_tree; [|done|by rewrite map_size_empty].
  split; [by rewrite map_size_empty|simpl; lia|simpl; lia|]. by left.
Qed.

Definition ascending (n : nat) : list index_op := map (fun i => IInsert (Z.of_nat i) (mkRID 0 (u16 (Z.of_nat i)))) (seq 0 n).

(** capacities 1, 2, 4, ..., as in the library the program is built with *)
Definition doubling (n : nat) : nat := if (n =? 0)%nat then 1%nat else (n + n)%nat.

Lemma index_right_until_moved_witness :
  let ops := ascending 30 ++ [ISearch 17; IRange 3 25; IInsert 4 (mkRID 7 7)] in
  (exists l t', runs (run_index doubling ops) (BTree.init 4) l t' /\ answers_all ∅ ops l) \/
  moved_at doubling (BTree.init 4) ∅ ops.
Proof. intros ops. apply index_right_until_moved; [split; [lia|reflexivity]|reflexivity|vm_compute; discriminate]. Defined.

(** Both happen: with room for 64 nodes the operations above run, through splits
    of leaves and of internal nodes; when the capacity doubles from one, the
    first split moves the vector. *)
Example both_ways :
  let ops := ascending 30 ++ [ISearch 17; IRange 3 25; IInsert 4 (mkRID 7 7)] in
  (exists l t, runs (run_index (fun _ => 64)%nat ops) (BTree.init 4) l t /\ length (nodes_ t) = 23%nat) /\
  (run_index doubling ops (BTree.init 4)).1 = Undef.
Proof. split; [eexists _, _; split; vm_compute; reflexivity|vm_compute; reflexivity]. Qed.

(** ** Removal *)
Lemma index_of_some l x : forall i j, BTree.index_of l x i = Some j -> i <= j < i + Z.of_nat (length l).
Proof.
  induction l as [|y l IH]; intros i j; simpl; [done|].
  destruct (y =? x); [intros [= <-]; lia|]. intros Hj%IH. lia.
Qed.

Lemma vec_at_some {A} (l : list A) j : 0 <= j < Z.of_nat (length l) -> exists x, vec_at l j = Ret x /\ x ∈ l.
Proof.
  intros Hj. destruct (lookup_lt_is_Some_2 l (Z.to_nat j)) as [x Hx]; [lia|]. exists x. unfold vec_at.
  rewrite (proj2 (Z.leb_le _ _)), Hx by lia. split; [done|]. by eapply list_elem_of_lookup_2.
Qed.

Section underflow.
Context (t : BPlusTree) (i : Z) (n pn : BPlusNode) (fuel : nat).
Context (Hn : nmap (nodes_ t) !! i = Some n) (Hr : isRoot n = false).
Context (Hp : nmap (nodes_ t) !! parentIdx n = Some pn).

(** An internal node that underflows stays as it is. *)
Lemma internal_underflow :
  bn_type n = INTERNAL -> Z.of_nat (length (childIndices pn)) <= INT_MAX ->
  (forall c, c ∈ childIndices pn -> is_Some (nmap (nodes_ t) !! c)) ->
  runs (BTree.handleUnderflow (S fuel) i) t tt t.
Proof.
  intros Ht Hmax Hch. cbn [BTree.handleUnderflow]. eapply runs_bind; [by apply (node_at_nmap t i n)|]. rewrite Hr.
  eapply runs_bind; [by apply (node_at_nmap t _ pn)|]. cbv zeta. unfold BTree.child_position.
  destruct (BTree.index_of (childIndices pn) i 0) as [c|] eqn:Hc; [|done]. apply index_of_some in Hc.
  rewrite i32_small, (proj2 (Z.ltb_ge c 0)) by (unfold_int; lia).
  assert (Hleft : 0 < c -> runs (BTree.borrow_left i (parentIdx n) c) t false t).
  { intros H0. destruct (vec_at_some (childIndices pn) (c - 1)) as (x & Hx & [nx Hnx]%Hch); [lia|].
    unfold BTree.borrow_left. eapply runs_bind; [by apply (node_at_nmap t _ pn)|].
    eapply (runs_bind _ _ _ x t); [unfold runs, lift; by rewrite Hx|].
    eapply runs_bind; [by apply (node_at_nmap t x nx)|]. eapply runs_bind; [by apply (node_at_nmap t i n)|].
    eapply runs_bind; [done|]. by rewrite Ht. }
  assert (Hright : c < Z.of_nat (length (childIndices pn)) - 1 -> runs (BTree.borrow_right i (parentIdx n) c) t false t).
  { intros H0. destruct (vec_at_some (childIndices pn) (c + 1)) as (x & Hx & [nx Hnx]%Hch); [lia|].
    unfold BTree.borrow_right. eapply runs_bind; [by apply (node_at_nmap t _ pn)|].
    eapply (runs_bind _ _ _ x t); [unfold runs, lift; by rewrite Hx|].
    eapply runs_bind; [by apply (node_at_nmap t x nx)|]. eapply runs_bind; [by apply (node_at_nmap t i n)|].
    eapply runs_bind; [done|]. by rewrite Ht. }
  eapply (runs_bind _ _ _ false t); [destruct (Z.ltb_spec 0 c); [by apply Hleft|done]|].
  eapply (runs_bind _ _ _ (Z.of_nat (length (childIndices pn)) - 1) t).
  { unfold runs, lift. by rewrite i32_small, int_pred_ret by (unfold_int; lia). }
  eapply (runs_bind _ _ _ false t); [destruct (Z.ltb_spec c (Z.of_nat (length (childIndices pn)) - 1)); [by apply Hright|done]|].
  by rewrite Ht.
Qed.

(** A leaf that underflows as its parent's only child has its missing sibling
    read past the end of the children. *)
Lemma only_child_underflow :
  bn_type n = LEAF -> childIndices pn = [i] -> (BTree.handleUnderflow (S fuel) i t).1 = Undef.
Proof.
  intros Ht Hc. cbn [BTree.handleUnderflow]. eapply undef_after; [by apply (node_at_nmap t i n)|]. rewrite Hr.
  eapply undef_after; [by apply (node_at_nmap t _ pn)|]. cbv zeta. unfold BTree.child_position. rewrite Hc.
  cbn [BTree.index_of]. rewrite Z.eqb_refl. change (i32 0 <? 0) with false. change (0 <? i32 0) with false. cbv iota.
  eapply (undef_after _ _ _ false t); [done|]. cbv iota. eapply (undef_after _ _ _ 0 t); [done|].
  eapply (undef_after _ _ _ false t); [done|]. rewrite Ht. apply undef_bind. unfold BTree.merge.
  eapply undef_after; [by apply (node_at_nmap t _ pn)|]. rewrite Hc. done.
Qed.
End underflow.

(** the removal up to the check for an underflow *)
Lemma remove_starts t key l n kvs :
  INT_MIN < entryCount_ t -> runs (BTree.findLeaf key) t l t -> nmap (nodes_ t) !! l = Some n -> leaf_holds n kvs ->
  key ∈ kvs.*1 -> Z.of_nat (length kvs) <= INT_MAX -> isRoot n = false -> Z.of_nat (length kvs) - 1 < minLeafKeys_ t ->
  exists n', bn_type n' = LEAF /\ isRoot n' = false /\ parentIdx n' = parentIdx n /\
    forall t', t' = set_count (entryCount_ t - 1) (put l n' t) ->
    (BTree.handleUnderflow (S (length (nodes_ t'))) l t').1 = Undef -> (BTree.remove key t).1 = Undef.
Proof.
  intros Hc Hf Hn [Ht Hk Hv Hsz Hs] Hin Hmax Hr Hmin.
  apply list_elem_of_fmap in Hin as ([key' v] & -> & (pre & post & ->)%list_elem_of_split). cbn [fst] in *.
  pose proof Hs as (_ & _ & Hpre)%key_sorted_app. rewrite length_app in Hmax, Hmin, Hsz. simpl in Hmax, Hmin, Hsz.
  assert (Hfind : list_find (fun x => x.1 = key') (pre ++ (key', v) :: post) = Some (length pre, (key', v))).
  { apply list_find_Some. rewrite lookup_app_r, Nat.sub_diag by lia. split; [done|]. split; [done|].
    intros j y Hj Hlt' E. rewrite lookup_app_l in Hj by done.
    assert (y.1 < key') by (apply (Hpre y (key', v)); [by eapply list_elem_of_lookup_2|by left]). lia. }
  set (n' := set_size (bn_size n - 1) (set_values (pre ++ post).*2 (set_keys (pre ++ post).*1 n))).
  pose proof (nmap_put t l n Hn n') as E1. set (t1 := put l n' t) in *.
  assert (H1 : nmap (nodes_ t1) !! l = Some n') by (rewrite E1; apply lookup_insert_eq).
  assert (Hrm : runs (BTree.removeFromLeaf l key') t true t1).
  { unfold BTree.removeFromLeaf. eapply runs_bind; [by apply (node_at_nmap t l n)|].
    rewrite Hk, Hv, index_of_spec, Hfind, !fmap_app, i32_small by (unfold_int; lia). cbn [fmap list_fmap].
    eapply (runs_bind _ _ _ (pre.*1 ++ post.*1) t);
      [unfold runs, lift; by rewrite vec_erase_app by (rewrite length_fmap; lia)|].
    eapply (runs_bind _ _ _ (pre.*2 ++ post.*2) t);
      [unfold runs, lift; by rewrite vec_erase_app by (rewrite length_fmap; lia)|].
    eapply (runs_bind _ _ _ (bn_size n - 1) t); [unfold runs, lift; rewrite Hsz, int_pred_ret by (unfold_int; lia); done|].
    eapply runs_bind; [by apply (update_nmap t l n)|]. unfold t1, n'. by rewrite !fmap_app. }
  exists n'. split; [done|]. split; [done|]. split; [done|]. intros t' Et Hu. unfold BTree.remove.
  eapply undef_after; [exact Hf|]. pose proof Hn as [Hl0 _]%nmap_lookup. rewrite (proj2 (Z.ltb_ge _ _)) by done.
  eapply undef_after; [exact Hrm|]. cbn [negb].
  eapply (undef_after _ _ _ tt t'); [rewrite Et; by apply (count_down_runs t1)|].
  eapply (undef_after _ _ _ n' t'); [rewrite Et; by apply (node_at_nmap (set_count _ t1) l n')|]. eapply (undef_after _ _ _ t' t'); [done|].
  apply undef_bind. assert (isRoot n' = false) as -> by done.
  assert ((bn_size n' <? minLeafKeys_ t') = true) as -> by (rewrite Et; apply Z.ltb_lt; simpl; lia). exact Hu.
Qed.

(** C15: removal does not keep a tree of several levels, because only leaves are
    merged or refilled. In every tree an internal node that underflows is left
    as it is, however few children it has; and in every tree where a leaf has
    become its parent's only child, removing a key that leaves the leaf short is
    undefined, since the merge reads the second of the parent's children. *)
Theorem removal_underflow_undefined t :
  (forall fuel i n pn, nmap (nodes_ t) !! i = Some n -> bn_type n = INTERNAL -> isRoot n = false ->
     nmap (nodes_ t) !! parentIdx n = Some pn -> Z.of_nat (length (childIndices pn)) <= INT_MAX ->
     (forall c, c ∈ childIndices pn -> is_Some (nmap (nodes_ t) !! c)) ->
     runs (BTree.handleUnderflow (S fuel) i) t tt t) /\
  (forall key l n pn kvs, INT_MIN < entryCount_ t -> runs (BTree.findLeaf key) t l t ->
     nmap (nodes_ t) !! l = Some n -> leaf_holds n kvs -> key ∈ kvs.*1 -> Z.of_nat (length kvs) <= INT_MAX ->
     isRoot n = false -> Z.of_nat (length kvs) - 1 < minLeafKeys_ t ->
     nmap (nodes_ t) !! parentIdx n = Some pn -> bn_type pn = INTERNAL -> childIndices pn = [l] ->
     vec_at (childIndices pn) 1 = Undef /\ (BTree.remove key t).1 = Undef).
Proof.
  split; [intros fuel i n pn Hn Ht Hr Hp; by apply (internal_underflow t i n pn)|].
  intros key l n pn kvs Hc Hf Hn Hl Hin Hmax Hr Hmin Hp Htp Hch. split; [by rewrite Hch|].
  destruct (remove_starts t key l n kvs) as (n' & Ht' & Hr' & Hp' & Hu); [done..|].
  eapply Hu; [reflexivity|].
  apply (only_child_underflow _ l n' pn); [simpl|done|simpl|done|done].
  - rewrite (nmap_insert _ l n' n) by done. apply lookup_insert_eq.
  - rewrite (nmap_insert _ l n' n), Hp', lookup_insert_ne; [done| |done].
    intros E. rewrite <- E, Hn in Hp. injection Hp as <-. by rewrite (lh_type _ _ Hl) in Htp.
Qed.

(** A tree of order 4, with room for its nodes, once the keys from 0 to 17 have
    been inserted and those from 0 to 3 removed. *)
Definition lonely : BPlusTree := Eval vm_compute in
  (run_index (fun _ => 64)%nat (ascending 18 ++ map IRemove [0; 1; 2; 3]) (BTree.init 4)).2.

Lemma removal_underflow_undefined_witness :
  (exists l, runs (run_index (fun _ => 64)%nat (ascending 18 ++ map IRemove [0; 1; 2; 3])) (BTree.init 4) l lonely) /\
  (BTree.remove 4 lonely).1 = Undef.
Proof.
  split; [eexists; vm_compute; reflexivity|].
  apply (proj2 (removal_underflow_undefined lonely) 4 0 (nth 0 (nodes_ lonely) (fresh_node LEAF 0))
           (nth 2 (nodes_ lonely) (fresh_node LEAF 0)) [(4, mkRID 0 4); (5, mkRID 0 5)]); try reflexivity.
  - split; [reflexivity..|repeat constructor].
  - by left.
  - vm_compute. discriminate.
Defined.
