(* ===== verification/Catalog.v ===== *)
(** * Catalog (src/src/storage/Catalog.h)

    The tables the process knows, by name: schema, heap file and the row count
    that the optimizer reads. The map is an unordered one, so the order in
    which it lists the names is a parameter. *)
From stdpp Require Import base numbers list strings gmap.
From Stdlib Require Import ZArith Lia.
From S2P Require Import Prelude Common.

Record TableInfo := mkInfo {
  ti_name : string;
  ti_schema : Schema;
  ti_fileId : Z;
  rowCount : Z;
  hasIndex : bool;
  indexFileId : Z;
}.

Definition set_rowCount (n : Z) (i : TableInfo) : TableInfo :=
  mkInfo (ti_name i) (ti_schema i) (ti_fileId i) n (hasIndex i) (indexFileId i).

(** The catalog is its map [tables_]. *)
Abbreviation Catalog := (gmap string TableInfo).

Module Cat.
Definition init : Catalog := ∅.

(** An entry that is there is overwritten. *)
Definition addTable (name : string) (s : Schema) (fileId : Z) (c : Catalog) : Catalog :=
  <[name := mkInfo name s fileId 0 false (-1)]> c.

(** The pointer is the entry, [None] the null pointer. *)
Definition getTable (name : string) (c : Catalog) : option TableInfo := c !! name.
Definition tableExists (name : string) (c : Catalog) : bool := bool_decide (is_Some (c !! name)).
Definition dropTable (name : string) (c : Catalog) : Catalog := delete name c.
Definition updateRowCount (name : string) (count : Z) (c : Catalog) : Catalog :=
  alter (set_rowCount count) name c.
Definition setIndex (name : string) (fileId : Z) (c : Catalog) : Catalog :=
  alter (fun i => mkInfo (ti_name i) (ti_schema i) (ti_fileId i) (rowCount i) true fileId) name c.
Definition getTableNames (order : Catalog -> list (string * TableInfo)) (c : Catalog) : list string :=
  (order c).*1.
End Cat.

(** Writing through the pointer [getTable] returned. *)
Lemma updateRowCount_lookup name n c i :
  c !! name = Some i -> Cat.updateRowCount name n c = <[name := set_rowCount n i]> c.
Proof.
  intros Hi. unfold Cat.updateRowCount. apply map_eq. intros k. destruct (decide (k = name)) as [->|Hk].
  - by rewrite lookup_alter_eq, lookup_insert_eq, Hi.
  - by rewrite lookup_alter_ne, lookup_insert_ne.
Qed.
