(* ===== verification/Codec.v ===== *)
(** * Rows as bytes (src/src/query/Executor.cpp, serializeTuple and deserializeTuple)

    A row is its values one after the other, each behind a marker byte: an INT
    as four bytes, a TEXT as a 16-bit length and its characters. *)
From stdpp Require Import base numbers list strings.
From Stdlib Require Import ZArith Lia.
From S2P Require Import Prelude Bytes Common.

Module Codec.
Definition serializeValue (v : value) : list byte :=
  match v with
  | VInt z => byte_of 1 :: le_bytes 4 z
  | VText s => byte_of 2 :: le_bytes 2 (Z.of_nat (length (bytes_of s))) ++ bytes_of s
  end.

(** The schema the code passes is not used. *)
Definition serializeTuple (t : Tuple) : list byte := concat (map serializeValue t).

(** The loop of [deserializeTuple] for the [n] columns left; [offset] bytes
    have been read, the state is what follows them. The end of the row is
    tested between values only, a value is read wherever it ends. *)
Fixpoint read_values (n : nat) (dataLen offset : Z) : M (list byte) (list value) :=
  match n with
  | O => ret []
  | S n' =>
      if offset <? dataLen then
        typeMarker <- get_le 1 ;;
        if typeMarker =? 1 then
          v <- get_le 4 ;;
          vs <- read_values n' dataLen (offset + 5) ;;
          ret (VInt (i32 v) :: vs)
        else
          len <- get_le 2 ;;
          s <- get_bytes (Z.to_nat len) ;;
          vs <- read_values n' dataLen (offset + 3 + len) ;;
          ret (VText (text_of s) :: vs)
      else ret []
  end.

(** [data] is the memory readable at the pointer. *)
Definition deserializeTuple (data : list byte) (dataLen : Z) (s : Schema) : outcome Tuple :=
  (read_values (Schema.columnCount s) dataLen 0 data).1.
End Codec.

(** A value a C++ program can hold and whose text length fits its field. *)
Definition value_ok (v : value) : Prop :=
  match v with
  | VInt z => is_i32 z
  | VText s => Z.of_nat (length (bytes_of s)) < 65536
  end.
#[global] Instance value_ok_dec v : Decision (value_ok v).
Proof. destruct v; unfold value_ok, is_i32; apply _. Defined.

Definition tuple_ok (t : Tuple) : Prop := Forall value_ok t.

(** The bytes a value takes. *)
Definition value_size (v : value) : nat := length (Codec.serializeValue v).

Lemma value_size_pos v : (0 < value_size v)%nat.
Proof. destruct v; simpl; unfold value_size; simpl; lia. Qed.

Lemma get_marker m rest : 0 <= m < 256 -> runs (get_le 1) (byte_of m :: rest) m rest.
Proof.
  intros Hm. pose proof (get_le_app 1 m rest) as H.
  change (256 ^ Z.of_nat 1) with 256 in H. by rewrite (Z.mod_small m 256) in H by done.
Qed.

(** One value read back; [k] is what the loop does next. *)
Lemma read_value v n dataLen offset rest vs rest' :
  value_ok v -> offset < dataLen ->
  runs (Codec.read_values n dataLen (offset + Z.of_nat (value_size v))) rest vs rest' ->
  runs (Codec.read_values (S n) dataLen offset) (Codec.serializeValue v ++ rest) (v :: vs) rest'.
Proof.
  intros Hv Hlt Hk. cbn [Codec.read_values]. rewrite (proj2 (Z.ltb_lt _ _)) by done.
  destruct v as [z|s]; cbn [Codec.serializeValue].
  - rewrite <- app_comm_cons. eapply runs_bind; [by apply get_marker|]. simpl (_ =? _).
    cbv iota. eapply runs_bind; [apply get_le_app|]. eapply runs_bind; [exact Hk|].
    unfold runs, ret. rewrite <- le_val_bytes, le_val_i32; done.
  - rewrite <- app_comm_cons. eapply runs_bind; [by apply get_marker|]. simpl (_ =? _).
    cbv iota. rewrite <- app_assoc. simpl in Hv.
    assert (Hlen : Z.of_nat (length (bytes_of s)) mod 256 ^ Z.of_nat 2 = Z.of_nat (length (bytes_of s))).
    { apply Z.mod_small. change (256 ^ Z.of_nat 2) with 65536. lia. }
    eapply runs_bind; [apply get_le_app|]. rewrite Hlen.
    eapply runs_bind; [apply get_bytes_app; lia|].
    eapply runs_bind.
    + replace (offset + 3 + _) with (offset + Z.of_nat (value_size (VText s))); [exact Hk|].
      unfold value_size. cbn [Codec.serializeValue]. rewrite length_cons, length_app, length_le_bytes. lia.
    + unfold runs, ret. by rewrite text_of_bytes.
Qed.

Lemma length_serializeTuple_cons v t :
  length (Codec.serializeTuple (v :: t)) = (value_size v + length (Codec.serializeTuple t))%nat.
Proof. unfold Codec.serializeTuple. cbn [map concat]. by rewrite length_app. Qed.

Lemma read_tuple t : forall n dataLen offset rest,
  tuple_ok t -> (length t <= n)%nat ->
  dataLen = offset + Z.of_nat (length (Codec.serializeTuple t)) ->
  runs (Codec.read_values n dataLen offset) (Codec.serializeTuple t ++ rest) t rest.
Proof.
  induction t as [|v t IH]; intros n dataLen offset rest Ht Hn Hlen.
  - simpl in *. destruct n; [done|]. cbn [Codec.read_values].
    by rewrite (proj2 (Z.ltb_ge _ _)) by lia.
  - apply Forall_cons in Ht as [Hv Ht]. destruct n as [|n]; simpl in Hn; [lia|].
    rewrite length_serializeTuple_cons in Hlen. pose proof (value_size_pos v).
    unfold Codec.serializeTuple. cbn [map concat]. rewrite <- app_assoc.
    apply read_value; [done|lia|]. apply IH; [done|lia|lia].
Qed.

Lemma deserialize_serialize t rest s :
  tuple_ok t -> (length t <= length s)%nat ->
  Codec.deserializeTuple (Codec.serializeTuple t ++ rest)
    (Z.of_nat (length (Codec.serializeTuple t))) s = Ret t.
Proof.
  intros Ht Hs. unfold Codec.deserializeTuple, Schema.columnCount.
  by rewrite (read_tuple t _ _ 0 rest Ht Hs) by lia.
Qed.

Lemma serializeTuple_nonempty t : t <> [] -> (0 < length (Codec.serializeTuple t))%nat.
Proof.
  destruct t as [|v t]; [done|]. intros _. rewrite length_serializeTuple_cons.
  pose proof (value_size_pos v). lia.
Qed.
