(* ===== verification/Rows.v ===== *)
(** * Tables of rows

    A heap file seen as a list of rows: each tuple of the file is the encoding
    of a row of the table's schema. The heap operations on the bytes become
    operations on that list. *)
From stdpp Require Import base numbers list sorting strings gmap.
From Stdlib Require Import ZArith Lia.
From S2P Require Import Prelude Bytes Common Disk PageStore Heap HeapTable Codec.

Abbreviation rows := (list (RID * Tuple)).

Definition encode (x : RID * Tuple) : RID * list byte := (x.1, Codec.serializeTuple x.2).

(** What the engine stores: one value per column, at least one. *)
Definition row_ok (sch : Schema) (t : Tuple) : Prop :=
  tuple_ok t /\ t <> [] /\ length t = length sch.

(** ** Columns by name *)
(** the first column of that name *)
Definition column_index (sch : Schema) (name : string) : option nat :=
  fst <$> list_find (fun c => col_name c = name) sch.

Lemma findColumn_index sch name :
  Z.of_nat (length sch) <= INT_MAX ->
  Schema.findColumn sch name = match column_index sch name with Some i => Z.of_nat i | None => -1 end.
Proof.
  intros Hlen. unfold Schema.findColumn, column_index.
  destruct (Schema.findColumn_from_spec sch name 0) as [(k & c & Hk & Hn & -> & Hmin)|[-> Hno]]; [lia|lia| |].
  - assert (list_find (fun c => col_name c = name) sch = Some (k, c)) as ->; [|simpl; lia].
    apply list_find_Some. split; [done|]. split; [done|]. intros j y Hj Hlt. by eapply Hmin.
  - assert (list_find (fun c => col_name c = name) sch = None) as ->; [|done].
    apply list_find_None, Forall_forall. auto.
Qed.

Lemma column_index_lt sch name i : column_index sch name = Some i -> (i < length sch)%nat.
Proof.
  unfold column_index. intros H. apply fmap_Some in H as ([j c] & Hf & ->).
  apply list_find_Some in Hf as (Hj & _). by eapply lookup_lt_Some.
Qed.

(** The values of a tuple at some positions. *)
Definition pick (idxs : list nat) (t : Tuple) : Tuple := omap (fun i => t !! i) idxs.

Section rows.
Context {St : Type} `{!PageStore St, !PageStoreSpec St}.
Implicit Types (s : St) (f : Z) (l : rows).

Record table_holds s f (sch : Schema) l : Prop := {
  th_table : table_ok s f;
  th_rows : table_rows s f = map encode l;
  th_ok : Forall (fun x => row_ok sch x.2) l;
}.

Lemma count_nonneg s f : table_ok s f -> 0 <= ps_count f s.
Proof. intros Ht. apply (ps_count_range s f (tb_idle _ _ Ht) (tb_file _ _ Ht)). Qed.

Lemma table_rows_sorted s f : StronglySorted row_before (table_rows s f).
Proof. apply rows_from_sorted. Qed.

Lemma row_before_irrefl x y : row_before x y -> x.1 <> y.1.
Proof.
  unfold row_before, Rid.ltb. intros H E. rewrite E, Z.eqb_refl in H. simpl in H.
  apply Z.ltb_lt in H. lia.
Qed.

#[local] Instance row_before_antisymm : AntiSymm (=) row_before.
Proof.
  intros x y Hxy Hyx. exfalso. unfold row_before, Rid.ltb in *.
  destruct (Z.eqb_spec (pageId x.1) (pageId y.1)) as [E|E]; rewrite Z.eqb_sym in Hyx.
  - rewrite E, Z.eqb_refl in Hyx. simpl in *. apply Z.ltb_lt in Hxy, Hyx. lia.
  - rewrite (proj2 (Z.eqb_neq _ _)) in Hyx by done. simpl in *. apply Z.ltb_lt in Hxy, Hyx. lia.
Qed.

Lemma sorted_nodup (ts : list (RID * list byte)) : StronglySorted row_before ts -> NoDup ts.*1.
Proof.
  induction 1 as [|x ts _ IH Hx]; simpl; constructor; [|done].
  intros (y & Hy & Hin)%list_elem_of_fmap. rewrite Forall_forall in Hx.
  by apply (row_before_irrefl x y); [apply Hx|].
Qed.

Lemma table_rows_nodup s f : NoDup (table_rows s f).
Proof. eapply NoDup_fmap_1, sorted_nodup, table_rows_sorted. Qed.

Lemma table_holds_nodup s f sch l : table_holds s f sch l -> NoDup l.*1.
Proof.
  intros [_ Hr _]. pose proof (sorted_nodup _ (table_rows_sorted s f)) as H. rewrite Hr in H.
  replace (l.*1) with ((map encode l).*1); [done|]. clear. induction l as [|x l IH]; [done|].
  cbn [map fmap list_fmap]. by f_equal.
Qed.

(** A table is the sorted list of its rows. *)
Lemma table_rows_unique s f (ts : list (RID * list byte)) :
  table_ok s f -> StronglySorted row_before ts ->
  (forall r d, (r, d) ∈ ts <-> lookup_row s f r = Some d) -> table_rows s f = ts.
Proof.
  intros Ht Hs Hl. apply (StronglySorted_unique row_before); [apply table_rows_sorted|done|].
  apply NoDup_Permutation; [apply table_rows_nodup|by eapply NoDup_fmap_1, sorted_nodup|].
  intros [r d]. by rewrite elem_of_table_rows, Hl by (by apply count_nonneg).
Qed.

Lemma table_rows_same s s' f :
  table_ok s f -> table_ok s' f -> (forall r, lookup_row s' f r = lookup_row s f r) ->
  table_rows s' f = table_rows s f.
Proof.
  intros Ht Ht' Hl. apply table_rows_unique; [done|apply table_rows_sorted|].
  intros r d. by rewrite elem_of_table_rows, Hl by (by apply count_nonneg).
Qed.

Lemma table_holds_same s s' f sch l :
  table_holds s f sch l -> table_ok s' f -> (forall r, lookup_row s' f r = lookup_row s f r) ->
  table_holds s' f sch l.
Proof.
  intros [Ht Hr Hok] Ht' Hl. split; [done| |done]. by rewrite (table_rows_same s s' f).
Qed.

Lemma table_holds_unchanged s s' f sch l :
  table_holds s f sch l -> unchanged s s' -> table_holds s' f sch l.
Proof.
  intros Hh Hu. destruct (table_unchanged s s' f (th_table _ _ _ _ Hh) Hu) as (Ht & _ & Hl).
  by apply (table_holds_same s s').
Qed.

Lemma elem_of_rows s f sch l r t :
  table_holds s f sch l -> (r, t) ∈ l -> lookup_row s f r = Some (Codec.serializeTuple t).
Proof.
  intros [Ht Hr _] Hin. apply elem_of_table_rows; [by apply count_nonneg|]. rewrite Hr.
  apply list_elem_of_fmap. by exists (r, t).
Qed.

Lemma rows_rid_in s f sch l r t : table_holds s f sch l -> (r, t) ∈ l -> rid_in s f r.
Proof.
  intros Hh Hin. pose proof (elem_of_rows _ _ _ _ _ _ Hh Hin) as Hl. unfold lookup_row in Hl.
  by destruct (decide (0 <= pageId r < ps_count f s /\ 0 <= slotNum r)).
Qed.

(** ** The heap operations on rows *)
Lemma inserted_rows s s' f rid bs :
  table_ok s f -> row_inserted s s' f rid bs -> table_rows s' f ≡ₚ (rid, bs) :: table_rows s f.
Proof.
  intros Ht [Ht' _ Hfresh Hl]. apply NoDup_Permutation; [apply table_rows_nodup| |].
  - constructor; [|apply table_rows_nodup].
    rewrite elem_of_table_rows by (by apply count_nonneg). by rewrite Hfresh.
  - intros [r d]. rewrite elem_of_cons, !elem_of_table_rows by (by apply count_nonneg).
    rewrite Hl. case_decide as E.
    + subst r. rewrite Hfresh. naive_solver.
    + naive_solver.
Qed.

Lemma insert_rows s s' f sch l rid t :
  table_holds s f sch l -> row_ok sch t -> row_inserted s s' f rid (Codec.serializeTuple t) ->
  exists l', table_holds s' f sch l' /\ l' ≡ₚ (rid, t) :: l.
Proof.
  intros [Ht Hr Hok] Hrow Hins.
  pose proof (inserted_rows s s' f rid _ Ht Hins) as Hp. rewrite Hr in Hp.
  change (_ :: map encode l) with (map encode ((rid, t) :: l)) in Hp.
  apply Permutation_map_inv in Hp as (l' & Hr' & Hp).
  exists l'. split; [|done]. split; [apply Hins|done|]. rewrite <- Hp. by constructor.
Qed.

Lemma delete_rows_one s s' f sch l rid :
  table_holds s f sch l -> row_deleted s s' f rid ->
  table_holds s' f sch (filter (fun x => x.1 <> rid) l).
Proof.
  intros [Ht Hr Hok] [Ht' _ _ Hl]. split; [done| |].
  - apply table_rows_unique; [done| |].
    + pose proof (table_rows_sorted s f) as Hs. rewrite Hr in Hs.
      clear -Hs. induction l as [|x l IH]; [constructor|]. simpl in Hs.
      apply StronglySorted_inv in Hs as [Hs Hx]. rewrite filter_cons. case_decide; [|by apply IH].
      simpl. constructor; [by apply IH|]. rewrite Forall_forall in *. intros y Hy. apply Hx.
      apply list_elem_of_fmap in Hy as (z & -> & Hz). apply list_elem_of_fmap. exists z.
      by apply list_elem_of_filter in Hz as [_ ?].
    + intros r d. rewrite Hl. split.
      * intros (x & Hx & Hin)%list_elem_of_fmap. apply list_elem_of_filter in Hin as [Hne Hin].
        injection Hx as -> ->. rewrite decide_False by done.
        apply (elem_of_rows s f sch l); [by split|by destruct x].
      * case_decide as E; [done|]. intros Hd. rewrite <- elem_of_table_rows in Hd by (by apply count_nonneg).
        rewrite Hr in Hd. apply list_elem_of_fmap in Hd as (x & Hx & Hin). injection Hx as -> ->.
        apply list_elem_of_fmap. exists x. split; [done|]. by apply list_elem_of_filter.
  - rewrite Forall_forall in *. intros x [_ Hx]%list_elem_of_filter. by apply Hok.
Qed.
End rows.
