(* ===== verification/Executor.v ===== *)
(** * Query executors (src/src/query/Executor.h, Executor.cpp)

    The iterator model: an executor is a class instance with [init], [next] and
    an output schema, its C++ virtual functions. What an [init] does to the
    shared context is threaded; an executor whose [init] throws is dropped by its
    owner, so its own state is not kept then. [next] of the executors below
    touches no shared state. *)
From stdpp Require Import base numbers list strings gmap.
From Stdlib Require Import ZArith Lia.
From S2P Require Import Prelude Bytes Common PageStore Heap Catalog Codec BTree.

(** The context of a plan: the catalog, the page manager's store and the
    index of each table. *)
Record ExecutionContext (St : Type) := mkCtx {
  ec_store : St;
  ec_catalog : Catalog;
  ec_indexes : gmap string BPlusTree;
}.
Arguments mkCtx {St}.
Arguments ec_store {St}.
Arguments ec_catalog {St}.
Arguments ec_indexes {St}.

(** [std::function<bool(const Tuple &)>]; [None] is the empty function. *)
Definition predicate : Type := option (Tuple -> outcome bool).
Definition holds (p : predicate) (t : Tuple) : outcome bool :=
  match p with None => Ret true | Some f => f t end.

(** The interface of executors on contexts over [St]. [ex_left] bounds how
    many more tuples [next] can return; loops over [next] use it as fuel. *)
Class Executor (St E : Type) := {
  ex_init : E -> M (ExecutionContext St) E;
  ex_next : E -> outcome (option Tuple * E);
  ex_schema : E -> Schema;
  ex_left : E -> nat;
}.
Arguments ex_init {St E _}.
Arguments ex_next St {E _}.
Arguments ex_schema St {E _}.
Arguments ex_left St {E _}.

Module Exec.
Section context.
Context {St : Type}.

Definition on_store {A} : M St A -> M (ExecutionContext St) A :=
  zoom ec_store (fun s c => mkCtx s (ec_catalog c) (ec_indexes c)).
Definition set_catalog (k : Catalog) (c : ExecutionContext St) : ExecutionContext St :=
  mkCtx (ec_store c) k (ec_indexes c).

Definition setIndex (tableName : string) (tree : BPlusTree) (c : ExecutionContext St)
    : ExecutionContext St :=
  mkCtx (ec_store c) (ec_catalog c) (<[tableName := tree]> (ec_indexes c)).
Definition getIndex (tableName : string) (c : ExecutionContext St) : option BPlusTree :=
  ec_indexes c !! tableName.

(** A call on the tree of a table, through its pointer. *)
Definition on_index {A} (tableName : string) (tree : BPlusTree) (m : M BPlusTree A)
    : M (ExecutionContext St) A :=
  fun c => let '(o, tree') := m tree in (o, setIndex tableName tree' c).

(** [ctx->catalog()->getTable(tableName)], an exception when it is null *)
Definition table_info (who tableName : string) : M (ExecutionContext St) TableInfo :=
  c <- get ;;
  match Cat.getTable tableName (ec_catalog c) with
  | Some info => ret info
  | None => throw (who +:+ ": table not found: " +:+ tableName)
  end.
End context.

(** [if (tree) tree->m], the answer dropped *)
Definition with_index {St A} (tableName : string) (m : M BPlusTree A) : M (ExecutionContext St) unit :=
  c <- get ;;
  match getIndex tableName c with
  | Some tree => on_index tableName tree m ;; ret tt
  | None => ret tt
  end.

(** [info->rowCount]: the entry is read again, as through the pointer. *)
Definition updateRowCount {St} (tableName : string) (f : Z -> Z) : M (ExecutionContext St) unit :=
  modify (fun c => set_catalog (alter (fun i => set_rowCount (f (rowCount i)) i) tableName (ec_catalog c)) c).

(** [while (child.next(t)) result.push_back(t)] *)
Fixpoint drain {St E} `{!Executor St E} (fuel : nat) (e : E) : outcome (list Tuple * E) :=
  match fuel with
  | O => Undef
  | S fuel' =>
      r <~ ex_next St e ;;
      match r.1 with
      | None => Ret ([], r.2)
      | Some t => rest <~ drain fuel' r.2 ;; Ret (t :: rest.1, rest.2)
      end
  end.
Arguments drain St {E _}.
Definition all_tuples St {E} `{!Executor St E} (e : E) : outcome (list Tuple * E) :=
  drain St (S (ex_left St e)) e.
End Exec.

(** ** SeqScan *)
Record SeqScanExecutor := mkSeqScan {
  ss_tableName : string;
  ss_predicate : predicate;
  ss_schema : Schema;
  ss_fileId : Z;
  ss_results : list Tuple;
  ss_currentIdx : nat;
}.

Module SeqScan.
Definition new (tableName : string) (p : predicate) : SeqScanExecutor :=
  mkSeqScan tableName p [] (-1) [] 0.

(** the lambda of the scan, on [results_] *)
Definition visit_row (s : Schema) (p : predicate) (results : list Tuple) (rid : RID) (data : list byte)
    : outcome (list Tuple * bool) :=
  tuple <~ Codec.deserializeTuple data (Z.of_nat (length data)) s ;;
  b <~ holds p tuple ;;
  Ret (if b then results ++ [tuple] else results, true).

Section store.
Context {St : Type} `{!PageStore St}.

Definition init (e : SeqScanExecutor) : M (ExecutionContext St) SeqScanExecutor :=
  info <- Exec.table_info "SeqScan" (ss_tableName e) ;;
  results <- Exec.on_store
    (Heap.scanTable (visit_row (ti_schema info) (ss_predicate e)) (ti_fileId info) []) ;;
  ret (mkSeqScan (ss_tableName e) (ss_predicate e) (ti_schema info) (ti_fileId info) results 0).

Definition next (e : SeqScanExecutor) : outcome (option Tuple * SeqScanExecutor) :=
  match ss_results e !! ss_currentIdx e with
  | None => Ret (None, e)
  | Some t => Ret (Some t, mkSeqScan (ss_tableName e) (ss_predicate e) (ss_schema e) (ss_fileId e)
                             (ss_results e) (S (ss_currentIdx e)))
  end.

#[global] Instance executor : Executor St SeqScanExecutor := {
  ex_init := init;
  ex_next := next;
  ex_schema := ss_schema;
  ex_left e := (length (ss_results e) - ss_currentIdx e)%nat;
}.
End store.
End SeqScan.

(** ** IndexScan *)
Record IndexScanExecutor := mkIndexScan {
  is_tableName : string;
  is_searchKey : Z;
  is_schema : Schema;
  is_fileId : Z;
  is_done : bool;
  is_resultRid : RID;
}.

Module IndexScan.
Definition new (tableName : string) (key : Z) : IndexScanExecutor :=
  mkIndexScan tableName key [] (-1) false Rid.default.

Section store.
Context {St : Type} `{!PageStore St}.

Definition init (e : IndexScanExecutor) : M (ExecutionContext St) IndexScanExecutor :=
  info <- Exec.table_info "IndexScan" (is_tableName e) ;;
  c <- get ;;
  found <- match Exec.getIndex (is_tableName e) c with
           | None => ret None
           | Some tree => Exec.on_index (is_tableName e) tree (BTree.search (is_searchKey e))
           end ;;
  ret (mkIndexScan (is_tableName e) (is_searchKey e) (ti_schema info) (ti_fileId info)
         (bool_decide (found = None)) (default (is_resultRid e) found)).

(** The row is never fetched. *)
Definition next (e : IndexScanExecutor) : outcome (option Tuple * IndexScanExecutor) :=
  if is_done e then Ret (None, e)
  else Ret (None, mkIndexScan (is_tableName e) (is_searchKey e) (is_schema e) (is_fileId e) true (is_resultRid e)).

#[global] Instance executor : Executor St IndexScanExecutor := {
  ex_init := init;
  ex_next := next;
  ex_schema := is_schema;
  ex_left e := 0%nat;
}.
End store.
End IndexScan.

(** ** Insert *)
Record InsertExecutor := mkInsert {
  in_tableName : string;
  in_values : list value;
  in_schema : Schema;
  in_done : bool;
}.

Module Insert.
Definition new (tableName : string) (values : list value) : InsertExecutor :=
  mkInsert tableName values [] false.

(** the key of a row: its first value, when that is an INT *)
Definition key_of (values : list value) : option Z :=
  match values with VInt z :: _ => Some z | _ => None end.

Section store.
Context {St : Type} `{!PageStore St} (grow : nat -> nat).

Definition init (e : InsertExecutor) : M (ExecutionContext St) InsertExecutor :=
  info <- Exec.table_info "Insert" (in_tableName e) ;;
  let data := Codec.serializeTuple (in_values e) in
  rid <- Exec.on_store (Heap.insertTuple (ti_fileId info) data (u16 (Z.of_nat (length data)))) ;;
  (match key_of (in_values e) with
   | Some key => Exec.with_index (in_tableName e) (BTree.insert grow key rid)
   | None => ret tt
   end) ;;
  Exec.updateRowCount (in_tableName e) (fun n => u32 (n + 1)) ;;
  ret (mkInsert (in_tableName e) (in_values e) (ti_schema info) false).

Definition next (e : InsertExecutor) : outcome (option Tuple * InsertExecutor) :=
  if in_done e then Ret (None, e)
  else Ret (Some (in_values e), mkInsert (in_tableName e) (in_values e) (in_schema e) true).

Definition executor : Executor St InsertExecutor := {|
  ex_init := init;
  ex_next := next;
  ex_schema := in_schema;
  ex_left e := if in_done e then 0%nat else 1%nat;
|}.
End store.
End Insert.

(** ** Delete *)
Record DeleteExecutor := mkDelete {
  de_tableName : string;
  de_predicate : predicate;
  de_schema : Schema;
  de_fileId : Z;
  de_done : bool;
  deletedCount_ : Z;
}.

Module Delete.
Definition new (tableName : string) (p : predicate) : DeleteExecutor :=
  mkDelete tableName p [] (-1) false 0.

(** The lambda of the scan, on [toDelete]: each row id with its key, -1 when
    the row has none. *)
Definition visit_row (s : Schema) (p : predicate) (toDelete : list (RID * Z)) (rid : RID) (data : list byte)
    : outcome (list (RID * Z) * bool) :=
  tuple <~ Codec.deserializeTuple data (Z.of_nat (length data)) s ;;
  b <~ holds p tuple ;;
  let pk := default (-1) (Insert.key_of tuple) in
  Ret (if b then toDelete ++ [(rid, pk)] else toDelete, true).

Section store.
Context {St : Type} `{!PageStore St}.

(** The deletion loop, from [deletedCount_ = n] on. *)
Fixpoint delete_rows (tableName : string) (fileId : Z) (rows : list (RID * Z)) (n : Z)
    : M (ExecutionContext St) Z :=
  match rows with
  | [] => ret n
  | (rid, pk) :: rest =>
      Exec.on_store (Heap.deleteTuple fileId rid) ;;
      (if 0 <=? pk then Exec.with_index tableName (BTree.remove pk) else ret tt) ;;
      n' <- lift (int_succ n) ;;
      delete_rows tableName fileId rest n'
  end.

Definition init (e : DeleteExecutor) : M (ExecutionContext St) DeleteExecutor :=
  info <- Exec.table_info "Delete" (de_tableName e) ;;
  toDelete <- Exec.on_store
    (Heap.scanTable (visit_row (ti_schema info) (de_predicate e)) (ti_fileId info) []) ;;
  n <- delete_rows (de_tableName e) (ti_fileId info) toDelete 0 ;;
  Exec.updateRowCount (de_tableName e) (fun c => if u32 n <=? c then u32 (c - n) else 0) ;;
  ret (mkDelete (de_tableName e) (de_predicate e) (ti_schema info) (ti_fileId info) false n).

Definition next (e : DeleteExecutor) : outcome (option Tuple * DeleteExecutor) :=
  if de_done e then Ret (None, e)
  else Ret (Some [VInt (deletedCount_ e)],
            mkDelete (de_tableName e) (de_predicate e) (de_schema e) (de_fileId e) true (deletedCount_ e)).

#[global] Instance executor : Executor St DeleteExecutor := {
  ex_init := init;
  ex_next := next;
  ex_schema := de_schema;
  ex_left e := if de_done e then 0%nat else 1%nat;
}.
End store.
End Delete.

(** ** NestedLoopJoin *)
Record NestedLoopJoinExecutor (L R : Type) := mkJoin {
  jo_left : L;
  jo_right : R;
  jo_leftCol : string;
  jo_rightCol : string;
  jo_outputSchema : Schema;
  leftTuples_ : list Tuple;
  rightTuples_ : list Tuple;
  joinResults_ : list Tuple;
  jo_currentIdx : nat;
}.
Arguments mkJoin {L R}.
Arguments jo_left {L R}.
Arguments jo_right {L R}.
Arguments jo_leftCol {L R}.
Arguments jo_rightCol {L R}.
Arguments jo_outputSchema {L R}.
Arguments leftTuples_ {L R}.
Arguments rightTuples_ {L R}.
Arguments joinResults_ {L R}.
Arguments jo_currentIdx {L R}.

Module Join.
Section loops.
Context (leftIdx rightIdx : Z).

Fixpoint join_row (l : Tuple) (rights : list Tuple) : outcome (list Tuple) :=
  match rights with
  | [] => Ret []
  | r :: rest =>
      a <~ Tuple.getValue l (Z.to_nat leftIdx) ;;
      b <~ Tuple.getValue r (Z.to_nat rightIdx) ;;
      out <~ join_row l rest ;;
      Ret (if Value.eqb a b then (l ++ r) :: out else out)
  end.
Fixpoint join_rows (lefts rights : list Tuple) : outcome (list Tuple) :=
  match lefts with
  | [] => Ret []
  | l :: rest => a <~ join_row l rights ;; b <~ join_rows rest rights ;; Ret (a ++ b)
  end.
End loops.

Section store.
Context {St L R : Type} `{!Executor St L, !Executor St R}.
Implicit Types (e : NestedLoopJoinExecutor L R).

Definition new (l : L) (r : R) (leftCol rightCol : string) : NestedLoopJoinExecutor L R :=
  mkJoin l r leftCol rightCol [] [] [] [] 0.

(** [outputSchema_] is not cleared. *)
Definition init e : M (ExecutionContext St) (NestedLoopJoinExecutor L R) :=
  l <- ex_init (jo_left e) ;;
  r <- ex_init (jo_right e) ;;
  lefts <- lift (Exec.all_tuples St l) ;;
  rights <- lift (Exec.all_tuples St r) ;;
  let leftSchema := ex_schema St lefts.2 in
  let rightSchema := ex_schema St rights.2 in
  let leftIdx := Schema.findColumn leftSchema (jo_leftCol e) in
  let rightIdx := Schema.findColumn rightSchema (jo_rightCol e) in
  if (leftIdx <? 0) || (rightIdx <? 0) then throw "Join: column not found for join predicate"
  else
    results <- lift (join_rows leftIdx rightIdx lefts.1 rights.1) ;;
    ret (mkJoin lefts.2 rights.2 (jo_leftCol e) (jo_rightCol e)
           (jo_outputSchema e ++ leftSchema ++ rightSchema) lefts.1 rights.1 results 0).

Definition next e : outcome (option Tuple * NestedLoopJoinExecutor L R) :=
  match joinResults_ e !! jo_currentIdx e with
  | None => Ret (None, e)
  | Some t => Ret (Some t, mkJoin (jo_left e) (jo_right e) (jo_leftCol e) (jo_rightCol e)
      (jo_outputSchema e) (leftTuples_ e) (rightTuples_ e) (joinResults_ e) (S (jo_currentIdx e)))
  end.

#[global] Instance executor : Executor St (NestedLoopJoinExecutor L R) := {
  ex_init := init;
  ex_next := next;
  ex_schema := jo_outputSchema;
  ex_left e := (length (joinResults_ e) - jo_currentIdx e)%nat;
}.
End store.
End Join.

(** ** Filter *)
Record FilterExecutor (E : Type) := mkFilter { fi_child : E; fi_predicate : predicate }.
Arguments mkFilter {E}.
Arguments fi_child {E}.
Arguments fi_predicate {E}.

Module Filter.
Section store.
Context {St E : Type} `{!Executor St E}.

(** Calling an empty function is an exception. *)
Definition apply (p : predicate) (t : Tuple) : outcome bool :=
  match p with Some f => f t | None => Throw "bad_function_call" end.

Definition init (e : FilterExecutor E) : M (ExecutionContext St) (FilterExecutor E) :=
  c <- ex_init (fi_child e) ;; ret (mkFilter c (fi_predicate e)).

Fixpoint next_match (fuel : nat) (p : predicate) (c : E) : outcome (option Tuple * E) :=
  match fuel with
  | O => Undef
  | S fuel' =>
      r <~ ex_next St c ;;
      match r.1 with
      | None => Ret (None, r.2)
      | Some t => b <~ apply p t ;; if b : bool then Ret (Some t, r.2) else next_match fuel' p r.2
      end
  end.
Definition next (e : FilterExecutor E) : outcome (option Tuple * FilterExecutor E) :=
  r <~ next_match (S (ex_left St (fi_child e))) (fi_predicate e) (fi_child e) ;;
  Ret (r.1, mkFilter r.2 (fi_predicate e)).

#[global] Instance executor : Executor St (FilterExecutor E) := {
  ex_init := init;
  ex_next := next;
  ex_schema e := ex_schema St (fi_child e);
  ex_left e := ex_left St (fi_child e);
}.
End store.
End Filter.

(** ** Projection *)
Record ProjectionExecutor (E : Type) := mkProjection {
  pj_child : E;
  pj_columns : list string;
  pj_outputSchema : Schema;
  columnIndices_ : list Z;
}.
Arguments mkProjection {E}.
Arguments pj_child {E}.
Arguments pj_columns {E}.
Arguments pj_outputSchema {E}.
Arguments columnIndices_ {E}.

Module Projection.
Section store.
Context {St E : Type} `{!Executor St E}.

(** The loop of [init], on [columnIndices_] and [outputSchema_]. *)
Fixpoint resolve (input : Schema) (columns : list string) (idxs : list Z) (out : Schema)
    : outcome (list Z * Schema) :=
  match columns with
  | [] => Ret (idxs, out)
  | col :: rest =>
      let idx := Schema.findColumn input col in
      if idx <? 0 then Throw ("Projection: column not found: " +:+ col)
      else
        c <~ Schema.getColumn input (Z.to_nat idx) ;;
        resolve input rest (idxs ++ [idx]) (Schema.addColumn out c)
  end.

(** [outputSchema_] is not cleared. *)
Definition init (e : ProjectionExecutor E) : M (ExecutionContext St) (ProjectionExecutor E) :=
  c <- ex_init (pj_child e) ;;
  r <- lift (resolve (ex_schema St c) (pj_columns e) [] (pj_outputSchema e)) ;;
  ret (mkProjection c (pj_columns e) r.2 r.1).

Fixpoint project (idxs : list Z) (t : Tuple) : outcome Tuple :=
  match idxs with
  | [] => Ret []
  | idx :: rest => v <~ Tuple.getValue t (Z.to_nat idx) ;; vs <~ project rest t ;; Ret (v :: vs)
  end.

Definition next (e : ProjectionExecutor E) : outcome (option Tuple * ProjectionExecutor E) :=
  r <~ ex_next St (pj_child e) ;;
  let e' := mkProjection r.2 (pj_columns e) (pj_outputSchema e) (columnIndices_ e) in
  match r.1 with
  | None => Ret (None, e')
  | Some t => p <~ project (columnIndices_ e) t ;; Ret (Some p, e')
  end.

#[global] Instance executor : Executor St (ProjectionExecutor E) := {
  ex_init := init;
  ex_next := next;
  ex_schema := pj_outputSchema;
  ex_left e := ex_left St (pj_child e);
}.
End store.
End Projection.
