(* ===== verification/ExecSpec.v ===== *)
(** * What the executors promise

    [ExecutorSpec] is the contract of the iterator interface: the tuples an
    executor still has to return, and that [next] returns them one by one. Each
    executor of Executor.v meets it, and those with a child are proved from the
    child's contract alone. *)
From stdpp Require Import base numbers list sorting strings gmap.
From Stdlib Require Import ZArith Lia.
From S2P Require Import Prelude Bytes Common Disk PageStore Heap HeapTable Catalog Codec Rows BTree Executor.

#[global] Instance outcome_eq_dec {A} `{!EqDecision A} : EqDecision (outcome A).
Proof. solve_decision. Defined.

Class ExecutorSpec (St E : Type) `{!Executor St E} := {
  ex_ok : E -> Prop;
  ex_rest : E -> list Tuple;
  ex_next_nil e : ex_ok e -> ex_rest e = [] ->
    exists e', ex_next St e = Ret (None, e') /\ ex_schema St e' = ex_schema St e;
  ex_next_cons e t ts : ex_ok e -> ex_rest e = t :: ts ->
    exists e', ex_next St e = Ret (Some t, e') /\ ex_ok e' /\ ex_rest e' = ts /\
      ex_schema St e' = ex_schema St e;
  ex_left_enough e : ex_ok e -> (length (ex_rest e) <= ex_left St e)%nat;
}.
Arguments ex_ok St {E _ _}.
Arguments ex_rest St {E _ _}.

Section drain.
Context {St E : Type} `{!Executor St E, !ExecutorSpec St E}.

Lemma drain_runs l : forall e fuel,
  ex_ok St e -> ex_rest St e = l -> (length l < fuel)%nat ->
  exists e', Exec.drain St fuel e = Ret (l, e') /\ ex_schema St e' = ex_schema St e.
Proof.
  induction l as [|t l IH]; intros e fuel Hok Hl Hf; (destruct fuel as [|fuel]; [simpl in Hf; lia|]); simpl.
  - destruct (ex_next_nil e Hok Hl) as (e' & -> & Hs). simpl. by exists e'.
  - destruct (ex_next_cons e t l Hok Hl) as (e1 & -> & Hok1 & Hl1 & Hs1). simpl.
    destruct (IH e1 fuel Hok1 Hl1) as (e' & -> & Hs); [simpl in Hf; lia|]. simpl.
    exists e'. by rewrite Hs, Hs1.
Qed.

Lemma all_tuples_runs e :
  ex_ok St e ->
  exists e', Exec.all_tuples St e = Ret (ex_rest St e, e') /\ ex_schema St e' = ex_schema St e.
Proof.
  intros Hok. apply drain_runs; [done|done|]. pose proof (ex_left_enough e Hok). lia.
Qed.
End drain.

Lemma drop_head {A} (l : list A) i x xs :
  drop i l = x :: xs -> l !! i = Some x /\ drop (S i) l = xs.
Proof.
  intros H. split.
  - by rewrite <- (Nat.add_0_r i), <- lookup_drop, H.
  - pose proof (skipn_skipn 1 i l) as H1. by rewrite H in H1.
Qed.

Lemma drop_nil_end {A} (l : list A) i : drop i l = [] -> l !! i = None.
Proof.
  intros H. apply lookup_ge_None. pose proof (f_equal length H) as Hl.
  rewrite length_drop in Hl. simpl in Hl. lia.
Qed.

(** ** The executors that keep their results in a list *)
Section instances.
Context {St : Type} `{!PageStore St}.

#[global, refine] Instance seqScan_spec : ExecutorSpec St SeqScanExecutor := {
  ex_ok e := True;
  ex_rest e := drop (ss_currentIdx e) (ss_results e);
}.
Proof.
  - intros e _ Hl. simpl. unfold SeqScan.next. rewrite (drop_nil_end _ _ Hl). by exists e.
  - intros e t ts _ Hl. simpl. unfold SeqScan.next. destruct (drop_head _ _ _ _ Hl) as [-> Hts].
    eexists. split; [done|]. split; [done|]. by split.
  - intros e _. simpl. by rewrite length_drop.
Defined.

#[global, refine] Instance indexScan_spec : ExecutorSpec St IndexScanExecutor := {
  ex_ok e := True;
  ex_rest e := [];
}.
Proof.
  - intros e _ _. simpl. unfold IndexScan.next. destruct (is_done e); by eexists.
  - done.
  - intros e _. done.
Defined.

#[global, refine] Instance delete_spec : ExecutorSpec St DeleteExecutor := {
  ex_ok e := True;
  ex_rest e := if de_done e then [] else [[VInt (deletedCount_ e)]];
}.
Proof.
  - intros e _. simpl. unfold Delete.next. destruct (de_done e); [|done]. by eexists.
  - intros e t ts _. simpl. unfold Delete.next. destruct (de_done e); [done|]. intros [= <- <-].
    by eexists.
  - intros e _. simpl. by destruct (de_done e).
Defined.

Section join.
Context {L R : Type} `{!Executor St L, !Executor St R}.
#[global, refine] Instance join_spec : ExecutorSpec St (NestedLoopJoinExecutor L R) := {
  ex_ok e := True;
  ex_rest e := drop (jo_currentIdx e) (joinResults_ e);
}.
Proof.
  - intros e _ Hl. simpl. unfold Join.next. rewrite (drop_nil_end _ _ Hl). by exists e.
  - intros e t ts _ Hl. simpl. unfold Join.next. destruct (drop_head _ _ _ _ Hl) as [-> Hts].
    eexists. split; [done|]. split; [done|]. by split.
  - intros e _. simpl. by rewrite length_drop.
Defined.
End join.
End instances.

(** ** The executors over a child *)
Section child.
Context {St E : Type} `{!Executor St E, !ExecutorSpec St E}.

(** A filter returns the tuples its predicate answers true on; it must answer on
    all of them. *)
Lemma next_match_runs p l : forall (c : E) fuel,
  ex_ok St c -> ex_rest St c = l -> (length l < fuel)%nat ->
  Forall (fun t => exists b, Filter.apply p t = Ret b) l ->
  match filter (fun t => Filter.apply p t = Ret true) l with
  | [] => exists c', Filter.next_match (St := St) fuel p c = Ret (None, c') /\ ex_schema St c' = ex_schema St c
  | t :: ts => exists c', Filter.next_match (St := St) fuel p c = Ret (Some t, c') /\ ex_ok St c' /\
      filter (fun t => Filter.apply p t = Ret true) (ex_rest St c') = ts /\
      Forall (fun t => exists b, Filter.apply p t = Ret b) (ex_rest St c') /\
      ex_schema St c' = ex_schema St c
  end.
Proof.
  induction l as [|t l IH]; intros c fuel Hok Hl Hf Hp; (destruct fuel as [|fuel]; [simpl in Hf; lia|]).
  - destruct (ex_next_nil c Hok Hl) as (c' & Hn & Hs). simpl. rewrite Hn. by exists c'.
  - destruct (ex_next_cons c t l Hok Hl) as (c1 & Hn & Hok1 & Hl1 & Hs1).
    apply Forall_cons in Hp as [[b Hb] Hp]. simpl in Hf.
    rewrite filter_cons. cbn [Filter.next_match]. rewrite Hn. cbn [obind fst snd].
    rewrite Hb. cbn [obind]. destruct b.
    + rewrite decide_True by done. exists c1. by rewrite Hl1.
    + rewrite decide_False by done. specialize (IH c1 fuel Hok1 Hl1 ltac:(lia) Hp).
      by rewrite Hs1 in IH.
Qed.

#[global, refine] Instance filter_spec : ExecutorSpec St (FilterExecutor E) := {
  ex_ok e := ex_ok St (fi_child e) /\
    Forall (fun t => exists b, Filter.apply (fi_predicate e) t = Ret b) (ex_rest St (fi_child e));
  ex_rest e := filter (fun t => Filter.apply (fi_predicate e) t = Ret true) (ex_rest St (fi_child e));
}.
Proof.
  - intros e [Hok Hp] Hl. pose proof (ex_left_enough _ Hok) as Hlen.
    pose proof (next_match_runs (fi_predicate e) _ _ (S (ex_left St (fi_child e))) Hok eq_refl ltac:(lia) Hp) as H.
    rewrite Hl in H. destruct H as (c' & Hn & Hs). simpl. unfold Filter.next. rewrite Hn. by eexists.
  - intros e t ts [Hok Hp] Hl. pose proof (ex_left_enough _ Hok) as Hlen.
    pose proof (next_match_runs (fi_predicate e) _ _ (S (ex_left St (fi_child e))) Hok eq_refl ltac:(lia) Hp) as H.
    rewrite Hl in H. destruct H as (c' & Hn & Hok' & Hts & Hp' & Hs). simpl. unfold Filter.next. rewrite Hn.
    by eexists.
  - intros e [Hok Hp]. simpl. etrans; [apply length_filter|]. by apply ex_left_enough.
Defined.

(** A projection returns the named columns of each tuple. *)
Definition projected (idxs : list Z) (t : Tuple) : Tuple :=
  match Projection.project idxs t with Ret p => p | _ => [] end.

#[global, refine] Instance projection_spec : ExecutorSpec St (ProjectionExecutor E) := {
  ex_ok e := ex_ok St (pj_child e) /\
    Forall (fun t => exists p, Projection.project (columnIndices_ e) t = Ret p) (ex_rest St (pj_child e));
  ex_rest e := map (projected (columnIndices_ e)) (ex_rest St (pj_child e));
}.
Proof.
  - intros e [Hok Hp] Hl. apply map_eq_nil in Hl. simpl. unfold Projection.next.
    destruct (ex_next_nil _ Hok Hl) as (c' & -> & Hs). simpl. by eexists.
  - intros e t ts [Hok Hp] Hl. destruct (ex_rest St (pj_child e)) as [|u us] eqn:E1; [done|].
    simpl in Hl. injection Hl as <- <-. apply Forall_cons in Hp as [[p Hp] Hps].
    destruct (ex_next_cons _ u us Hok E1) as (c' & Hn & Hok' & Hl' & Hs). simpl.
    unfold Projection.next. rewrite Hn. cbn [obind fst snd]. rewrite Hp. cbn [obind].
    unfold projected at 1. rewrite Hp. eexists. split; [done|]. simpl. by rewrite Hl'.
  - intros e [Hok _]. simpl. rewrite length_map. by apply ex_left_enough.
Defined.

Lemma filter_rest p (c : E) :
  ex_rest St (mkFilter c p) = filter (fun t => Filter.apply p t = Ret true) (ex_rest St c).
Proof. done. Qed.
Lemma filter_rest_total (q : Tuple -> bool) (c : E) :
  ex_rest St (mkFilter c (Some (fun t => Ret (q t)))) = filter (fun t => q t = true) (ex_rest St c).
Proof. rewrite filter_rest. apply list_filter_iff. intros t. simpl. split; congruence. Qed.
Lemma projection_rest (c : E) cols out idxs :
  ex_rest St (mkProjection c cols out idxs) = map (projected idxs) (ex_rest St c).
Proof. done. Qed.
End child.
