(* ===== verification/ExecRun.v ===== *)
(** * What the executors do to the tables

    Runs of [init] over a table of rows: scans list its rows, an insertion adds
    one, a deletion removes those its predicate selects, and the index and the
    row count follow. *)
From stdpp Require Import base numbers list sorting strings gmap.
From Stdlib Require Import ZArith Lia.
From S2P Require Import Prelude Bytes Common Disk Page PageStore Heap HeapTable Catalog Codec Rows BTree BTreeThms Executor ExecSpec.

(** The predicate answers [P] on these rows. *)
Definition decides (p : predicate) (P : Tuple -> bool) (l : rows) : Prop :=
  Forall (fun x => holds p x.2 = Ret (P x.2)) l.

Definition selected (P : Tuple -> bool) (l : rows) : rows := filter (fun x => P x.2 = true) l.

(** A callback that accumulates over rows. *)
Lemma visit_rows {A} (cb : A -> RID -> list byte -> outcome (A * bool)) (f : A -> RID * Tuple -> A) l : forall acc,
  (forall a x, x ∈ l -> cb a x.1 (Codec.serializeTuple x.2) = Ret (f a x, true)) ->
  visit cb (map encode l) acc = Ret (foldl f acc l, true).
Proof.
  induction l as [|x l IH]; intros acc Hf; [done|]. cbn [map visit encode foldl].
  unfold encode at 1. rewrite Hf by (by left). cbn [obind fst snd]. apply IH.
  intros a y Hy. apply Hf. by right.
Qed.

Lemma row_decodes sch t :
  row_ok sch t ->
  Codec.deserializeTuple (Codec.serializeTuple t) (Z.of_nat (length (Codec.serializeTuple t))) sch = Ret t.
Proof.
  intros (Ht & _ & Hl). rewrite <- (app_nil_r (Codec.serializeTuple t)) at 1.
  apply deserialize_serialize; [done|lia].
Qed.

Lemma foldl_collect {A} (P : Tuple -> bool) (g : RID * Tuple -> A) l : forall acc,
  foldl (fun a x => if P x.2 then a ++ [g x] else a) acc l = acc ++ map g (selected P l).
Proof.
  unfold selected. induction l as [|x l IH]; intros acc; simpl; [by rewrite app_nil_r|].
  rewrite IH, filter_cons. destruct (decide (P x.2 = true)) as [E|E].
  - rewrite E. simpl. by rewrite <- app_assoc.
  - by apply not_true_is_false in E as ->.
Qed.

Section runs.
Context {St : Type} `{!PageStore St, !PageStoreSpec St}.
Implicit Types (c : ExecutionContext St) (l : rows) (name : string).

(** The named table of a context holds these rows. *)
Definition ctx_table c name (info : TableInfo) l : Prop :=
  ec_catalog c !! name = Some info /\ table_holds (ec_store c) (ti_fileId info) (ti_schema info) l.

Lemma on_store_runs {A} (m : M St A) c a s' :
  runs m (ec_store c) a s' -> runs (Exec.on_store m) c a (mkCtx s' (ec_catalog c) (ec_indexes c)).
Proof. unfold runs, Exec.on_store, zoom. by intros ->. Qed.

Lemma table_info_runs who c name info l :
  ctx_table c name info l -> runs (Exec.table_info who name) c info c.
Proof.
  intros [Hc _]. unfold runs, Exec.table_info, bind, get, Cat.getTable. by rewrite Hc.
Qed.

(** What a statement on the table [name] in file [f] leaves alone: the other
    files, the other entries of the catalog and of the indexes, and the
    capacity of the table's own index. *)
Record ctx_step c c' name (f : Z) : Prop := {
  cs_other : others_kept (ec_store c) (ec_store c') f;
  cs_catalog : forall n, n <> name -> ec_catalog c' !! n = ec_catalog c !! n;
  cs_indexes : forall n, n <> name -> ec_indexes c' !! n = ec_indexes c !! n;
  cs_capacity : forall tree, ec_indexes c !! name = Some tree ->
    exists tree', ec_indexes c' !! name = Some tree' /\ maxLeafKeys_ tree' = maxLeafKeys_ tree;
}.

Lemma ctx_eta c : mkCtx (ec_store c) (ec_catalog c) (ec_indexes c) = c.
Proof. by destruct c. Qed.
Lemma ctx_step_refl c name f : ctx_step c c name f.
Proof. split; [by intros ??|done|done|]. eauto. Qed.
Lemma ctx_step_trans c1 c2 c3 name f : ctx_step c1 c2 name f -> ctx_step c2 c3 name f -> ctx_step c1 c3 name f.
Proof.
  intros [Ho1 Hc1 Hi1 Hm1] [Ho2 Hc2 Hi2 Hm2]. split.
  - by eapply others_kept_trans.
  - intros n Hn. by rewrite Hc2, Hc1.
  - intros n Hn. by rewrite Hi2, Hi1.
  - intros tree Ht. destruct (Hm1 tree Ht) as (t2 & Ht2 & E2). destruct (Hm2 t2 Ht2) as (t3 & Ht3 & E3).
    exists t3. split; [done|congruence].
Qed.
Lemma ctx_step_store c s' name f :
  others_kept (ec_store c) s' f -> ctx_step c (mkCtx s' (ec_catalog c) (ec_indexes c)) name f.
Proof. intros Ho. split; [done..|]. simpl. eauto. Qed.
Lemma ctx_step_catalog c name f info :
  ctx_step c (Exec.set_catalog (<[name := info]> (ec_catalog c)) c) name f.
Proof. split; simpl; [by intros ??|intros; by apply lookup_insert_ne|done|eauto]. Qed.
Lemma ctx_step_index c name f tree tree' :
  ec_indexes c !! name = Some tree -> maxLeafKeys_ tree' = maxLeafKeys_ tree ->
  ctx_step c (Exec.setIndex name tree' c) name f.
Proof.
  intros Ht Hm. split; simpl; [done|done|intros; by apply lookup_insert_ne|].
  intros t0 Ht0. exists tree'. split; [apply lookup_insert_eq|]. congruence.
Qed.

(** The other tables of the context. *)
Lemma ctx_step_table c c' name f n info l :
  ctx_step c c' name f -> ps_idle (ec_store c') -> n <> name -> ti_fileId info <> f ->
  ctx_table c n info l -> ctx_table c' n info l.
Proof.
  intros [Hk Hc _ _] Hi Hn Hf [Hcat Hh]. split; [by rewrite Hc|].
  pose proof (th_table _ _ _ _ Hh) as [_ Hfile Hwf].
  destruct (Hk _ Hf Hfile) as (Hfile' & Hcount & Hpage).
  apply (table_holds_same (ec_store c)); [done| |].
  - split; [done..|]. intros p. rewrite Hcount. intros Hp. rewrite Hpage by done. by apply Hwf.
  - intros r. unfold lookup_row. rewrite Hcount. case_decide as E; [|done]. by rewrite Hpage by tauto.
Qed.

(** ** Scans *)
Lemma scan_collect {A} (cb : list A -> RID -> list byte -> outcome (list A * bool)) p P (g : RID * Tuple -> A)
    c name info l :
  ctx_table c name info l -> decides p P l ->
  (forall acc x, row_ok (ti_schema info) x.2 -> holds p x.2 = Ret (P x.2) ->
     cb acc x.1 (Codec.serializeTuple x.2) = Ret (if P x.2 then acc ++ [g x] else acc, true)) ->
  exists c', runs (Exec.on_store (Heap.scanTable cb (ti_fileId info) [])) c (map g (selected P l)) c' /\
    ctx_table c' name info l /\ ec_catalog c' = ec_catalog c /\ ec_indexes c' = ec_indexes c /\
    unchanged (ec_store c) (ec_store c').
Proof.
  intros [Hc Hh] Hp Hcb. pose proof Hh as [Ht Hr Hok].
  destruct (scanTable_runs cb (ec_store c) (ti_fileId info) [] (map g (selected P l), true) Ht)
    as (s' & Hrun & Hu).
  { rewrite Hr, (visit_rows cb (fun a x => if P x.2 then a ++ [g x] else a)).
    - by rewrite foldl_collect.
    - unfold decides in Hp. rewrite Forall_forall in Hok, Hp. intros a x Hx. apply Hcb; auto. }
  exists (mkCtx s' (ec_catalog c) (ec_indexes c)). split; [by apply on_store_runs|].
  split; [|done]. split; [done|]. by apply (table_holds_unchanged (ec_store c)).
Qed.

Lemma seqScan_runs c name info l p P :
  ctx_table c name info l -> decides p P l ->
  exists e c', runs (SeqScan.init (SeqScan.new name p)) c e c' /\
    ex_rest St e = (selected P l).*2 /\ ex_schema St e = ti_schema info /\
    ctx_table c' name info l /\ ec_catalog c' = ec_catalog c /\ ec_indexes c' = ec_indexes c /\
    unchanged (ec_store c) (ec_store c').
Proof.
  intros Ht Hp.
  destruct (scan_collect (SeqScan.visit_row (ti_schema info) p) p P snd c name info l Ht Hp)
    as (c' & Hrun & Hc').
  { intros acc x Hok Hx. unfold SeqScan.visit_row. rewrite row_decodes by done. cbn [obind].
    by rewrite Hx. }
  eexists _, c'. split.
  { unfold SeqScan.init. eapply runs_bind; [by eapply table_info_runs|].
    eapply runs_bind; [exact Hrun|]. done. }
  by split.
Qed.

(** ** Insertion *)
Lemma with_index_runs {A} c name tree (m : M BPlusTree A) a tree' :
  ec_indexes c !! name = Some tree -> runs m tree a tree' ->
  runs (Exec.with_index name m) c tt (Exec.setIndex name tree' c).
Proof.
  intros Hi Hm. unfold Exec.with_index. eapply runs_bind; [done|]. unfold Exec.getIndex. rewrite Hi.
  eapply (runs_bind _ _ _ a); [|done]. unfold runs, Exec.on_index in *. by rewrite Hm.
Qed.

Lemma updateRowCount_runs c name f info :
  ec_catalog c !! name = Some info ->
  runs (Exec.updateRowCount name f) c tt
    (Exec.set_catalog (<[name := set_rowCount (f (rowCount info)) info]> (ec_catalog c)) c).
Proof.
  intros Hi. unfold runs, Exec.updateRowCount, modify. do 3 f_equal. apply map_eq. intros k.
  destruct (decide (k = name)) as [->|Hk].
  - by rewrite lookup_alter_eq, lookup_insert_eq, Hi.
  - by rewrite lookup_alter_ne, lookup_insert_ne.
Qed.

(** the index of a table that shows a map *)
Definition ctx_index c name (m : imap) : Prop :=
  exists tree, ec_indexes c !! name = Some tree /\ index_shows tree m.

(** and that has room for a key: in its leaf, and among its node indices *)
Definition ctx_index_room c name (m : imap) : Prop :=
  exists tree, ec_indexes c !! name = Some tree /\ index_shows tree m /\
    Z.of_nat (size m) < maxLeafKeys_ tree /\ Z.of_nat (length (nodes_ tree)) < INT_MAX.

(** how many nodes the index of a table has used *)
Definition nodes_of c name : nat :=
  match ec_indexes c !! name with Some tree => length (nodes_ tree) | None => 0%nat end.

Definition add_key (m : imap) (key : option Z) (rid : RID) : imap :=
  match key with
  | Some k => match m !! k with None => <[k := rid]> m | Some _ => m end
  | None => m
  end.

Lemma insert_index_runs grow c name f m key rid :
  ctx_index_room c name m ->
  exists c', runs (match key with
      | Some k => Exec.with_index name (BTree.insert grow k rid)
      | None => ret tt end) c tt c' /\
    ctx_index c' name (add_key m key rid) /\ ec_store c' = ec_store c /\ ec_catalog c' = ec_catalog c /\
    ctx_step c c' name f /\ (nodes_of c' name <= S (nodes_of c name))%nat.
Proof.
  intros (tree & Hi & Hs & Hroom & Hnodes). destruct key as [k|]; simpl.
  - destruct (insert_runs grow tree m k rid Hs) as (tree' & Hrun & Hs' & Hm & Hlen); [done..|].
    exists (Exec.setIndex name tree' c). split; [by eapply with_index_runs|].
    split; [|split_and!; [done..|by eapply ctx_step_index|]]; [exists tree'; split; [apply lookup_insert_eq|done]|].
    unfold nodes_of. simpl. by rewrite lookup_insert_eq, Hi.
  - exists c. split; [done|]. split; [by exists tree|]. split_and!; [done..|apply ctx_step_refl|lia].
Qed.

Lemma insert_exec_runs grow c name info l m values :
  ctx_table c name info l -> ctx_index_room c name m ->
  row_ok (ti_schema info) values ->
  Z.of_nat (length (Codec.serializeTuple values)) <= MAX_TUPLE ->
  ps_count (ti_fileId info) (ec_store c) + 1 < INVALID_PAGE_ID ->
  exists e c' rid l', runs (Insert.init grow (Insert.new name values)) c e c' /\
    l' ≡ₚ (rid, values) :: l /\
    ctx_table c' name (set_rowCount (u32 (rowCount info + 1)) info) l' /\
    ctx_index c' name (add_key m (Insert.key_of values) rid) /\
    (rid ∉ l.*1) /\ ctx_step c c' name (ti_fileId info) /\ (nodes_of c' name <= S (nodes_of c name))%nat.
Proof.
  intros [Hc Hh] Hi Hrow Hmax Hcount. pose proof Hh as [Ht Hr Hok].
  set (data := Codec.serializeTuple values) in *.
  assert (Hpos : (0 < length data)%nat) by (apply serializeTuple_nonempty, Hrow).
  assert (Hu : u16 (Z.of_nat (length data)) = Z.of_nat (length data)).
  { apply u16_small. unfold is_u16, MAX_TUPLE, PAGE_SIZE, HEADER_SIZE in *. lia. }
  destruct (insertTuple_runs (ec_store c) (ti_fileId info) data (u16 (Z.of_nat (length data))) Ht)
    as (rid & s1 & Hrun1 & Hins & _); [done|rewrite Hu; lia|rewrite Hu; lia|].
  rewrite Hu, Nat2Z.id, firstn_all in Hins.
  destruct (insert_rows _ _ _ _ _ _ _ Hh Hrow Hins) as (l' & Hh' & Hl').
  set (c1 := mkCtx s1 (ec_catalog c) (ec_indexes c)).
  destruct (insert_index_runs grow c1 name (ti_fileId info) m (Insert.key_of values) rid Hi)
    as (c2 & Hrun2 & Hi2 & Hst2 & Hcat2 & Hstep2 & Hnodes).
  assert (Hcat2' : ec_catalog c2 !! name = Some info) by (by rewrite Hcat2).
  eexists _, (Exec.set_catalog _ c2), rid, l'. split.
  { unfold Insert.init. eapply runs_bind; [by apply (table_info_runs _ c name info l)|].
    eapply (runs_bind _ _ _ rid c1); [by apply (on_store_runs _ c)|].
    eapply runs_bind; [exact Hrun2|].
    eapply runs_bind; [by apply updateRowCount_runs|]. done. }
  split; [done|]. split; [split|split; [|split]].
  - simpl. apply lookup_insert_eq.
  - simpl. by rewrite Hst2.
  - done.
  - intros (x & -> & Hx)%list_elem_of_fmap. destruct x as [r t].
    pose proof (elem_of_rows _ _ _ _ _ _ Hh Hx) as E. pose proof (ri_fresh _ _ _ _ _ Hins) as E'. simpl in E'. congruence.
  - split; [|exact Hnodes].
    eapply ctx_step_trans; [by apply ctx_step_store, others_kept_same, Hins|]. eapply ctx_step_trans; [exact Hstep2|].
    apply ctx_step_catalog.
Qed.

(** ** Deletion *)

(** the keys that leave the index: those of the deleted rows, unless negative *)
Definition drop_keys (m : imap) (l : list (RID * Z)) : imap :=
  foldl (fun m x => if 0 <=? x.2 then delete x.2 m else m) m l.

Lemma delete_index_runs c name f m pk :
  ctx_index c name m ->
  exists c', runs (if 0 <=? pk then Exec.with_index name (BTree.remove pk) else ret tt) c tt c' /\
    ctx_index c' name (if 0 <=? pk then delete pk m else m) /\
    ec_store c' = ec_store c /\ ec_catalog c' = ec_catalog c /\ ctx_step c c' name f /\
    nodes_of c' name = nodes_of c name.
Proof.
  intros (tree & Hi & Hs). destruct (0 <=? pk).
  - destruct (remove_runs tree m pk Hs) as (tree' & Hrun & Hs' & Hm & Hlen).
    exists (Exec.setIndex name tree' c). split; [by eapply with_index_runs|].
    split; [|split_and!; [done..|by eapply ctx_step_index|]]; [exists tree'; split; [apply lookup_insert_eq|done]|].
    unfold nodes_of. simpl. by rewrite lookup_insert_eq, Hi.
  - exists c. split; [done|]. split; [by exists tree|]. split_and!; [done..|apply ctx_step_refl|done].
Qed.

Lemma delete_rows_runs name info ds : forall c l m n,
  ctx_table c name info l -> ctx_index c name m ->
  (forall x, x ∈ ds.*1 -> x ∈ l.*1) -> NoDup ds.*1 ->
  0 <= n -> n + Z.of_nat (length ds) <= INT_MAX ->
  exists c', runs (Delete.delete_rows name (ti_fileId info) ds n) c (n + Z.of_nat (length ds)) c' /\
    ctx_table c' name info (filter (fun x => x.1 ∉ ds.*1) l) /\ ctx_index c' name (drop_keys m ds) /\
    ctx_step c c' name (ti_fileId info) /\ nodes_of c' name = nodes_of c name.
Proof.
  induction ds as [|[rid pk] ds IH]; intros c l m n Ht Hi Hin Hnd Hn Hmax.
  - exists c. rewrite Z.add_0_r. split; [done|]. split; [|split; [done|split; [apply ctx_step_refl|done]]].
    by rewrite list_filter_all by (intros; apply not_elem_of_nil).
  - destruct Ht as [Hc Hh]. apply NoDup_cons in Hnd as [Hnin Hnd].
    assert (Hrid : rid_in (ec_store c) (ti_fileId info) rid).
    { pose proof (Hin rid ltac:(by left)) as ([r t] & -> & Hx)%list_elem_of_fmap.
      by eapply rows_rid_in. }
    destruct (deleteTuple_runs (ec_store c) (ti_fileId info) rid (th_table _ _ _ _ Hh) Hrid)
      as (s1 & Hrun1 & Hdel).
    pose proof (delete_rows_one _ _ _ _ _ _ Hh Hdel) as Hh1.
    set (c1 := mkCtx s1 (ec_catalog c) (ec_indexes c)).
    destruct (delete_index_runs c1 name (ti_fileId info) m pk Hi) as (c2 & Hrun2 & Hi2 & Hst2 & Hcat2 & Hstep2 & Hn2).
    destruct (IH c2 (filter (fun x => x.1 <> rid) l) _ (n + 1) ltac:(split; [by rewrite Hcat2|by rewrite Hst2]) Hi2)
      as (c' & Hrun3 & Ht3 & Hi3 & Hstep3 & Hn3); [|done|lia|rewrite length_cons in Hmax; lia|].
    { intros x Hx. pose proof (Hin x ltac:(by right)) as (y & -> & Hy)%list_elem_of_fmap.
      apply list_elem_of_fmap. exists y. split; [done|]. apply list_elem_of_filter. split; [|done].
      intros E. apply Hnin. by rewrite <- E. }
    exists c'. split; [|split; [|split; [exact Hi3|]]].
    + cbn [Delete.delete_rows]. eapply (runs_bind _ _ _ tt c1); [by apply (on_store_runs _ c)|].
      eapply runs_bind; [exact Hrun2|]. rewrite length_cons in Hmax.
      eapply (runs_bind _ _ _ (n + 1) c2);
        [unfold runs, lift, int_succ; by rewrite decide_True by lia|].
      rewrite length_cons. replace (n + Z.of_nat (S (length ds))) with (n + 1 + Z.of_nat (length ds)) by lia. exact Hrun3.
    + rewrite list_filter_filter in Ht3.
      rewrite (list_filter_iff _ (fun x => (x.1 ∉ ds.*1) /\ x.1 <> rid)); [exact Ht3|].
      intros x. cbn [fmap list_fmap fst]. rewrite not_elem_of_cons. tauto.
    + split; [|by rewrite Hn3, Hn2].
      eapply ctx_step_trans; [by apply ctx_step_store, others_kept_same, Hdel|]. by eapply ctx_step_trans.
Qed.

(** In a table a row is known by its id. *)
Lemma unselected_rows P l :
  NoDup l.*1 -> filter (fun x => x.1 ∉ (selected P l).*1) l = filter (fun x => P x.2 = false) l.
Proof.
  intros Hnd. apply list_filter_iff_in. intros x Hx. split.
  - intros Hn. apply not_true_is_false. intros E. apply Hn. apply list_elem_of_fmap. exists x.
    split; [done|]. by apply list_elem_of_filter.
  - intros E (y & Hy & [Hs Hin]%list_elem_of_filter)%list_elem_of_fmap.
    assert (x.2 = y.2) as Hxy; [|by rewrite Hxy, Hs in E].
    destruct x as [r t], y as [r' t']. simpl in Hy. subst r'. by apply (NoDup_fst_functional l r).
Qed.

Definition pk_of (x : RID * Tuple) : RID * Z := (x.1, default (-1) (Insert.key_of x.2)).

Lemma delete_exec_runs c name info l m p P :
  ctx_table c name info l -> ctx_index c name m -> decides p P l ->
  Z.of_nat (length l) <= INT_MAX ->
  let gone := selected P l in
  exists e c', runs (Delete.init (Delete.new name p)) c e c' /\
    ex_rest St e = [[VInt (Z.of_nat (length gone))]] /\
    ctx_table c' name
      (set_rowCount (let n := Z.of_nat (length gone) in
                     if n <=? rowCount info then u32 (rowCount info - n) else 0) info)
      (filter (fun x => P x.2 = false) l) /\
    ctx_index c' name (drop_keys m (map pk_of gone)) /\ ctx_step c c' name (ti_fileId info) /\
    nodes_of c' name = nodes_of c name.
Proof.
  intros Ht Hi Hp Hmax gone.
  destruct (scan_collect (Delete.visit_row (ti_schema info) p) p P pk_of c name info l Ht Hp)
    as (c1 & Hrun1 & Ht1 & Hcat1 & Hidx1 & Hu1).
  { intros acc x Hok Hx. unfold Delete.visit_row. rewrite row_decodes by done. cbn [obind].
    by rewrite Hx. }
  fold gone in Hrun1. pose proof (length_filter (fun x : RID * Tuple => P x.2 = true) l) as Hlen.
  pose proof (table_holds_nodup _ _ _ _ (proj2 Ht)) as Hnd.
  assert (Hfst : (map pk_of gone).*1 = gone.*1) by (rewrite <- list_fmap_compose; done).
  destruct (delete_rows_runs name info (map pk_of gone) c1 l m 0 Ht1) as (c2 & Hrun2 & Ht2 & Hi2 & Hstep2 & Hn2).
  { destruct Hi as (tree & Hi & Hs). exists tree. by rewrite Hidx1. }
  { rewrite Hfst. intros x (y & -> & Hy)%list_elem_of_fmap. apply list_elem_of_fmap. exists y.
    by apply list_elem_of_filter in Hy as [_ ?]. }
  { rewrite Hfst. eapply sublist_NoDup; [exact Hnd|]. by apply fmap_sublist, sublist_filter. }
  { done. }
  { rewrite length_map. fold gone in Hlen. unfold gone, selected in *. lia. }
  rewrite length_map, Z.add_0_l in Hrun2.
  destruct Ht2 as [Hcat2 Hh2].
  eexists _, (Exec.set_catalog _ c2). split.
  { unfold Delete.init. eapply runs_bind; [by apply (table_info_runs _ c name info l)|].
    eapply runs_bind; [exact Hrun1|]. eapply runs_bind; [exact Hrun2|].
    eapply runs_bind; [by apply updateRowCount_runs|]. done. }
  split; [done|]. split; [|split; [exact Hi2|]].
  2: { split; [|by unfold nodes_of in *; simpl; rewrite Hn2, Hidx1].
       eapply ctx_step_trans; [|eapply ctx_step_trans; [exact Hstep2|apply ctx_step_catalog]].
       rewrite <- (ctx_eta c1), Hcat1, Hidx1. apply ctx_step_store. by apply others_kept_unchanged. }
  split.
  - simpl. rewrite lookup_insert_eq. unfold u32 at 1. rewrite Z.mod_small; [done|].
    fold gone in Hlen. unfold gone, selected, INT_MAX in *. lia.
  - simpl. rewrite Hfst in Hh2. unfold gone in Hh2. by rewrite unselected_rows in Hh2.
Qed.
End runs.
