(* ===== verification/ExecThms.v ===== *)
(** * Theorems of the executors *)
From stdpp Require Import base numbers list sorting strings gmap.
From Stdlib Require Import ZArith Lia.
From S2P Require Import Prelude Bytes Common Disk Page PageStore Pool PoolStore PoolSpec Heap HeapTable Storage Catalog Codec Rows BTree BTreeThms Executor ExecSpec ExecRun.

#[local] Opaque Pool.makePageKey.

(** ** Rows as bytes *)

(** C29: a row whose integers are C++ ints and whose texts are shorter than
    65536 bytes is read back from its bytes as it was, whatever follows the
    bytes in the page, under any schema with at least as many columns. *)
Theorem tuple_roundtrip (t : Tuple) rest (sch : Schema) :
  Forall value_ok t -> (length t <= length sch)%nat ->
  Codec.deserializeTuple (Codec.serializeTuple t ++ rest)
    (Z.of_nat (length (Codec.serializeTuple t))) sch = Ret t.
Proof. apply deserialize_serialize. Qed.

Lemma tuple_roundtrip_witness :
  let t := [VInt (-7); VText "ann"; VText ""] in
  Codec.deserializeTuple (Codec.serializeTuple t ++ [Byte.x02; Byte.xff])
    (Z.of_nat (length (Codec.serializeTuple t)))
    [mkColumn "id" INT; mkColumn "name" TEXT; mkColumn "x" TEXT] = Ret t.
Proof.
  intros t. apply (tuple_roundtrip t).
  - apply (bool_decide_unpack _). vm_compute. exact I.
  - apply Nat.le_refl.
Defined.

(** ** Plans over scans *)

Lemma resolve_runs sch cols idxs : forall acc out,
  Z.of_nat (length sch) <= INT_MAX -> Forall2 (fun col i => column_index sch col = Some i) cols idxs ->
  Projection.resolve sch cols acc out =
    Ret (acc ++ map Z.of_nat idxs, out ++ omap (fun i => sch !! i) idxs).
Proof.
  intros acc out Hlen Hf. revert acc out. induction Hf as [|col i cols idxs Hi Hf IH]; intros acc out.
  { simpl. by rewrite !app_nil_r. }
  cbn [Projection.resolve]. rewrite findColumn_index, Hi by done.
  rewrite (proj2 (Z.ltb_ge _ _)), Nat2Z.id by lia. pose proof (column_index_lt _ _ _ Hi) as Hlt.
  apply lookup_lt_is_Some in Hlt as (c & Hc). unfold Schema.getColumn. rewrite Hc. cbn [obind].
  rewrite IH. unfold Schema.addColumn. simpl. by rewrite Hc, <- !app_assoc.
Qed.

Lemma project_runs idxs t :
  Forall (fun i => (i < length t)%nat) idxs -> Projection.project (map Z.of_nat idxs) t = Ret (pick idxs t).
Proof.
  induction 1 as [|i idxs Hi _ IH]; [done|]. simpl. unfold Tuple.getValue. rewrite Nat2Z.id.
  apply lookup_lt_is_Some in Hi as (v & Hv). rewrite Hv. simpl. by rewrite IH.
Qed.

Section plans.
Context {St : Type} `{!PageStore St, !PageStoreSpec St}.
Implicit Types (c : ExecutionContext St) (l : rows) (name : string).

(** C30: the plan of [SELECT cols FROM name WHERE ...], a projection of a
    filter of a sequential scan, returns the named columns of the rows that
    both predicates hold on, in the order of the row ids, under the schema of
    those columns; the table, the catalog and the indexes are unchanged. *)
Theorem select_plan_correct c name info l p P (q : Tuple -> bool) cols idxs :
  ctx_table c name info l -> decides p P l -> Z.of_nat (length (ti_schema info)) <= INT_MAX ->
  Forall2 (fun col i => column_index (ti_schema info) col = Some i) cols idxs ->
  let plan := mkProjection (mkFilter (SeqScan.new name p) (Some (fun t => Ret (q t)))) cols [] [] in
  exists e c' e', runs (ex_init plan) c e c' /\
    Exec.all_tuples St e =
      Ret (map (pick idxs) (filter (fun t => q t = true) (filter (fun x => P x.2 = true) l).*2), e') /\
    ex_schema St e = omap (fun i => ti_schema info !! i) idxs /\
    ctx_table c' name info l /\ ec_catalog c' = ec_catalog c /\ ec_indexes c' = ec_indexes c.
Proof.
  intros Ht Hp Hlen Hcols plan.
  destruct (seqScan_runs c name info l p P Ht Hp) as (e & c' & Hrun & Hrest & Hsch & Ht' & Hcat & Hidx & _).
  set (f := mkFilter e (Some (fun t => Ret (q t)))).
  set (pr := mkProjection f cols (omap (fun i => ti_schema info !! i) idxs) (map Z.of_nat idxs)).
  assert (Hf : ex_rest St f = filter (fun t => q t = true) (selected P l).*2)
    by (unfold f; by rewrite filter_rest_total, Hrest).
  assert (Hl : Forall (fun t => length t = length (ti_schema info)) (ex_rest St f)).
  { rewrite Hf. apply Forall_forall. intros t [_ Hin]%list_elem_of_filter.
    apply list_elem_of_fmap in Hin as (x & -> & [_ Hx]%list_elem_of_filter).
    destruct Ht as [_ [_ _ Hok]]. rewrite Forall_forall in Hok. by apply (Hok x Hx). }
  assert (Hproj : Forall (fun t => Projection.project (map Z.of_nat idxs) t = Ret (pick idxs t)) (ex_rest St f)).
  { eapply Forall_impl; [exact Hl|]. intros t Hlt. apply project_runs.
    apply Forall_forall. intros i Hi. apply list_elem_of_lookup in Hi as (k & Hk).
    destruct (Forall2_lookup_r _ _ _ _ _ Hcols Hk) as (col & _ & Hci).
    rewrite Hlt. by eapply column_index_lt. }
  destruct (all_tuples_runs (St := St) pr) as (e' & Hall & _).
  { split; [split; [done|]|].
    - apply Forall_forall. intros t _. by eexists.
    - eapply Forall_impl; [exact Hproj|]. intros t H. eexists; exact H. }
  exists pr, c', e'. split; [|split; [|by split]].
  - eapply runs_bind; [by eapply runs_bind|]. 
    eapply (runs_bind _ _ _ (map Z.of_nat idxs, omap (fun i => ti_schema info !! i) idxs) c'); [|done].
    unfold runs, lift. simpl in Hsch |- *. rewrite Hsch. by rewrite (resolve_runs _ _ idxs).
  - rewrite Hall. do 2 f_equal. fold (selected P l). unfold pr.
    rewrite projection_rest, <- Hf.
    apply map_ext_in. intros t Hin. unfold projected.
    rewrite Forall_forall in Hproj. by rewrite Hproj by (by apply list_elem_of_In).
Qed.

(** ** Joins *)

(** each left tuple with the right tuples that agree with it *)
Definition joined (i j : nat) (ls rs : list Tuple) : list Tuple :=
  l ← ls; map (fun r => l ++ r) (filter (fun r => l !! i = r !! j) rs).

Lemma join_row_runs i j lt rs :
  (i < length lt)%nat -> Forall (fun r => (j < length r)%nat) rs ->
  Join.join_row (Z.of_nat i) (Z.of_nat j) lt rs =
    Ret (map (fun r => lt ++ r) (filter (fun r => lt !! i = r !! j) rs)).
Proof.
  intros Hi. apply lookup_lt_is_Some in Hi as (a & Ha).
  induction 1 as [|r rs Hj _ IH]; [done|]. apply lookup_lt_is_Some in Hj as (b & Hb).
  assert (Hga : Tuple.getValue lt i = Ret a) by (unfold Tuple.getValue; by rewrite Ha).
  assert (Hgb : Tuple.getValue r j = Ret b) by (unfold Tuple.getValue; by rewrite Hb).
  cbn [Join.join_row]. rewrite !Nat2Z.id, Hga, Hgb. cbn [obind]. rewrite IH, filter_cons. cbn [obind]. destruct (Value.eqb a b) eqn:E.
  - apply Value.eqb_spec in E as ->. rewrite decide_True; [done|congruence].
  - rewrite decide_False; [done|]. rewrite Ha, Hb. intros [= ->].
    assert (Value.eqb b b = true) by (by apply Value.eqb_spec). congruence.
Qed.

Lemma join_rows_runs i j ls rs :
  Forall (fun t => (i < length t)%nat) ls -> Forall (fun r => (j < length r)%nat) rs ->
  Join.join_rows (Z.of_nat i) (Z.of_nat j) ls rs = Ret (joined i j ls rs).
Proof.
  intros Hl Hr. induction Hl as [|t ls Ht _ IH]; [done|]. cbn [Join.join_rows].
  rewrite join_row_runs by done. cbn [obind]. by rewrite IH.
Qed.

(** C31: a nested-loop join of any two executors that keep the iterator
    contract returns every left tuple followed by each right tuple that agrees
    with it on the join columns, in that order; its output schema is the two
    schemas appended to whatever it held, so a second [init] repeats them. *)
Theorem join_correct {L R} `{!Executor St L, !ExecutorSpec St L, !Executor St R, !ExecutorSpec St R}
    (e : NestedLoopJoinExecutor L R) c (l : L) c1 (r : R) c2 i j :
  runs (ex_init (jo_left e)) c l c1 -> runs (ex_init (jo_right e)) c1 r c2 ->
  ex_ok St l -> ex_ok St r ->
  Z.of_nat (length (ex_schema St l)) <= INT_MAX -> Z.of_nat (length (ex_schema St r)) <= INT_MAX ->
  column_index (ex_schema St l) (jo_leftCol e) = Some i ->
  column_index (ex_schema St r) (jo_rightCol e) = Some j ->
  Forall (fun t => (i < length t)%nat) (ex_rest St l) ->
  Forall (fun t => (j < length t)%nat) (ex_rest St r) ->
  exists e' e'', runs (ex_init e) c e' c2 /\
    Exec.all_tuples St e' = Ret (joined i j (ex_rest St l) (ex_rest St r), e'') /\
    ex_schema St e' = ex_schema St e ++ ex_schema St l ++ ex_schema St r.
Proof.
  intros Hl Hr Hokl Hokr Hsl Hsr Hi Hj Hil Hjr.
  destruct (all_tuples_runs (St := St) l Hokl) as (l' & Hdl & Hsl').
  destruct (all_tuples_runs (St := St) r Hokr) as (r' & Hdr & Hsr').
  set (out := joined i j (ex_rest St l) (ex_rest St r)).
  set (e' := mkJoin l' r' (jo_leftCol e) (jo_rightCol e)
    (jo_outputSchema e ++ ex_schema St l ++ ex_schema St r) (ex_rest St l) (ex_rest St r) out 0).
  destruct (all_tuples_runs (St := St) e') as (e'' & He'' & _); [exact I|].
  exists e', e''. split; [|split; [exact He''|done]].
  simpl. unfold Join.init. eapply runs_bind; [exact Hl|]. eapply runs_bind; [exact Hr|].
  eapply (runs_bind _ _ _ (ex_rest St l, l') c2); [by unfold runs, lift; rewrite Hdl|].
  eapply (runs_bind _ _ _ (ex_rest St r, r') c2); [by unfold runs, lift; rewrite Hdr|].
  cbn [fst snd]. rewrite Hsl', Hsr', !findColumn_index, Hi, Hj by done.
  rewrite !(proj2 (Z.ltb_ge _ _)) by lia. cbn [orb].
  eapply (runs_bind _ _ _ out c2); [|done]. unfold runs, lift. by rewrite join_rows_runs.
Qed.
End plans.

(** ** Changes *)

(** Every entry of the index points at a row with that key. *)
Definition index_sound (l : rows) (m : imap) : Prop :=
  forall k rid, m !! k = Some rid -> exists t, (rid, t) ∈ l /\ Insert.key_of t = Some k.

Lemma index_sound_insert l l' m rid t :
  l' ≡ₚ (rid, t) :: l -> index_sound l m -> index_sound l' (add_key m (Insert.key_of t) rid).
Proof.
  intros Hp Hs k r Hk.
  assert (Hold : m !! k = Some r -> exists t0, (r, t0) ∈ l' /\ Insert.key_of t0 = Some k).
  { intros H. destruct (Hs k r H) as (t0 & Hin & Ht0). exists t0. split; [|done]. rewrite Hp. by right. }
  destruct (Insert.key_of t) as [k'|] eqn:E; simpl in Hk; [|auto].
  destruct (m !! k') eqn:Em; [auto|]. destruct (decide (k' = k)) as [->|Hne].
  - rewrite lookup_insert_eq in Hk. injection Hk as <-. exists t. split; [|done]. rewrite Hp. by left.
  - rewrite lookup_insert_ne in Hk by done. auto.
Qed.

Lemma drop_keys_lookup ds : forall (m : imap) k rid,
  drop_keys m ds !! k = Some rid <-> m !! k = Some rid /\ (k < 0 \/ (k ∉ ds.*2)).
Proof.
  induction ds as [|[r pk] ds IH]; intros m k rid.
  { simpl. split; [|tauto]. intros H. split; [done|]. right. apply not_elem_of_nil. }
  unfold drop_keys. cbn [foldl]. fold (drop_keys (if 0 <=? pk then delete pk m else m) ds).
  rewrite IH. cbn [fmap list_fmap snd]. rewrite not_elem_of_cons. destruct (Z.leb_spec 0 pk) as [Hpk|Hpk].
  - rewrite lookup_delete_Some. split; [intros [[Hne Hm] Hk]; split; [done|]|].
    + destruct Hk as [Hk|Hk]; [by left|]. right. split; [congruence|done].
    + intros [Hm [Hk|[Hne Hk]]]; (split; [split; [lia || congruence|done]|]); [by left|by right].
  - split; (intros [Hm Hk]; split; [done|]).
    + destruct Hk as [Hk|Hk]; [by left|]. destruct (decide (k = pk)) as [->|]; [left; lia|by right].
    + destruct Hk as [Hk|[_ Hk]]; [by left|by right].
Qed.

Lemma index_sound_delete P l m :
  (forall x k, x ∈ l -> P x.2 = true -> Insert.key_of x.2 = Some k -> 0 <= k) -> index_sound l m ->
  index_sound (filter (fun x => P x.2 = false) l) (drop_keys m (map pk_of (selected P l))).
Proof.
  intros Hpos Hs k rid Hk. apply drop_keys_lookup in Hk as [Hm Hk].
  destruct (Hs k rid Hm) as (t & Hin & Ht). exists t. split; [|done].
  apply list_elem_of_filter. split; [|done]. simpl. apply not_true_is_false. intros E.
  destruct Hk as [Hneg|Hno]; [specialize (Hpos _ _ Hin E Ht); lia|].
  apply Hno. apply list_elem_of_fmap. exists (pk_of (rid, t)). unfold pk_of. simpl. split; [by rewrite Ht|].
  apply list_elem_of_fmap. exists (rid, t). split; [done|]. by apply list_elem_of_filter.
Qed.

Section changes.
Context {St : Type} `{!PageStore St, !PageStoreSpec St}.
Implicit Types (c : ExecutionContext St) (l : rows) (name : string).

(** C32: the insertion of a row that fits in a page, into a table whose index has
    room ([ctx_index_room]: one leaf with fewer keys than its limit, 127 in the
    program, beyond which the split is undefined, and fewer nodes used than an
    [int] counts), adds exactly that row to the table, under a row id that was
    not in use, and one to the row count; a new integer key enters the index, a
    key that is there keeps its old row, and an index whose entries all point at
    rows with their keys stays so. *)
Theorem insert_correct grow c name info l m values :
  ctx_table c name info l -> ctx_index_room c name m -> index_sound l m ->
  row_ok (ti_schema info) values ->
  Z.of_nat (length (Codec.serializeTuple values)) <= MAX_TUPLE ->
  ps_count (ti_fileId info) (ec_store c) + 1 < INVALID_PAGE_ID ->
  exists e c' rid l', runs (Insert.init grow (Insert.new name values)) c e c' /\
    l' ≡ₚ (rid, values) :: l /\ (rid ∉ l.*1) /\
    ctx_table c' name (set_rowCount (u32 (rowCount info + 1)) info) l' /\
    ctx_index c' name (add_key m (Insert.key_of values) rid) /\
    index_sound l' (add_key m (Insert.key_of values) rid).
Proof.
  intros Ht Hi Hs Hrow Hmax Hc.
  destruct (insert_exec_runs grow c name info l m values Ht Hi Hrow Hmax Hc)
    as (e & c' & rid & l' & Hrun & Hp & Ht' & Hi' & Hnew & _).
  exists e, c', rid, l'. repeat (split; [done|]). by apply (index_sound_insert l).
Qed.

(** C33: a deletion removes exactly the rows its predicate holds on, reports
    their number and takes it off the row count; the keys of those rows leave
    the index, and when none of them is negative an index whose entries all
    point at rows with their keys stays so. *)
Theorem delete_correct c name info l m p P :
  ctx_table c name info l -> ctx_index c name m -> index_sound l m -> decides p P l ->
  Z.of_nat (length l) <= INT_MAX ->
  (forall x k, x ∈ l -> P x.2 = true -> Insert.key_of x.2 = Some k -> 0 <= k) ->
  let n := Z.of_nat (length (filter (fun x => P x.2 = true) l)) in
  let rest := filter (fun x => P x.2 = false) l in
  exists e c' m' e', runs (Delete.init (Delete.new name p)) c e c' /\
    Exec.all_tuples St e = Ret ([[VInt n]], e') /\
    ctx_table c' name (set_rowCount (if n <=? rowCount info then u32 (rowCount info - n) else 0) info) rest /\
    ctx_index c' name m' /\ index_sound rest m'.
Proof.
  intros Ht Hi Hs Hp Hmax Hpos n rest.
  destruct (delete_exec_runs c name info l m p P Ht Hi Hp Hmax) as (e & c' & Hrun & Hrest & Ht' & Hi' & _).
  destruct (all_tuples_runs (St := St) e) as (e' & Hall & _); [exact I|]. rewrite Hrest in Hall.
  exists e, c', (drop_keys m (map pk_of (selected P l))), e'.
  split; [done|]. split; [done|]. split; [done|]. split; [done|]. by apply index_sound_delete.
Qed.

(** The key of a deleted row stays in the index when it is negative: -1
    stands for "no key" and only keys from 0 on are removed, so the entry then
    points at a row that no longer exists. *)
Theorem delete_negative_key c name info l m p P k rid t :
  ctx_table c name info l -> ctx_index c name m -> decides p P l ->
  Z.of_nat (length l) <= INT_MAX ->
  (rid, t) ∈ l -> P t = true -> m !! k = Some rid -> k < 0 ->
  exists e c' tree, runs (Delete.init (Delete.new name p)) c e c' /\
    lookup_row (ec_store c') (ti_fileId info) rid = None /\
    ec_indexes c' !! name = Some tree /\ runs (BTree.search k) tree (Some rid) tree.
Proof.
  intros Ht Hi Hp Hmax Hin HP Hm Hk.
  destruct (delete_exec_runs c name info l m p P Ht Hi Hp Hmax) as (e & c' & Hrun & _ & Ht' & (tree & Htree & Hs) & _).
  exists e, c', tree. split; [done|]. split; [|split; [done|]].
  - destruct Ht' as [_ Hh']. pose proof (th_table _ _ _ _ Hh') as Hok'. simpl in Hh', Hok'.
    destruct (lookup_row _ _ rid) as [d|] eqn:E; [|done]. exfalso.
    apply elem_of_table_rows in E; [|by apply count_nonneg]. rewrite (th_rows _ _ _ _ Hh') in E.
    apply list_elem_of_fmap in E as ([r t'] & Hx & [HP' Hin']%list_elem_of_filter).
    injection Hx as Hr _. simpl in Hr. subst r. pose proof (table_holds_nodup _ _ _ _ (proj2 Ht)) as Hnd.
    assert (t' = t) as ->; [|simpl in HP'; congruence].
    by apply (NoDup_fst_functional l rid).
  - assert (H : drop_keys m (map pk_of (selected P l)) !! k = Some rid).
    { apply drop_keys_lookup. split; [done|by left]. }
    rewrite <- H. by apply search_runs.
Qed.

(** the first [n] bytes of a text *)
Definition text_prefix (n : nat) (s : string) : string := text_of (take n (bytes_of s)).

Lemma serialize_long_text s :
  let n := Z.of_nat (length (bytes_of s)) in
  let m := n mod 65536 in
  Codec.serializeTuple [VText (text_prefix (Z.to_nat m) s)] =
    take (3 + Z.to_nat m) (Codec.serializeTuple [VText s]).
Proof.
  intros n m. pose proof (Z.mod_pos_bound n 65536 eq_refl) as Hm. fold m in Hm.
  assert (Hle : m <= n) by (apply Z.mod_le; lia).
  unfold Codec.serializeTuple, text_prefix. cbn [map concat Codec.serializeValue].
  rewrite !app_nil_r, bytes_of_text, length_take, Nat.min_l by lia. rewrite Z2Nat.id by lia.
  assert (Hlen : le_bytes 2 m = le_bytes 2 n).
  { unfold m. change 65536 with (256 ^ Z.of_nat 2). rewrite <- le_val_bytes.
    rewrite <- (length_le_bytes 2 n) at 1. apply le_bytes_val. }
  by rewrite Hlen.
Qed.

(** The length of a row is kept in 16 bits: a one-column row whose text is
    [n >= 65536] bytes long is accepted and stored as its first [n mod 65536]
    bytes. *)
Theorem long_text_truncated grow c name info l m s :
  let n := Z.of_nat (length (bytes_of s)) in
  ctx_table c name info l -> ctx_index_room c name m ->
  length (ti_schema info) = 1%nat -> 65536 <= n -> 3 + n mod 65536 <= MAX_TUPLE ->
  ps_count (ti_fileId info) (ec_store c) + 1 < INVALID_PAGE_ID ->
  exists e c' rid l', runs (Insert.init grow (Insert.new name [VText s])) c e c' /\
    l' ≡ₚ (rid, [VText (text_prefix (Z.to_nat (n mod 65536)) s)]) :: l /\
    ctx_table c' name (set_rowCount (u32 (rowCount info + 1)) info) l'.
Proof.
  intros n [Hc Hh] Hi Hsch Hn Hmax Hcount. pose proof Hh as [Ht _ _].
  pose proof (Z.mod_pos_bound n 65536 eq_refl) as Hmod. pose proof (serialize_long_text s) as Hser.
  fold n in Hser. cbv zeta in Hser. set (data := Codec.serializeTuple [VText s]) in *.
  assert (Hlen : Z.of_nat (length data) = 3 + n).
  { unfold data, Codec.serializeTuple. cbn [map concat Codec.serializeValue].
    rewrite app_nil_r, length_cons, length_app, length_le_bytes. fold n. lia. }
  assert (Hu : u16 (Z.of_nat (length data)) = 3 + n mod 65536).
  { rewrite Hlen. unfold u16. change (2 ^ 16) with 65536. rewrite Z.add_mod by done.
    unfold MAX_TUPLE, PAGE_SIZE, HEADER_SIZE in Hmax. rewrite (Z.mod_small 3) by done.
    apply Z.mod_small. lia. }
  set (row := [VText (text_prefix (Z.to_nat (n mod 65536)) s)]).
  destruct (insertTuple_runs (ec_store c) (ti_fileId info) data (u16 (Z.of_nat (length data))) Ht)
    as (rid & s1 & Hrun1 & Hins & _);
    [done|rewrite Hu; lia|rewrite Hu, Hlen; pose proof (Z.mod_le n 65536); lia|].
  rewrite Hu in Hins. replace (Z.to_nat (3 + n mod 65536)) with (3 + Z.to_nat (n mod 65536))%nat in Hins by lia.
  rewrite <- Hser in Hins.
  assert (Hrow : row_ok (ti_schema info) row).
  { split; [|by rewrite Hsch]. constructor; [|constructor]. simpl. unfold text_prefix.
    rewrite bytes_of_text, length_take. lia. }
  destruct (insert_rows _ _ _ _ _ _ row Hh Hrow Hins) as (l' & Hh' & Hl').
  set (c1 := mkCtx s1 (ec_catalog c) (ec_indexes c)).
  eexists _, (Exec.set_catalog _ c1), rid, l'. split; [|split; [done|split]].
  - unfold Insert.init. eapply runs_bind; [by apply (table_info_runs _ c name info l)|].
    eapply (runs_bind _ _ _ rid c1); [by apply (on_store_runs _ c)|].
    eapply (runs_bind _ _ _ tt c1); [done|].
    eapply runs_bind; [by apply (updateRowCount_runs c1 _ _ info)|]. done.
  - simpl. apply lookup_insert_eq.
  - done.
Qed.
End changes.

(** *** The theorems at the store of Storage.v *)
Section examples.
Definition people : Schema := [mkColumn "id" INT; mkColumn "name" TEXT].
Definition doubling (n : nat) : nat := if (n =? 0)%nat then 1%nat else (n + n)%nat.
Definition demo_ctx : ExecutionContext Store :=
  mkCtx demo {["t" := mkInfo "t" people 1 0 false (-1)]} {["t" := BTree.init 128]}.

(** a context after one more row *)
Definition with_row (t : Tuple) (c : ExecutionContext Store) : ExecutionContext Store :=
  (Insert.init doubling (Insert.new "t" t) c).2.
Definition demo_ctx2 : ExecutionContext Store :=
  with_row [VInt (-3); VText "bob"] (with_row [VInt 7; VText "ann"] demo_ctx).
Definition two_rows : rows :=
  [(mkRID 0 0, [VInt 7; VText "ann"]); (mkRID 0 1, [VInt (-3); VText "bob"])].

Lemma ok_row t : bool_decide (tuple_ok t /\ t <> [] /\ length t = length people) = true -> row_ok people t.
Proof. intros H. by apply bool_decide_eq_true in H. Qed.

Lemma demo_ctx_table : ctx_table demo_ctx "t" (mkInfo "t" people 1 0 false (-1)) [].
Proof.
  split; [apply lookup_singleton_eq|]. destruct demo_created as (Ht & _).
  split; [exact Ht|vm_compute; reflexivity|constructor].
Qed.

Lemma demo_ctx_index : ctx_index_room demo_ctx "t" ∅.
Proof. exists (BTree.init 128). split; [apply lookup_singleton_eq|]. split; [by apply init_shows|done]. Qed.

Lemma with_row_runs c info l m t :
  ctx_table c "t" info l -> ctx_index_room c "t" m -> ti_schema info = people -> row_ok people t ->
  Z.of_nat (length (Codec.serializeTuple t)) <= MAX_TUPLE ->
  ps_count (ti_fileId info) (ec_store c) + 1 < INVALID_PAGE_ID ->
  exists rid l', l' ≡ₚ (rid, t) :: l /\
    ctx_table (with_row t c) "t" (set_rowCount (u32 (rowCount info + 1)) info) l' /\
    ctx_index (with_row t c) "t" (add_key m (Insert.key_of t) rid).
Proof.
  intros Ht Hi Hsch Hrow Hmax Hc. rewrite <- Hsch in Hrow.
  destruct (insert_exec_runs doubling c "t" info l m t Ht Hi Hrow Hmax Hc)
    as (e & c' & rid & l' & Hrun & Hp & Ht' & Hi' & _).
  exists rid, l'. unfold with_row, runs in *. by rewrite Hrun.
Qed.

Lemma demo_ctx2_table :
  ctx_table demo_ctx2 "t" (mkInfo "t" people 1 2 false (-1)) two_rows /\
  exists tree, ec_indexes demo_ctx2 !! "t" = Some tree /\
    index_shows tree (<[-3 := mkRID 0 1]> (<[7 := mkRID 0 0]> ∅)).
Proof.
  set (c1 := with_row [VInt 7; VText "ann"] demo_ctx).
  destruct (with_row_runs demo_ctx _ [] ∅ [VInt 7; VText "ann"] demo_ctx_table demo_ctx_index)
    as (r1 & l1 & Hp1 & Ht1 & Hi1); [done|by apply ok_row|vm_compute; congruence|vm_compute; reflexivity|].
  fold c1 in Ht1, Hi1. simpl in Hi1. rewrite lookup_empty in Hi1.
  destruct Hi1 as (tree1 & Htree1 & Hs1).
  assert (Hm1 : maxLeafKeys_ tree1 = 127).
  { assert (H : maxLeafKeys_ <$> (ec_indexes c1 !! "t") = Some 127) by (vm_compute; reflexivity).
    rewrite Htree1 in H. by injection H. }
  destruct (with_row_runs c1 _ l1 (<[7 := r1]> (∅ : imap)) [VInt (-3); VText "bob"] Ht1)
    as (r2 & l2 & Hp2 & Ht2 & Hi2); [|done|by apply ok_row|vm_compute; congruence|vm_compute; reflexivity|].
  { exists tree1. split; [done|]. split; [done|]. rewrite Hm1, map_size_insert_None by apply lookup_empty.
    rewrite map_size_empty. split; [done|].
    assert (H : (fun t => length (nodes_ t)) <$> (ec_indexes c1 !! "t") = Some 1%nat) by (vm_compute; reflexivity).
    rewrite Htree1 in H. injection H as ->. done. }
  fold c1 in Ht2, Hi2. change (with_row _ c1) with demo_ctx2 in Ht2, Hi2.
  assert (Hrows : table_rows (ec_store demo_ctx2) 1 = map encode two_rows) by (vm_compute; reflexivity).
  split.
  - destruct Ht2 as [Hc2 Hh2]. split; [exact Hc2|]. split; [apply Hh2|exact Hrows|].
    apply Forall_cons; split; [by apply ok_row|]. apply Forall_cons; split; [by apply ok_row|constructor].
  - destruct Hi2 as (tree2 & Htree2 & Hs2). exists tree2. split; [done|]. simpl in Hs2.
    rewrite lookup_insert_ne, lookup_empty in Hs2 by done.
    assert (Hr1 : runs (BTree.search 7) tree2 (Some r1) tree2).
    { pose proof (search_runs tree2 _ 7 Hs2) as H. by rewrite lookup_insert_ne, lookup_insert_eq in H. }
    assert (Hr2 : runs (BTree.search (-3)) tree2 (Some r2) tree2).
    { pose proof (search_runs tree2 _ (-3) Hs2) as H. by rewrite lookup_insert_eq in H. }
    assert (E : (fun t => ((BTree.search 7 t).1, (BTree.search (-3) t).1)) <$> (ec_indexes demo_ctx2 !! "t")
                = Some (Ret (Some (mkRID 0 0)), Ret (Some (mkRID 0 1)))) by (vm_compute; reflexivity).
    rewrite Htree2 in E. simpl in E. unfold runs in Hr1, Hr2. rewrite Hr1, Hr2 in E. simpl in E.
    injection E as -> ->. exact Hs2.
Qed.
#[local] Opaque demo_ctx2.

Lemma select_plan_correct_witness :
  let p : predicate := Some (fun t => v <~ Tuple.getValue t 0 ;; z <~ Value.asInt v ;; Ret (0 <? z)) in
  let plan := mkProjection (mkFilter (SeqScan.new "t" p) (Some (fun _ => Ret true))) ["name"] [] [] in
  exists e c' e', runs (ex_init plan) demo_ctx2 e c' /\
    Exec.all_tuples Store e = Ret ([[VText "ann"]], e').
Proof.
  intros p plan. destruct demo_ctx2_table as (Ht & _).
  destruct (select_plan_correct demo_ctx2 "t" _ _ p
    (fun t => match t with VInt z :: _ => 0 <? z | _ => false end) (fun _ => true) ["name"] [1%nat] Ht)
    as (e & c' & e' & Hrun & Hall & _).
  - repeat constructor.
  - vm_compute. discriminate.
  - repeat constructor.
  - exists e, c', e'. split; [exact Hrun|exact Hall].
Defined.

Lemma join_correct_witness :
  exists e' e'' c2, runs (ex_init (Join.new (SeqScan.new "t" None) (SeqScan.new "t" None) "id" "id")) demo_ctx2 e' c2 /\
    Exec.all_tuples Store e' =
      Ret ([[VInt 7; VText "ann"; VInt 7; VText "ann"]; [VInt (-3); VText "bob"; VInt (-3); VText "bob"]], e'').
Proof.
  destruct demo_ctx2_table as (Ht & _).
  assert (Hp : decides None (fun _ => true) two_rows) by (repeat constructor).
  destruct (seqScan_runs demo_ctx2 "t" _ _ None _ Ht Hp) as (l & c1 & Hr1 & Hl & Hs1 & Ht1 & _).
  destruct (seqScan_runs c1 "t" _ _ None _ Ht1 Hp) as (r & c2 & Hr2 & Hr & Hs2 & _).
  set (e := Join.new (SeqScan.new "t" None) (SeqScan.new "t" None) "id" "id" : NestedLoopJoinExecutor SeqScanExecutor SeqScanExecutor).
  assert (Hl1 : runs (ex_init (jo_left e)) demo_ctx2 l c1) by exact Hr1.
  assert (Hl2 : runs (ex_init (jo_right e)) c1 r c2) by exact Hr2.
  assert (Hok1 : ex_ok Store l) by exact I.
  assert (Hok2 : ex_ok Store r) by exact I.
  destruct (join_correct (L := SeqScanExecutor) (R := SeqScanExecutor) e demo_ctx2 l c1 r c2 0 0 Hl1 Hl2 Hok1 Hok2)
    as (e' & e'' & Hrun & Hall & _).
  - rewrite Hs1. vm_compute. discriminate.
  - rewrite Hs2. vm_compute. discriminate.
  - rewrite Hs1. reflexivity.
  - rewrite Hs2. reflexivity.
  - rewrite Hl. repeat constructor.
  - rewrite Hr. repeat constructor.
  - exists e', e'', c2. split; [exact Hrun|]. rewrite Hl, Hr in Hall. exact Hall.
Defined.

Lemma insert_correct_witness :
  exists e c' rid l', runs (Insert.init doubling (Insert.new "t" [VInt 7; VText "ann"])) demo_ctx e c' /\
    l' = [(rid, [VInt 7; VText "ann"])] /\ ctx_index c' "t" {[7 := rid]}.
Proof.
  destruct (insert_correct doubling demo_ctx "t" _ [] ∅ [VInt 7; VText "ann"] demo_ctx_table demo_ctx_index)
    as (e & c' & rid & l' & Hrun & Hp & _ & _ & Hi & _).
  - intros k rid H. rewrite lookup_empty in H. discriminate.
  - apply ok_row. reflexivity.
  - vm_compute. congruence.
  - vm_compute. reflexivity.
  - exists e, c', rid, l'. split; [exact Hrun|]. split; [by apply Permutation_singleton_r|].
    simpl in Hi. rewrite lookup_empty in Hi. exact Hi.
Defined.

Lemma demo_ctx2_bound : Z.of_nat (length two_rows) <= INT_MAX.
Proof. done. Qed.

Lemma demo_index_sound : index_sound two_rows (<[-3 := mkRID 0 1]> (<[7 := mkRID 0 0]> ∅)).
Proof.
  intros k rid [[<- <-]|[Hne H]]%lookup_insert_Some.
  - exists [VInt (-3); VText "bob"]. split; [right; by left|done].
  - apply lookup_insert_Some in H as [[<- <-]|[_ H]]; [|by rewrite lookup_empty in H].
    exists [VInt 7; VText "ann"]. split; [by left|done].
Qed.

Lemma delete_correct_witness :
  let p : predicate := Some (fun t => v <~ Tuple.getValue t 1 ;; Ret (Value.eqb v (VText "ann"))) in
  exists e c' e', runs (Delete.init (Delete.new "t" p)) demo_ctx2 e c' /\
    Exec.all_tuples Store e = Ret ([[VInt 1]], e') /\
    ctx_table c' "t" (mkInfo "t" people 1 1 false (-1)) [(mkRID 0 1, [VInt (-3); VText "bob"])].
Proof.
  intros p. destruct demo_ctx2_table as (Ht & Hi).
  destruct (delete_correct demo_ctx2 "t" _ _ _ p
    (fun t => match t with [_; v] => Value.eqb v (VText "ann") | _ => false end) Ht Hi demo_index_sound)
    as (e & c' & m' & e' & Hrun & Hall & Ht' & _).
  - repeat constructor.
  - exact demo_ctx2_bound.
  - intros x k Hx HP Hk. unfold two_rows in Hx. rewrite !elem_of_cons in Hx.
    destruct Hx as [->|[->|Hx]]; simpl in *; [injection Hk; lia|discriminate|by apply elem_of_nil in Hx].
  - exists e, c', e'. split; [exact Hrun|]. split; [exact Hall|exact Ht'].
Defined.

Lemma delete_negative_key_witness :
  exists e c' tree, runs (Delete.init (Delete.new "t" None)) demo_ctx2 e c' /\
    lookup_row (ec_store c') 1 (mkRID 0 1) = None /\
    ec_indexes c' !! "t" = Some tree /\ runs (BTree.search (-3)) tree (Some (mkRID 0 1)) tree.
Proof.
  destruct demo_ctx2_table as (Ht & Hi).
  apply (delete_negative_key demo_ctx2 "t" _ _ _ None (fun _ => true) (-3) (mkRID 0 1) [VInt (-3); VText "bob"] Ht Hi).
  - repeat constructor.
  - exact demo_ctx2_bound.
  - right. left.
  - reflexivity.
  - apply lookup_insert_eq.
  - lia.
Defined.

(** a one-column table and a text of 65539 bytes *)
Definition notes : Schema := [mkColumn "note" TEXT].
Definition notes_ctx : ExecutionContext Store :=
  mkCtx demo {["t" := mkInfo "t" notes 1 0 false (-1)]} {["t" := BTree.init 128]}.
Definition long_text : string := text_of (replicate (Z.to_nat 65539) Byte.x61).

Lemma long_text_length : Z.of_nat (length (bytes_of long_text)) = 65539.
Proof. unfold long_text. rewrite bytes_of_text, length_replicate. lia. Qed.
#[local] Opaque long_text.

Lemma long_text_truncated_witness :
  exists e c' (rid : RID) (l' : rows),
    runs (Insert.init doubling (Insert.new "t" [VText long_text])) notes_ctx e c' /\
    l' ≡ₚ [(rid, [VText (text_prefix 3 long_text)])].
Proof.
  assert (Ht : ctx_table notes_ctx "t" (mkInfo "t" notes 1 0 false (-1)) []).
  { split; [apply lookup_singleton_eq|]. destruct demo_created as (Hok & _).
    split; [exact Hok|vm_compute; reflexivity|constructor]. }
  destruct (long_text_truncated doubling notes_ctx "t" _ [] ∅ long_text Ht) as (e & c' & rid & l' & Hrun & Hp & _).
  - exact demo_ctx_index.
  - reflexivity.
  - rewrite long_text_length. lia.
  - rewrite long_text_length. vm_compute. discriminate.
  - destruct demo_created as (_ & Hc & _). simpl. simpl in Hc. rewrite Hc. reflexivity.
  - rewrite long_text_length in Hp. change (Z.to_nat (65539 mod 65536)) with 3%nat in Hp.
    exists e, c', rid, l'. split; [exact Hrun|exact Hp].
Defined.
End examples.
