(* ===== verification/Recovery.v ===== *)
(** * RecoveryManager (src/src/recovery/Recovery.h, Recovery.cpp)

    Replay of the log over the heap files: an analysis pass, a redo pass over
    the records of committed transactions and an undo pass, last record first,
    over those of unfinished ones. The log file and the heap files are separate
    parts of the state. [checkpoint] is [Wal.checkpoint]. *)
From stdpp Require Import base numbers list strings gmap.
From Stdlib Require Import ZArith Lia.
From S2P Require Import Prelude Bytes Common Disk PageStore Heap Wal.

(** what [logMgr_] and [pageMgr_] point to *)
Record RecoveryStore (St : Type) := mkRS { rs_log : LogManager; rs_store : St }.
Arguments mkRS {St}.
Arguments rs_log {St}.
Arguments rs_store {St}.

(** the sets of the analysis pass *)
Record Analysis := mkAn { activeTxns : gset Z; committedTxns : gset Z; abortedTxns : gset Z }.

Module Recov.
Definition no_txns : Analysis := mkAn ∅ ∅ ∅.

Definition analyse_record (a : Analysis) (r : LogRecord) : Analysis :=
  match lr_type r with
  | BEGIN_TXN => mkAn ({[lr_txnId r]} ∪ activeTxns a) (committedTxns a) (abortedTxns a)
  | COMMIT_TXN => mkAn (activeTxns a ∖ {[lr_txnId r]}) ({[lr_txnId r]} ∪ committedTxns a) (abortedTxns a)
  | ABORT_TXN => mkAn (activeTxns a ∖ {[lr_txnId r]}) (committedTxns a) ({[lr_txnId r]} ∪ abortedTxns a)
  | _ => a
  end.
Definition analyse (records : list LogRecord) : Analysis := fold_left analyse_record records no_txns.

Section recovery.
Context {St : Type} `{!PageStore St}.

Definition on_log {A} : M LogManager A -> M (RecoveryStore St) A :=
  zoom rs_log (fun l s => mkRS l (rs_store s)).
Definition on_store {A} : M St A -> M (RecoveryStore St) A :=
  zoom rs_store (fun st s => mkRS (rs_log s) st).

(** The tables the log names, opened once each. *)
Fixpoint open_tables (records : list LogRecord) (tableFiles : gmap string Z) : M St (gmap string Z) :=
  match records with
  | [] => ret tableFiles
  | r :: rest =>
      if negb (String.eqb (tableName r) "") && bool_decide (tableFiles !! tableName r = None) then
        fileId <- Heap.openTable (tableName r) ;;
        open_tables rest (if 0 <=? fileId then <[tableName r := fileId]> tableFiles else tableFiles)
      else open_tables rest tableFiles
  end.

(** [insertTuple] of logged data, when there is any *)
Definition put_back (fileId : Z) (data : list byte) : M St unit :=
  match data with
  | [] => ret tt
  | _ => Heap.insertTuple fileId data (u16 (Z.of_nat (length data))) ;; ret tt
  end.

Definition redo_record (committed : gset Z) (tableFiles : gmap string Z) (r : LogRecord) : M St unit :=
  if bool_decide (lr_txnId r ∈ committed) then
    match tableFiles !! tableName r with
    | None => ret tt
    | Some fileId =>
        match lr_type r with
        | INSERT => put_back fileId (newData r)
        | DELETE => Heap.deleteTuple fileId (lr_rid r)
        | _ => ret tt
        end
    end
  else ret tt.

Definition undo_record (uncommitted : gset Z) (tableFiles : gmap string Z) (r : LogRecord) : M St unit :=
  if bool_decide (lr_txnId r ∈ uncommitted) then
    match tableFiles !! tableName r with
    | None => ret tt
    | Some fileId =>
        match lr_type r with
        | INSERT => Heap.deleteTuple fileId (lr_rid r)
        | DELETE => put_back fileId (oldData r)
        | _ => ret tt
        end
    end
  else ret tt.

Fixpoint for_each (f : LogRecord -> M St unit) (records : list LogRecord) : M St unit :=
  match records with
  | [] => ret tt
  | r :: rest => f r ;; for_each f rest
  end.

Definition redoPhase (records : list LogRecord) (committed : gset Z) (tableFiles : gmap string Z) : M St unit :=
  for_each (redo_record committed tableFiles) records.
Definition undoPhase (records : list LogRecord) (uncommitted : gset Z) (tableFiles : gmap string Z) : M St unit :=
  for_each (undo_record uncommitted tableFiles) (reverse records).

Definition recover : M (RecoveryStore St) unit :=
  records <- on_log Wal.readAllRecords ;;
  match records with
  | [] => ret tt
  | _ =>
      let a := analyse records in
      tableFiles <- on_store (open_tables records ∅) ;;
      on_store (redoPhase records (committedTxns a) tableFiles) ;;
      on_store (undoPhase records (activeTxns a) tableFiles)
  end.
End recovery.
End Recov.
