(* ===== verification/RecoveryThms.v ===== *)
(** * Theorems of recovery

    What the analysis pass finds in a log, what redo and undo make of a table,
    and the committed rows that recovery loses. *)
From stdpp Require Import base numbers list sorting strings gmap.
From Stdlib Require Import ZArith Lia.
From S2P Require Import Prelude Bytes Common Disk Page PageStore Pool PoolStore PoolSpec Heap HeapTable Storage Codec Rows Wal WalThms Recovery.

#[local] Opaque Pool.makePageKey.

(** ** Analysis *)
Definition ends (t : Z) (r : LogRecord) : Prop :=
  lr_txnId r = t /\ (lr_type r = COMMIT_TXN \/ lr_type r = ABORT_TXN).
#[global] Instance ends_dec t r : Decision (ends t r).
Proof. unfold ends. apply _. Defined.

Definition begins (t : Z) (r : LogRecord) : Prop := lr_txnId r = t /\ lr_type r = BEGIN_TXN.

Lemma analyse_snoc rs r : Recov.analyse (rs ++ [r]) = Recov.analyse_record (Recov.analyse rs) r.
Proof. unfold Recov.analyse. by rewrite fold_left_app. Qed.

(** begun, and neither committed nor aborted since *)
Definition unfinished (rs : list LogRecord) (t : Z) : Prop :=
  exists pre r post, rs = pre ++ r :: post /\ begins t r /\ Forall (fun x => ~ ends t x) post.

Lemma unfinished_snoc rs r t :
  unfinished (rs ++ [r]) t <-> begins t r \/ (unfinished rs t /\ ~ ends t r).
Proof.
  split.
  - intros (pre & b & post & E & Hb & Hp). destruct (decide (post = [])) as [->|Hne].
    + apply app_inj_tail in E as [-> <-]. by left.
    + destruct (exists_last Hne) as (post' & z & ->). right.
      change (b :: post' ++ [z]) with ((b :: post') ++ [z]) in E. rewrite app_assoc in E.
      apply app_inj_tail in E as [-> <-]. apply Forall_app in Hp as [Hp Hz].
      split; [by exists pre, b, post'|]. apply Forall_cons in Hz as [Hz _]. exact Hz.
  - intros [Hb|[(pre & b & post & -> & Hb & Hp) Hr]].
    + exists rs, r, []. split; [done|]. split; [done|constructor].
    + exists pre, b, (post ++ [r]). split; [by rewrite <- app_assoc|]. split; [done|].
      apply Forall_app. split; [done|]. by constructor.
Qed.

Lemma analyse_active rs t : t ∈ activeTxns (Recov.analyse rs) <-> unfinished rs t.
Proof.
  induction rs as [|r rs IH] using rev_ind.
  { split; [by intros ?%elem_of_empty|]. intros ([|? ?] & ? & ? & ? & _); done. }
  rewrite analyse_snoc, unfinished_snoc. unfold begins, ends, Recov.analyse_record.
  destruct (lr_type r); simpl; rewrite <- IH; set_solver.
Qed.

Lemma analyse_committed rs t :
  t ∈ committedTxns (Recov.analyse rs) <-> exists r, r ∈ rs /\ lr_txnId r = t /\ lr_type r = COMMIT_TXN.
Proof.
  induction rs as [|r rs IH] using rev_ind.
  { split; [by intros ?%elem_of_empty|]. intros (? & ?%elem_of_nil & _); done. }
  rewrite analyse_snoc.
  assert (Hs : (exists x, x ∈ rs ++ [r] /\ lr_txnId x = t /\ lr_type x = COMMIT_TXN) <->
    (exists x, x ∈ rs /\ lr_txnId x = t /\ lr_type x = COMMIT_TXN) \/ (lr_txnId r = t /\ lr_type r = COMMIT_TXN)).
  { setoid_rewrite elem_of_app. setoid_rewrite list_elem_of_singleton. naive_solver. }
  rewrite Hs, <- IH. unfold Recov.analyse_record. destruct (lr_type r); simpl; set_solver.
Qed.

(** The analysis pass finds unfinished exactly the transactions with a
    begin record that no commit or abort record follows, and committed exactly
    those with a commit record anywhere. *)
Theorem analyse_correct rs t :
  (t ∈ activeTxns (Recov.analyse rs) <-> unfinished rs t) /\
  (t ∈ committedTxns (Recov.analyse rs) <->
     exists r, r ∈ rs /\ lr_txnId r = t /\ lr_type r = COMMIT_TXN).
Proof. split; [apply analyse_active|apply analyse_committed]. Qed.

(** ** Redo and undo over one table *)
Section phases.
Context {St : Type} `{!PageStore St, !PageStoreSpec St}.
Implicit Types (s : St) (f : Z) (rs : list LogRecord) (ts : gset Z) (r : LogRecord).

(** the records of these transactions that change data *)
Definition touches ts r : Prop :=
  lr_txnId r ∈ ts /\ (lr_type r = INSERT \/ lr_type r = DELETE).
#[global] Instance touches_dec ts r : Decision (touches ts r).
Proof. unfold touches. apply _. Defined.

(** an insertion into the table whose data fits in a page *)
Definition fits (name : string) r : Prop :=
  lr_type r = INSERT /\ tableName r = name /\ 0 < Z.of_nat (length (newData r)) <= MAX_TUPLE.

Lemma redo_skip ts tf r s : ~ touches ts r -> runs (Recov.redo_record ts tf r) s tt s.
Proof.
  intros Hn. unfold Recov.redo_record. case_bool_decide as Ht; [|done].
  destruct (tf !! tableName r); [|done]. destruct (lr_type r) eqn:E; try done;
    exfalso; apply Hn; by repeat split; auto.
Qed.

Lemma undo_skip ts tf r s : ~ touches ts r -> runs (Recov.undo_record ts tf r) s tt s.
Proof.
  intros Hn. unfold Recov.undo_record. case_bool_decide as Ht; [|done].
  destruct (tf !! tableName r); [|done]. destruct (lr_type r) eqn:E; try done;
    exfalso; apply Hn; by repeat split; auto.
Qed.

Lemma put_back_runs s f data :
  table_ok s f -> ps_count f s + 1 < INVALID_PAGE_ID -> 0 < Z.of_nat (length data) <= MAX_TUPLE ->
  exists rid s', runs (Heap.insertTuple f data (u16 (Z.of_nat (length data)))) s rid s' /\
    runs (Recov.put_back f data) s tt s' /\ row_inserted s s' f rid data /\
    ps_count f s <= ps_count f s' <= ps_count f s + 2.
Proof.
  intros Ht Hc Hd. assert (Hu : u16 (Z.of_nat (length data)) = Z.of_nat (length data)).
  { apply u16_small. unfold is_u16, MAX_TUPLE, PAGE_SIZE, HEADER_SIZE in *. lia. }
  destruct (insertTuple_runs s f data (u16 (Z.of_nat (length data))) Ht Hc) as (rid & s' & Hr & Hi & Hc');
    [by rewrite Hu|by rewrite Hu|]. rewrite Hu, Nat2Z.id, firstn_all in Hi.
  exists rid, s'. split; [done|]. split; [|done]. unfold Recov.put_back. destruct data; [simpl in Hd; lia|].
  by eapply runs_bind.
Qed.

Lemma redo_runs ts tf name f rs : forall s,
  tf !! name = Some f -> table_ok s f -> ps_count f s + 2 * Z.of_nat (length rs) + 1 < INVALID_PAGE_ID ->
  Forall (fun r => touches ts r -> fits name r) rs ->
  exists s' new, runs (Recov.redoPhase rs ts tf) s tt s' /\ table_ok s' f /\
    new.*2 = map newData (filter (touches ts) rs) /\ table_rows s' f ≡ₚ new ++ table_rows s f /\
    ps_count f s <= ps_count f s' <= ps_count f s + 2 * Z.of_nat (length rs).
Proof.
  unfold Recov.redoPhase. induction rs as [|r rs IH]; intros s Htf Ht Hc Hf.
  { exists s, []. split; [done|]. split; [done|]. split; [done|]. split; [done|lia]. }
  apply Forall_cons in Hf as [Hr Hf]. rewrite length_cons in *. rewrite filter_cons.
  destruct (decide (touches ts r)) as [Htr|Htr].
  - destruct (Hr Htr) as (Hty & Hn & Hd).
    destruct (put_back_runs s f (newData r) Ht) as (rid & s1 & _ & Hr1 & Hi & Hc1); [lia|done|].
    destruct (IH s1 Htf) as (s' & new & Hrun & Ht' & Hnew & Hp & Hcn); [apply Hi|lia|done|].
    exists s', ((rid, newData r) :: new). split.
    { cbn [Recov.for_each]. eapply (runs_bind _ _ _ tt s1); [|done].
      unfold Recov.redo_record. rewrite bool_decide_true by apply Htr. by rewrite Hn, Htf, Hty. }
    pose proof (inserted_rows _ _ _ _ _ Ht Hi) as Hp1.
    split; [done|]. split; [|split; [|lia]].
    + cbn [fmap list_fmap map snd]. by f_equal.
    + rewrite Hp, Hp1. by rewrite <- Permutation_middle.
  - destruct (IH s Htf Ht) as (s' & new & Hrun & Ht' & Hnew & Hp & Hcn); [lia|done|].
    exists s', new. split; [|split; [done|split; [done|split; [done|lia]]]]. cbn [Recov.for_each]. eapply runs_bind; [by apply redo_skip|done].
Qed.

Lemma recov_store_runs {A} (m : M St A) (l : LogManager) s a s' :
  runs m s a s' -> runs (Recov.on_store m) (mkRS l s) a (mkRS l s').
Proof. unfold runs, Recov.on_store, zoom. simpl. by intros ->. Qed.

(** an insertion into the table whose row is in a page of the file *)
Definition undoable (name : string) s f r : Prop :=
  lr_type r = INSERT /\ tableName r = name /\ rid_in s f (lr_rid r).

Lemma undo_runs ts tf name f rs : forall s,
  tf !! name = Some f -> table_ok s f ->
  Forall (fun r => touches ts r -> undoable name s f r) rs ->
  exists s', runs (Recov.for_each (Recov.undo_record ts tf) rs) s tt s' /\ table_ok s' f /\
    forall rid, lookup_row s' f rid =
      if decide (rid ∈ map lr_rid (filter (touches ts) rs)) then None else lookup_row s f rid.
Proof.
  induction rs as [|r rs IH]; intros s Htf Ht Hf.
  { exists s. split; [done|]. split; [done|]. intros rid. by rewrite decide_False by apply not_elem_of_nil. }
  apply Forall_cons in Hf as [Hr Hf]. rewrite filter_cons.
  destruct (decide (touches ts r)) as [Htr|Htr].
  - destruct (Hr Htr) as (Hty & Hn & Hin).
    destruct (deleteTuple_runs s f (lr_rid r) Ht Hin) as (s1 & Hr1 & [Ht1 _ Hc1 Hl1]).
    destruct (IH s1 Htf Ht1) as (s' & Hrun & Ht' & Hl').
    { eapply Forall_impl; [exact Hf|]. intros x Hx Htx. destruct (Hx Htx) as (? & ? & [? ?]).
      split; [done|]. split; [done|]. split; [by rewrite Hc1|done]. }
    exists s'. split; [|split; [done|]].
    + cbn [Recov.for_each]. eapply (runs_bind _ _ _ tt s1); [|done].
      unfold Recov.undo_record. rewrite bool_decide_true by apply Htr. by rewrite Hn, Htf, Hty.
    + intros rid. rewrite Hl', Hl1. cbn [map]. repeat case_decide; set_solver.
  - destruct (IH s Htf Ht Hf) as (s' & Hrun & Hrest).
    exists s'. split; [|done]. cbn [Recov.for_each]. eapply runs_bind; [by apply undo_skip|done].
Qed.

(** The rows left when some ids are emptied. *)
Lemma erased_rows s s' f (ids : list RID) :
  table_ok s f -> table_ok s' f ->
  (forall rid, lookup_row s' f rid = if decide (rid ∈ ids) then None else lookup_row s f rid) ->
  table_rows s' f ≡ₚ filter (fun x => x.1 ∉ ids) (table_rows s f).
Proof.
  intros Ht Ht' Hl. apply NoDup_Permutation; [apply table_rows_nodup|apply NoDup_filter, table_rows_nodup|].
  intros [rid d]. rewrite list_elem_of_filter, !elem_of_table_rows by (by apply count_nonneg).
  rewrite Hl. simpl. case_decide; naive_solver.
Qed.

(** ** The passes put together *)
Lemma for_each_app (g : LogRecord -> M St unit) rs1 rs2 : forall s s1 s2,
  runs (Recov.for_each g rs1) s tt s1 -> runs (Recov.for_each g rs2) s1 tt s2 ->
  runs (Recov.for_each g (rs1 ++ rs2)) s tt s2.
Proof.
  induction rs1 as [|r rs1 IH]; intros s s1 s2 H1 H2.
  { cbn [Recov.for_each] in H1. by injection H1 as [= <-]. }
  cbn [Recov.for_each app] in *. apply runs_bind_inv in H1 as ([] & s' & Hr & H1).
  eapply runs_bind; [done|]. by eapply IH.
Qed.

(** Redo around one committed insertion whose new id is known. *)
Lemma redo_one_runs ts tf name f pre r post s s1 rid s2 :
  tf !! name = Some f -> table_ok s f ->
  ps_count f s + 2 * Z.of_nat (length (pre ++ r :: post)) + 1 < INVALID_PAGE_ID ->
  Forall (fun r => touches ts r -> fits name r) (pre ++ r :: post) -> touches ts r ->
  runs (Recov.redoPhase pre ts tf) s tt s1 ->
  runs (Heap.insertTuple f (newData r) (u16 (Z.of_nat (length (newData r))))) s1 rid s2 ->
  exists s' new, runs (Recov.redoPhase (pre ++ r :: post) ts tf) s tt s' /\ table_ok s' f /\
    new.*2 = map newData (filter (touches ts) (pre ++ post)) /\
    table_rows s' f ≡ₚ ((rid, newData r) :: new ++ table_rows s f) /\ ps_count f s <= ps_count f s'.
Proof.
  intros Htf Ht Hc [Hf1 [Hfr Hf2]%Forall_cons]%Forall_app Hr Hpre Hins.
  rewrite length_app, length_cons in Hc. destruct (Hfr Hr) as (Hty & Hn & Hd).
  destruct (redo_runs ts tf name f pre s Htf Ht) as (s1' & new1 & H1 & Ht1 & Hnew1 & Hp1 & Hc1); [lia|done|].
  destruct (runs_det _ _ _ _ _ _ H1 Hpre) as [_ ->].
  destruct (put_back_runs s1 f (newData r) Ht1) as (rid' & s2' & Hi2 & H2 & Hri & Hc2); [lia|done|].
  destruct (runs_det _ _ _ _ _ _ Hi2 Hins) as [-> ->].
  destruct (redo_runs ts tf name f post s2 Htf) as (s3 & new2 & H3 & Ht3 & Hnew2 & Hp3 & Hc3);
    [apply Hri|lia|done|].
  exists s3, (new1 ++ new2). split; [|split; [done|split; [|split; [|lia]]]].
  - unfold Recov.redoPhase. eapply for_each_app; [exact H1|]. cbn [Recov.for_each].
    eapply (runs_bind _ _ _ tt s2); [|exact H3].
    unfold Recov.redo_record. rewrite bool_decide_true by apply Hr. by rewrite Hn, Htf, Hty.
  - by rewrite fmap_app, Hnew1, Hnew2, filter_app, map_app.
  - pose proof (inserted_rows _ _ _ _ _ Ht1 Hri) as Hp2. rewrite Hp3, Hp2, Hp1. solve_Permutation.
Qed.

(** Undo after a redo that kept the pages of the table. *)
Lemma undone_runs ts tf name f rs s s1 :
  tf !! name = Some f -> table_ok s1 f -> ps_count f s <= ps_count f s1 ->
  Forall (fun r => touches ts r -> undoable name s f r) rs ->
  let ids := map lr_rid (filter (touches ts) rs) in
  exists s', runs (Recov.undoPhase rs ts tf) s1 tt s' /\ table_ok s' f /\
    (forall rid, lookup_row s' f rid = if decide (rid ∈ ids) then None else lookup_row s1 f rid) /\
    table_rows s' f ≡ₚ filter (fun x => x.1 ∉ ids) (table_rows s1 f).
Proof.
  intros Htf Ht Hc Hact ids.
  destruct (undo_runs ts tf name f (reverse rs) s1 Htf Ht) as (s' & Hr & Ht' & Hl).
  { apply Forall_reverse. eapply Forall_impl; [exact Hact|]. intros r Hr Htr.
    destruct (Hr Htr) as (? & ? & [? ?]). split; [done|]. split; [done|]. split; [lia|done]. }
  assert (Hl' : forall rid, lookup_row s' f rid = if decide (rid ∈ ids) then None else lookup_row s1 f rid).
  { intros rid. rewrite Hl. assert (Hiff : rid ∈ map lr_rid (filter (touches ts) (reverse rs)) <-> rid ∈ ids)
      by (unfold ids; by rewrite (reverse_Permutation rs)).
    repeat case_decide; tauto. }
  exists s'. split; [exact Hr|]. split; [done|]. split; [exact Hl'|]. by apply erased_rows.
Qed.

(** ** The tables of a log *)
Definition names (name : string) r : Prop := tableName r = "" \/ tableName r = name.

Lemma open_tables_opened name f rs : forall s,
  Forall (names name) rs -> runs (Recov.open_tables rs {[name := f]}) s {[name := f]} s.
Proof.
  induction rs as [|r rs IH]; intros s Hn; [done|]. apply Forall_cons in Hn as [Hr Hn].
  cbn [Recov.open_tables].
  assert ((negb (String.eqb (tableName r) "") &&
    bool_decide (({[name := f]} : gmap string Z) !! tableName r = None)) = false) as ->; [|by apply IH].
  destruct Hr as [->| ->]; [done|]. rewrite lookup_singleton_eq, bool_decide_false by done. apply andb_false_r.
Qed.

Lemma open_tables_runs name f rs s s1 :
  name <> "" -> Forall (names name) rs -> (exists r, r ∈ rs /\ tableName r = name) ->
  runs (Heap.openTable name) s f s1 -> 0 <= f ->
  runs (Recov.open_tables rs ∅) s {[name := f]} s1.
Proof.
  intros Hne Hn Hex Ho Hf. induction rs as [|r rs IH]; [by destruct Hex as (? & ?%elem_of_nil & _)|].
  apply Forall_cons in Hn as [Hr Hn]. cbn [Recov.open_tables].
  destruct (decide (tableName r = name)) as [E|E].
  - rewrite E, (proj2 (String.eqb_neq _ _)), lookup_empty, bool_decide_true by done. cbn [negb andb].
    eapply runs_bind; [exact Ho|]. rewrite (proj2 (Z.leb_le _ _)), insert_empty by done.
    by apply open_tables_opened.
  - destruct Hr as [Hr|Hr]; [|done]. rewrite Hr. apply IH; [done|].
    destruct Hex as (x & [->|Hx]%elem_of_cons & Hxn); [done|]. by exists x.
Qed.

(** [recover] over a log of one table is its redo and its undo pass. *)
Lemma recover_runs l s s1 s2 s3 f name rs tail :
  let a := Recov.analyse rs in
  open_inout (log_fs l) (walPath_ l) = true ->
  file_content (log_fs l) (walPath_ l) = frames rs ++ tail -> Forall writable rs -> torn tail ->
  name <> "" -> Forall (names name) rs -> (exists r, r ∈ rs /\ tableName r = name) ->
  runs (Heap.openTable name) s f s1 -> 0 <= f ->
  runs (Recov.redoPhase rs (committedTxns a) {[name := f]}) s1 tt s2 ->
  runs (Recov.undoPhase rs (activeTxns a) {[name := f]}) s2 tt s3 ->
  runs Recov.recover (mkRS l s) tt (mkRS l s3).
Proof.
  intros a Hopen Hfile Hw Htail Hne Hnames Hex Ho Hf Hredo Hundo.
  unfold Recov.recover. eapply (runs_bind _ _ _ rs (mkRS l s)).
  { unfold runs, Recov.on_log, zoom, Wal.readAllRecords, bind, get. simpl. rewrite Hopen, Hfile.
    unfold lift. by rewrite read_log_frames. }
  assert (Hot : runs (Recov.open_tables rs ∅) s {[name := f]} s1) by by apply open_tables_runs.
  destruct rs as [|r0 rs0]; [by destruct Hex as (? & ?%elem_of_nil & _)|]. cbv zeta. fold a.
  eapply runs_bind; [by apply recov_store_runs|]. eapply runs_bind; by apply recov_store_runs.
Qed.
End phases.

(** C34: recovery from a log whose committed and unfinished transactions made
    only insertions into one table: every committed row is inserted again, under
    a new id, next to the rows the file still holds; then every row under the id
    of an unfinished insertion is removed, whichever insertion put it there. The
    transactions that aborted leave no trace in the result: their rows stay. *)
Theorem recover_insertions {St} `{!PageStore St, !PageStoreSpec St}
    (l : LogManager) (s s1 : St) f name rs tail :
  let a := Recov.analyse rs in
  open_inout (log_fs l) (walPath_ l) = true ->
  file_content (log_fs l) (walPath_ l) = frames rs ++ tail -> Forall writable rs -> torn tail ->
  name <> "" -> Forall (names name) rs -> (exists r, r ∈ rs /\ tableName r = name) ->
  runs (Heap.openTable name) s f s1 -> 0 <= f -> table_ok s1 f ->
  ps_count f s1 + 2 * Z.of_nat (length rs) + 1 < INVALID_PAGE_ID ->
  Forall (fun r => touches (committedTxns a) r -> fits name r) rs ->
  Forall (fun r => touches (activeTxns a) r -> undoable name s1 f r) rs ->
  exists s' new, runs Recov.recover (mkRS l s) tt (mkRS l s') /\ table_ok s' f /\
    new.*2 = map newData (filter (touches (committedTxns a)) rs) /\
    table_rows s' f ≡ₚ
      filter (fun x => x.1 ∉ map lr_rid (filter (touches (activeTxns a)) rs)) (new ++ table_rows s1 f).
Proof.
  intros a Hopen Hfile Hw Htail Hne Hnames Hex Ho Hf Ht Hc Hcomm Hact.
  set (tf := {[name := f]} : gmap string Z).
  assert (Htf : tf !! name = Some f) by apply lookup_singleton_eq.
  destruct (redo_runs (committedTxns a) tf name f rs s1 Htf Ht Hc Hcomm)
    as (s2 & new & Hr2 & Ht2 & Hnew & Hp2 & Hc2).
  destruct (undone_runs (activeTxns a) tf name f rs s1 s2 Htf Ht2) as (s3 & Hr3 & Ht3 & _ & Hl3); [lia|done|].
  exists s3, new. split; [by eapply recover_runs|]. split; [done|]. split; [done|]. by rewrite <- Hp2.
Qed.

(** C35: a committed row is lost. Take any log of insertions into one table
    as in the theorem before, and in it any committed insertion for whose row
    the redo pass, when it comes to that record, picks an id that some
    unfinished insertion of the log has. Recovery returns, and the table it
    leaves has no row under that id: it holds the rows of the other committed
    insertions and those of the file, less the ids undone. Unless one of them
    has the same bytes, the bytes the transaction committed are nowhere in the
    table. *)
Theorem recover_loses_commit {St} `{!PageStore St, !PageStoreSpec St}
    (l : LogManager) (s s1 s2 s3 : St) f name tail pre r post u :
  let rs := pre ++ r :: post in
  let a := Recov.analyse rs in
  let others := map newData (filter (touches (committedTxns a)) (pre ++ post)) in
  open_inout (log_fs l) (walPath_ l) = true ->
  file_content (log_fs l) (walPath_ l) = frames rs ++ tail -> Forall writable rs -> torn tail ->
  name <> "" -> Forall (names name) rs ->
  runs (Heap.openTable name) s f s1 -> 0 <= f -> table_ok s1 f ->
  ps_count f s1 + 2 * Z.of_nat (length rs) + 1 < INVALID_PAGE_ID ->
  Forall (fun r => touches (committedTxns a) r -> fits name r) rs ->
  Forall (fun r => touches (activeTxns a) r -> undoable name s1 f r) rs ->
  touches (committedTxns a) r ->
  runs (Recov.redoPhase pre (committedTxns a) {[name := f]}) s1 tt s2 ->
  runs (Heap.insertTuple f (newData r) (u16 (Z.of_nat (length (newData r))))) s2 (lr_rid u) s3 ->
  u ∈ rs -> touches (activeTxns a) u ->
  exists s' new, runs Recov.recover (mkRS l s) tt (mkRS l s') /\ table_ok s' f /\
    lookup_row s' f (lr_rid u) = None /\ new.*2 = others /\
    table_rows s' f ≡ₚ
      filter (fun x => x.1 ∉ map lr_rid (filter (touches (activeTxns a)) rs)) (new ++ table_rows s1 f) /\
    (newData r ∉ others -> newData r ∉ (table_rows s1 f).*2 -> newData r ∉ (table_rows s' f).*2).
Proof.
  intros rs a others Hopen Hfile Hw Htail Hne Hnames Ho Hf Ht Hc Hcomm Hact Hr Hpre Hins Hu Hua.
  set (tf := {[name := f]} : gmap string Z).
  assert (Htf : tf !! name = Some f) by apply lookup_singleton_eq.
  destruct (redo_one_runs (committedTxns a) tf name f pre r post s1 s2 (lr_rid u) s3)
    as (s4 & new & Hr4 & Ht4 & Hnew & Hp4 & Hc4); [done..|].
  destruct (undone_runs (activeTxns a) tf name f rs s1 s4 Htf Ht4) as (s5 & Hr5 & Ht5 & Hl5 & Hp5); [lia|done|].
  assert (Hid : lr_rid u ∈ map lr_rid (filter (touches (activeTxns a)) rs)).
  { apply list_elem_of_fmap. exists u. split; [done|]. by apply list_elem_of_filter. }
  assert (Hp : table_rows s5 f ≡ₚ
    filter (fun x => x.1 ∉ map lr_rid (filter (touches (activeTxns a)) rs)) (new ++ table_rows s1 f)).
  { rewrite Hp5, Hp4, filter_cons_False by (simpl; tauto). done. }
  exists s5, new. split.
  { eapply recover_runs; try done. exists r. split; [apply elem_of_app; right; by left|].
    apply Forall_app in Hcomm as [_ [Hfr _]%Forall_cons]. by apply Hfr. }
  split; [done|]. split; [rewrite Hl5; by case_decide|]. split; [done|]. split; [done|].
  intros Hno1 Hno2. rewrite Hp. intros (x & Ex & Hx)%list_elem_of_fmap.
  apply list_elem_of_filter in Hx as [_ [Hx|Hx]%elem_of_app].
  - apply Hno1. unfold others. rewrite <- Hnew, Ex. by apply list_elem_of_fmap_2.
  - apply Hno2. rewrite Ex. by apply list_elem_of_fmap_2.
Qed.

(** *** At the store of Storage.v *)
Section examples.
Definition begin_rec (t : Z) : LogRecord := Wal.txn_record BEGIN_TXN t.
Definition commit_rec (t : Z) : LogRecord := Wal.txn_record COMMIT_TXN t.
Definition insert_rec (t : Z) (rid : RID) (d : list byte) : LogRecord := mkRec 0 INSERT t "t" rid [] d.
Definition log_of (rs : list LogRecord) : LogManager :=
  mkLog (set_file "wal" (frames rs) (mkFS ∅ {[DATA_DIR]} ∅)) [] None 1 "wal".

Definition d1 : list byte := [Byte.x01; Byte.x02; Byte.x03].
Definition d2 : list byte := [Byte.x02; Byte.x05; Byte.x00; Byte.x00; Byte.x00].

(** a restart after the empty table was written back, and one after a crash *)
Definition after_flush : Store := boot (disk_fs (st_disk (Pool.flushAllPages map_to_list demo).2)) 2.
Definition after_crash : Store := boot (disk_fs (st_disk demo)) 2.

(** an unfinished insertion at (0, 0) and a committed one at (0, 1) *)
Definition two_inserts : list LogRecord :=
  [begin_rec 1; insert_rec 1 (mkRID 0 0) d1; begin_rec 2; insert_rec 2 (mkRID 0 1) d2; commit_rec 2].

Lemma two_inserts_writable : Forall writable two_inserts.
Proof.
  repeat (apply Forall_cons; split); [..|constructor]; (split; [split|]);
    vm_compute; intuition congruence.
Qed.

Lemma two_inserts_names : Forall (names "t") two_inserts.
Proof. repeat (apply Forall_cons; split); [by left|by right|by left|by right|by left|constructor]. Qed.

Lemma two_inserts_fit : Forall (fun r => touches (committedTxns (Recov.analyse two_inserts)) r -> fits "t" r) two_inserts.
Proof.
  repeat (apply Forall_cons; split); [..|constructor]; intros [Hin [Hty|Hty]]; try discriminate Hty;
    (split; [reflexivity|split; [reflexivity|vm_compute; split; congruence]]).
Qed.

Lemma two_inserts_undoable s : ps_count 1 s = 1 ->
  Forall (fun r => touches (activeTxns (Recov.analyse two_inserts)) r -> undoable "t" s 1 r) two_inserts.
Proof.
  intros Hc. repeat (apply Forall_cons; split); [..|constructor]; intros [Hin [Hty|Hty]]; try discriminate Hty;
    (split; [reflexivity|split; [reflexivity|]]); unfold rid_in; rewrite Hc; simpl; lia.
Qed.

(** the store recovery opens the table in, and the one after its insertion *)
Definition opened : Store := (Heap.openTable "t" after_flush).2.
Definition refilled : Store := (Heap.insertTuple 1 d2 (u16 5) opened).2.

Lemma opened_runs : runs (Heap.openTable "t") after_flush 1 opened.
Proof. apply runs_result. vm_compute. reflexivity. Qed.

Lemma refilled_runs : runs (Heap.insertTuple 1 d2 (u16 5)) opened (mkRID 0 0) refilled.
Proof.
  assert (E : (Heap.insertTuple 1 d2 (u16 5) opened).1 = Ret (mkRID 0 0)) by (vm_compute; reflexivity).
  exact (runs_result (Heap.insertTuple 1 d2 (u16 5)) opened _ E).
Qed.

Lemma opened_count : ps_count 1 opened = 1.
Proof. vm_compute. reflexivity. Qed.

Lemma opened_table : table_ok opened 1 /\ table_rows opened 1 = [].
Proof.
  destruct demo_created as (Ht & Hc & Hl).
  destruct (restart_runs map_to_list demo 1 (mkHandle (Disk.full_path "t.db") 1 true) "t" 2 Ht) as (s1 & s2 & Hr1 & Hr2 & Ht2 & Hl2);
    [done|done|apply demo_file|done|simpl; unfold PAGE_SIZE; lia|].
  assert (E : (Pool.flushAllPages map_to_list demo).2 = s1) by exact (f_equal snd Hr1).
  assert (E2 : opened = s2) by (unfold opened, after_flush; rewrite E; exact (f_equal snd Hr2)).
  rewrite E2. split; [done|]. apply table_rows_unique; [done|constructor|]. intros r d.
  specialize (Hl2 r). specialize (Hl r). rewrite Hl in Hl2. rewrite Hl2.
  split; [intros H; apply elem_of_nil in H; destruct H|intros H; discriminate H].
Qed.

Lemma recover_insertions_witness :
  exists s' new, runs Recov.recover (mkRS (log_of two_inserts) after_flush) tt (mkRS (log_of two_inserts) s') /\
    new.*2 = [d2] /\
    table_rows s' 1 ≡ₚ filter (fun x : RID * list byte => x.1 ∉ [mkRID 0 0]) (new ++ []).
Proof.
  destruct opened_table as [Ht Hrows].
  destruct (recover_insertions (log_of two_inserts) after_flush opened 1 "t" two_inserts [])
    as (s' & new & Hrun & _ & Hnew & Hp).
  - vm_compute. reflexivity.
  - vm_compute. reflexivity.
  - apply two_inserts_writable.
  - left. simpl. lia.
  - discriminate.
  - apply two_inserts_names.
  - exists (insert_rec 1 (mkRID 0 0) d1). split; [right; by left|reflexivity].
  - apply opened_runs.
  - lia.
  - exact Ht.
  - rewrite opened_count. vm_compute. reflexivity.
  - apply two_inserts_fit.
  - apply two_inserts_undoable, opened_count.
  - rewrite Hrows in Hp. exists s', new. split; [exact Hrun|]. split; [exact Hnew|exact Hp].
Defined.

(** After a crash that left the table's pages empty, redo puts the committed
    row of transaction 2 into slot (0, 0), the slot the unfinished insertion of
    transaction 1 had used before the crash, and undo then empties that slot. *)
Lemma recover_loses_commit_witness :
  2 ∈ committedTxns (Recov.analyse two_inserts) /\
  exists s', runs Recov.recover (mkRS (log_of two_inserts) after_flush) tt (mkRS (log_of two_inserts) s') /\
    lookup_row s' 1 (mkRID 0 0) = None /\ d2 ∉ (table_rows s' 1).*2.
Proof.
  assert (Hin : 2 ∈ committedTxns (Recov.analyse two_inserts)).
  { apply analyse_committed. exists (commit_rec 2). split; [by do 4 right; left|done]. }
  split; [exact Hin|]. destruct opened_table as [Ht Hrows].
  set (r := insert_rec 2 (mkRID 0 1) d2). set (u := insert_rec 1 (mkRID 0 0) d1).
  assert (Hu : u ∈ two_inserts) by (right; by left).
  destruct (recover_loses_commit (log_of two_inserts) after_flush opened opened refilled 1 "t" []
    [begin_rec 1; u; begin_rec 2] r [commit_rec 2] u) as (s' & new & Hrun & _ & Hl & _ & _ & Hd).
  - vm_compute. reflexivity.
  - vm_compute. reflexivity.
  - apply two_inserts_writable.
  - left. simpl. lia.
  - discriminate.
  - apply two_inserts_names.
  - apply opened_runs.
  - lia.
  - exact Ht.
  - rewrite opened_count. vm_compute. reflexivity.
  - apply two_inserts_fit.
  - apply two_inserts_undoable, opened_count.
  - split; [exact Hin|by left].
  - vm_compute. reflexivity.
  - apply refilled_runs.
  - exact Hu.
  - split; [vm_compute; reflexivity|by left].
  - exists s'. split; [exact Hrun|]. split; [exact Hl|]. apply Hd.
    + vm_compute. intros H. apply elem_of_nil in H. exact H.
    + rewrite Hrows. intros H. apply elem_of_nil in H. exact H.
Defined.

(** When a crash comes before the first page of a new table was written
    back, the page is all zeros, and recovery writes the row over its header:
    the row it then finds in the table is not the one that was logged. *)
Theorem recover_unformatted_page :
  let rs := [begin_rec 1; insert_rec 1 (mkRID 0 0) d2; commit_rec 1] in
  let r := Recov.recover (mkRS (log_of rs) after_crash) in
  r.1 = Ret tt /\ exists d, table_rows (rs_store r.2) 1 = [(mkRID 0 0, d)] /\ d <> d2.
Proof.
  split; [vm_compute; reflexivity|].
  exists [Byte.x02; Byte.x05; Byte.x00; Byte.x00; Byte.x01]. split; [vm_compute; reflexivity|discriminate].
Qed.
End examples.
