(* ===== verification/Lexer.v ===== *)
(** * Lexer (src/src/parser/lexer.h, lexer.cpp)

    SQL text to tokens. The characters are those of a C++ [char] string; the
    classification functions of <cctype> are those of the "C" locale, and
    undefined on a negative [char] other than [EOF], as the standard has it. *)
From stdpp Require Import base numbers list strings.
From Stdlib Require Import ZArith Lia.
From Stdlib Require Import Strings.Ascii.
From S2P Require Import Prelude.

Inductive TokenType :=
  | TOKEN_SELECT | TOKEN_INSERT | TOKEN_INTO | TOKEN_VALUES | TOKEN_FROM | TOKEN_WHERE
  | TOKEN_CREATE | TOKEN_TABLE | TOKEN_DELETE | TOKEN_INT | TOKEN_TEXT
  | TOKEN_NUMBER | TOKEN_STRING | TOKEN_IDENTIFIER
  | TOKEN_STAR | TOKEN_COMMA | TOKEN_LPAREN | TOKEN_RPAREN | TOKEN_SEMICOLON | TOKEN_EQUALS
  | TOKEN_EOF | TOKEN_UNKNOWN.
#[global] Instance TokenType_eq_dec : EqDecision TokenType.
Proof. solve_decision. Defined.

Record Token := mkTok { tok_type : TokenType; tok_value : string }.
#[global] Instance Token_eq_dec : EqDecision Token.
Proof. solve_decision. Defined.

(** the code of a character, 0 to 255 *)
Definition code (c : ascii) : Z := Z.of_N (N_of_ascii c).
Definition between (lo hi : Z) (c : ascii) : bool := (lo <=? code c) && (code c <=? hi).

(** ** <cctype> *)
Definition isspace (c : ascii) : bool := (code c =? 32) || between 9 13 c.
Definition isdigit (c : ascii) : bool := between 48 57 c.
Definition isupper (c : ascii) : bool := between 65 90 c.
Definition islower (c : ascii) : bool := between 97 122 c.
Definition isalpha (c : ascii) : bool := isupper c || islower c.
Definition isalnum (c : ascii) : bool := isalpha c || isdigit c.
Definition toupper (c : ascii) : ascii :=
  if islower c then ascii_of_N (N_of_ascii c - 32) else c.

(** A call with this argument is defined: [char] is signed, 255 is [EOF]. *)
Definition ctype_ok (c : ascii) : bool := (code c <? 128) || (code c =? 255).
Definition ctype (p : ascii -> bool) (c : ascii) : outcome bool :=
  if ctype_ok c then Ret (p c) else Undef.

Definition is_char (k : string) (c : ascii) : bool := String.eqb (String c EmptyString) k.

Module Lex.
Fixpoint toUpper (s : string) : string :=
  match s with
  | EmptyString => EmptyString
  | String c s' => String (toupper c) (toUpper s')
  end.

Definition keywordType (word : string) : TokenType :=
  let upper := toUpper word in
  if String.eqb upper "SELECT" then TOKEN_SELECT
  else if String.eqb upper "INSERT" then TOKEN_INSERT
  else if String.eqb upper "INTO" then TOKEN_INTO
  else if String.eqb upper "VALUES" then TOKEN_VALUES
  else if String.eqb upper "FROM" then TOKEN_FROM
  else if String.eqb upper "WHERE" then TOKEN_WHERE
  else if String.eqb upper "CREATE" then TOKEN_CREATE
  else if String.eqb upper "TABLE" then TOKEN_TABLE
  else if String.eqb upper "DELETE" then TOKEN_DELETE
  else if String.eqb upper "INT" then TOKEN_INT
  else if String.eqb upper "TEXT" then TOKEN_TEXT
  else TOKEN_IDENTIFIER.

(** the single-character symbols *)
Definition symbol (c : ascii) : option Token :=
  if is_char "*" c then Some (mkTok TOKEN_STAR "*")
  else if is_char "," c then Some (mkTok TOKEN_COMMA ",")
  else if is_char "(" c then Some (mkTok TOKEN_LPAREN "(")
  else if is_char ")" c then Some (mkTok TOKEN_RPAREN ")")
  else if is_char ";" c then Some (mkTok TOKEN_SEMICOLON ";")
  else if is_char "=" c then Some (mkTok TOKEN_EQUALS "=")
  else None.

(** The characters of a string literal, and what follows its closing quote, if
    there is one. *)
Fixpoint quoted (s : string) : string * string :=
  match s with
  | EmptyString => (EmptyString, EmptyString)
  | String c s' =>
      if is_char "'" c then (EmptyString, s')
      else let '(str, rest) := quoted s' in (String c str, rest)
  end.

(** [while (pos < len && p(input[pos]))] *)
Fixpoint span (p : ascii -> outcome bool) (s : string) : outcome (string * string) :=
  match s with
  | EmptyString => Ret (EmptyString, EmptyString)
  | String c s' =>
      b <~ p c ;;
      if b : bool then r <~ span p s' ;; Ret (String c r.1, r.2)
      else Ret (EmptyString, s)
  end.

(** [isalnum(c) || c == '_'] *)
Definition word_char (c : ascii) : outcome bool :=
  b <~ ctype isalnum c ;; Ret (b || is_char "_" c).

(** One turn of the loop on a non-empty rest: the token it adds and what is
    left. *)
Definition step (c : ascii) (s : string) : outcome (option Token * string) :=
  space <~ ctype isspace c ;;
  if space : bool then Ret (None, s)
  else
    match symbol c with
    | Some t => Ret (Some t, s)
    | None =>
        if is_char "'" c then
          let '(str, rest) := quoted s in Ret (Some (mkTok TOKEN_STRING str), rest)
        else
          digit <~ ctype isdigit c ;;
          if digit : bool then
            r <~ span (ctype isdigit) (String c s) ;; Ret (Some (mkTok TOKEN_NUMBER r.1), r.2)
          else
            alpha <~ ctype isalpha c ;;
            if (alpha : bool) || is_char "_" c then
              r <~ span word_char (String c s) ;;
              Ret (Some (mkTok (keywordType r.1) r.1), r.2)
            else Ret (Some (mkTok TOKEN_UNKNOWN (String c EmptyString)), s)
    end.

(** Each turn reads a character, so the length of the input is fuel enough. *)
Fixpoint tokens (fuel : nat) (s : string) : outcome (list Token) :=
  match s with
  | EmptyString => Ret [mkTok TOKEN_EOF EmptyString]
  | String c s' =>
      match fuel with
      | O => Undef
      | S fuel' =>
          r <~ step c s' ;;
          ts <~ tokens fuel' r.2 ;;
          Ret (match r.1 with Some t => t :: ts | None => ts end)
      end
  end.

Definition handleInput (input : string) : outcome (list Token) := tokens (String.length input) input.

Definition tokenTypeName (t : TokenType) : string :=
  match t with
  | TOKEN_SELECT => "SELECT" | TOKEN_INSERT => "INSERT" | TOKEN_INTO => "INTO"
  | TOKEN_VALUES => "VALUES" | TOKEN_FROM => "FROM" | TOKEN_WHERE => "WHERE"
  | TOKEN_CREATE => "CREATE" | TOKEN_TABLE => "TABLE" | TOKEN_DELETE => "DELETE"
  | TOKEN_INT => "INT" | TOKEN_TEXT => "TEXT" | TOKEN_NUMBER => "NUMBER"
  | TOKEN_STRING => "STRING" | TOKEN_IDENTIFIER => "IDENTIFIER" | TOKEN_STAR => "STAR"
  | TOKEN_COMMA => "COMMA" | TOKEN_LPAREN => "LPAREN" | TOKEN_RPAREN => "RPAREN"
  | TOKEN_SEMICOLON => "SEMICOLON" | TOKEN_EQUALS => "EQUALS" | TOKEN_EOF => "EOF"
  | TOKEN_UNKNOWN => "UNKNOWN"
  end.
End Lex.
