(* ===== verification/Parser.v ===== *)
(** * Parser (src/src/parser/parser.h, parser.cpp)

    Tokens to a statement, by recursive descent. The parser's state is the
    tokens from [pos_] on; reading past the last of them is undefined. *)
From stdpp Require Import base numbers list strings.
From Stdlib Require Import ZArith Lia.
From S2P Require Import Prelude Lexer.

Record ColumnDef := mkColDef { cd_name : string; cd_type : string }.
Record WhereClause := mkWhere { wh_column : string; wh_value : string }.
Inductive StatementType := CREATE_TABLE | INSERT | SELECT | DELETE_STMT.
#[global] Instance StatementType_eq_dec : EqDecision StatementType.
Proof. solve_decision. Defined.

Record Statement := mkStmt {
  st_type : StatementType;
  st_tableName : string;
  st_columns : list ColumnDef;
  st_values : list string;
  selectColumns : list string;
  selectAll : bool;
  hasWhere : bool;
  st_where : WhereClause;
}.

Module Parse.
Abbreviation PM := (M (list Token)).

(** an absent WHERE clause: the fields as a new [Statement] has them *)
Definition no_where : bool * WhereClause := (false, mkWhere EmptyString EmptyString).

Definition current : PM Token :=
  ts <- get ;; match ts with [] => undef | t :: _ => ret t end.
Definition advance : PM Token :=
  t <- current ;;
  (if decide (tok_type t = TOKEN_EOF) then ret tt else modify (fun ts => drop 1 ts)) ;;
  ret t.
Definition check (type : TokenType) : PM bool :=
  t <- current ;; ret (bool_decide (tok_type t = type)).
Definition matches (type : TokenType) : PM bool :=
  b <- check type ;; if b : bool then advance ;; ret true else ret false.

Definition parse_error {A} (msg : string) : PM A :=
  t <- current ;; throw ("Parse error: " +:+ msg +:+ " (got '" +:+ tok_value t +:+ "')").
Definition expect (type : TokenType) (msg : string) : PM Token :=
  b <- check type ;; if b : bool then advance else parse_error msg.

(** [while (!check(RPAREN) && !check(EOF))]: true when the list goes on. *)
Definition more : PM bool :=
  close <- check TOKEN_RPAREN ;;
  if close : bool then ret false else eof <- check TOKEN_EOF ;; ret (negb eof).

Definition column_type : PM string :=
  int <- check TOKEN_INT ;;
  if int : bool then advance ;; ret "INT"
  else
    text <- check TOKEN_TEXT ;;
    if text : bool then advance ;; ret "TEXT"
    else parse_error "expected column type INT or TEXT".

(** [check(NUMBER) || check(STRING) || check(IDENTIFIER)] *)
Definition at_value : PM bool :=
  t <- current ;;
  ret (bool_decide (tok_type t = TOKEN_NUMBER) || bool_decide (tok_type t = TOKEN_STRING)
       || bool_decide (tok_type t = TOKEN_IDENTIFIER)).

(** [if (check(COMMA)) advance();] *)
Definition skip_comma : PM unit :=
  comma <- check TOKEN_COMMA ;; if comma : bool then advance ;; ret tt else ret tt.

(** The loops read a token each turn, so the number of tokens is fuel enough. *)
Fixpoint column_defs (fuel : nat) : PM (list ColumnDef) :=
  match fuel with
  | O => undef
  | S fuel' =>
      go <- more ;;
      if go : bool then
        name <- expect TOKEN_IDENTIFIER "expected column name" ;;
        type <- column_type ;;
        skip_comma ;;
        rest <- column_defs fuel' ;;
        ret (mkColDef (tok_value name) type :: rest)
      else ret []
  end.

Fixpoint value_list (fuel : nat) : PM (list string) :=
  match fuel with
  | O => undef
  | S fuel' =>
      go <- more ;;
      if go : bool then
        isval <- at_value ;;
        if isval : bool then
          v <- advance ;;
          skip_comma ;;
          rest <- value_list fuel' ;;
          ret (tok_value v :: rest)
        else parse_error "expected a value"
      else ret []
  end.

Fixpoint column_names (fuel : nat) : PM (list string) :=
  match fuel with
  | O => undef
  | S fuel' =>
      col <- expect TOKEN_IDENTIFIER "expected column name" ;;
      comma <- matches TOKEN_COMMA ;;
      if comma : bool then rest <- column_names fuel' ;; ret (tok_value col :: rest)
      else ret [tok_value col]
  end.

Definition parseCreateTable : PM Statement :=
  expect TOKEN_CREATE "expected CREATE" ;;
  expect TOKEN_TABLE "expected TABLE after CREATE" ;;
  name <- expect TOKEN_IDENTIFIER "expected table name" ;;
  expect TOKEN_LPAREN "expected '(' after table name" ;;
  ts <- get ;;
  cols <- column_defs (S (length ts)) ;;
  expect TOKEN_RPAREN "expected ')' after column definitions" ;;
  matches TOKEN_SEMICOLON ;;
  ret (mkStmt CREATE_TABLE (tok_value name) cols [] [] false no_where.1 no_where.2).

Definition parseInsert : PM Statement :=
  expect TOKEN_INSERT "expected INSERT" ;;
  expect TOKEN_INTO "expected INTO after INSERT" ;;
  name <- expect TOKEN_IDENTIFIER "expected table name" ;;
  expect TOKEN_VALUES "expected VALUES" ;;
  expect TOKEN_LPAREN "expected '(' after VALUES" ;;
  ts <- get ;;
  vals <- value_list (S (length ts)) ;;
  expect TOKEN_RPAREN "expected ')' after values" ;;
  matches TOKEN_SEMICOLON ;;
  ret (mkStmt INSERT (tok_value name) [] vals [] false no_where.1 no_where.2).

Definition parseWhere : PM WhereClause :=
  expect TOKEN_WHERE "expected WHERE" ;;
  col <- expect TOKEN_IDENTIFIER "expected column name in WHERE" ;;
  expect TOKEN_EQUALS "expected '=' in WHERE clause" ;;
  isval <- at_value ;;
  if isval : bool then v <- advance ;; ret (mkWhere (tok_value col) (tok_value v))
  else parse_error "expected a value after '=' in WHERE clause".

(** [if (check(WHERE)) { hasWhere = true; where = parseWhere(); }] *)
Definition optional_where : PM (bool * WhereClause) :=
  w <- check TOKEN_WHERE ;;
  if w : bool then wc <- parseWhere ;; ret (true, wc) else ret no_where.

Definition parseSelect : PM Statement :=
  expect TOKEN_SELECT "expected SELECT" ;;
  star <- matches TOKEN_STAR ;;
  ts <- get ;;
  cols <- (if star : bool then ret [] else column_names (S (length ts))) ;;
  expect TOKEN_FROM "expected FROM" ;;
  name <- expect TOKEN_IDENTIFIER "expected table name" ;;
  w <- optional_where ;;
  matches TOKEN_SEMICOLON ;;
  ret (mkStmt SELECT (tok_value name) [] [] cols star w.1 w.2).

Definition parseDelete : PM Statement :=
  expect TOKEN_DELETE "expected DELETE" ;;
  expect TOKEN_FROM "expected FROM after DELETE" ;;
  name <- expect TOKEN_IDENTIFIER "expected table name" ;;
  w <- optional_where ;;
  matches TOKEN_SEMICOLON ;;
  ret (mkStmt DELETE_STMT (tok_value name) [] [] [] false w.1 w.2).

Definition parse_statement : PM Statement :=
  create <- check TOKEN_CREATE ;;
  if create : bool then parseCreateTable
  else
    insert <- check TOKEN_INSERT ;;
    if insert : bool then parseInsert
    else
      select <- check TOKEN_SELECT ;;
      if select : bool then parseSelect
      else
        delete <- check TOKEN_DELETE ;;
        if delete : bool then parseDelete
        else parse_error "expected CREATE, INSERT, SELECT, or DELETE".

Definition parse (ts : list Token) : outcome Statement := (parse_statement ts).1.

(** ** Printing *)
Definition newline : string := String (Ascii.ascii_of_N 10) EmptyString.

(** Each item by [item], [sep] after all but the last. *)
Fixpoint separated {A} (item : A -> string) (sep last : string) (l : list A) : string :=
  match l with
  | [] => EmptyString
  | [x] => item x +:+ last
  | x :: l' => item x +:+ sep +:+ separated item sep last l'
  end.

Definition where_string (s : Statement) : string :=
  if hasWhere s then " WHERE " +:+ wh_column (st_where s) +:+ " = " +:+ wh_value (st_where s) else EmptyString.

Definition statementToString (s : Statement) : string :=
  match st_type s with
  | CREATE_TABLE =>
      "CREATE TABLE " +:+ st_tableName s +:+ " (" +:+ newline +:+
      separated (fun c => "  " +:+ cd_name c +:+ " " +:+ cd_type c) ("," +:+ newline) newline (st_columns s)
      +:+ ")"
  | INSERT =>
      "INSERT INTO " +:+ st_tableName s +:+ " VALUES (" +:+
      separated (fun v => v) ", " EmptyString (st_values s) +:+ ")"
  | SELECT =>
      "SELECT " +:+
      (if selectAll s then "*" else separated (fun v => v) ", " EmptyString (selectColumns s)) +:+
      " FROM " +:+ st_tableName s +:+ where_string s
  | DELETE_STMT => "DELETE FROM " +:+ st_tableName s +:+ where_string s
  end.
End Parse.

(** [execute] up to the statement *)
Definition parse_sql (input : string) : outcome Statement :=
  ts <~ Lex.handleInput input ;; Parse.parse ts.

Example parse_sql_insert :
  parse_sql "insert into t values (1, 'a b');" =
    Ret (mkStmt INSERT "t" [] ["1"; "a b"] [] false false (mkWhere EmptyString EmptyString)).
Proof. vm_compute. reflexivity. Qed.
