(* ===== verification/LexerThms.v ===== *)
(** * Correctness of the lexer

    The equations of [handleInput], without its fuel: what it does on a word, a
    number, a symbol and a space, whatever follows; and what every token it
    gives is like. *)
From stdpp Require Import base numbers list strings.
From Stdlib Require Import ZArith Lia.
From Stdlib Require Import Strings.Ascii.
From S2P Require Import Prelude Lexer.

(** ** Texts *)
Fixpoint all_chars (p : ascii -> bool) (s : string) : bool :=
  match s with EmptyString => true | String c s' => p c && all_chars p s' end.
(** the first character is not one of [p]'s *)
Definition stops (p : ascii -> bool) (s : string) : bool :=
  match s with EmptyString => true | String c _ => negb (p c) end.

Definition is_ascii (c : ascii) : bool := code c <? 128.
Definition is_word (c : ascii) : bool := isalnum c || is_char "_" c.
(** letters, digits and underscores, the first of them no digit *)
Definition word_text (s : string) : bool :=
  match s with EmptyString => false | String c _ => (isalpha c || is_char "_" c) && all_chars is_word s end.
Definition number_text (s : string) : bool :=
  match s with EmptyString => false | _ => all_chars isdigit s end.
Definition identifier (s : string) : bool :=
  word_text s && bool_decide (Lex.keywordType s = TOKEN_IDENTIFIER).

Lemma all_chars_app p a b : all_chars p (a +:+ b) = all_chars p a && all_chars p b.
Proof. induction a as [|c a IH]; [done|]. change (p c && all_chars p (a +:+ b) = p c && all_chars p a && all_chars p b). by rewrite IH, andb_assoc. Qed.
Lemma string_length_app a b : String.length (a +:+ b) = (String.length a + String.length b)%nat.
Proof. induction a as [|c a IH]; [done|]. change (S (String.length (a +:+ b)) = S (String.length a + String.length b)). by rewrite IH. Qed.

(** ** Character classes *)
Lemma is_char_code k x c : is_char (String k x) c = true -> code c = code k.
Proof. unfold is_char. rewrite String.eqb_eq. by intros [= -> _]. Qed.
Lemma ctype_ascii p c : is_ascii c = true -> ctype p c = Ret (p c).
Proof. unfold ctype, ctype_ok, is_ascii. by intros ->. Qed.
Lemma is_word_ascii c : is_word c = true -> is_ascii c = true.
Proof.
  unfold is_word, isalnum, isalpha, isupper, islower, isdigit, between, is_ascii. intros Hc.
  destruct (is_char "_" c) eqn:Hu; [apply is_char_code in Hu; change (code "_"%char) with 95 in Hu|]; lia.
Qed.
Lemma isdigit_ascii c : isdigit c = true -> is_ascii c = true.
Proof. unfold isdigit, between, is_ascii. lia. Qed.
Lemma word_char_ascii c : is_ascii c = true -> Lex.word_char c = Ret (is_word c).
Proof. intros Hc. unfold Lex.word_char. by rewrite ctype_ascii. Qed.

(** the classes exclude one another *)
Lemma symbol_code c t : Lex.symbol c = Some t -> 40 <= code c <= 61 /\ isdigit c = false.
Proof.
  unfold Lex.symbol. intros H.
  assert (code c = 42 \/ code c = 44 \/ code c = 40 \/ code c = 41 \/ code c = 59 \/ code c = 61) as Hc.
  { repeat match type of H with context [if ?b then _ else _] => destruct b eqn:?Hb end; [..|done];
      match goal with Hb : is_char _ _ = true |- _ => apply is_char_code in Hb; rewrite Hb end;
      vm_compute; tauto. }
  unfold isdigit, between. lia.
Qed.

(** ** [span] *)
Section span.
Context (p : ascii -> outcome bool) (q : ascii -> bool).
Hypothesis p_ascii : forall c, is_ascii c = true -> p c = Ret (q c).
Hypothesis q_ascii : forall c, q c = true -> is_ascii c = true.

Definition stopped (s : string) : Prop := match s with EmptyString => True | String c _ => p c = Ret false end.

Lemma span_app a b : all_chars q a = true -> stopped b -> Lex.span p (a +:+ b) = Ret (a, b).
Proof using p_ascii q_ascii.
  intros Ha Hb. induction a as [|c a IH].
  - change (EmptyString +:+ b) with b. destruct b as [|c b]; [done|]. simpl in *. by rewrite Hb.
  - change (String c a +:+ b) with (String c (a +:+ b)). simpl in *. apply andb_true_iff in Ha as [Hc Ha].
    by rewrite p_ascii, Hc, IH by auto.
Qed.

Lemma span_spec s :
  all_chars is_ascii s = true ->
  exists a b, Lex.span p s = Ret (a, b) /\ s = a +:+ b /\ all_chars q a = true /\ stopped b.
Proof using p_ascii.
  induction s as [|c s IH]; simpl; [by exists EmptyString, EmptyString|]. intros [Hc Hs]%andb_true_iff.
  rewrite p_ascii by done. simpl. destruct (q c) eqn:Hq.
  - destruct (IH Hs) as (a & b & -> & -> & Ha & Hb). exists (String c a), b. simpl. by rewrite Hq.
  - exists EmptyString, (String c s). simpl. by rewrite p_ascii, Hq.
Qed.
End span.

Lemma span_shorter p s r : Lex.span p s = Ret r -> (String.length r.2 <= String.length s)%nat.
Proof.
  revert r. induction s as [|c s IH]; simpl; intros r H; [by injection H as <-|].
  destruct (p c) as [[]| |]; simpl in H; [|by injection H as <-|done..].
  destruct (Lex.span p s) as [r'| |]; [|done..]. injection H as <-. simpl. specialize (IH r' eq_refl). lia.
Qed.
Lemma quoted_shorter s : (String.length (Lex.quoted s).2 <= String.length s)%nat.
Proof.
  induction s as [|c s IH]; simpl; [done|]. destruct (is_char _ c); simpl; [lia|].
  destruct (Lex.quoted s). simpl in *. lia.
Qed.

(** ** The equations of [handleInput] *)
Lemma step_shorter c s r : Lex.step c s = Ret r -> (String.length r.2 <= String.length s)%nat.
Proof.
  unfold Lex.step. destruct (ctype isspace c) as [[]| |]; simpl; try done; [by intros [= <-]|].
  destruct (Lex.symbol c); [by intros [= <-]|]. destruct (is_char "'" c).
  { pose proof (quoted_shorter s) as Hq. destruct (Lex.quoted s). by intros [= <-]. }
  destruct (ctype isdigit c) as [[]| |] eqn:Hd; simpl; try done.
  { destruct (Lex.span (ctype isdigit) s) as [r'| |] eqn:Hs; simpl; [|done..].
    rewrite ?Hd; simpl. intros [= <-]. by apply span_shorter in Hs. }
  destruct (ctype isalpha c) as [b| |] eqn:Ha; simpl; try done. destruct (_ || _) eqn:Hb; [|by intros [= <-]].
  unfold Lex.word_char at 1. destruct (ctype isalnum c) as [w| |] eqn:Hw; simpl; [|done..].
  assert (w || is_char "_" c = true) as ->.
  { unfold ctype in Ha, Hw. destruct (ctype_ok c); [|done]. injection Ha as <-. injection Hw as <-.
    unfold isalnum. destruct (isalpha c); [done|]. simpl in Hb. by rewrite Hb, orb_true_r. }
  simpl. destruct (Lex.span Lex.word_char s) as [r'| |] eqn:Hs; simpl; [|done..].
  intros [= <-]. by apply span_shorter in Hs.
Qed.

Lemma tokens_fuel n m s :
  (String.length s <= n)%nat -> (String.length s <= m)%nat -> Lex.tokens n s = Lex.tokens m s.
Proof.
  revert m s. induction n as [|n IH]; intros m [|c s] Hn Hm; simpl in Hn; [by destruct m|lia|by destruct m|].
  destruct m as [|m]; simpl in Hm; [lia|]. simpl. destruct (Lex.step c s) as [r| |] eqn:Hs; [|done..].
  simpl. apply step_shorter in Hs. by rewrite (IH m) by lia.
Qed.

Definition add_token (o : option Token) (ts : list Token) : list Token :=
  match o with Some t => t :: ts | None => ts end.

Lemma handleInput_nil : Lex.handleInput EmptyString = Ret [mkTok TOKEN_EOF EmptyString].
Proof. reflexivity. Qed.
Lemma handleInput_cons c s :
  Lex.handleInput (String c s) =
    (r <~ Lex.step c s ;; ts <~ Lex.handleInput r.2 ;; Ret (add_token r.1 ts)).
Proof.
  unfold Lex.handleInput. simpl. destruct (Lex.step c s) as [r| |] eqn:Hs; [|done..]. simpl.
  apply step_shorter in Hs. by rewrite (tokens_fuel _ (String.length r.2)) by lia.
Qed.

Lemma isspace_code c : is_ascii c = true -> code c <= 32 \/ ctype isspace c = Ret false.
Proof.
  intros Hc. rewrite ctype_ascii by done. destruct (isspace c) eqn:Hs; [left|by right].
  unfold isspace, between in Hs. lia.
Qed.
Lemma symbol_none c : code c < 40 \/ 61 < code c \/ isdigit c = true -> Lex.symbol c = None.
Proof.
  intros H. destruct (Lex.symbol c) as [t|] eqn:Ht; [|done]. apply symbol_code in Ht as [Hr Hd].
  destruct H as [H|[H|H]]; [lia|lia|congruence].
Qed.
Lemma is_char_false k c : code c <> code k -> is_char (String k EmptyString) c = false.
Proof. intros Hne. destruct (is_char _ c) eqn:Hc; [|done]. by apply is_char_code in Hc. Qed.
Lemma word_start_code c : isalpha c || is_char "_" c = true -> 65 <= code c /\ code c < 128 /\ isdigit c = false.
Proof.
  unfold isalpha, isupper, islower, isdigit, between. intros Hc.
  destruct (is_char "_" c) eqn:Hu; [apply is_char_code in Hu; change (code "_"%char) with 95 in Hu|]; lia.
Qed.

Lemma lex_space s : Lex.handleInput (String " " s) = Lex.handleInput s.
Proof. rewrite handleInput_cons. simpl. by destruct (Lex.handleInput s). Qed.
Lemma lex_newline s : Lex.handleInput (String "010" s) = Lex.handleInput s.
Proof. rewrite handleInput_cons. simpl. by destruct (Lex.handleInput s). Qed.
Lemma lex_symbol c t s :
  Lex.symbol c = Some t ->
  Lex.handleInput (String c s) = (ts <~ Lex.handleInput s ;; Ret (t :: ts)).
Proof.
  intros Ht. rewrite handleInput_cons. pose proof (symbol_code c t Ht) as [Hr _].
  assert (Lex.step c s = Ret (Some t, s)) as ->; [|done].
  unfold Lex.step. rewrite ctype_ascii by (unfold is_ascii; lia).
  assert (isspace c = false) as -> by (unfold isspace, between; lia). simpl. by rewrite Ht.
Qed.

Lemma step_word c w r b :
  isalpha c || is_char "_" c = true -> Lex.span Lex.word_char (String c b) = Ret (w, r) ->
  Lex.step c b = Ret (Some (mkTok (Lex.keywordType w) w), r).
Proof.
  intros Hc Hs. destruct (word_start_code c Hc) as (Hlo & Hhi & Hd).
  unfold Lex.step. rewrite !ctype_ascii by (unfold is_ascii; lia).
  assert (isspace c = false) as -> by (unfold isspace, between; lia). cbn [obind].
  rewrite symbol_none by lia. rewrite is_char_false by (change (code "'"%char) with 39; lia).
  rewrite Hd, Hc. by rewrite Hs.
Qed.
Lemma step_number c w r b :
  isdigit c = true -> Lex.span (ctype isdigit) (String c b) = Ret (w, r) ->
  Lex.step c b = Ret (Some (mkTok TOKEN_NUMBER w), r).
Proof.
  intros Hd Hs. assert (48 <= code c <= 57) by (unfold isdigit, between in Hd; lia).
  unfold Lex.step. rewrite !ctype_ascii by (unfold is_ascii; lia).
  assert (isspace c = false) as -> by (unfold isspace, between; lia). cbn [obind].
  rewrite symbol_none by tauto. rewrite is_char_false by (change (code "'"%char) with 39; lia).
  rewrite Hd. by rewrite Hs.
Qed.

(** a word ends where the next character is not of a word *)
Lemma lex_word w b :
  word_text w = true -> stopped Lex.word_char b ->
  Lex.handleInput (w +:+ b) = (ts <~ Lex.handleInput b ;; Ret (mkTok (Lex.keywordType w) w :: ts)).
Proof.
  destruct w as [|c w]; [done|]. intros [Hc Hw]%andb_true_iff Hb.
  change (String c w +:+ b) with (String c (w +:+ b)). rewrite handleInput_cons.
  rewrite (step_word c (String c w) b); [done..|].
  by apply (span_app _ _ word_char_ascii is_word_ascii (String c w) b).
Qed.
Lemma lex_number w b :
  number_text w = true -> stopped (ctype isdigit) b ->
  Lex.handleInput (w +:+ b) = (ts <~ Lex.handleInput b ;; Ret (mkTok TOKEN_NUMBER w :: ts)).
Proof.
  destruct w as [|c w]; [done|]. intros Hw Hb. pose proof Hw as [Hc _]%andb_true_iff.
  change (String c w +:+ b) with (String c (w +:+ b)). rewrite handleInput_cons.
  rewrite (step_number c (String c w) b); [done..|].
  by apply (span_app _ _ (ctype_ascii isdigit) isdigit_ascii (String c w) b).
Qed.

(** ** What [handleInput] gives *)
Definition no_quote (s : string) : bool := all_chars (fun c => negb (is_char "'" c)) s.

(** A token's text is one of its type. *)
Definition token_ok (t : Token) : bool :=
  match tok_type t with
  | TOKEN_NUMBER => number_text (tok_value t)
  | TOKEN_STRING => no_quote (tok_value t)
  | TOKEN_IDENTIFIER => identifier (tok_value t)
  | TOKEN_STAR => String.eqb (tok_value t) "*"
  | TOKEN_COMMA => String.eqb (tok_value t) ","
  | TOKEN_LPAREN => String.eqb (tok_value t) "("
  | TOKEN_RPAREN => String.eqb (tok_value t) ")"
  | TOKEN_SEMICOLON => String.eqb (tok_value t) ";"
  | TOKEN_EQUALS => String.eqb (tok_value t) "="
  | TOKEN_EOF => false
  | TOKEN_UNKNOWN => bool_decide (String.length (tok_value t) = 1%nat)
  | k => String.eqb (Lex.toUpper (tok_value t)) (Lex.tokenTypeName k)
  end.

Lemma symbol_ok c t : Lex.symbol c = Some t -> token_ok t = true.
Proof. unfold Lex.symbol. intros H. repeat (destruct (is_char _ c); [by injection H as <-|]). done. Qed.
Lemma keyword_ok w : word_text w = true -> token_ok (mkTok (Lex.keywordType w) w) = true.
Proof.
  intros Hw. destruct (Lex.keywordType w) eqn:Hk; unfold token_ok, identifier; simpl tok_type; cbv iota;
    simpl tok_value; rewrite ?Hw, ?Hk; try done; unfold Lex.keywordType in Hk;
    repeat match type of Hk with context [if ?b then _ else _] => destruct b eqn:?Hb end; done.
Qed.
Lemma quoted_spec s :
  no_quote (Lex.quoted s).1 = true /\
  (all_chars is_ascii s = true -> all_chars is_ascii (Lex.quoted s).2 = true).
Proof.
  induction s as [|c s IH]; simpl; [done|]. destruct (is_char _ c) eqn:Hc.
  - split; [done|]. by intros [_ ?]%andb_true_iff.
  - destruct (Lex.quoted s) as [a b]; simpl in *. unfold no_quote. simpl. rewrite Hc. split; [by apply IH|].
    intros [_ ?]%andb_true_iff. by apply IH.
Qed.

Lemma step_ok c s :
  is_ascii c = true -> all_chars is_ascii s = true ->
  exists o r, Lex.step c s = Ret (o, r) /\ all_chars is_ascii r = true /\
    match o with Some t => token_ok t = true | None => True end.
Proof.
  intros Hc Hs. assert (Hcs : all_chars is_ascii (String c s) = true) by (simpl; by rewrite Hc).
  destruct (isdigit c) eqn:Hd.
  { destruct (span_spec _ _ (ctype_ascii isdigit) _ Hcs) as (a & b & Hab & Heq & Ha & _).
    exists (Some (mkTok TOKEN_NUMBER a)), b. rewrite (step_number c a b) by done. split_and!; [done| |].
    - rewrite Heq, all_chars_app in Hcs. by apply andb_true_iff in Hcs as [_ ?].
    - destruct a; [|done]. simpl in Hab. rewrite ctype_ascii, Hd in Hab by done. simpl in Hab.
      by destruct (Lex.span _ s). }
  destruct (isalpha c || is_char "_" c) eqn:Hw.
  { destruct (span_spec _ _ word_char_ascii _ Hcs) as (a & b & Hab & Heq & Ha & _).
    exists (Some (mkTok (Lex.keywordType a) a)), b. rewrite (step_word c a b) by done. split_and!; [done| |].
    - rewrite Heq, all_chars_app in Hcs. by apply andb_true_iff in Hcs as [_ ?].
    - apply keyword_ok. destruct a as [|c' a]; [exfalso|by injection Heq as <- _; simpl in *; rewrite Hw].
      simpl in Hab. rewrite word_char_ascii in Hab by done. unfold is_word, isalnum in Hab.
      destruct (isalpha c); simpl in *; [by destruct (Lex.span _ s)|].
      rewrite Hw, orb_true_r in Hab. by destruct (Lex.span _ s). }
  unfold Lex.step. rewrite !ctype_ascii by done. cbn [obind]. destruct (isspace c); [by eexists None, s|].
  destruct (Lex.symbol c) as [t|] eqn:Ht; [exists (Some t), s; by apply symbol_ok in Ht|].
  destruct (is_char "'" c).
  { destruct (quoted_spec s) as [Hq Hr]. destruct (Lex.quoted s) as [a b].
    exists (Some (mkTok TOKEN_STRING a)), b. split; [done|]. split; [by apply Hr|done]. }
  rewrite Hd, Hw. eexists (Some _), s. split; [done|]. by split.
Qed.

(** On ASCII text the lexer ends with the one end-of-input token, after tokens
    that are what their types say. *)
Lemma handleInput_ok s :
  all_chars is_ascii s = true ->
  exists ts, Lex.handleInput s = Ret (ts ++ [mkTok TOKEN_EOF EmptyString]) /\ Forall (fun t => token_ok t = true) ts.
Proof.
  intros Hs. remember (String.length s) as n eqn:Hn. revert s Hn Hs.
  induction n as [n IH] using lt_wf_ind. intros [|c s] -> Hs; [by exists []|]. simpl in Hs.
  apply andb_true_iff in Hs as [Hc Hs]. destruct (step_ok c s Hc Hs) as (o & r & Hst & Hr & Ho).
  pose proof (step_shorter _ _ _ Hst) as Hlen. simpl in Hlen.
  destruct (IH (String.length r) ltac:(simpl; lia) r eq_refl Hr) as (ts & Hts & Hok).
  exists (add_token o ts). rewrite handleInput_cons, Hst. simpl. rewrite Hts. simpl.
  destruct o as [t|]; [by split; [|constructor]|done].
Qed.
