(* ===== verification/ParserThms.v ===== *)
(** * Correctness of the parser

    A run of the parser on the tokens of a source is characterised by a
    reference grammar; on a token list that has an end-of-input token it
    always gives a statement or a parse error. *)
From stdpp Require Import base numbers list strings.
From Stdlib Require Import ZArith Lia.
From Stdlib Require Import Strings.Ascii.
From S2P Require Import Prelude Lexer Parser LexerThms.

(** ** The parser's primitives on a token list *)
Definition has_eof (ts : list Token) : Prop := exists t, t ∈ ts /\ tok_type t = TOKEN_EOF.
Definition is_parse_error (e : string) : Prop := exists m, e = "Parse error: " +:+ m.

(** A call is safe when it neither reads past the end-of-input token nor
    fails otherwise than by a parse error, and gives no token back. *)
Definition safe_at {A} (m : Parse.PM A) (ts : list Token) : Prop :=
  match m ts with
  | (Ret _, ts') => has_eof ts' /\ (length ts' <= length ts)%nat
  | (Throw e, _) => is_parse_error e
  | (Undef, _) => False
  end.
Definition safe {A} (m : Parse.PM A) : Prop := forall ts, has_eof ts -> safe_at m ts.

Lemma has_eof_nil : has_eof [] -> False.
Proof. by intros (t & ?%not_elem_of_nil & _). Qed.
Lemma has_eof_drop t ts : has_eof (t :: ts) -> tok_type t <> TOKEN_EOF -> has_eof ts.
Proof. intros (e & [->|He]%elem_of_cons & Ht) Hne; [done|by exists e]. Qed.

Lemma current_cons t ts : Parse.current (t :: ts) = (Ret t, t :: ts).
Proof. reflexivity. Qed.
Lemma check_cons k t ts : Parse.check k (t :: ts) = (Ret (bool_decide (tok_type t = k)), t :: ts).
Proof. reflexivity. Qed.
Lemma advance_cons t ts :
  Parse.advance (t :: ts) = (Ret t, if decide (tok_type t = TOKEN_EOF) then t :: ts else ts).
Proof. unfold Parse.advance, bind. simpl. by case_decide. Qed.
Lemma expect_cons k msg t ts :
  k <> TOKEN_EOF ->
  Parse.expect k msg (t :: ts) =
    if decide (tok_type t = k) then (Ret t, ts)
    else (Throw ("Parse error: " +:+ msg +:+ " (got '" +:+ tok_value t +:+ "')"), t :: ts).
Proof.
  intros Hk. unfold Parse.expect, bind at 1. rewrite check_cons.
  destruct (decide (tok_type t = k)) as [<-|]; [|by rewrite bool_decide_false by done].
  rewrite bool_decide_true, advance_cons by done. by rewrite decide_False by done.
Qed.
Lemma matches_cons k t ts :
  k <> TOKEN_EOF ->
  Parse.matches k (t :: ts) =
    if decide (tok_type t = k) then (Ret true, ts) else (Ret false, t :: ts).
Proof.
  intros Hk. unfold Parse.matches, bind at 1. rewrite check_cons.
  destruct (decide (tok_type t = k)) as [<-|]; [|by rewrite bool_decide_false by done].
  unfold bind. rewrite bool_decide_true, advance_cons by done. by rewrite decide_False by done.
Qed.

(** The calls that succeed, and how much they read. *)
Lemma expect_runs k msg ts t ts' :
  k <> TOKEN_EOF -> runs (Parse.expect k msg) ts t ts' <-> ts = t :: ts' /\ tok_type t = k.
Proof.
  intros Hk. unfold runs. split.
  - destruct ts as [|t0 ts]; [discriminate|]. rewrite expect_cons by done.
    case_decide; intros [= -> ->]. done.
  - intros [-> Ht]. rewrite expect_cons by done. by rewrite decide_True.
Qed.
Lemma check_runs k ts b ts' :
  runs (Parse.check k) ts b ts' <->
  exists t, head ts = Some t /\ b = bool_decide (tok_type t = k) /\ ts' = ts.
Proof.
  unfold runs. destruct ts as [|t ts]; [split; [discriminate|intros (? & [=] & _)]|].
  rewrite check_cons. split; [intros [= <- <-]; eauto|intros (? & [= ->] & -> & ->); done].
Qed.
Lemma matches_runs k ts b ts' :
  k <> TOKEN_EOF ->
  runs (Parse.matches k) ts b ts' <->
  exists t, head ts = Some t /\
    (b = true /\ tok_type t = k /\ ts = t :: ts' \/ b = false /\ tok_type t <> k /\ ts' = ts).
Proof.
  intros Hk. unfold runs. destruct ts as [|t ts]; [split; [discriminate|intros (? & [=] & _)]|].
  rewrite matches_cons by done. case_decide.
  - split; [intros [= <- <-]; exists t; auto|].
    intros (? & [= <-] & [(-> & _ & [= <-])|(_ & ? & _)]); done.
  - split; [intros [= <- <-]; exists t; auto|].
    intros (? & [= <-] & [(_ & ? & _)|(-> & _ & ->)]); done.
Qed.

(** ** The parser stays inside its tokens *)
Lemma safe_ret {A} (a : A) : safe (ret a).
Proof. intros ts Hts. unfold safe_at. simpl. auto. Qed.
Lemma safe_at_bind {A B} (m : Parse.PM A) (k : A -> Parse.PM B) ts :
  safe_at m ts ->
  (forall a ts', runs m ts a ts' -> has_eof ts' -> (length ts' <= length ts)%nat -> safe_at (k a) ts') ->
  safe_at (bind m k) ts.
Proof.
  unfold safe_at, runs, bind. intros Hm Hk. destruct (m ts) as [[a|e|] ts']; [|done..].
  destruct Hm as [He Hle]. specialize (Hk a ts' eq_refl He Hle).
  destruct (k a ts') as [[b|e|] ts2]; [|done..]. destruct Hk. split; [done|lia].
Qed.
Lemma safe_bind {A B} (m : Parse.PM A) (k : A -> Parse.PM B) :
  safe m -> (forall a, safe (k a)) -> safe (bind m k).
Proof. intros Hm Hk ts Hts. apply safe_at_bind; [by apply Hm|]. intros a ts' _ He _. by apply Hk. Qed.

Lemma safe_check k : safe (Parse.check k).
Proof. intros [|t ts] Hts; [by destruct (has_eof_nil Hts)|]. unfold safe_at. rewrite check_cons. auto. Qed.
Lemma safe_current : safe Parse.current.
Proof. intros [|t ts] Hts; [by destruct (has_eof_nil Hts)|]. unfold safe_at. rewrite current_cons. auto. Qed.
Lemma safe_advance : safe Parse.advance.
Proof.
  intros [|t ts] Hts; [by destruct (has_eof_nil Hts)|]. unfold safe_at. rewrite advance_cons.
  case_decide; [auto|]. split; [by apply has_eof_drop in Hts|simpl; lia].
Qed.
Lemma safe_parse_error {A} msg : safe (Parse.parse_error (A := A) msg).
Proof.
  intros [|t ts] Hts; [by destruct (has_eof_nil Hts)|].
  unfold safe_at, Parse.parse_error, bind. rewrite current_cons. by eexists.
Qed.
Lemma safe_if {A} (b : bool) (m1 m2 : Parse.PM A) : safe m1 -> safe m2 -> safe (if b then m1 else m2).
Proof. by destruct b. Qed.

Create HintDb parser discriminated.
#[export] Hint Resolve safe_ret safe_check safe_current safe_advance safe_parse_error : parser.
#[export] Hint Resolve safe_bind safe_if : parser.
#[export] Hint Extern 1 (forall _, safe _) => intros ? : parser.

(** Composition of safe calls. *)
Ltac solve_safe :=
  repeat first
    [ solve [eauto 2 with parser]
    | apply safe_bind; [|intros ?]
    | match goal with |- context [if ?b then _ else _] => is_var b; destruct b end ].

Lemma safe_expect k msg : safe (Parse.expect k msg).
Proof. unfold Parse.expect. solve_safe. Qed.
Lemma safe_matches k : safe (Parse.matches k).
Proof. unfold Parse.matches. solve_safe. Qed.
Lemma safe_at_value : safe Parse.at_value.
Proof. unfold Parse.at_value. solve_safe. Qed.
#[export] Hint Resolve safe_expect safe_matches safe_at_value : parser.
Lemma safe_more : safe Parse.more.
Proof. unfold Parse.more. solve_safe. Qed.
Lemma safe_skip_comma : safe Parse.skip_comma.
Proof. unfold Parse.skip_comma. solve_safe. Qed.
Lemma safe_column_type : safe Parse.column_type.
Proof. unfold Parse.column_type. solve_safe. Qed.
#[export] Hint Resolve safe_more safe_skip_comma safe_column_type : parser.
Lemma safe_parseWhere : safe Parse.parseWhere.
Proof. unfold Parse.parseWhere. solve_safe. Qed.
#[export] Hint Resolve safe_parseWhere : parser.
Lemma safe_optional_where : safe Parse.optional_where.
Proof. unfold Parse.optional_where. solve_safe. Qed.
#[export] Hint Resolve safe_optional_where : parser.

(** ** The loops end: each turn reads a token *)
Definition is_value (t : Token) : bool :=
  bool_decide (tok_type t = TOKEN_NUMBER) || bool_decide (tok_type t = TOKEN_STRING)
  || bool_decide (tok_type t = TOKEN_IDENTIFIER).
Lemma is_value_not_eof t : is_value t = true -> tok_type t <> TOKEN_EOF.
Proof. unfold is_value. intros Hv He. by rewrite He in Hv. Qed.

Lemma at_value_runs ts b ts' :
  runs Parse.at_value ts b ts' <-> exists t, head ts = Some t /\ b = is_value t /\ ts' = ts.
Proof.
  unfold runs. destruct ts as [|t ts]; [split; [discriminate|intros (? & [=] & _)]|].
  split; [intros [= <- <-]; eauto|intros (? & [= ->] & -> & ->); done].
Qed.
Lemma advance_runs t ts a ts' :
  tok_type t <> TOKEN_EOF -> runs Parse.advance (t :: ts) a ts' <-> a = t /\ ts' = ts.
Proof.
  intros Ht. unfold runs. rewrite advance_cons, decide_False by done.
  split; [by intros [= <- <-]|by intros [-> ->]].
Qed.

Section loops.
Local Abbreviation ends_loop loop :=
  (forall fuel ts, has_eof ts -> (length ts < fuel)%nat -> safe_at (loop fuel) ts).

Lemma safe_column_defs : ends_loop Parse.column_defs.
Proof.
  intros fuel. induction fuel as [|fuel IH]; intros ts He Hf; [lia|]. simpl.
  apply safe_at_bind; [by apply safe_more|]. intros [] ts1 _ He1 Hl1; [|by apply safe_ret].
  apply safe_at_bind; [by apply safe_expect|].
  intros name ts2 [-> _]%expect_runs He2 _; [|done]. simpl in Hl1.
  apply safe_at_bind; [by apply safe_column_type|]. intros ty ts3 _ He3 Hl3.
  apply safe_at_bind; [by apply safe_skip_comma|]. intros _ ts4 _ He4 Hl4.
  apply safe_at_bind; [apply IH; [done|lia]|]. intros rest ts5 _ He5 _. by apply safe_ret.
Qed.

Lemma safe_value_list : ends_loop Parse.value_list.
Proof.
  intros fuel. induction fuel as [|fuel IH]; intros ts He Hf; [lia|]. simpl.
  apply safe_at_bind; [by apply safe_more|]. intros [] ts1 _ He1 Hl1; [|by apply safe_ret].
  apply safe_at_bind; [by apply safe_at_value|].
  intros b ts2 (t & Ht & -> & ->)%at_value_runs He2 _. destruct (is_value t) eqn:Hv; [|by apply safe_parse_error].
  apply safe_at_bind; [by apply safe_advance|]. destruct ts1 as [|t1 ts1]; [done|]. injection Ht as ->.
  intros v ts2 [-> ->]%advance_runs He3 _; [|by apply is_value_not_eof]. simpl in Hl1.
  apply safe_at_bind; [by apply safe_skip_comma|]. intros _ ts4 _ He4 Hl4.
  apply safe_at_bind; [apply IH; [done|lia]|]. intros rest ts5 _ He5 _. by apply safe_ret.
Qed.

Lemma safe_column_names : ends_loop Parse.column_names.
Proof.
  intros fuel. induction fuel as [|fuel IH]; intros ts He Hf; [lia|]. simpl.
  apply safe_at_bind; [by apply safe_expect|].
  intros name ts2 [-> _]%expect_runs He2 _; [|done]. simpl in Hf.
  apply safe_at_bind; [by apply safe_matches|]. intros [] ts3 _ He3 Hl3; [|by apply safe_ret].
  apply safe_at_bind; [apply IH; [done|lia]|]. intros rest ts5 _ He5 _. by apply safe_ret.
Qed.

(** [S (length ts)] turns are enough. *)
Lemma safe_loop {A B} (loop : nat -> Parse.PM A) (k : A -> Parse.PM B) :
  ends_loop loop -> (forall a, safe (k a)) -> safe (ts <- get ;; a <- loop (S (length ts)) ;; k a).
Proof.
  intros Hl Hk ts He. apply safe_at_bind; [unfold safe_at; simpl; auto|]. intros ts0 ts1 [= <- <-] _ _.
  apply safe_at_bind; [apply Hl; [done|lia]|]. intros a ts2 _ He2 _. by apply Hk.
Qed.
End loops.

Lemma safe_parse_statement : safe Parse.parse_statement.
Proof.
  assert (safe Parse.parseCreateTable).
  { unfold Parse.parseCreateTable. do 4 (apply safe_bind; [solve_safe|intros ?]).
    apply safe_loop; [apply safe_column_defs|]. intros cols. solve_safe. }
  assert (safe Parse.parseInsert).
  { unfold Parse.parseInsert. do 5 (apply safe_bind; [solve_safe|intros ?]).
    apply safe_loop; [apply safe_value_list|]. intros vals. solve_safe. }
  assert (safe Parse.parseSelect).
  { unfold Parse.parseSelect. do 2 (apply safe_bind; [solve_safe|intros ?]). destruct a0.
    - apply (safe_loop (fun _ => ret [])); [intros ????; by apply safe_ret|]. intros cols. solve_safe.
    - apply safe_loop; [apply safe_column_names|]. intros cols. solve_safe. }
  assert (safe Parse.parseDelete) by (unfold Parse.parseDelete; solve_safe).
  unfold Parse.parse_statement. solve_safe.
Qed.

(** ** The reference grammar

    Commas between the items of a parenthesised list are optional, and one may
    follow the last; those of a column list are not. *)
Inductive comma : list Token -> Prop :=
  | comma_none : comma []
  | comma_one t : tok_type t = TOKEN_COMMA -> comma [t].

Definition type_word (t : Token) : option string :=
  match tok_type t with TOKEN_INT => Some "INT" | TOKEN_TEXT => Some "TEXT" | _ => None end.

Inductive columns : list Token -> list ColumnDef -> Prop :=
  | columns_nil : columns [] []
  | columns_cons name type ty sep u cols :
      tok_type name = TOKEN_IDENTIFIER -> type_word type = Some ty -> comma sep -> columns u cols ->
      columns (name :: type :: sep ++ u) (mkColDef (tok_value name) ty :: cols).

Inductive values : list Token -> list string -> Prop :=
  | values_nil : values [] []
  | values_cons v sep u vals :
      is_value v = true -> comma sep -> values u vals ->
      values (v :: sep ++ u) (tok_value v :: vals).

Inductive names : list Token -> list string -> Prop :=
  | names_one t : tok_type t = TOKEN_IDENTIFIER -> names [t] [tok_value t]
  | names_cons t c u l :
      tok_type t = TOKEN_IDENTIFIER -> tok_type c = TOKEN_COMMA -> names u l ->
      names (t :: c :: u) (tok_value t :: l).

Inductive selection : list Token -> bool -> list string -> Prop :=
  | selection_all t : tok_type t = TOKEN_STAR -> selection [t] true []
  | selection_names u l : names u l -> selection u false l.

Inductive condition : list Token -> bool * WhereClause -> Prop :=
  | condition_none : condition [] Parse.no_where
  | condition_eq kw col eq v :
      tok_type kw = TOKEN_WHERE -> tok_type col = TOKEN_IDENTIFIER -> tok_type eq = TOKEN_EQUALS ->
      is_value v = true ->
      condition [kw; col; eq; v] (true, mkWhere (tok_value col) (tok_value v)).

Inductive sentence : list Token -> Statement -> Prop :=
  | create_sentence ks name lp u cols rp :
      tok_type <$> ks = [TOKEN_CREATE; TOKEN_TABLE] -> tok_type name = TOKEN_IDENTIFIER ->
      tok_type lp = TOKEN_LPAREN -> columns u cols -> tok_type rp = TOKEN_RPAREN ->
      sentence (ks ++ name :: lp :: u ++ [rp])
        (mkStmt CREATE_TABLE (tok_value name) cols [] [] false false (mkWhere EmptyString EmptyString))
  | insert_sentence ks name kv lp u vals rp :
      tok_type <$> ks = [TOKEN_INSERT; TOKEN_INTO] -> tok_type name = TOKEN_IDENTIFIER ->
      tok_type kv = TOKEN_VALUES -> tok_type lp = TOKEN_LPAREN -> values u vals ->
      tok_type rp = TOKEN_RPAREN ->
      sentence (ks ++ name :: kv :: lp :: u ++ [rp])
        (mkStmt INSERT (tok_value name) [] vals [] false false (mkWhere EmptyString EmptyString))
  | select_sentence ks u star cols from name w cond :
      tok_type <$> ks = [TOKEN_SELECT] -> selection u star cols -> tok_type from = TOKEN_FROM ->
      tok_type name = TOKEN_IDENTIFIER -> condition w cond ->
      sentence (ks ++ u ++ from :: name :: w)
        (mkStmt SELECT (tok_value name) [] [] cols star cond.1 cond.2)
  | delete_sentence ks name w cond :
      tok_type <$> ks = [TOKEN_DELETE; TOKEN_FROM] -> tok_type name = TOKEN_IDENTIFIER -> condition w cond ->
      sentence (ks ++ name :: w)
        (mkStmt DELETE_STMT (tok_value name) [] [] [] false cond.1 cond.2).

(** The token after the sentence: there is one, and it does not begin the
    condition that a query without one could still have. *)
Definition takes_condition (s : Statement) : bool :=
  negb (hasWhere s) && (bool_decide (st_type s = SELECT) || bool_decide (st_type s = DELETE_STMT)).
Definition follows (s : Statement) (rest : list Token) : Prop :=
  exists t, head rest = Some t /\ (takes_condition s = true -> tok_type t <> TOKEN_WHERE).

(** ** The loops against the grammar *)
Definition closes (t : Token) : bool :=
  bool_decide (tok_type t = TOKEN_RPAREN) || bool_decide (tok_type t = TOKEN_EOF).
Definition closing (ts : list Token) : Prop := exists t, head ts = Some t /\ closes t = true.
Definition no_comma (ts : list Token) : Prop := exists t, head ts = Some t /\ tok_type t <> TOKEN_COMMA.

Lemma more_runs ts b ts' :
  runs Parse.more ts b ts' <-> exists t, head ts = Some t /\ b = negb (closes t) /\ ts' = ts.
Proof.
  unfold runs, Parse.more, bind, closes. destruct ts as [|t ts]; [split; [discriminate|intros (? & [=] & _)]|].
  rewrite !check_cons. destruct (bool_decide (tok_type t = TOKEN_RPAREN)) eqn:Hb; simpl; rewrite ?check_cons.
  all: split; [intros [= <- <-]; exists t; by rewrite Hb|by intros (? & [= <-] & -> & ->); rewrite Hb].
Qed.
Lemma skip_comma_runs ts ts' :
  runs Parse.skip_comma ts tt ts' <->
  (exists t, ts = t :: ts' /\ tok_type t = TOKEN_COMMA) \/ (ts' = ts /\ no_comma ts).
Proof.
  unfold runs, Parse.skip_comma, bind, no_comma.
  destruct ts as [|t ts]; [split; [discriminate|intros [(? & [=] & _)|(_ & ? & [=] & _)]]|].
  rewrite check_cons. case_bool_decide as Ht.
  - rewrite advance_cons, decide_False by congruence.
    split; [intros [= <-]; eauto|]. by intros [(? & [= _ ->] & _)|(_ & ? & [= <-] & ?)].
  - split; [intros [= <-]; eauto 6|]. by intros [(? & [= <- _] & ?)|(-> & _)].
Qed.
Lemma column_type_runs ts ty ts' :
  runs Parse.column_type ts ty ts' <-> exists t, ts = t :: ts' /\ type_word t = Some ty.
Proof.
  unfold runs, Parse.column_type, bind, type_word.
  destruct ts as [|t ts]; [split; [discriminate|intros (? & [=] & _)]|].
  rewrite !check_cons. split.
  - case_bool_decide as H1; [rewrite advance_cons, decide_False by congruence|].
    2: rewrite check_cons; case_bool_decide as H2; [rewrite advance_cons, decide_False by congruence|discriminate].
    all: intros [= <- <-]; exists t; split; [done|]; first [by rewrite H1|by rewrite H2].
  - intros (t' & [= <- <-] & Hty). destruct (tok_type t) eqn:Ht; try done; injection Hty as <-.
    all: simpl; rewrite ?check_cons, ?Ht; simpl; by rewrite advance_cons, decide_False by congruence.
Qed.

Lemma runs_get (ts : list Token) a ts' : runs get ts a ts' <-> a = ts /\ ts' = ts.
Proof. unfold runs, get. split; [by intros [= <- <-]|by intros [-> ->]]. Qed.
Lemma runs_ret_iff {A} (a b : A) (ts ts' : list Token) : runs (ret a) ts b ts' <-> b = a /\ ts' = ts.
Proof. unfold runs, ret. split; [by intros [= <- <-]|by intros [-> ->]]. Qed.

Lemma columns_no_comma u l rest : columns u l -> closing rest -> no_comma (u ++ rest).
Proof.
  intros [|name type ty sep u' cols Hn _ _ _] (t & Ht & Hc).
  - exists t. split; [done|]. intros He. unfold closes in Hc. by rewrite He in Hc.
  - exists name. split; [done|]. congruence.
Qed.
Lemma values_no_comma u l rest : values u l -> closing rest -> no_comma (u ++ rest).
Proof.
  intros [|v sep u' vals Hv _ _] (t & Ht & Hc).
  - exists t. split; [done|]. intros He. unfold closes in Hc. by rewrite He in Hc.
  - exists v. split; [done|]. intros He. unfold is_value in Hv. by rewrite He in Hv.
Qed.

(** What [skip_comma] reads before the next item. *)
Lemma skip_comma_sound ts ts' :
  runs Parse.skip_comma ts tt ts' -> exists sep, comma sep /\ ts = sep ++ ts'.
Proof.
  intros [(t & -> & Ht)|[-> _]]%skip_comma_runs; [exists [t]|exists []]; split; by try constructor.
Qed.
Lemma skip_comma_complete sep ts :
  comma sep -> no_comma ts -> runs Parse.skip_comma (sep ++ ts) tt ts.
Proof. intros [|t Ht] Hn; apply skip_comma_runs; [by right|left; by exists t]. Qed.

Lemma column_defs_sound fuel ts l ts' :
  runs (Parse.column_defs fuel) ts l ts' -> exists u, ts = u ++ ts' /\ columns u l /\ closing ts'.
Proof.
  revert ts l ts'. induction fuel as [|fuel IH]; intros ts l ts' H; [discriminate|]. simpl in H.
  apply runs_bind_inv in H as (b & ts1 & (t & Ht & -> & ->)%more_runs & H).
  destruct (closes t) eqn:Hc; simpl in H.
  { apply runs_ret_iff in H as [-> ->]. exists []. split_and!; [done|constructor|by exists t]. }
  apply runs_bind_inv in H as (name & ts2 & [-> Hn]%expect_runs & H); [|done].
  apply runs_bind_inv in H as (ty & ts3 & (tt1 & -> & Hty)%column_type_runs & H).
  apply runs_bind_inv in H as ([] & ts4 & (sep & Hsep & ->)%skip_comma_sound & H).
  apply runs_bind_inv in H as (rest & ts5 & (u & -> & Hu & Hcl)%IH & [-> ->]%runs_ret_iff).
  exists (name :: tt1 :: sep ++ u). split_and!; [by simpl; rewrite <- app_assoc|by constructor|done].
Qed.

Lemma column_defs_complete u l fuel rest :
  columns u l -> closing rest -> (length u < fuel)%nat -> runs (Parse.column_defs fuel) (u ++ rest) l rest.
Proof.
  intros Hu Hc. revert fuel. induction Hu as [|name type ty sep u cols Hn Hty Hsep Hu IH]; intros [|fuel] Hf;
    try lia; simpl.
  - destruct Hc as (t & Ht & Hc). eapply runs_bind; [apply more_runs; eauto|]. rewrite Hc. done.
  - simpl in Hf. rewrite length_app in Hf.
    eapply runs_bind; [apply more_runs; exists name; split_and!; [done..|]; done|].
    assert (closes name = false) as -> by (unfold closes; by rewrite Hn). simpl.
    eapply runs_bind; [by apply expect_runs|]. eapply runs_bind; [apply column_type_runs; eauto|].
    rewrite <- app_assoc.
    eapply runs_bind; [apply skip_comma_complete; [done|by eapply columns_no_comma]|].
    eapply runs_bind; [apply IH; lia|]. done.
Qed.

Lemma value_list_sound fuel ts l ts' :
  runs (Parse.value_list fuel) ts l ts' -> exists u, ts = u ++ ts' /\ values u l /\ closing ts'.
Proof.
  revert ts l ts'. induction fuel as [|fuel IH]; intros ts l ts' H; [discriminate|]. simpl in H.
  apply runs_bind_inv in H as (b & ts1 & (t & Ht & -> & ->)%more_runs & H).
  destruct (closes t) eqn:Hc; simpl in H.
  { apply runs_ret_iff in H as [-> ->]. exists []. split_and!; [done|constructor|by exists t]. }
  destruct ts as [|t0 ts]; [done|]. injection Ht as ->.
  apply runs_bind_inv in H as (b & ts2 & (t' & [= <-] & -> & ->)%at_value_runs & H).
  destruct (is_value t) eqn:Hv; [|by apply runs_bind_inv in H as (? & ? & _ & ?)].
  apply runs_bind_inv in H as (v & ts3 & [-> ->]%advance_runs & H); [|by apply is_value_not_eof].
  apply runs_bind_inv in H as ([] & ts4 & (sep & Hsep & ->)%skip_comma_sound & H).
  apply runs_bind_inv in H as (rest & ts5 & (u & -> & Hu & Hcl)%IH & [-> ->]%runs_ret_iff).
  exists (t :: sep ++ u). split_and!; [by simpl; rewrite <- app_assoc|by constructor|done].
Qed.

Lemma is_value_closes t : is_value t = true -> closes t = false.
Proof. unfold is_value, closes. by destruct (tok_type t). Qed.

Lemma value_list_complete u l fuel rest :
  values u l -> closing rest -> (length u < fuel)%nat -> runs (Parse.value_list fuel) (u ++ rest) l rest.
Proof.
  intros Hu Hc. revert fuel. induction Hu as [|v sep u vals Hv Hsep Hu IH]; intros [|fuel] Hf; try lia; simpl.
  - destruct Hc as (t & Ht & Hc). eapply runs_bind; [apply more_runs; eauto|]. rewrite Hc. done.
  - simpl in Hf. rewrite length_app in Hf.
    eapply runs_bind; [apply more_runs; exists v; split_and!; [done..|]; done|].
    rewrite is_value_closes by done. simpl.
    eapply (runs_bind _ _ _ true); [by apply at_value_runs; exists v|].
    eapply runs_bind; [apply advance_runs; [by apply is_value_not_eof|done]|]. rewrite <- app_assoc.
    eapply runs_bind; [apply skip_comma_complete; [done|by eapply values_no_comma]|].
    eapply runs_bind; [apply IH; lia|]. done.
Qed.

Lemma column_names_sound fuel ts l ts' :
  runs (Parse.column_names fuel) ts l ts' -> exists u, ts = u ++ ts' /\ names u l /\ no_comma ts'.
Proof.
  revert ts l ts'. induction fuel as [|fuel IH]; intros ts l ts' H; [discriminate|]. simpl in H.
  apply runs_bind_inv in H as (name & ts2 & [-> Hn]%expect_runs & H); [|done].
  apply runs_bind_inv in H as (b & ts3 & (c & Hhd & [(-> & Hc & ->)|(-> & Hc & ->)])%matches_runs & H); [| |done].
  - apply runs_bind_inv in H as (rest & ts5 & (u & -> & Hu & Hcl)%IH & [-> ->]%runs_ret_iff).
    exists (name :: c :: u). split_and!; [done|by constructor|done].
  - apply runs_ret_iff in H as [-> ->]. exists [name]. split_and!; [done|by constructor|by exists c].
Qed.

Lemma column_names_complete u l fuel rest :
  names u l -> no_comma rest -> (length u < fuel)%nat -> runs (Parse.column_names fuel) (u ++ rest) l rest.
Proof.
  intros Hu Hc. revert fuel. induction Hu as [t Ht|t c u l Ht Hcm Hu IH]; intros [|fuel] Hf; simpl in Hf; try lia; simpl.
  - destruct Hc as (t' & Hhd & Hc). eapply runs_bind; [by apply expect_runs|].
    eapply runs_bind; [apply matches_runs; [done|]; exists t'; split; [done|right]; done|]. done.
  - eapply runs_bind; [by apply expect_runs|].
    eapply runs_bind; [apply matches_runs; [done|]; exists c; split; [done|left]; done|].
    eapply runs_bind; [apply IH; lia|]. done.
Qed.

(** ** Statements *)
Lemma optional_where_sound ts w ts' :
  runs Parse.optional_where ts w ts' ->
  exists u, ts = u ++ ts' /\ condition u w /\
    (w.1 = false -> exists t, head ts' = Some t /\ tok_type t <> TOKEN_WHERE).
Proof.
  unfold Parse.optional_where. intros H.
  apply runs_bind_inv in H as (b & ts1 & (t & Ht & -> & ->)%check_runs & H).
  case_bool_decide as Hw.
  - apply runs_bind_inv in H as (wc & ts1 & H & [-> ->]%runs_ret_iff). unfold Parse.parseWhere in H.
    apply runs_bind_inv in H as (kw & ts2 & [-> H1]%expect_runs & H); [|done].
    apply runs_bind_inv in H as (col & ts3 & [-> H2]%expect_runs & H); [|done].
    apply runs_bind_inv in H as (eq & ts4 & [-> H3]%expect_runs & H); [|done].
    apply runs_bind_inv in H as (b & ts5 & (v & Hv & -> & ->)%at_value_runs & H).
    destruct ts4 as [|v' ts4]; [done|]. injection Hv as ->.
    destruct (is_value v) eqn:H4; [|by apply runs_bind_inv in H as (? & ? & _ & ?)].
    apply runs_bind_inv in H as (? & ? & [-> ->]%advance_runs & [-> ->]%runs_ret_iff); [|by apply is_value_not_eof].
    exists [kw; col; eq; v]. split_and!; [done|by constructor|done].
  - apply runs_ret_iff in H as [-> ->]. exists []. split_and!; [done|constructor|by exists t].
Qed.

Lemma optional_where_complete u w rest :
  condition u w -> (exists t, head rest = Some t /\ (w.1 = false -> tok_type t <> TOKEN_WHERE)) ->
  runs Parse.optional_where (u ++ rest) w rest.
Proof.
  intros [|kw col eq v H1 H2 H3 H4] (t & Ht & Hw); unfold Parse.optional_where.
  - eapply (runs_bind _ _ _ false); [|done]. apply check_runs. exists t. split; [done|].
    by rewrite bool_decide_false by auto.
  - eapply (runs_bind _ _ _ true).
    { apply check_runs. exists kw. split; [done|]. by rewrite bool_decide_true by auto. }
    eapply runs_bind; [|done]. simpl. unfold Parse.parseWhere.
    eapply runs_bind; [by apply expect_runs|]. eapply runs_bind; [by apply expect_runs|].
    eapply runs_bind; [by apply expect_runs|]. eapply (runs_bind _ _ _ true); [by apply at_value_runs; exists v|].
    eapply runs_bind; [by apply advance_runs; [by apply is_value_not_eof|]|]. done.
Qed.

(** [match(SEMICOLON); return stmt;] *)
Lemma semicolon_runs (s s' : Statement) ts ts' :
  runs (Parse.matches TOKEN_SEMICOLON ;; ret s) ts s' ts' -> s' = s /\ exists t, head ts = Some t.
Proof.
  intros (b & ts1 & (t & Ht & _)%matches_runs & [-> ->]%runs_ret_iff)%runs_bind_inv; [|done]. eauto.
Qed.
Lemma semicolon_complete (s : Statement) ts t :
  head ts = Some t -> exists ts', runs (Parse.matches TOKEN_SEMICOLON ;; ret s) ts s ts'.
Proof.
  intros Ht. destruct ts as [|t' ts]; [done|]. injection Ht as ->. unfold runs, bind.
  rewrite matches_cons by done. case_decide; by eexists.
Qed.

Ltac next_expect H x Hx := apply runs_bind_inv in H as (x & ? & [-> Hx]%expect_runs & H); [|done].

Lemma parseCreateTable_sound ts s ts' :
  runs Parse.parseCreateTable ts s ts' ->
  exists u rest, ts = u ++ rest /\ sentence u s /\ follows s rest.
Proof.
  unfold Parse.parseCreateTable. intros H. next_expect H k1 H1. next_expect H k2 H2.
  next_expect H name H3. next_expect H lp H4. apply runs_bind_inv in H as (? & ? & [-> ->]%runs_get & H).
  apply runs_bind_inv in H as (cols & ts1 & (u & -> & Hu & _)%column_defs_sound & H).
  next_expect H rp H5. apply semicolon_runs in H as [-> (t & Ht)].
  eexists ([k1; k2] ++ name :: lp :: u ++ [rp]), _. split; [simpl; rewrite <- app_assoc; done|].
  split; [constructor; try done; simpl; by rewrite H1, H2|by exists t].
Qed.
Lemma parseInsert_sound ts s ts' :
  runs Parse.parseInsert ts s ts' ->
  exists u rest, ts = u ++ rest /\ sentence u s /\ follows s rest.
Proof.
  unfold Parse.parseInsert. intros H. next_expect H k1 H1. next_expect H k2 H2.
  next_expect H name H3. next_expect H kv H4. next_expect H lp H5.
  apply runs_bind_inv in H as (? & ? & [-> ->]%runs_get & H).
  apply runs_bind_inv in H as (vals & ts1 & (u & -> & Hu & _)%value_list_sound & H).
  next_expect H rp H6. apply semicolon_runs in H as [-> (t & Ht)].
  eexists ([k1; k2] ++ name :: kv :: lp :: u ++ [rp]), _. split; [simpl; rewrite <- app_assoc; done|].
  split; [constructor; try done; simpl; by rewrite H1, H2|by exists t].
Qed.
Lemma follows_query type name cols star w rest :
  (exists t, head rest = Some t) ->
  (w.1 = false -> exists t, head rest = Some t /\ tok_type t <> TOKEN_WHERE) ->
  follows (mkStmt type name [] [] cols star w.1 w.2) rest.
Proof.
  intros (t & Ht) Hw. exists t. split; [done|]. unfold takes_condition. simpl.
  destruct w as [[] wc]; [done|]. intros _. destruct (Hw eq_refl) as (t' & Ht' & Hn). congruence.
Qed.
Lemma parseSelect_sound ts s ts' :
  runs Parse.parseSelect ts s ts' ->
  exists u rest, ts = u ++ rest /\ sentence u s /\ follows s rest.
Proof.
  unfold Parse.parseSelect. intros H. next_expect H k1 H1.
  apply runs_bind_inv in H as (star & ts1 & (t1 & Hhd & Hs)%matches_runs & H); [|done].
  apply runs_bind_inv in H as (? & ? & [-> ->]%runs_get & H).
  apply runs_bind_inv in H as (cols & ts2 & Hc & H).
  next_expect H from H2. next_expect H name H3.
  apply runs_bind_inv in H as (w & ts4 & (cond & -> & Hw & Hn)%optional_where_sound & H).
  apply semicolon_runs in H as [-> Ht].
  assert (exists u, x = u ++ from :: name :: cond ++ ts4 /\ selection u star cols) as (u & -> & Hu).
  { destruct Hs as [(-> & Hty & ->)|(-> & _ & ->)]; cbv iota in Hc.
    - apply runs_ret_iff in Hc as [-> <-]. exists [t1]. split; [done|by constructor].
    - apply column_names_sound in Hc as (u & -> & Hu & _). exists u. split; [done|by constructor]. }
  eexists ([k1] ++ u ++ from :: name :: cond), _. split; [simpl; by rewrite <- app_assoc|].
  split; [constructor; try done; simpl; by rewrite H1|by apply follows_query].
Qed.
Lemma parseDelete_sound ts s ts' :
  runs Parse.parseDelete ts s ts' ->
  exists u rest, ts = u ++ rest /\ sentence u s /\ follows s rest.
Proof.
  unfold Parse.parseDelete. intros H. next_expect H k1 H1. next_expect H k2 H2. next_expect H name H3.
  apply runs_bind_inv in H as (w & ts4 & (cond & -> & Hw & Hn)%optional_where_sound & H).
  apply semicolon_runs in H as [-> Ht].
  eexists ([k1; k2] ++ name :: cond), _. split; [done|].
  split; [constructor; try done; simpl; by rewrite H1, H2|by apply follows_query].
Qed.

(** A query's statement fixes what its calls read next. *)
Lemma follows_condition type name cols star w rest :
  type = SELECT \/ type = DELETE_STMT ->
  follows (mkStmt type name [] [] cols star w.1 w.2) rest ->
  exists t, head rest = Some t /\ (w.1 = false -> tok_type t <> TOKEN_WHERE).
Proof.
  intros Hty (t & Ht & Hw). exists t. split; [done|]. intros H. apply Hw. unfold takes_condition. simpl.
  rewrite H. by destruct Hty as [-> | ->].
Qed.

(** The first token chooses the statement. *)
Lemma parse_statement_cons t ts :
  Parse.parse_statement (t :: ts) =
    match tok_type t with
    | TOKEN_CREATE => Parse.parseCreateTable (t :: ts)
    | TOKEN_INSERT => Parse.parseInsert (t :: ts)
    | TOKEN_SELECT => Parse.parseSelect (t :: ts)
    | TOKEN_DELETE => Parse.parseDelete (t :: ts)
    | _ => Parse.parse_error "expected CREATE, INSERT, SELECT, or DELETE" (t :: ts)
    end.
Proof.
  unfold Parse.parse_statement. unfold bind at 1. rewrite check_cons.
  destruct (tok_type t) eqn:Ht; try reflexivity; simpl; unfold bind at 1; rewrite check_cons, Ht;
    try reflexivity; simpl; unfold bind at 1; rewrite check_cons, Ht; try reflexivity; simpl;
    unfold bind at 1; rewrite check_cons, Ht; reflexivity.
Qed.

Lemma closing_paren rp rest : tok_type rp = TOKEN_RPAREN -> closing (rp :: rest).
Proof. intros Ht. exists rp. split; [done|]. unfold closes. by rewrite Ht. Qed.

Lemma selection_complete u star cols rest :
  selection u star cols -> no_comma rest ->
  exists ts1, runs (Parse.matches TOKEN_STAR) (u ++ rest) star ts1 /\
    runs (if star then ret [] else Parse.column_names (S (length ts1))) ts1 cols rest.
Proof.
  intros [t Ht|v l Hu] Hr.
  - exists rest. split; [|done]. apply matches_runs; [done|]. exists t. split; [done|by left].
  - exists (v ++ rest). split; [|apply column_names_complete; [done..|rewrite length_app; lia]].
    apply matches_runs; [done|].
    destruct Hu as [t Ht|t c u' l' Ht _ _]; exists t; (split; [done|right; split_and!; [done|congruence|done]]).
Qed.

Lemma parse_complete u s rest :
  sentence u s -> follows s rest -> exists ts', runs Parse.parse_statement (u ++ rest) s ts'.
Proof.
  intros Hs Hf. destruct Hf as (t & Ht & Hwh) eqn:HF. destruct (semicolon_complete s rest t Ht) as (ts' & Hend).
  exists ts'. clear HF t Ht Hwh.
  destruct Hs as [ks name lp u cols rp Hks Hname Hlp Hu Hrp|ks name kv lp u vals rp Hks Hname Hkv Hlp Hu Hrp
                 |ks u star cols from name w cond Hks Hu Hfrom Hname Hw|ks name w cond Hks Hname Hw].
  - destruct ks as [|k1 [|k2 [|]]]; try done. injection Hks as H1 H2. simpl. rewrite <- app_assoc.
    unfold runs. rewrite parse_statement_cons, H1. fold (runs Parse.parseCreateTable). unfold Parse.parseCreateTable.
    do 4 (eapply runs_bind; [by apply expect_runs|]). eapply runs_bind; [by apply runs_get|].
    eapply runs_bind; [apply column_defs_complete; [done|by apply closing_paren|rewrite length_app; lia]|].
    eapply runs_bind; [by apply expect_runs|]. exact Hend.
  - destruct ks as [|k1 [|k2 [|]]]; try done. injection Hks as H1 H2. simpl. rewrite <- app_assoc.
    unfold runs. rewrite parse_statement_cons, H1. fold (runs Parse.parseInsert). unfold Parse.parseInsert.
    do 5 (eapply runs_bind; [by apply expect_runs|]). eapply runs_bind; [by apply runs_get|].
    eapply runs_bind; [apply value_list_complete; [done|by apply closing_paren|rewrite length_app; lia]|].
    eapply runs_bind; [by apply expect_runs|]. exact Hend.
  - destruct ks as [|k1 [|]]; try done. injection Hks as H1. simpl. rewrite <- app_assoc. simpl.
    unfold runs. rewrite parse_statement_cons, H1. fold (runs Parse.parseSelect). unfold Parse.parseSelect.
    destruct (selection_complete u star cols (from :: name :: w ++ rest)) as (ts1 & Hm & Hc);
      [done|exists from; split; [done|congruence]|].
    eapply runs_bind; [by apply expect_runs|]. eapply runs_bind; [exact Hm|].
    eapply runs_bind; [by apply runs_get|]. eapply runs_bind; [exact Hc|].
    do 2 (eapply runs_bind; [by apply expect_runs|]).
    eapply runs_bind; [|exact Hend]. apply optional_where_complete; [done|].
    eapply follows_condition; [|exact Hf]. by left.
  - destruct ks as [|k1 [|k2 [|]]]; try done. injection Hks as H1 H2. simpl.
    unfold runs. rewrite parse_statement_cons, H1. fold (runs Parse.parseDelete). unfold Parse.parseDelete.
    do 3 (eapply runs_bind; [by apply expect_runs|]).
    eapply runs_bind; [|exact Hend]. apply optional_where_complete; [done|].
    eapply follows_condition; [|exact Hf]. by right.
Qed.

Lemma parse_sound ts s :
  Parse.parse ts = Ret s -> exists u rest, ts = u ++ rest /\ sentence u s /\ follows s rest.
Proof.
  unfold Parse.parse. destruct ts as [|t ts]; [discriminate|]. rewrite parse_statement_cons. intros H.
  destruct (tok_type t); try discriminate H.
  - destruct (Parse.parseSelect _) as [o ts'] eqn:Hp. simpl in H. subst o. by eapply parseSelect_sound.
  - destruct (Parse.parseInsert _) as [o ts'] eqn:Hp. simpl in H. subst o. by eapply parseInsert_sound.
  - destruct (Parse.parseCreateTable _) as [o ts'] eqn:Hp. simpl in H. subst o. by eapply parseCreateTable_sound.
  - destruct (Parse.parseDelete _) as [o ts'] eqn:Hp. simpl in H. subst o. by eapply parseDelete_sound.
Qed.

(** C24: the recursive-descent parser returns a statement exactly when the tokens
    start with a sentence of the reference grammar for it: nothing the grammar
    lacks is accepted, nothing it has is refused, and the tokens after the
    sentence are not looked at, but for one that would begin a condition. *)
Theorem parse_grammar ts s :
  Parse.parse ts = Ret s <-> exists u rest, ts = u ++ rest /\ sentence u s /\ follows s rest.
Proof.
  split; [apply parse_sound|]. intros (u & rest & -> & Hs & Hf).
  destruct (parse_complete u s rest Hs Hf) as (ts' & H). unfold Parse.parse. by rewrite H.
Qed.

(** ** From text to statement *)
Lemma parse_sql_lexed input s :
  all_chars is_ascii input = true -> parse_sql input = Ret s ->
  exists ts u rest, Lex.handleInput input = Ret (ts ++ [mkTok TOKEN_EOF EmptyString]) /\
    Forall (fun t => token_ok t = true) ts /\
    ts ++ [mkTok TOKEN_EOF EmptyString] = u ++ rest /\ sentence u s /\ follows s rest.
Proof.
  intros Ha Hs. destruct (handleInput_ok input Ha) as (ts & Hts & Hok). unfold parse_sql in Hs.
  rewrite Hts in Hs. simpl in Hs. apply parse_sound in Hs as (u & rest & Heq & Hu & Hf). by exists ts, u, rest.
Qed.

Lemma parse_sql_answers input :
  all_chars is_ascii input = true ->
  (exists s, parse_sql input = Ret s) \/ (exists m, parse_sql input = Throw ("Parse error: " +:+ m)).
Proof.
  intros Ha. destruct (handleInput_ok input Ha) as (ts & Hts & _). unfold parse_sql, Parse.parse.
  rewrite Hts. simpl. set (l := ts ++ [mkTok TOKEN_EOF EmptyString]).
  assert (He : has_eof l).
  { exists (mkTok TOKEN_EOF EmptyString). split; [|done]. apply elem_of_app. right. by apply list_elem_of_singleton. }
  pose proof (safe_parse_statement l He) as Hsafe. unfold safe_at in Hsafe.
  destruct (Parse.parse_statement l) as [[s|e|] ts']; [by left; eexists|right|done].
  destruct Hsafe as (m & ->). by exists m.
Qed.

(** C25: any line of ASCII text is answered: lexing and parsing end, never read
    outside their input, and give a statement or throw a parse error. *)
Theorem parse_sql_total input :
  all_chars is_ascii input = true ->
  (exists s, parse_sql input = Ret s) \/ (exists m, parse_sql input = Throw ("Parse error: " +:+ m)).
Proof. apply parse_sql_answers. Qed.

(** What every parsed statement is like, the values by [V]: the fields of the
    other kinds of statement are as a new [Statement] has them. *)
Definition column_ok (c : ColumnDef) : bool :=
  identifier (cd_name c) && (String.eqb (cd_type c) "INT" || String.eqb (cd_type c) "TEXT").
Definition where_ok (V : string -> bool) (s : Statement) : bool :=
  if hasWhere s then identifier (wh_column (st_where s)) && V (wh_value (st_where s))
  else String.eqb (wh_column (st_where s)) EmptyString && String.eqb (wh_value (st_where s)) EmptyString.
Definition is_nil {A} (l : list A) : bool := match l with [] => true | _ => false end.
Definition statement_ok (V : string -> bool) (s : Statement) : bool :=
  identifier (st_tableName s) && where_ok V s &&
  match st_type s with
  | CREATE_TABLE =>
      forallb column_ok (st_columns s) && is_nil (st_values s) && is_nil (selectColumns s)
      && negb (selectAll s) && negb (hasWhere s)
  | INSERT =>
      is_nil (st_columns s) && forallb V (st_values s) && is_nil (selectColumns s)
      && negb (selectAll s) && negb (hasWhere s)
  | SELECT =>
      is_nil (st_columns s) && is_nil (st_values s)
      && (if selectAll s then is_nil (selectColumns s)
          else negb (is_nil (selectColumns s)) && forallb identifier (selectColumns s))
  | DELETE_STMT =>
      is_nil (st_columns s) && is_nil (st_values s) && is_nil (selectColumns s) && negb (selectAll s)
  end.

Lemma identifier_ok t : token_ok t = true -> tok_type t = TOKEN_IDENTIFIER -> identifier (tok_value t) = true.
Proof. unfold token_ok. intros H Ht. by rewrite Ht in H. Qed.
Lemma all_chars_impl (p q : ascii -> bool) s :
  (forall c, p c = true -> q c = true) -> all_chars p s = true -> all_chars q s = true.
Proof.
  intros Hpq. induction s as [|c s IH]; simpl; [done|]. intros [Hc Hs]%andb_true_iff.
  by rewrite Hpq, IH.
Qed.
Lemma is_word_no_quote c : is_word c = true -> negb (is_char "'" c) = true.
Proof. intros Hc. destruct (is_char "'" c) eqn:Hq; [|done]. apply String.eqb_eq in Hq. by injection Hq as ->. Qed.
Lemma isdigit_is_word c : isdigit c = true -> is_word c = true.
Proof. unfold is_word, isalnum. intros ->. by rewrite orb_true_r. Qed.
Lemma number_word v : number_text v = true -> all_chars is_word v = true.
Proof. destruct v; [done|]. intros Hv. by eapply all_chars_impl; [apply isdigit_is_word|]. Qed.
Lemma value_no_quote t : token_ok t = true -> is_value t = true -> no_quote (tok_value t) = true.
Proof.
  unfold token_ok, is_value, no_quote. intros H Hv. destruct (tok_type t) eqn:Ht; try done.
  - by eapply all_chars_impl; [apply is_word_no_quote|apply number_word].
  - unfold identifier, word_text in H. destruct (tok_value t); [done|].
    apply andb_true_iff in H as [[_ H]%andb_true_iff _]. by eapply all_chars_impl; [apply is_word_no_quote|].
Qed.

(** The texts of a sentence whose tokens are as the lexer gives them. *)
Section texts.
Local Abbreviation good_token t := (tok_type t <> TOKEN_EOF -> token_ok t = true).
Local Abbreviation good u := (Forall (fun t => good_token t) u).

Lemma good_name t : good_token t -> tok_type t = TOKEN_IDENTIFIER -> identifier (tok_value t) = true.
Proof. intros Hg Ht. apply identifier_ok; [apply Hg; congruence|done]. Qed.
Lemma good_value t : good_token t -> is_value t = true -> no_quote (tok_value t) = true.
Proof. intros Hg Ht. apply value_no_quote; [apply Hg; by apply is_value_not_eof|done]. Qed.

Lemma columns_texts u l : columns u l -> good u -> forallb column_ok l = true.
Proof.
  induction 1 as [|name type ty sep u cols Hn Hty Hsep Hu IH]; intros Hg; simpl; [done|].
  apply Forall_cons in Hg as [Hg1 [_ [_ Hg]%Forall_app]%Forall_cons].
  rewrite IH by done. unfold column_ok. simpl. rewrite good_name by done.
  unfold type_word in Hty. by destruct (tok_type type); try done; injection Hty as <-.
Qed.
Lemma values_texts u l : values u l -> good u -> forallb no_quote l = true.
Proof.
  induction 1 as [|v sep u vals Hv Hsep Hu IH]; intros Hg; simpl; [done|].
  apply Forall_cons in Hg as [Hg1 [_ Hg]%Forall_app].
  rewrite IH by done. by rewrite good_value by done.
Qed.
Lemma names_texts u l : names u l -> good u -> negb (is_nil l) && forallb identifier l = true.
Proof.
  induction 1 as [t Ht|t c u l Ht Hc Hu IH]; intros Hg; simpl;
    apply Forall_cons in Hg as [Hg1 Hg]; [by rewrite good_name|].
  apply Forall_cons in Hg as [_ Hg]. apply andb_true_iff in IH as [_ ->]; [|done].
  by rewrite good_name by done.
Qed.
Lemma condition_texts u w type name cols star :
  condition u w -> good u -> where_ok no_quote (mkStmt type name [] [] cols star w.1 w.2) = true.
Proof.
  intros [|kw col eq v _ Hcol _ Hv] Hg; [done|].
  apply Forall_cons in Hg as [_ [Hg1 [_ [Hg2 _]%Forall_cons]%Forall_cons]%Forall_cons]. unfold where_ok. simpl.
  by rewrite good_name, good_value by done.
Qed.

Lemma sentence_texts u s : sentence u s -> good u -> statement_ok no_quote s = true.
Proof.
  intros Hs Hg. unfold statement_ok.
  destruct Hs as [ks name lp u cols rp _ Hname _ Hu _|ks name kv lp u vals rp _ Hname _ _ Hu _
                 |ks u star cols from name w cond _ Hu _ Hname Hw|ks name w cond _ Hname Hw];
    simpl; apply Forall_app in Hg as [_ Hg].
  - apply Forall_cons in Hg as [Hg1 [_ [Hg _]%Forall_app]%Forall_cons].
    rewrite good_name by done. by rewrite (columns_texts _ _ Hu Hg).
  - apply Forall_cons in Hg as [Hg1 [_ [_ [Hg _]%Forall_app]%Forall_cons]%Forall_cons].
    rewrite good_name by done. by rewrite (values_texts _ _ Hu Hg).
  - apply Forall_app in Hg as [Hgu [_ [Hg1 Hg]%Forall_cons]%Forall_cons].
    rewrite good_name by done. rewrite (condition_texts _ _ SELECT (tok_value name) cols star Hw Hg).
    destruct Hu as [t Ht|u l Hu]; [done|]. by rewrite (names_texts _ _ Hu Hgu).
  - apply Forall_cons in Hg as [Hg1 Hg].
    rewrite good_name by done. by rewrite (condition_texts _ _ DELETE_STMT (tok_value name) [] false Hw Hg).
Qed.
End texts.

(** C26: the statement of any line of ASCII text is well-formed: its names are
    identifiers and no keywords, every column has type INT or TEXT, a SELECT
    has columns or the star but not both, a WHERE clause names a column, no
    value holds a quote, and the fields of the other kinds of statement are
    empty. *)
Theorem parse_sql_well_formed input s :
  all_chars is_ascii input = true -> parse_sql input = Ret s -> statement_ok no_quote s = true.
Proof.
  intros Ha Hs. destruct (parse_sql_lexed input s Ha Hs) as (ts & u & rest & _ & Hok & Heq & Hu & _).
  apply (sentence_texts u s Hu).
  assert (Hg : Forall (fun t => tok_type t <> TOKEN_EOF -> token_ok t = true) (u ++ rest)).
  { rewrite <- Heq. apply Forall_app. split; [by eapply Forall_impl; [exact Hok|]|]. by apply Forall_singleton. }
  by apply Forall_app in Hg as [? _].
Qed.
