(* ===== verification/PrintThms.v ===== *)
(** * Printing a statement and parsing it back

    [statementToString] prints SQL text; on statements whose values need no
    quotes, the text parses to the statement that was printed. *)
From stdpp Require Import base numbers list strings.
From Stdlib Require Import ZArith Lia.
From Stdlib Require Import Strings.Ascii.
From S2P Require Import Prelude Lexer Parser LexerThms ParserThms.

(** ** Lexing a text piece by piece *)
Definition boundary (s : string) : Prop :=
  match s with EmptyString => True | String c _ => is_ascii c = true /\ is_word c = false end.
Lemma boundary_word b : boundary b -> stopped Lex.word_char b.
Proof. destruct b; [done|]. intros [Ha Hw]. simpl. by rewrite word_char_ascii, Hw. Qed.
Lemma boundary_number b : boundary b -> stopped (ctype isdigit) b.
Proof.
  destruct b as [|c b]; [done|]. intros [Ha Hw]. simpl. rewrite ctype_ascii by done.
  destruct (isdigit c) eqn:Hd; [|done]. apply isdigit_is_word in Hd. congruence.
Qed.
Lemma boundary_app a b : boundary a -> boundary b -> boundary (a +:+ b).
Proof. by destruct a. Qed.

Lemma string_app_assoc a b c : (a +:+ b) +:+ c = a +:+ b +:+ c.
Proof.
  induction a as [|x a IH]; [done|]. change (String x ((a +:+ b) +:+ c) = String x (a +:+ b +:+ c)).
  by rewrite IH.
Qed.
Lemma string_app_cons x a b : String x a +:+ b = String x (a +:+ b).
Proof. reflexivity. Qed.
Lemma string_app_nil b : EmptyString +:+ b = b.
Proof. reflexivity. Qed.

(** [a] gives the tokens [u] before any [b]; a word does so only before a
    [b] that does not go on with it. *)
Definition lexes (a : string) (u : list Token) : Prop :=
  forall b, Lex.handleInput (a +:+ b) = (ts <~ Lex.handleInput b ;; Ret (u ++ ts)).
Definition lexes_word (a : string) (u : list Token) : Prop :=
  forall b, boundary b -> Lex.handleInput (a +:+ b) = (ts <~ Lex.handleInput b ;; Ret (u ++ ts)).

Lemma lexes_is_word a u : lexes a u -> lexes_word a u.
Proof. intros H b _. apply H. Qed.
Lemma lexes_nil : lexes EmptyString [].
Proof. intros b. rewrite string_app_nil. by destruct (Lex.handleInput b). Qed.
Lemma lexes_space a u : lexes a u -> lexes (String " " a) u.
Proof. intros H b. by rewrite string_app_cons, lex_space. Qed.
Lemma lexes_newline a u : lexes a u -> lexes (String "010" a) u.
Proof. intros H b. by rewrite string_app_cons, lex_newline. Qed.
Lemma lexes_symbol c t a u : Lex.symbol c = Some t -> lexes a u -> lexes (String c a) (t :: u).
Proof.
  intros Ht H b. rewrite string_app_cons, (lex_symbol c t) by done. rewrite H. by destruct (Lex.handleInput b).
Qed.
Lemma lexes_word_app w a u :
  word_text w = true -> boundary a -> a <> EmptyString -> lexes a u ->
  lexes (w +:+ a) (mkTok (Lex.keywordType w) w :: u).
Proof.
  intros Hw Ha Hne H b. rewrite string_app_assoc, lex_word; [|done|].
  - rewrite H. by destruct (Lex.handleInput b).
  - apply boundary_word. by destruct a.
Qed.
Lemma lexes_app a u b v : lexes a u -> lexes_word b v -> lexes_word (a +:+ b) (u ++ v).
Proof.
  intros Ha Hb c Hc. rewrite string_app_assoc, Ha, Hb by done.
  destruct (Lex.handleInput c); simpl; [by rewrite app_assoc|done..].
Qed.
Lemma lexes_word_then a u b v :
  lexes_word a u -> boundary b -> lexes_word b v -> lexes_word (a +:+ b) (u ++ v).
Proof.
  intros Ha Hbb Hb c Hc. rewrite string_app_assoc, Ha, Hb by (try apply boundary_app; done).
  destruct (Lex.handleInput c); simpl; [by rewrite app_assoc|done..].
Qed.

Definition word (w : string) : Token := mkTok (Lex.keywordType w) w.
Lemma lexes_identifier w : word_text w = true -> lexes_word w [word w].
Proof. intros Hw b Hb. rewrite lex_word; [done..|by apply boundary_word]. Qed.

(** A value that is printed as it is read: a number or an identifier. *)
Definition plain (v : string) : bool := number_text v || identifier v.
Definition value_token (v : string) : Token := if number_text v then mkTok TOKEN_NUMBER v else word v.
Lemma lexes_plain v : plain v = true -> lexes_word v [value_token v].
Proof.
  unfold plain, value_token. destruct (number_text v) eqn:Hn; intros Hv b Hb.
  - rewrite lex_number; [done..|by apply boundary_number].
  - apply andb_true_iff in Hv as [Hw _]. by apply lexes_identifier.
Qed.
Lemma identifier_word w : identifier w = true -> word_text w = true /\ Lex.keywordType w = TOKEN_IDENTIFIER.
Proof. unfold identifier. intros [Hw Hk%bool_decide_eq_true]%andb_true_iff. done. Qed.
Lemma value_token_ok v : plain v = true -> is_value (value_token v) = true /\ tok_value (value_token v) = v.
Proof.
  unfold plain, value_token, word. destruct (number_text v); [done|]. intros [_ ->]%identifier_word. done.
Qed.

(** ** Lists with separators *)
Definition comma_token : Token := mkTok TOKEN_COMMA ",".
Fixpoint separated_tokens {A} (item : A -> list Token) (l : list A) : list Token :=
  match l with
  | [] => []
  | [x] => item x
  | x :: l' => item x ++ comma_token :: separated_tokens item l'
  end.

Lemma lexes_separated {A} (print : A -> string) (item : A -> list Token) sep last l :
  Forall (fun x => lexes_word (print x) (item x)) l ->
  lexes sep [comma_token] -> boundary sep -> sep <> EmptyString -> lexes last [] -> boundary last ->
  lexes_word (Parse.separated print sep last l) (separated_tokens item l).
Proof.
  intros Hl Hsep Hbs Hne Hlast Hbl. induction Hl as [|x l Hx Hl IH]; [apply lexes_is_word, lexes_nil|].
  destruct l as [|y l].
  - simpl. rewrite <- (app_nil_r (item x)). apply lexes_word_then; [done..|by apply lexes_is_word].
  - change (Parse.separated print sep last (x :: y :: l))
      with (print x +:+ sep +:+ Parse.separated print sep last (y :: l)).
    change (separated_tokens item (x :: y :: l))
      with (item x ++ [comma_token] ++ separated_tokens item (y :: l)).
    apply lexes_word_then; [done|by destruct sep|]. by apply lexes_app.
Qed.

(** ** The pieces of a printed statement *)
Ltac lex_piece :=
  first
    [ apply lexes_nil
    | apply lexes_space; lex_piece
    | apply lexes_newline; lex_piece
    | eapply lexes_symbol; [reflexivity|]; lex_piece ].
(** the words [w] and then [a] *)
Ltac lex_words w a := apply (lexes_word_app w a); [reflexivity|by split|discriminate|].

Lemma lexes_create : lexes "CREATE TABLE " [word "CREATE"; word "TABLE"].
Proof. lex_words "CREATE"%string " TABLE "%string. apply lexes_space. lex_words "TABLE"%string " "%string. lex_piece. Qed.
Lemma lexes_insert : lexes "INSERT INTO " [word "INSERT"; word "INTO"].
Proof. lex_words "INSERT"%string " INTO "%string. apply lexes_space. lex_words "INTO"%string " "%string. lex_piece. Qed.
Lemma lexes_values : lexes " VALUES (" [word "VALUES"; mkTok TOKEN_LPAREN "("].
Proof. apply lexes_space. lex_words "VALUES"%string " ("%string. lex_piece. Qed.
Lemma lexes_select : lexes "SELECT " [word "SELECT"].
Proof. lex_words "SELECT"%string " "%string. lex_piece. Qed.
Lemma lexes_from : lexes " FROM " [word "FROM"].
Proof. apply lexes_space. lex_words "FROM"%string " "%string. lex_piece. Qed.
Lemma lexes_delete : lexes "DELETE FROM " [word "DELETE"; word "FROM"].
Proof. lex_words "DELETE"%string " FROM "%string. apply lexes_space. lex_words "FROM"%string " "%string. lex_piece. Qed.
Lemma lexes_where : lexes " WHERE " [word "WHERE"].
Proof. apply lexes_space. lex_words "WHERE"%string " "%string. lex_piece. Qed.

Definition column_tokens (c : ColumnDef) : list Token := [word (cd_name c); word (cd_type c)].
Lemma lexes_column c :
  column_ok c = true -> lexes_word ("  " +:+ cd_name c +:+ " " +:+ cd_type c) (column_tokens c).
Proof.
  intros [[Hn _]%identifier_word Ht]%andb_true_iff. apply (lexes_app _ []); [lex_piece|].
  apply (lexes_word_then _ [word (cd_name c)]); [by apply lexes_identifier|done|].
  apply (lexes_app _ []); [lex_piece|]. apply lexes_identifier.
  by apply orb_true_iff in Ht as [->%String.eqb_eq | ->%String.eqb_eq].
Qed.

Definition where_tokens (s : Statement) : list Token :=
  if hasWhere s then
    [word "WHERE"; word (wh_column (st_where s)); mkTok TOKEN_EQUALS "="; value_token (wh_value (st_where s))]
  else [].
Lemma lexes_where_string s :
  where_ok plain s = true -> lexes_word (Parse.where_string s) (where_tokens s) /\ boundary (Parse.where_string s).
Proof.
  unfold where_ok, Parse.where_string, where_tokens. destruct (hasWhere s).
  2: intros _; split; [apply lexes_is_word, lexes_nil|done].
  intros [[Hc _]%identifier_word Hv]%andb_true_iff. split; [|done].
  apply (lexes_app _ [word "WHERE"]); [apply lexes_where|].
  apply (lexes_word_then _ [word (wh_column (st_where s))]); [by apply lexes_identifier|done|].
  apply (lexes_app _ [mkTok TOKEN_EQUALS "="]); [lex_piece|by apply lexes_plain].
Qed.

Definition statement_tokens (s : Statement) : list Token :=
  match st_type s with
  | CREATE_TABLE =>
      [word "CREATE"; word "TABLE"] ++ word (st_tableName s) :: mkTok TOKEN_LPAREN "(" ::
      separated_tokens column_tokens (st_columns s) ++ [mkTok TOKEN_RPAREN ")"]
  | INSERT =>
      [word "INSERT"; word "INTO"] ++ word (st_tableName s) :: word "VALUES" :: mkTok TOKEN_LPAREN "(" ::
      separated_tokens (fun v => [value_token v]) (st_values s) ++ [mkTok TOKEN_RPAREN ")"]
  | SELECT =>
      [word "SELECT"] ++
      (if selectAll s then [mkTok TOKEN_STAR "*"]
       else separated_tokens (fun c => [word c]) (selectColumns s)) ++
      word "FROM" :: word (st_tableName s) :: where_tokens s
  | DELETE_STMT => [word "DELETE"; word "FROM"] ++ word (st_tableName s) :: where_tokens s
  end.

Lemma lexes_statement s :
  statement_ok plain s = true -> lexes_word (Parse.statementToString s) (statement_tokens s).
Proof.
  unfold statement_ok, Parse.statementToString, statement_tokens.
  intros [[[Hn _]%identifier_word [Hw Hwb]%lexes_where_string]%andb_true_iff Hs]%andb_true_iff.
  apply lexes_identifier in Hn. assert (Hcl : lexes_word ")" [mkTok TOKEN_RPAREN ")"]) by (apply lexes_is_word; lex_piece).
  destruct (st_type s); rewrite ?andb_true_iff in Hs.
  - apply (lexes_app _ _ _ (_ :: _)); [apply lexes_create|].
    apply (lexes_word_then _ [_] _ (_ :: _)); [done..|]. apply (lexes_app _ [_]); [lex_piece|].
    apply (lexes_app _ []); [lex_piece|]. apply lexes_word_then; [|done..].
    apply lexes_separated; [|lex_piece|done|done|lex_piece|done].
    destruct Hs as ((((Hs & _) & _) & _) & _). rewrite forallb_Forall in Hs.
    eapply Forall_impl; [exact Hs|]. intros c. apply lexes_column.
  - apply (lexes_app _ _ _ (_ :: _)); [apply lexes_insert|].
    apply (lexes_word_then _ [_] _ (_ :: _ :: _)); [done..|]. apply (lexes_app _ [_; _]); [apply lexes_values|].
    apply lexes_word_then; [|done..].
    apply lexes_separated; [|lex_piece|done|done|lex_piece|done].
    destruct Hs as ((((_ & Hs) & _) & _) & _). rewrite forallb_Forall in Hs.
    eapply Forall_impl; [exact Hs|]. intros c. apply lexes_plain.
  - apply (lexes_app _ [_]); [apply lexes_select|].
    assert (Hend : lexes_word (" FROM " +:+ st_tableName s +:+ Parse.where_string s)
                     (word "FROM" :: word (st_tableName s) :: where_tokens s)).
    { apply (lexes_app _ [_] _ (_ :: _)); [apply lexes_from|]. by apply (lexes_word_then _ [_]). }
    destruct (selectAll s); [apply (lexes_app _ [_] _ (_ :: _)); [lex_piece|done]|].
    apply lexes_word_then; [|done..]. apply lexes_separated; [|lex_piece|done|done|lex_piece|done].
    destruct Hs as [_ Hs]. apply andb_true_iff in Hs as [_ Hs]. rewrite forallb_Forall in Hs.
    eapply Forall_impl; [exact Hs|]. intros c [Hc _]%identifier_word. by apply lexes_identifier.
  - apply (lexes_app _ _ _ (_ :: _)); [apply lexes_delete|]. by apply (lexes_word_then _ [_]).
Qed.

(** ** Parsing the printed tokens *)
Lemma word_identifier w : identifier w = true -> tok_type (word w) = TOKEN_IDENTIFIER.
Proof. by intros [_ ?]%identifier_word. Qed.
Lemma comma_token_comma : comma [comma_token].
Proof. by constructor. Qed.
#[local] Hint Constructors comma columns values names selection condition : core.
#[local] Hint Resolve comma_token_comma word_identifier : core.

Lemma printed_columns l : forallb column_ok l = true -> columns (separated_tokens column_tokens l) l.
Proof.
  induction l as [|[n t] l IH]; [constructor|]. intros [[Hn Ht]%andb_true_iff Hl]%andb_true_iff. simpl in Hn, Ht.
  assert (Hty : type_word (word t) = Some t).
  { by apply orb_true_iff in Ht as [->%String.eqb_eq | ->%String.eqb_eq]. }
  destruct l as [|c l].
  - apply (columns_cons (word n) (word t) t [] [] []); auto.
  - apply (columns_cons (word n) (word t) t [comma_token]); auto.
Qed.
Lemma printed_values l : forallb plain l = true -> values (separated_tokens (fun v => [value_token v]) l) l.
Proof.
  induction l as [|v l IH]; [constructor|]. intros [[Hv Heq]%value_token_ok Hl]%andb_true_iff.
  assert (Hc : forall sep u vals, comma sep -> values u vals -> values (value_token v :: sep ++ u) (v :: vals)).
  { intros sep u vals Hs Hu. rewrite <- Heq at 2. by constructor. }
  destruct l as [|w l]; [by apply (Hc [] [])|apply (Hc [comma_token]); auto].
Qed.
Lemma printed_names l :
  l <> [] -> forallb identifier l = true -> names (separated_tokens (fun c => [word c]) l) l.
Proof.
  intros Hne. induction l as [|n l IH]; [done|]. intros [Hn Hl]%andb_true_iff.
  destruct l as [|m l]; [by apply (names_one (word n)); auto|apply (names_cons (word n) comma_token); auto].
Qed.
Lemma printed_where s :
  where_ok plain s = true -> condition (where_tokens s) (hasWhere s, st_where s).
Proof.
  unfold where_ok, where_tokens. destruct (st_where s) as [col v]; simpl. destruct (hasWhere s); simpl.
  - intros [Hc [Hv Heq]%value_token_ok]%andb_true_iff.
    rewrite <- Heq at 2. apply (condition_eq (word "WHERE") (word col)); auto.
  - intros [->%String.eqb_eq ->%String.eqb_eq]%andb_true_iff. apply condition_none.
Qed.

Lemma printed_sentence s : statement_ok plain s = true -> sentence (statement_tokens s) s.
Proof.
  unfold statement_ok, statement_tokens. rewrite !andb_true_iff. intros [[Hn Hw] Hs].
  pose proof (printed_where s Hw) as Hc. unfold where_ok in Hw.
  destruct s as [ty name cols vals sel star hw [wc wv]]; simpl in *.
  assert (Hnw : hw = false -> mkWhere wc wv = mkWhere EmptyString EmptyString).
  { intros ->. by apply andb_true_iff in Hw as [->%String.eqb_eq ->%String.eqb_eq]. }
  destruct ty; repeat (apply andb_true_iff in Hs as [Hs ?]).
  - destruct vals, sel, star, hw; try done. rewrite Hnw by done.
    apply (create_sentence [_; _] (word name)); auto using printed_columns.
  - destruct cols, sel, star, hw; try done. rewrite Hnw by done.
    apply (insert_sentence [_; _] (word name)); auto using printed_values.
  - destruct cols, vals; try done.
    apply (select_sentence [_] _ star sel (word "FROM") (word name) _ (hw, mkWhere wc wv)); auto.
    destruct star; [destruct sel; [by constructor|done]|]. apply andb_true_iff in H as [Hne Hl].
    constructor. apply printed_names; [by destruct sel|done].
  - destruct cols, vals, sel, star; try done.
    apply (delete_sentence [_; _] (word name) _ (hw, mkWhere wc wv)); auto.
Qed.

(** C27: printing round-trips: for every well-formed statement whose values are
    numbers or identifiers, lexing and parsing the text that
    [statementToString] prints gives the statement back. *)
Theorem print_parse_roundtrip s :
  statement_ok plain s = true -> parse_sql (Parse.statementToString s) = Ret s.
Proof.
  intros Hs. pose proof (lexes_statement s Hs EmptyString I) as Hl. rewrite string_app_nil_r in Hl.
  unfold parse_sql. rewrite Hl. simpl.
  destruct (parse_complete (statement_tokens s) s [mkTok TOKEN_EOF EmptyString]) as (ts' & H);
    [by apply printed_sentence|by eexists|]. unfold Parse.parse. by rewrite H.
Qed.

(** Values that need quotes are printed without them. *)
Theorem print_drops_quotes :
  exists s, parse_sql "INSERT INTO t VALUES ('a b')" = Ret s /\
    statement_ok no_quote s = true /\ parse_sql (Parse.statementToString s) <> Ret s.
Proof. eexists. split; [vm_compute; reflexivity|]. split; [reflexivity|]. vm_compute. discriminate. Qed.

(** ** Witnesses *)
Definition demo_statement : Statement :=
  mkStmt SELECT "people" [] [] ["id"; "name"] false true (mkWhere "id" "7").

Lemma print_parse_roundtrip_witness :
  parse_sql (Parse.statementToString demo_statement) = Ret demo_statement.
Proof. apply print_parse_roundtrip. reflexivity. Defined.

Definition demo_input : string := "create table people (id int, name text);".
Lemma parse_sql_total_witness :
  (exists s, parse_sql demo_input = Ret s) \/ (exists m, parse_sql demo_input = Throw ("Parse error: " +:+ m)).
Proof. apply parse_sql_total. reflexivity. Defined.

Lemma parse_sql_well_formed_witness :
  exists s, parse_sql demo_input = Ret s /\ statement_ok no_quote s = true.
Proof.
  eexists. split; [vm_compute; reflexivity|].
  apply (parse_sql_well_formed demo_input); [reflexivity|vm_compute; reflexivity].
Defined.
