(* ===== verification/Optimizer.v ===== *)
(** * Optimizer (src/src/optimizer/Optimizer.h, Optimizer.cpp)

    A statement to a plan tree with cost estimates. [double] is the binary64
    format of the Standard Library's [SpecFloat]; its [log2] is a parameter,
    since the C++ standard does not say how it rounds. A plan is a tree the
    caller owns, its children null or a node. *)
From stdpp Require Import base numbers list strings gmap.
From Stdlib Require Import ZArith Lia.
From Stdlib Require Import Floats.SpecFloat.
From S2P Require Import Prelude Common Catalog Parser.

(** ** [double] *)
Abbreviation double := spec_float.

Module Double.
(** an integer below 2^53 in absolute value is itself *)
Definition of_Z (z : Z) : double := binary_normalize 53 1024 z 0 false.
Definition add : double -> double -> double := SFadd 53 1024.
Definition mul : double -> double -> double := SFmul 53 1024.
Definition div : double -> double -> double := SFdiv 53 1024.
(** the literals 0.1, which is the double nearest to the fraction, and 1.0 *)
Definition tenth : double := div (of_Z 1) (of_Z 10).
Definition one : double := of_Z 1.

(** [std::ceil] *)
Definition ceil (x : double) : double :=
  match x with
  | S754_finite s m e =>
      if 0 <=? e then x
      else
        let z := if s then Z.neg m else Z.pos m in
        binary_normalize 53 1024 (- ((- z) / 2 ^ (- e))) 0 s
  | _ => x
  end.
(** [std::max]: the first, unless it is less than the second *)
Definition max (x y : double) : double := if SFltb x y then y else x.
End Double.

(** ** Plans *)
Inductive PlanNodeType :=
  | SEQ_SCAN | INDEX_SCAN | NESTED_LOOP_JOIN | HASH_JOIN | FILTER | PROJECTION | INSERT_OP | DELETE_OP.
#[global] Instance PlanNodeType_eq_dec : EqDecision PlanNodeType.
Proof. solve_decision. Defined.

Inductive PlanNode := mkPlan {
  pl_type : PlanNodeType;
  pl_tableName : string;
  predicateCol : string;
  predicateVal : string;
  hasPredicate : bool;
  leftJoinCol : string;
  rightJoinCol : string;
  outputColumns : list string;
  pl_selectAll : bool;
  insertValues : list string;
  pl_left : option PlanNode;
  pl_right : option PlanNode;
  estimatedCost : double;
  estimatedRows : double;
}.

Module Opt.
Section optimizer.
Context (log2 : double -> double).
Implicit Types (k : Catalog) (stmt : Statement).

Definition estimateScanCost (tableName : string) k : double :=
  match Cat.getTable tableName k with
  | None => Double.one
  | Some info =>
      let pages := Double.ceil (Double.div (Double.of_Z (rowCount info)) (Double.of_Z 10)) in
      Double.max pages Double.one
  end.

(** The column and the value are not looked at. *)
Definition estimateSelectivity (tableName column value : string) k : double :=
  match Cat.getTable tableName k with
  | None => Double.tenth
  | Some info =>
      if rowCount info =? 0 then Double.tenth
      else if rowCount info <? 10 then Double.div Double.one (Double.of_Z (rowCount info))
      else Double.tenth
  end.

Definition shouldUseIndex (tableName column : string) k : outcome bool :=
  match Cat.getTable tableName k with
  | None => Ret false
  | Some info =>
      if negb (hasIndex info) then Ret false
      else if (0 <? Schema.columnCount (ti_schema info))%nat then
        c <~ Schema.getColumn (ti_schema info) 0 ;;
        Ret (String.eqb (col_name c) column && (50 <? rowCount info))
      else Ret false
  end.

(** [info ? info->rowCount : 0] *)
Definition row_estimate (tableName : string) k : Z :=
  match Cat.getTable tableName k with None => 0 | Some info => rowCount info end.
(** [... * sel] with a WHERE clause, the row count alone without one *)
Definition rows_of stmt k : double :=
  let rows := Double.of_Z (row_estimate (st_tableName stmt) k) in
  if hasWhere stmt then
    Double.mul rows (estimateSelectivity (st_tableName stmt) (wh_column (st_where stmt)) (wh_value (st_where stmt)) k)
  else rows.

(** A scan of the statement's table, its predicate the WHERE clause. *)
Definition scan_node (type : PlanNodeType) stmt (all : bool) (cost rows : double) : PlanNode :=
  let col := if hasWhere stmt then wh_column (st_where stmt) else EmptyString in
  let val := if hasWhere stmt then wh_value (st_where stmt) else EmptyString in
  mkPlan type (st_tableName stmt) col val (hasWhere stmt) EmptyString EmptyString [] all [] None None cost rows.

Definition optimizeSelect stmt k : outcome PlanNode :=
  index <~ (if hasWhere stmt then shouldUseIndex (st_tableName stmt) (wh_column (st_where stmt)) k
            else Ret false) ;;
  let scan all :=
    if index : bool then
      let n := match Cat.getTable (st_tableName stmt) k with None => 1 | Some info => u32 (rowCount info + 1) end in
      scan_node INDEX_SCAN stmt all (Double.add (log2 (Double.of_Z n)) Double.one) (rows_of stmt k)
    else scan_node SEQ_SCAN stmt all (estimateScanCost (st_tableName stmt) k) (rows_of stmt k) in
  if negb (selectAll stmt) && negb (bool_decide (selectColumns stmt = [])) then
    let s := scan false in
    Ret (mkPlan PROJECTION EmptyString EmptyString EmptyString false EmptyString EmptyString
           (selectColumns stmt) false [] (Some s) None
           (Double.add (estimatedCost s) Double.tenth) (estimatedRows s))
  else Ret (scan (selectAll stmt)).

Definition optimizeInsert stmt : PlanNode :=
  mkPlan INSERT_OP (st_tableName stmt) EmptyString EmptyString false EmptyString EmptyString [] false
    (st_values stmt) None None Double.one Double.one.

Definition optimizeDelete stmt k : PlanNode :=
  let scan := scan_node SEQ_SCAN stmt false (estimateScanCost (st_tableName stmt) k) (Double.of_Z 0) in
  let d := scan_node DELETE_OP stmt false (Double.add (estimatedCost scan) Double.one) (rows_of stmt k) in
  mkPlan DELETE_OP (pl_tableName d) (predicateCol d) (predicateVal d) (hasPredicate d) EmptyString EmptyString
    [] false [] (Some scan) None (estimatedCost d) (estimatedRows d).

(** CREATE TABLE has no plan: the null pointer. *)
Definition optimize stmt k : outcome (option PlanNode) :=
  match st_type stmt with
  | SELECT => p <~ optimizeSelect stmt k ;; Ret (Some p)
  | INSERT => Ret (Some (optimizeInsert stmt))
  | DELETE_STMT => Ret (Some (optimizeDelete stmt k))
  | CREATE_TABLE => Ret None
  end.
End optimizer.
End Opt.
