(* ===== verification/FloatThms.v ===== *)
(** * Binary64 arithmetic of the cost model

    What the optimizer's divisions and roundings give on the integers it uses:
    an integer below 2^53 is its own mantissa, a division rounds within one
    unit of the truncated quotient, and so the ceiling of a tenth of a 32-bit
    count is exact. *)
From stdpp Require Import base numbers.
From Stdlib Require Import ZArith Lia.
From Stdlib Require Import Floats.SpecFloat.
From S2P Require Import Prelude Common Catalog Parser Optimizer.

(** ** Rounding to 53 bits *)
Lemma digits2_log2 p : Z.pos (digits2_pos p) = Z.log2 (Z.pos p) + 1.
Proof.
  induction p as [p IH|p IH|]; simpl digits2_pos.
  - rewrite Pos2Z.inj_succ, IH, (Pos2Z.inj_xI p), Z.log2_succ_double by lia. lia.
  - rewrite Pos2Z.inj_succ, IH, (Pos2Z.inj_xO p), Z.log2_double by lia. lia.
  - done.
Qed.

(** a 54-bit mantissa at most, away from the subnormals *)
Lemma fexp_eq d : -1021 <= d -> fexp 53 1024 d = d - 53.
Proof. unfold fexp, emin. lia. Qed.

Lemma log2_range m k : 0 < k -> 2 ^ (k - 1) <= m < 2 ^ k -> Z.log2 m = k - 1.
Proof. intros Hk [Hl Hu]. apply Z.log2_unique; [lia|]. replace (Z.succ (k - 1)) with k by lia. lia. Qed.

Lemma shr_fexp_53 m e l :
  2 ^ 52 <= m < 2 ^ 53 -> -1074 <= e -> shr_fexp 53 1024 m e l = (shr_record_of_loc m l, e).
Proof.
  intros Hm He. unfold shr_fexp. destruct m as [|p|p]; [lia| |lia]. simpl Zdigits2.
  rewrite digits2_log2, (log2_range (Z.pos p) 53) by lia. rewrite fexp_eq by lia.
  replace (53 - 1 + 1 + e - 53 - e) with 0 by lia. done.
Qed.
Lemma shr_fexp_54 m e l :
  2 ^ 53 <= m < 2 ^ 54 -> -1074 <= e ->
  shr_fexp 53 1024 m e l = (shr_1 (shr_record_of_loc m l), e + 1).
Proof.
  intros Hm He. unfold shr_fexp. destruct m as [|p|p]; [lia| |lia]. simpl Zdigits2.
  rewrite digits2_log2, (log2_range (Z.pos p) 54) by lia. rewrite fexp_eq by lia.
  replace (54 - 1 + 1 + e - 53 - e) with 1 by lia. done.
Qed.

(** one bit shifted out *)
Lemma shr_1_pos m l :
  0 < m ->
  let r := shr_1 (shr_record_of_loc m l) in
  shr_m r = m / 2 /\ shr_r r = Z.odd m /\ (l = loc_Exact -> shr_s r = false).
Proof.
  intros Hm. destruct m as [|p|p]; [lia| |lia].
  assert (Hx : forall p, Z.pos (xI p) / 2 = Z.pos p).
  { intros q. rewrite Pos2Z.inj_xI. rewrite Z.add_comm, Z.mul_comm, Z.div_add by lia. done. }
  assert (Ho : forall p, Z.pos (xO p) / 2 = Z.pos p).
  { intros q. rewrite Pos2Z.inj_xO, Z.mul_comm, Z.div_mul by lia. done. }
  destruct l as [|[]]; destruct p as [p|p|]; simpl; rewrite ?Hx, ?Ho; split_and!; done.
Qed.

(** The end of the rounding, on a mantissa of 53 bits or just beyond. *)
Lemma round_end m e :
  2 ^ 52 <= m <= 2 ^ 53 -> -1074 <= e -> e + 1 <= 971 ->
  exists p e2, (let '(mrs, e'') := shr_fexp 53 1024 m e loc_Exact in
     match shr_m mrs with
     | Z0 => S754_zero false
     | Zpos m => if Z.leb e'' (1024 - 53) then S754_finite false m e'' else S754_infinity false
     | _ => S754_nan
     end) = S754_finite false p e2 /\ e <= e2 <= e + 1 /\ Z.pos p * 2 ^ (e2 - e) = m.
Proof.
  intros Hm He He2. destruct (Z.eq_dec m (2 ^ 53)) as [->|Hne].
  - rewrite shr_fexp_54 by lia. exists (Z.to_pos (2 ^ 52)), (e + 1).
    replace (e + 1 - e) with 1 by lia.
    assert (shr_m (shr_1 (shr_record_of_loc (2 ^ 53) loc_Exact)) = Z.pos (Z.to_pos (2 ^ 52))) as -> by reflexivity.
    destruct (Z.leb_spec (e + 1) (1024 - 53)); [|lia]. split; [reflexivity|]. split; [lia|reflexivity].
  - rewrite shr_fexp_53 by lia. destruct m as [|p|p]; [lia| |lia]. exists p, e.
    cbn [shr_record_of_loc shr_m]. destruct (Z.leb_spec e (1024 - 53)); [|lia]. split; [done|]. split; [lia|]. rewrite Z.sub_diag. lia.
Qed.

(** Rounding to nearest: within one unit of the truncated mantissa, which is
    kept when it is exact and even. *)
Lemma round_within q e l :
  2 ^ 52 <= q < 2 ^ 54 -> -1074 <= e -> e + 2 <= 971 ->
  exists p e2, binary_round_aux 53 1024 false q e l = S754_finite false p e2 /\ e <= e2 <= e + 2 /\
    q - 1 <= Z.pos p * 2 ^ (e2 - e) <= q + 1 /\
    (l = loc_Exact -> Z.even q = true -> Z.pos p * 2 ^ (e2 - e) = q).
Proof.
  intros Hq He He2. unfold binary_round_aux. destruct (Z.lt_ge_cases q (2 ^ 53)) as [H53|H53].
  - rewrite shr_fexp_53 by lia. cbv zeta iota beta.
    set (m := round_nearest_even _ _). assert (Hm : q <= m <= q + 1 /\ (l = loc_Exact -> m = q)).
    { unfold m. destruct l as [|[]]; simpl; try (destruct (Z.even q)); split; try lia; done. }
    destruct (round_end m e) as (p & e2 & Heq & Hr & Hv); [lia..|].
    exists p, e2. split; [exact Heq|]. split; [lia|]. rewrite Hv. split; [lia|]. intros Hl _. by apply Hm.
  - rewrite shr_fexp_54 by lia. destruct (shr_1_pos q l) as (H1 & H2 & H3); [lia|].
    destruct (shr_1 (shr_record_of_loc q l)) as [m r s]. simpl in H1, H2, H3. subst m r.
    pose proof (Z.div_mod q 2 ltac:(lia)) as Hdm. rewrite Zmod_odd in Hdm.
    set (m := round_nearest_even _ _).
    assert (Hm : (Z.odd q = false -> m = q / 2) /\ q / 2 <= m <= q / 2 + 1).
    { unfold m. destruct (Z.odd q), s; simpl; try (destruct (Z.even (q / 2))); (split; [done|lia]). }
    destruct (round_end m (e + 1)) as (p & e2 & Heq & Hr & Hv).
    { destruct (Z.odd q); lia. }
    { lia. }
    { lia. }
    exists p, e2. split; [exact Heq|]. split; [lia|].
    assert (Hv2 : Z.pos p * 2 ^ (e2 - e) = 2 * m).
    { rewrite <- Hv. replace (e2 - e) with (e2 - (e + 1) + 1) by lia. rewrite Z.pow_add_r by lia. lia. }
    rewrite Hv2. destruct (Z.odd q) eqn:Eo.
    + split; [lia|]. intros _ Hev. rewrite <- Z.negb_odd, Eo in Hev. done.
    + rewrite (proj1 Hm eq_refl). split; [lia|]. intros _ _. lia.
Qed.

(** ** Integers *)
Lemma iter_xO p k : Z.pos (Pos.iter xO p k) = Z.pos p * 2 ^ Z.pos k.
Proof.
  induction k as [|k IH] using Pos.peano_ind; [simpl; lia|].
  rewrite Pos.iter_succ, (Pos2Z.inj_xO (Pos.iter xO p k)), IH, Pos2Z.inj_succ, Z.pow_succ_r by lia. lia.
Qed.

(** the bits of a positive integer, and its mantissa *)
Definition bits (z : Z) : Z := Z.log2 z + 1.
Definition mantissa (z : Z) : Z := z * 2 ^ (53 - bits z).

Lemma mantissa_range z : 1 <= z < 2 ^ 53 -> 1 <= bits z <= 53 /\ 2 ^ 52 <= mantissa z < 2 ^ 53.
Proof.
  intros Hz. unfold mantissa, bits. pose proof (Z.log2_nonneg z).
  assert (Z.log2 z < 53) by (apply Z.log2_lt_pow2; lia). split; [lia|].
  destruct (Z.log2_spec z) as [Hl Hu]; [lia|].
  replace (2 ^ 52) with (2 ^ Z.log2 z * 2 ^ (53 - (Z.log2 z + 1))) by (rewrite <- Z.pow_add_r by lia; f_equal; lia).
  replace (2 ^ 53) with (2 ^ Z.succ (Z.log2 z) * 2 ^ (53 - (Z.log2 z + 1))) by (rewrite <- Z.pow_add_r by lia; f_equal; lia).
  pose proof (Z.pow_pos_nonneg 2 (53 - (Z.log2 z + 1)) ltac:(lia) ltac:(lia)). split; nia.
Qed.

Lemma of_Z_pos z :
  1 <= z < 2 ^ 53 -> Double.of_Z z = S754_finite false (Z.to_pos (mantissa z)) (bits z - 53).
Proof.
  intros Hz. destruct (mantissa_range z Hz) as [Hb Hm]. destruct z as [|p|p]; [lia| |lia].
  unfold Double.of_Z, binary_normalize, binary_round. rewrite digits2_log2. fold (bits (Z.pos p)).
  rewrite Z.add_0_r, fexp_eq by lia.
  assert (Hal : shl_align p 0 (bits (Z.pos p) - 53) = (Z.to_pos (mantissa (Z.pos p)), bits (Z.pos p) - 53)).
  { unfold shl_align. rewrite Z.sub_0_r. unfold mantissa in *.
    destruct (bits (Z.pos p) - 53) as [|k|k] eqn:Hk; [|lia|].
    - replace (53 - bits (Z.pos p)) with 0 by lia. by rewrite Z.mul_1_r.
    - replace (53 - bits (Z.pos p)) with (Z.pos k) by lia. by rewrite <- iter_xO. }
  rewrite Hal. unfold binary_round_aux. rewrite Z2Pos.id by lia.
  rewrite shr_fexp_53 by lia. cbv zeta iota beta. cbn [shr_record_of_loc shr_m loc_of_shr_record round_nearest_even].
  rewrite shr_fexp_53 by lia. cbn [shr_record_of_loc shr_m].
  destruct (mantissa (Z.pos p)) as [|m|m]; [lia| |lia].
  destruct (Z.leb_spec (bits (Z.pos p) - 53) (1024 - 53)); [done|lia].
Qed.

Lemma compare_to_pos m c : Z.pos c <= m -> Pos.compare_cont Eq (Z.to_pos m) c <> Lt.
Proof.
  intros Hm. destruct m as [|p|p]; [lia| |lia]. intros H.
  apply (proj1 (Pos.compare_lt_iff p c)) in H. lia.
Qed.

Lemma not_below_one z : 1 <= z < 2 ^ 53 -> SFltb (Double.of_Z z) Double.one = false.
Proof.
  intros Hz. destruct (mantissa_range z Hz) as [Hb Hm]. rewrite of_Z_pos by done.
  change Double.one with (S754_finite false 4503599627370496 (-52)).
  unfold SFltb, SFcompare. destruct (Z.compare_spec (bits z - 53) (-52)) as [E|E|E]; [|lia|done].
  pose proof (compare_to_pos (mantissa z) 4503599627370496 ltac:(lia)) as Hc.
  by destruct (Pos.compare_cont _ _ _).
Qed.

(** ** The number of ten-row pages *)
Lemma div_floor_facts U X Y q W :
  20 <= U -> Z.even U = true ->
  q = (10 * X + Y) / 10 -> q - 1 <= W <= q + 1 -> (Y = 0 -> W = q) -> Y = 0 \/ U <= Y <= 9 * U ->
  (Y = 0 -> W = X) /\ (Y <> 0 -> X < W <= X + U).
Proof.
  intros HU He Hq HW HW0 HY. pose proof (Z.div_mod (10 * X + Y) 10 ltac:(lia)) as Hdm.
  pose proof (Z.mod_pos_bound (10 * X + Y) 10 ltac:(lia)) as Hmb. rewrite <- Hq in Hdm.
  split; intros HY0; [|lia]. rewrite HW0 by done. subst Y. lia.
Qed.

Lemma ceil_of_parts n U W p j :
  0 < j -> 0 < U -> 0 <= n ->
  Z.pos p * j = W -> (n mod 10 = 0 -> W = n / 10 * U) ->
  (n mod 10 <> 0 -> n / 10 * U < W <= n / 10 * U + U) ->
  forall V, V * j = U -> 0 < V -> - ((- Z.pos p) / V) = (n + 9) / 10.
Proof.
  intros Hj HU Hn HW H0 H1 V HV HVp.
  replace ((- Z.pos p) / V) with ((- W) / U).
  2: { rewrite <- HW, <- HV, <- Z.mul_opp_l. apply Z.div_mul_cancel_r; lia. }
  pose proof (Z.div_mod n 10 ltac:(lia)) as Hdm. pose proof (Z.mod_pos_bound n 10 ltac:(lia)) as Hmb.
  set (k := n / 10) in *. set (r := n mod 10) in *.
  destruct (Z.eq_dec r 0) as [E|E].
  - rewrite (H0 E). rewrite <- Z.mul_opp_l, Z.div_mul by lia.
    assert ((n + 9) / 10 = k); [|lia]. symmetry. apply (Z.div_unique_pos _ _ _ 9); lia.
  - specialize (H1 E). assert ((- W) / U = - (k + 1)) as ->.
    { symmetry. apply (Z.div_unique_pos _ _ _ ((k + 1) * U - W)); lia. }
    assert ((n + 9) / 10 = k + 1); [|lia]. symmetry. apply (Z.div_unique_pos _ _ _ (r - 1)); lia.
Qed.

(** The unit of the quotient by ten: a number is this many of its parts. *)
Definition unit_of (n : Z) : Z := 2 ^ (57 - bits n).

Lemma unit_facts n :
  1 <= n < 2 ^ 32 ->
  1 <= bits n <= 32 /\ 2 ^ 25 <= unit_of n /\ Z.even (unit_of n) = true /\
  mantissa n * 16 = 10 * (n / 10 * unit_of n) + n mod 10 * unit_of n.
Proof.
  intros Hn. destruct (mantissa_range n) as [Hb Hm]; [lia|].
  assert (Hb32 : bits n <= 32).
  { unfold bits. assert (Z.log2 n < 32) by (apply Z.log2_lt_pow2; lia). lia. }
  unfold unit_of. split_and!; [lia..|apply Z.pow_le_mono_r; lia|rewrite Z.even_pow by lia; done|].
  unfold mantissa. replace (57 - bits n) with (53 - bits n + 4) by lia. rewrite Z.pow_add_r by lia.
  pose proof (Z.div_mod n 10 ltac:(lia)). nia.
Qed.

(** A 53-bit number over ten, whose mantissa is 10 * 2^49. *)
Lemma div_ten n :
  1 <= n < 2 ^ 32 ->
  exists l, Double.div (Double.of_Z n) (Double.of_Z 10) =
      binary_round_aux 53 1024 false (mantissa n * 16 / 10) (bits n - 57) l /\
    ((mantissa n * 16) mod 10 = 0 -> l = loc_Exact).
Proof.
  intros Hn. destruct (mantissa_range n) as [Hb Hm]; [lia|]. rewrite (of_Z_pos n) by lia.
  change (Double.of_Z 10) with (S754_finite false 5629499534213120 (-49)).
  unfold Double.div, SFdiv, SFdiv_core_binary. rewrite Z2Pos.id by lia.
  assert (Hd1 : Zdigits2 (mantissa n) = 53).
  { destruct (mantissa n) as [|m|m] eqn:Em; [lia| |lia]. simpl Zdigits2.
    rewrite digits2_log2, (log2_range (Z.pos m) 53) by lia. lia. }
  rewrite Hd1. change (Zdigits2 5629499534213120) with 53. rewrite fexp_eq by lia.
  replace (Z.min (53 + (bits n - 53) - (53 + -49) - 53) (bits n - 53 - -49)) with (bits n - 57) by lia.
  replace (bits n - 53 - -49 - (bits n - 57)) with 53 by lia. cbv iota.
  destruct (Z.div_eucl (Z.shiftl (mantissa n) 53) 5629499534213120) as [q r] eqn:Hqr.
  assert (Hq : q = Z.shiftl (mantissa n) 53 / 5629499534213120) by (unfold Z.div; by rewrite Hqr).
  assert (Hr : r = Z.shiftl (mantissa n) 53 mod 5629499534213120) by (unfold Z.modulo; by rewrite Hqr).
  rewrite Z.shiftl_mul_pow2 in Hq, Hr by lia.
  replace (mantissa n * 2 ^ 53) with (mantissa n * 16 * 562949953421312) in Hq, Hr by lia.
  change 5629499534213120 with (10 * 562949953421312) in Hq, Hr.
  rewrite Z.div_mul_cancel_r in Hq by lia. rewrite Z.mul_mod_distr_r in Hr by lia.
  exists (new_location 5629499534213120 r). subst q. split; [done|]. intros H0. by rewrite Hr, H0.
Qed.

Lemma ceil_tenth n :
  1 <= n < 2 ^ 32 -> Double.ceil (Double.div (Double.of_Z n) (Double.of_Z 10)) = Double.of_Z ((n + 9) / 10).
Proof.
  intros Hn. destruct (mantissa_range n) as [_ Hm]; [lia|].
  destruct (unit_facts n Hn) as (Hb & HU & HUe & HX). destruct (div_ten n Hn) as (l & -> & Hl).
  pose proof (Z.div_mod n 10 ltac:(lia)) as Hn10. pose proof (Z.mod_pos_bound n 10 ltac:(lia)) as Hmb.
  destruct (round_within (mantissa n * 16 / 10) (bits n - 57) l) as (p & e2 & -> & He2 & HW & HW0);
    [split; [apply Z.div_le_lower_bound; lia|apply Z.div_lt_upper_bound; lia]|lia..|].
  rewrite HX in *. set (U := unit_of n) in *. set (k := n / 10) in *. set (y := n mod 10) in *.
  assert (HY : y * U = 0 \/ U <= y * U <= 9 * U).
  { clear -HU Hmb. destruct (Z.eq_dec y 0) as [->|]; [by left|right; nia]. }
  destruct (div_floor_facts U (k * U) (y * U) _ (Z.pos p * 2 ^ (e2 - (bits n - 57))) ltac:(lia) HUe eq_refl HW)
    as [H0 H1]; [|exact HY|].
  { intros Hy. rewrite Hy, Z.add_0_r, (Z.mul_comm 10) in *. rewrite Z.div_mul in * by lia.
    apply HW0; [apply Hl, Z.mod_mul; lia|]. by rewrite Z.even_mul, HUe, orb_true_r. }
  unfold Double.ceil. destruct (Z.leb_spec 0 e2); [lia|]. unfold Double.of_Z. f_equal.
  assert (HV : 2 ^ (- e2) * 2 ^ (e2 - (bits n - 57)) = U).
  { rewrite <- Z.pow_add_r by lia. unfold U, unit_of. f_equal. lia. }
  refine (ceil_of_parts n U _ p (2 ^ (e2 - (bits n - 57))) _ _ _ eq_refl _ _ _ HV _);
    [apply Z.pow_pos_nonneg; lia|lia|lia| | |apply Z.pow_pos_nonneg; lia]; fold y k.
  - intros Hy. apply H0. rewrite Hy. lia.
  - intros Hy. apply H1. clear -Hy HU. nia.
Qed.

(** The pages of ten rows that the cost model counts: exact for any count. *)
Lemma pages_exact n :
  is_u32 n ->
  Double.max (Double.ceil (Double.div (Double.of_Z n) (Double.of_Z 10))) Double.one =
  Double.of_Z (Z.max 1 ((n + 9) / 10)).
Proof.
  unfold is_u32. intros Hn. destruct (Z.eq_dec n 0) as [->|Hne]; [reflexivity|].
  rewrite ceil_tenth by lia.
  assert (1 <= (n + 9) / 10 < 2 ^ 53) as Hp.
  { split; [apply Z.div_le_lower_bound; lia|apply Z.div_lt_upper_bound; lia]. }
  unfold Double.max. rewrite not_below_one by done. f_equal. lia.
Qed.
