(* ===== verification/OptimizerThms.v ===== *)
(** * Theorems of the optimizer *)
From stdpp Require Import base numbers list strings gmap.
From Stdlib Require Import ZArith Lia.
From Stdlib Require Import Floats.SpecFloat.
From S2P Require Import Prelude Common Catalog Parser Optimizer FloatThms.

(** The conditions for an index scan: an indexed table of more than fifty rows,
    and a WHERE clause on its first column. *)
Definition indexable (k : Catalog) (s : Statement) : Prop :=
  hasWhere s = true /\ exists info c sch, k !! st_tableName s = Some info /\ hasIndex info = true /\
    ti_schema info = c :: sch /\ col_name c = wh_column (st_where s) /\ 50 < rowCount info.

Section optimizer.
Context (log2 : double -> double).
Implicit Types (k : Catalog) (s : Statement).

Lemma shouldUseIndex_spec k s :
  hasWhere s = true ->
  exists b, Opt.shouldUseIndex (st_tableName s) (wh_column (st_where s)) k = Ret b /\ (b = true <-> indexable k s).
Proof.
  intros Hw. unfold Opt.shouldUseIndex, Cat.getTable, indexable.
  destruct (k !! st_tableName s) as [info|] eqn:Hi.
  2: { exists false. split; [done|]. split; [done|]. by intros (_ & ? & ? & ? & ? & _). }
  destruct (hasIndex info) eqn:Hx; cbn [negb].
  2: { exists false. split; [done|]. split; [done|]. intros (_ & i & c & sch & [= <-] & ? & _). congruence. }
  unfold Schema.columnCount, Schema.getColumn. destruct (ti_schema info) as [|c sch] eqn:Hs; simpl.
  { exists false. split; [done|]. split; [done|]. intros (_ & i & c & sch & [= <-] & _ & ? & _). congruence. }
  eexists. split; [done|]. rewrite andb_true_iff, String.eqb_eq, Z.ltb_lt. split.
  - intros [Hc Hr]. split; [done|]. by exists info, c, sch.
  - intros (_ & i & c' & sch' & [= <-] & _ & Hs' & Hc & Hr). rewrite Hs in Hs'. by injection Hs' as <- <-.
Qed.

(** a sequential scan costs the pages of ten rows that the table fills, one
    when it fills none *)
Lemma scan_cost_exact k name info :
  k !! name = Some info -> is_u32 (rowCount info) ->
  Opt.estimateScanCost name k = Double.of_Z (Z.max 1 ((rowCount info + 9) / 10)).
Proof. intros Hi Hu. unfold Opt.estimateScanCost, Cat.getTable. rewrite Hi. by apply pages_exact. Qed.

(** the node that reads the table, under a projection if there is one *)
Definition scan_of (p : PlanNode) : PlanNode := default p (pl_left p).

(** C40: the plan of a SELECT: one scan of the statement's table that carries
    its WHERE clause, an index scan exactly when the table is indexed, has more
    than fifty rows and the clause is on its first column, and otherwise of a cost of
    one for every ten rows, rounded up; under a projection
    on the listed columns, unless the star is given; and a projection costs a
    tenth more than its scan. *)
Theorem select_plan k s :
  st_type s = SELECT ->
  exists p, Opt.optimize log2 s k = Ret (Some p) /\
    (pl_type (scan_of p) = INDEX_SCAN <-> indexable k s) /\
    (pl_type (scan_of p) <> INDEX_SCAN -> pl_type (scan_of p) = SEQ_SCAN /\
       forall info, k !! st_tableName s = Some info -> is_u32 (rowCount info) ->
         estimatedCost (scan_of p) = Double.of_Z (Z.max 1 ((rowCount info + 9) / 10))) /\
    pl_tableName (scan_of p) = st_tableName s /\ hasPredicate (scan_of p) = hasWhere s /\
    (hasWhere s = true -> predicateCol (scan_of p) = wh_column (st_where s) /\
                          predicateVal (scan_of p) = wh_value (st_where s)) /\
    estimatedRows p = Opt.rows_of s k /\
    if selectAll s || bool_decide (selectColumns s = [])
    then pl_left p = None /\ pl_selectAll p = selectAll s
    else pl_type p = PROJECTION /\ outputColumns p = selectColumns s /\
      estimatedCost p = Double.add (estimatedCost (scan_of p)) Double.tenth.
Proof.
  intros Hty. unfold Opt.optimize. rewrite Hty. unfold Opt.optimizeSelect.
  assert (exists b, (if hasWhere s then Opt.shouldUseIndex (st_tableName s) (wh_column (st_where s)) k
                     else Ret false) = Ret b /\ (b = true <-> indexable k s)) as (b & Hb & Hiff).
  { destruct (hasWhere s) eqn:Hw; [by apply shouldUseIndex_spec|]. exists false. split; [done|].
    split; [done|]. by intros [? _]; congruence. }
  rewrite Hb. cbn [obind].
  destruct (selectAll s) eqn:Ha, (bool_decide (selectColumns s = [])) eqn:He, b; cbn [negb andb orb];
    (eexists; split; [done|]); unfold scan_of, Opt.scan_node; simpl; (destruct (hasWhere s);
    (split; [by rewrite <- Hiff|]); split_and!; try done;
    intros _; (split; [done|]); intros; by apply scan_cost_exact).
Qed.

(** The estimates stay in range: on a table of any size the selectivity of
    an equality is from a tenth to one, and one when the table has one row. *)
Theorem estimates_bounded k name col val :
  (forall info, k !! name = Some info -> is_u32 (rowCount info)) ->
  SFleb Double.tenth (Opt.estimateSelectivity name col val k) = true /\
  SFleb (Opt.estimateSelectivity name col val k) Double.one = true /\
  (forall info, k !! name = Some info -> rowCount info = 1 ->
     Opt.estimateSelectivity name col val k = Double.one).
Proof.
  intros Hu. unfold Opt.estimateSelectivity, Cat.getTable. destruct (k !! name) as [info|] eqn:Hi.
  2: { split; [done|]. by split. }
  pose proof (Hu info eq_refl) as Hr. unfold_int.
  destruct (Z.eqb_spec (rowCount info) 0) as [E0|E0].
  { split; [done|]. split; [done|]. intros i [= <-]. congruence. }
  destruct (Z.ltb_spec (rowCount info) 10) as [E|E].
  - assert (rowCount info ∈ [1; 2; 3; 4; 5; 6; 7; 8; 9]) as Hin.
    { rewrite !elem_of_cons. lia. }
    split; [|split].
    + repeat (apply elem_of_cons in Hin as [-> | Hin]; [done|]). by apply not_elem_of_nil in Hin.
    + repeat (apply elem_of_cons in Hin as [-> | Hin]; [done|]). by apply not_elem_of_nil in Hin.
    + intros i [= <-] ->. done.
  - split; [done|]. split; [done|]. intros i [= <-]. lia.
Qed.
End optimizer.

(** ** Witnesses *)
Definition big_table : Catalog := <["t" := mkInfo "t" [mkColumn "id" INT] 1 100 true 2]> ∅.
Definition by_key : Statement := mkStmt SELECT "t" [] [] ["id"] false true (mkWhere "id" "7").

Lemma select_plan_witness :
  exists p, Opt.optimize (fun x => x) by_key big_table = Ret (Some p) /\
    pl_type (scan_of p) = INDEX_SCAN /\ pl_type p = PROJECTION.
Proof.
  destruct (select_plan (fun x => x) big_table by_key eq_refl) as (p & Hp & Hi & _ & _ & _ & _ & _ & Hpr & _).
  exists p. split; [exact Hp|]. split; [|exact Hpr]. apply Hi. split; [reflexivity|].
  exists (mkInfo "t" [mkColumn "id" INT] 1 100 true 2), (mkColumn "id" INT), [].
  split; [apply lookup_insert_eq|]. split; [reflexivity|]. split; [reflexivity|]. split; [reflexivity|].
  simpl. lia.
Defined.

Lemma estimates_bounded_witness :
  SFleb Double.tenth (Opt.estimateSelectivity "t" "id" "7" big_table) = true.
Proof.
  destruct (estimates_bounded big_table "t" "id" "7") as [H _]; [|exact H].
  intros info Hi. unfold big_table in Hi. rewrite lookup_insert_eq in Hi. injection Hi as <-.
  simpl. unfold is_u32. lia.
Defined.
