(* ===== verification/Engine.v ===== *)
(** * The engine (src/src/main.cpp)

    [MiniDB] ties the components together: it parses a line, has the optimizer
    choose a plan, and runs the statement over the tables, the transactions and
    the log. Both maps from table names to trees, [indexes_] and that of the
    execution context, hold the same pointers, and are the one map of the
    context here. What the process prints is kept as a list of lines. *)
From stdpp Require Import base numbers list strings gmap pretty.
From Stdlib Require Import ZArith Lia.
From Stdlib Require Import Strings.Ascii.
From Stdlib Require Import Floats.SpecFloat.
From S2P Require Import Prelude Bytes Common Disk PageStore Heap Catalog Codec BTree Locks LockGraph LockSafety Txn Wal Lexer Parser Optimizer Executor.

(** ** [std::stoi] *)
Module Stoi.
Fixpoint skip_space (s : string) : string :=
  match s with
  | String c s' => if isspace c then skip_space s' else s
  | EmptyString => EmptyString
  end.
(** the value of the leading digits, after [acc]; [None] when there is none *)
Fixpoint digits (s : string) (acc : option Z) : option Z :=
  match s with
  | String c s' => if isdigit c then digits s' (Some (default 0 acc * 10 + (code c - 48))) else acc
  | EmptyString => acc
  end.
(** [strtol] in base 10: spaces, a sign, digits; what follows is ignored. *)
Definition strtol (s : string) : option Z :=
  match skip_space s with
  | String c s' =>
      if is_char "-" c then Z.opp <$> digits s' None
      else if is_char "+" c then digits s' None
      else digits (String c s') None
  | EmptyString => None
  end.
Definition stoi (s : string) : outcome Z :=
  match strtol s with
  | None => Throw "stoi"
  | Some z => if (INT_MIN <=? z) && (z <=? INT_MAX) then Ret z else Throw "stoi"
  end.
End Stoi.

(** ** The database *)
(** a line on standard output or on standard error, or the prompt *)
Inductive output := Out (line : string) | Err (line : string) | Prompt.

Record MiniDB (St : Type) := mkDB {
  db_ctx : ExecutionContext St;
  db_txns : TxnStore;
  db_log : LogManager;
  db_out : list output;
}.
Arguments mkDB {St}.
Arguments db_ctx {St}.
Arguments db_txns {St}.
Arguments db_log {St}.
Arguments db_out {St}.

(** The members of a [MiniDB] that has just been constructed over a store and
    an opened log. *)
Definition fresh {St} (s : St) (l : LogManager) : MiniDB St :=
  mkDB (mkCtx s ∅ ∅) (mkTS Txn.init Lock.init) l [].

Module Engine.
Section engine.
Context {St : Type} `{!PageStore St} (grow : nat -> nat) (log2 : double -> double).
Abbreviation DB := (M (MiniDB St)).

Definition on_ctx {A} : M (ExecutionContext St) A -> DB A :=
  zoom db_ctx (fun c d => mkDB c (db_txns d) (db_log d) (db_out d)).
Definition on_txns {A} : M TxnStore A -> DB A :=
  zoom db_txns (fun t d => mkDB (db_ctx d) t (db_log d) (db_out d)).
Definition on_log {A} : M LogManager A -> DB A :=
  zoom db_log (fun l d => mkDB (db_ctx d) (db_txns d) l (db_out d)).
Definition emit (o : output) : DB unit :=
  modify (fun d => mkDB (db_ctx d) (db_txns d) (db_log d) (db_out d ++ [o])).
Definition out (line : string) : DB unit := emit (Out line).
Definition err (line : string) : DB unit := emit (Err line).

Definition getTable (name : string) : DB (option TableInfo) :=
  gets (fun d => Cat.getTable name (ec_catalog (db_ctx d))).
Definition no_table (name : string) : DB unit :=
  err ("Error: table '" +:+ name +:+ "' does not exist.").
Definition no_column (name : string) : DB unit :=
  err ("Error: column '" +:+ name +:+ "' not found.").

(** ** CREATE TABLE *)
Definition schema_of (columns : list ColumnDef) : Schema :=
  foldl (fun s c =>
    Schema.addColumn s (mkColumn (cd_name c) (if String.eqb (cd_type c) "INT" then INT else TEXT)))
    [] columns.

Definition executeCreateTable (stmt : Statement) : DB unit :=
  let name := st_tableName stmt in
  d <- get ;;
  if Cat.tableExists name (ec_catalog (db_ctx d)) then
    err ("Error: table '" +:+ name +:+ "' already exists.")
  else
    let schema := schema_of (st_columns stmt) in
    fileId <- on_ctx (Exec.on_store (Heap.createTable name)) ;;
    on_ctx (modify (fun c => Exec.set_catalog (Cat.addTable name schema fileId (ec_catalog c)) c)) ;;
    on_ctx (modify (Exec.setIndex name (BTree.init 128))) ;;
    out ("Table '" +:+ name +:+ "' created with " +:+ pretty (Schema.columnCount schema) +:+ " columns.").

(** ** INSERT *)

(** The conversion loop from column [i] on: the values, or the name of the
    first INT column whose text is no integer. *)
Fixpoint convert (s : Schema) (i : nat) (texts : list string) : outcome (string + list value) :=
  match texts with
  | [] => Ret (inr [])
  | text :: rest =>
      c <~ Schema.getColumn s i ;;
      let tail (v : value) :=
        r <~ convert s (S i) rest ;;
        Ret (match r with inl e => inl e | inr vs => inr (v :: vs) end) in
      match col_type c with
      | INT => match Stoi.stoi text with
               | Ret z => tail (VInt z)
               | Throw _ => Ret (inl (col_name c))
               | Undef => Undef
               end
      | TEXT => tail (VText text)
      end
  end.

Definition executeInsert (stmt : Statement) : DB unit :=
  let name := st_tableName stmt in
  info <- getTable name ;;
  match info with
  | None => no_table name
  | Some info =>
      let schema := ti_schema info in
      if negb (length (st_values stmt) =? Schema.columnCount schema)%nat then
        err ("Error: expected " +:+ pretty (Schema.columnCount schema) +:+ " values, got "
             +:+ pretty (length (st_values stmt)) +:+ ".")
      else
        r <- lift (convert schema 0 (st_values stmt)) ;;
        match r with
        | inl col => err ("Error: expected integer for column '" +:+ col +:+ "'.")
        | inr values =>
            txnId <- on_txns Txn.begin ;;
            on_log (Wal.logBegin txnId) ;;
            e <- on_ctx (Insert.init grow (Insert.new name values)) ;;
            lift (Insert.next e) ;;
            on_log (Wal.logCommit txnId) ;;
            on_txns (Txn.commit txnId) ;;
            on_ctx (Exec.updateRowCount name (fun n => u32 (n + 1))) ;;
            out ("Inserted 1 row into '" +:+ name +:+ "'.")
        end
  end.

(** ** WHERE *)

(** [try { ... } catch (...) { return false; }] *)
Definition catch_false (o : outcome bool) : outcome bool :=
  match o with Throw _ => Ret false | o => o end.

(** the lambda of a WHERE clause *)
Definition where_test (colIdx : nat) (colType : DataType) (whereVal : string) (t : Tuple) : outcome bool :=
  if (Tuple.size t <=? colIdx)%nat then Ret false
  else
    v <~ Tuple.getValue t colIdx ;;
    match colType with
    | INT => catch_false (a <~ Value.asInt v ;; b <~ Stoi.stoi whereVal ;; Ret (a =? b))
    | TEXT => a <~ Value.asText v ;; Ret (String.eqb a whereVal)
    end.

(** The predicate of a statement; [None] when its column is not found. *)
Definition where_predicate (schema : Schema) (stmt : Statement) : outcome (option predicate) :=
  if hasWhere stmt then
    let colIdx := Schema.findColumn schema (wh_column (st_where stmt)) in
    if colIdx <? 0 then Ret None
    else
      c <~ Schema.getColumn schema (Z.to_nat colIdx) ;;
      Ret (Some (Some (where_test (Z.to_nat colIdx) (col_type c) (wh_value (st_where stmt)))))
  else Ret (Some None).

(** ** SELECT *)
Fixpoint resolve_columns (schema : Schema) (cols : list string) : string + list (string * Z) :=
  match cols with
  | [] => inr []
  | col :: rest =>
      let idx := Schema.findColumn schema col in
      if idx <? 0 then inl col
      else match resolve_columns schema rest with inl e => inl e | inr l => inr ((col, idx) :: l) end
  end.
(** [outputCols] and [outputIndices], in step *)
Definition output_columns (schema : Schema) (stmt : Statement) : string + list (string * Z) :=
  if selectAll stmt || bool_decide (selectColumns stmt = []) then
    inr (imap (fun i c => (col_name c, i32 (Z.of_nat i))) schema)
  else resolve_columns schema (selectColumns stmt).

(** [std::setw(15) << std::left] *)
Definition cell (s : string) : string := s +:+ spaces (15 - String.length s) +:+ "|".
Definition rule (n : nat) : string := "+" +:+ String.concat EmptyString (repeat "---------------+"%string n).
Definition header (cols : list string) : string := "|" +:+ String.concat EmptyString (map cell cols).

Fixpoint row_cells (idxs : list Z) (t : Tuple) : outcome string :=
  match idxs with
  | [] => Ret EmptyString
  | idx :: rest =>
      if (Z.to_nat idx <? Tuple.size t)%nat then
        v <~ Tuple.getValue t (Z.to_nat idx) ;;
        r <~ row_cells rest t ;; Ret (cell (Value.toString v) +:+ r)
      else row_cells rest t
  end.

(** [while (scanExec.next(tuple))], from [rowCount = n] on *)
Fixpoint print_rows {E} `{!Executor St E} (fuel : nat) (idxs : list Z) (e : E) (n : Z) : DB Z :=
  match fuel with
  | O => undef
  | S fuel' =>
      r <- lift (ex_next St e) ;;
      match r.1 with
      | None => ret n
      | Some t =>
          line <- lift (row_cells idxs t) ;;
          out ("|" +:+ line) ;;
          n' <- lift (int_succ n) ;;
          print_rows fuel' idxs r.2 n'
      end
  end.

Definition executeSelect (stmt : Statement) : DB unit :=
  let name := st_tableName stmt in
  info <- getTable name ;;
  match info with
  | None => no_table name
  | Some info =>
      let schema := ti_schema info in
      p <- lift (where_predicate schema stmt) ;;
      match p with
      | None => no_column (wh_column (st_where stmt))
      | Some p =>
          e <- on_ctx (SeqScan.init (SeqScan.new name p)) ;;
          match output_columns schema stmt with
          | inl col => no_column col
          | inr cols =>
              out (rule (length cols)) ;;
              out (header cols.*1) ;;
              out (rule (length cols)) ;;
              n <- print_rows (S (ex_left St e)) cols.*2 e 0 ;;
              out (rule (length cols)) ;;
              out (pretty n +:+ " row(s) returned.")
          end
      end
  end.

(** ** DELETE *)
Definition executeDelete (stmt : Statement) : DB unit :=
  let name := st_tableName stmt in
  info <- getTable name ;;
  match info with
  | None => no_table name
  | Some info =>
      p <- lift (where_predicate (ti_schema info) stmt) ;;
      match p with
      | None => no_column (wh_column (st_where stmt))
      | Some p =>
          txnId <- on_txns Txn.begin ;;
          on_log (Wal.logBegin txnId) ;;
          e <- on_ctx (Delete.init (Delete.new name p)) ;;
          r <- lift (Delete.next e) ;;
          on_log (Wal.logCommit txnId) ;;
          on_txns (Txn.commit txnId) ;;
          v <- lift (Tuple.getValue (default [] r.1) 0) ;;
          deleted <- lift (Value.asInt v) ;;
          out ("Deleted " +:+ pretty deleted +:+ " row(s) from '" +:+ name +:+ "'.")
      end
  end.

(** ** One line of input *)
Definition executePlan (plan : PlanNode) (stmt : Statement) : DB unit :=
  match pl_type plan with
  | INSERT_OP => executeInsert stmt
  | DELETE_OP => executeDelete stmt
  | SEQ_SCAN | INDEX_SCAN | PROJECTION => executeSelect stmt
  | _ => err "Error: unsupported plan node type."
  end.

(** [execute] from the statement on *)
Definition run_statement (stmt : Statement) : DB unit :=
  if decide (st_type stmt = CREATE_TABLE) then executeCreateTable stmt
  else
    d <- get ;;
    plan <- lift (Opt.optimize log2 stmt (ec_catalog (db_ctx d))) ;;
    match plan with
    | None => err "Error: optimizer returned no plan."
    | Some plan => executePlan plan stmt
    end.

(** The constructor of the lexer prints a line; of exceptions, only those of
    the parser are caught. *)
Definition execute (sql : string) : DB unit :=
  out "Initializing lexer..." ;;
  tokens <- lift (Lex.handleInput sql) ;;
  match Parse.parse tokens with
  | Ret stmt => run_statement stmt
  | Throw e => err ("Parse Error: " +:+ e)
  | Undef => undef
  end.
End engine.
End Engine.
