(* ===== verification/Sql.v ===== *)
(** * What a statement means

    The relational specification of the engine: a database maps the names of its
    tables to a schema and a bag of rows, and a statement takes a database to
    a database and the lines it prints. It knows nothing of pages, slots, the
    cache, transactions or the log. The keys that a table's index holds are part
    of it, since they limit what an insertion can do. *)
From stdpp Require Import base numbers list strings gmap pretty.
From Stdlib Require Import ZArith Lia.
From S2P Require Import Prelude Common Codec Rows Parser Executor Engine.

Record Table := mkTable { tb_schema : Schema; tb_rows : list Tuple; tb_keys : gset Z }.
Abbreviation Database := (gmap string Table).

(** ** Values *)
Definition int_of_text (text : string) : option Z :=
  match Stoi.stoi text with Ret z => Some z | _ => None end.
Definition value_of_text (ty : DataType) (text : string) : option value :=
  match ty with INT => VInt <$> int_of_text text | TEXT => Some (VText text) end.

(** The row of some texts, or the first column that its text does not fit. *)
Fixpoint typed_row (sch : Schema) (texts : list string) : string + Tuple :=
  match sch, texts with
  | c :: sch', x :: texts' =>
      match value_of_text (col_type c) x with
      | None => inl (col_name c)
      | Some v => match typed_row sch' texts' with inl e => inl e | inr t => inr (v :: t) end
      end
  | _, _ => inr []
  end.

(** ** Conditions and columns *)

(** The row's value in the column is the one the text denotes for its type. *)
Definition satisfies (sch : Schema) (s : Statement) (t : Tuple) : bool :=
  if hasWhere s then
    match column_index sch (wh_column (st_where s)) with
    | None => false
    | Some i =>
        match sch !! i with
        | None => false
        | Some c => bool_decide (t !! i = value_of_text (col_type c) (wh_value (st_where s))
                                 /\ is_Some (t !! i))
        end
    end
  else true.
Definition condition_ok (sch : Schema) (s : Statement) : Prop :=
  hasWhere s = true -> is_Some (column_index sch (wh_column (st_where s))).

(** the names and positions of the columns that a SELECT lists *)
Definition star (s : Statement) : bool := selectAll s || bool_decide (selectColumns s = []).
Definition chosen (sch : Schema) (s : Statement) : list string :=
  if star s then col_name <$> sch else selectColumns s.
Definition positions (sch : Schema) (s : Statement) : list nat :=
  if star s then seq 0 (length sch) else omap (column_index sch) (selectColumns s).
Definition columns_ok (sch : Schema) (s : Statement) : Prop :=
  star s = false -> Forall (fun c => is_Some (column_index sch c)) (selectColumns s).

(** ** Lines *)
Definition row_line (idxs : list nat) (t : Tuple) : output :=
  Out ("|" +:+ String.concat EmptyString (map (fun v => Engine.cell (Value.toString v)) (pick idxs t))).
Definition listing (cols : list string) (idxs : list nat) (rows : list Tuple) : list output :=
  [Out (Engine.rule (length cols)); Out (Engine.header cols); Out (Engine.rule (length cols))]
  ++ map (row_line idxs) rows
  ++ [Out (Engine.rule (length cols)); Out (pretty (Z.of_nat (length rows)) +:+ " row(s) returned.")].

Definition msg_exists (n : string) := Err ("Error: table '" +:+ n +:+ "' already exists.").
Definition msg_missing (n : string) := Err ("Error: table '" +:+ n +:+ "' does not exist.").
Definition msg_column (c : string) := Err ("Error: column '" +:+ c +:+ "' not found.").
Definition msg_created (n : string) (k : nat) :=
  Out ("Table '" +:+ n +:+ "' created with " +:+ pretty k +:+ " columns.").
Definition msg_arity (k m : nat) :=
  Err ("Error: expected " +:+ pretty k +:+ " values, got " +:+ pretty m +:+ ".").
Definition msg_integer (c : string) := Err ("Error: expected integer for column '" +:+ c +:+ "'.").
Definition msg_inserted (n : string) := Out ("Inserted 1 row into '" +:+ n +:+ "'.").
Definition msg_deleted (k : nat) (n : string) :=
  Out ("Deleted " +:+ pretty (Z.of_nat k) +:+ " row(s) from '" +:+ n +:+ "'.").

(** ** Index keys: a row's key is its first value, when that is an INT; a
    negative key stays when its row goes. *)
Definition key_set (t : Tuple) : gset Z :=
  match Insert.key_of t with Some k => {[k]} | None => ∅ end.
Definition lost_keys (gone : list Tuple) : gset Z :=
  list_to_set (filter (fun k => 0 <= k) (omap Insert.key_of gone)).

(** ** Statements *)
Inductive sql_step (s : Statement) (db : Database) : list output -> Database -> Prop :=
  | sql_create_exists t :
      st_type s = CREATE_TABLE -> db !! st_tableName s = Some t ->
      sql_step s db [msg_exists (st_tableName s)] db
  | sql_create sch :
      st_type s = CREATE_TABLE -> db !! st_tableName s = None ->
      sch = Engine.schema_of (st_columns s) ->
      sql_step s db [msg_created (st_tableName s) (length sch)]
        (<[st_tableName s := mkTable sch [] ∅]> db)
  | sql_missing :
      st_type s <> CREATE_TABLE -> db !! st_tableName s = None ->
      sql_step s db [msg_missing (st_tableName s)] db
  | sql_insert_arity t :
      st_type s = INSERT -> db !! st_tableName s = Some t ->
      length (st_values s) <> length (tb_schema t) ->
      sql_step s db [msg_arity (length (tb_schema t)) (length (st_values s))] db
  | sql_insert_integer t c :
      st_type s = INSERT -> db !! st_tableName s = Some t ->
      length (st_values s) = length (tb_schema t) -> typed_row (tb_schema t) (st_values s) = inl c ->
      sql_step s db [msg_integer c] db
  | sql_insert t row :
      st_type s = INSERT -> db !! st_tableName s = Some t ->
      length (st_values s) = length (tb_schema t) -> typed_row (tb_schema t) (st_values s) = inr row ->
      sql_step s db [msg_inserted (st_tableName s)]
        (<[st_tableName s := mkTable (tb_schema t) (row :: tb_rows t) (key_set row ∪ tb_keys t)]> db)
  | sql_bad_condition t :
      st_type s = SELECT \/ st_type s = DELETE_STMT -> db !! st_tableName s = Some t ->
      ~ condition_ok (tb_schema t) s ->
      sql_step s db [msg_column (wh_column (st_where s))] db
  | sql_bad_column t c before after :
      st_type s = SELECT -> db !! st_tableName s = Some t -> condition_ok (tb_schema t) s ->
      star s = false -> selectColumns s = before ++ c :: after ->
      Forall (fun c => is_Some (column_index (tb_schema t) c)) before -> column_index (tb_schema t) c = None ->
      sql_step s db [msg_column c] db
  | sql_select t rows :
      st_type s = SELECT -> db !! st_tableName s = Some t ->
      condition_ok (tb_schema t) s -> columns_ok (tb_schema t) s ->
      rows ≡ₚ filter (fun r => satisfies (tb_schema t) s r = true) (tb_rows t) ->
      sql_step s db (listing (chosen (tb_schema t) s) (positions (tb_schema t) s) rows) db
  | sql_delete t gone kept :
      st_type s = DELETE_STMT -> db !! st_tableName s = Some t -> condition_ok (tb_schema t) s ->
      gone = filter (fun r => satisfies (tb_schema t) s r = true) (tb_rows t) ->
      kept = filter (fun r => satisfies (tb_schema t) s r = false) (tb_rows t) ->
      sql_step s db [msg_deleted (length gone) (st_tableName s)]
        (<[st_tableName s := mkTable (tb_schema t) kept (tb_keys t ∖ lost_keys gone)]> db).

Lemma sql_create_inv s db lines db' :
  sql_step s db lines db' -> st_type s = CREATE_TABLE -> db !! st_tableName s = None ->
  lines = [msg_created (st_tableName s) (length (Engine.schema_of (st_columns s)))] /\
  db' = <[st_tableName s := mkTable (Engine.schema_of (st_columns s)) [] ∅]> db.
Proof.
  intros Hs Hty Hdb. destruct Hs as [t _ E|sch _ _ ->|E|t E|t c E|t row E|t [E|E]|t c b a E|t rows E|t g k E];
    try congruence. done.
Qed.

(** ** Well-typed databases *)
Definition row_typed (sch : Schema) (t : Tuple) : Prop := Tuple.matchesSchema t sch = true.
Definition table_typed (t : Table) : Prop := Forall (row_typed (tb_schema t)) (tb_rows t).
Definition db_typed (db : Database) : Prop := map_Forall (fun _ t => table_typed t) db.

Lemma row_typed_cons c sch v t :
  row_typed (c :: sch) (v :: t) <-> Value.type v = col_type c /\ row_typed sch t.
Proof.
  unfold row_typed, Tuple.matchesSchema, Tuple.size, Schema.columnCount. simpl.
  split.
  - intros H. case_decide as E; [|done]. case_decide as E2; [|done]. split; [done|].
    by rewrite decide_True by lia.
  - intros [Ht H]. case_decide as E; [|done]. rewrite decide_True by lia. by rewrite decide_True.
Qed.
Lemma row_typed_nil : row_typed [] [].
Proof. reflexivity. Qed.
Lemma row_typed_length sch t : row_typed sch t -> length t = length sch.
Proof. unfold row_typed, Tuple.matchesSchema. case_decide; done. Qed.
Lemma row_typed_lookup sch t i c :
  row_typed sch t -> sch !! i = Some c -> exists v, t !! i = Some v /\ Value.type v = col_type c.
Proof.
  revert t i. induction sch as [|c' sch IH]; intros t i Ht Hi; [done|].
  destruct t as [|v t]; [by apply row_typed_length in Ht|]. apply row_typed_cons in Ht as [Hv Ht].
  destruct i as [|i]; [|by apply (IH t i)]. injection Hi as ->. by exists v.
Qed.

Lemma typed_row_typed sch texts t :
  length texts = length sch -> typed_row sch texts = inr t -> row_typed sch t.
Proof.
  revert texts t. induction sch as [|c sch IH]; intros [|x texts] t Hlen; try done; simpl.
  { intros [= <-]. apply row_typed_nil. }
  destruct (value_of_text (col_type c) x) as [v|] eqn:Hv; [|done].
  destruct (typed_row sch texts) as [e|t'] eqn:Ht; [done|]. intros [= <-].
  apply row_typed_cons. split; [|apply (IH texts); [by injection Hlen|done]].
  unfold value_of_text in Hv. destruct (col_type c); [|by injection Hv as <-].
  by destruct (int_of_text x); [injection Hv as <-|].
Qed.

(** Every statement keeps the rows of the schema's types. *)
Lemma sql_step_typed s db lines db' : sql_step s db lines db' -> db_typed db -> db_typed db'.
Proof.
  intros Hs Hdb. unfold db_typed in *.
  assert (Hins : forall n t, table_typed t -> map_Forall (fun _ t => table_typed t) (<[n := t]> db)).
  { intros n t Ht. by apply map_Forall_insert_2. }
  destruct Hs as [| |?|?| |t row _ Ht Hlen Hrow|?|?|?|t gone kept _ Ht _ _ ->]; try done; apply Hins.
  - constructor.
  - apply Hdb in Ht. constructor; [|exact Ht]. by eapply typed_row_typed.
  - apply Hdb in Ht. unfold table_typed in *. simpl. rewrite Forall_forall in *.
    intros r [_ Hr]%list_elem_of_filter. by apply Ht.
Qed.
