(* ===== verification/EngineRun.v ===== *)
(** * What the engine's helpers compute

    The conversions, predicates, column lists and printing loops of the engine,
    against the specification of Sql.v. *)
From stdpp Require Import base numbers list sorting strings gmap pretty.
From Stdlib Require Import ZArith Lia.
From S2P Require Import Prelude Bytes Common Disk PageStore Heap HeapTable Catalog Codec Rows BTree Locks LockGraph LockSafety Txn Wal Lexer Parser Optimizer Executor ExecSpec ExecRun Engine Sql.

(** ** CREATE TABLE: the schema *)
Lemma schema_of_length columns : length (Engine.schema_of columns) = length columns.
Proof.
  unfold Engine.schema_of. change (length columns) with (length ([] : Schema) + length columns)%nat.
  generalize ([] : Schema) as acc.
  induction columns as [|c columns IH]; intros acc; cbn [foldl length]; [lia|]. rewrite IH.
  unfold Schema.addColumn. rewrite length_app. simpl. lia.
Qed.

(** ** INSERT: the conversion *)
Lemma convert_suffix sch : forall pre texts,
  length texts = length sch ->
  Engine.convert (pre ++ sch) (length pre) texts = Ret (typed_row sch texts).
Proof.
  induction sch as [|c sch IH]; intros pre [|x texts] Hlen; try done. simpl.
  assert (Schema.getColumn (pre ++ c :: sch) (length pre) = Ret c) as ->.
  { unfold Schema.getColumn. by rewrite list_lookup_middle. }
  assert (Htail : Engine.convert (pre ++ c :: sch) (S (length pre)) texts = Ret (typed_row sch texts)).
  { specialize (IH (pre ++ [c]) texts). rewrite <- app_assoc, length_app in IH. simpl in IH.
    replace (length pre + 1)%nat with (S (length pre)) in IH by lia. apply IH. by injection Hlen. }
  cbn [obind]. unfold value_of_text, int_of_text. destruct (col_type c).
  - destruct (Stoi.stoi x) as [z|e|] eqn:Hz; cbn [fmap option_fmap option_map]; [|done|].
    + rewrite Htail. by destruct (typed_row sch texts).
    + unfold Stoi.stoi in Hz. destruct (Stoi.strtol x); [by destruct (_ && _)|done].
  - rewrite Htail. by destruct (typed_row sch texts).
Qed.
Lemma convert_typed sch texts :
  length texts = length sch -> Engine.convert sch 0 texts = Ret (typed_row sch texts).
Proof. apply (convert_suffix sch []). Qed.

(** ** WHERE: the predicate *)
Lemma column_index_lookup sch name i :
  column_index sch name = Some i -> exists c, sch !! i = Some c.
Proof. intros Hi. apply lookup_lt_is_Some_2. by eapply column_index_lt. Qed.

Lemma where_test_satisfies sch s t i c :
  hasWhere s = true -> column_index sch (wh_column (st_where s)) = Some i -> sch !! i = Some c ->
  row_typed sch t ->
  Engine.where_test i (col_type c) (wh_value (st_where s)) t = Ret (satisfies sch s t).
Proof.
  intros Hw Hi Hc Ht. unfold satisfies. rewrite Hw, Hi, Hc.
  destruct (row_typed_lookup sch t i c Ht Hc) as (v & Hv & Hty). rewrite Hv.
  pose proof (lookup_lt_Some _ _ _ Hv) as Hlt. unfold Engine.where_test, Tuple.size, Tuple.getValue.
  destruct (Nat.leb_spec (length t) i); [lia|]. rewrite Hv. cbn [obind].
  unfold value_of_text, int_of_text. destruct v as [z|x]; simpl in Hty; rewrite <- Hty; simpl.
  - destruct (Stoi.stoi (wh_value (st_where s))) as [z'|e|] eqn:Hz; simpl.
    + f_equal. destruct (Z.eqb_spec z z') as [->|Hne].
      * symmetry. apply bool_decide_eq_true. by split; [|eexists].
      * symmetry. apply bool_decide_eq_false. intros [[= ?] _]. done.
    + reflexivity.
    + unfold Stoi.stoi in Hz. destruct (Stoi.strtol _); [by destruct (_ && _)|done].
  - f_equal. destruct (String.eqb_spec x (wh_value (st_where s))) as [->|Hne].
    + symmetry. apply bool_decide_eq_true. by split; [|eexists].
    + symmetry. apply bool_decide_eq_false. intros [[= ?] _]. done.
Qed.

Lemma where_predicate_spec sch s :
  Z.of_nat (length sch) <= INT_MAX ->
  (~ condition_ok sch s /\ Engine.where_predicate sch s = Ret None) \/
  (condition_ok sch s /\ exists p, Engine.where_predicate sch s = Ret (Some p) /\
     forall l : rows, Forall (fun x => row_typed sch x.2) l -> decides p (satisfies sch s) l).
Proof.
  intros Hlen. unfold Engine.where_predicate. destruct (hasWhere s) eqn:Hw.
  - rewrite findColumn_index by done.
    destruct (column_index sch (wh_column (st_where s))) as [i|] eqn:Hi.
    + right. split; [intros _; by rewrite Hi|]. destruct (Z.ltb_spec (Z.of_nat i) 0); [lia|].
      rewrite Nat2Z.id. destruct (column_index_lookup _ _ _ Hi) as (c & Hc).
      unfold Schema.getColumn. rewrite Hc. cbn [obind]. eexists. split; [done|].
      intros l Hl. unfold decides. eapply Forall_impl; [exact Hl|]. intros x Hx.
      by apply where_test_satisfies.
    + left. split; [|done]. intros Hok. pose proof (Hok Hw) as Hs. rewrite Hi in Hs. by destruct Hs.
  - right. split; [by intros ?; congruence|]. eexists. split; [done|]. intros l Hl. unfold decides.
    apply Forall_forall. intros x _. unfold satisfies. by rewrite Hw.
Qed.

(** ** SELECT: the columns *)
Lemma imap_snd {A B} (f : nat -> A -> B) (g : nat -> Z) l :
  (imap (fun i x => (f i x, g i)) l).*2 = map g (seq 0 (length l)).
Proof.
  apply list_eq. intros i. rewrite list_lookup_fmap, list_lookup_imap.
  rewrite list_lookup_fmap. destruct (l !! i) as [x|] eqn:Hx; simpl.
  - by rewrite lookup_seq_lt by (by eapply lookup_lt_Some).
  - by rewrite lookup_seq_ge by (by apply lookup_ge_None).
Qed.
Lemma imap_fst {A B} (f : A -> B) (g : nat -> Z) l : (imap (fun i x => (f x, g i)) l).*1 = f <$> l.
Proof.
  apply list_eq. intros i. rewrite !list_lookup_fmap, list_lookup_imap. by destruct (l !! i).
Qed.

Lemma resolve_columns_spec sch cols :
  Z.of_nat (length sch) <= INT_MAX ->
  (exists l, Engine.resolve_columns sch cols = inr l /\ l.*1 = cols /\
     l.*2 = map Z.of_nat (omap (column_index sch) cols) /\ Forall (fun c => is_Some (column_index sch c)) cols) \/
  (exists before c after, Engine.resolve_columns sch cols = inl c /\ cols = before ++ c :: after /\
     Forall (fun c => is_Some (column_index sch c)) before /\ column_index sch c = None).
Proof.
  intros Hlen. induction cols as [|c cols IH]; simpl; [left; by exists []|].
  rewrite findColumn_index by done. destruct (column_index sch c) as [i|] eqn:Hi.
  - destruct (Z.ltb_spec (Z.of_nat i) 0); [lia|].
    destruct IH as [(l & -> & H1 & H2 & H3)|(before & c' & after & -> & -> & H1 & H2)].
    + left. exists ((c, Z.of_nat i) :: l). split; [done|]. rewrite !fmap_cons, H1, H2. cbn [fst snd].
      split_and!; [done| |by constructor]. done.
    + right. exists (c :: before), c', after. split_and!; [done..| |done]. by constructor.
  - right. exists [], c, cols. by split_and!.
Qed.

Lemma output_columns_spec sch s :
  Z.of_nat (length sch) <= INT_MAX ->
  (exists l, Engine.output_columns sch s = inr l /\ l.*1 = chosen sch s /\
     l.*2 = map Z.of_nat (positions sch s) /\ columns_ok sch s) \/
  (star s = false /\ exists before c after, Engine.output_columns sch s = inl c /\
     selectColumns s = before ++ c :: after /\
     Forall (fun c => is_Some (column_index sch c)) before /\ column_index sch c = None).
Proof.
  intros Hlen. unfold Engine.output_columns, chosen, positions, columns_ok. fold (star s).
  destruct (star s).
  - left. eexists. split; [done|]. rewrite imap_fst, (imap_snd (fun _ => col_name)).
    split_and!; [done| |done]. apply map_ext_in. intros i [_ Hi]%in_seq. apply i32_small. unfold_int. lia.
  - destruct (resolve_columns_spec sch (selectColumns s) Hlen) as [(l & -> & H1 & H2 & H3)|H].
    + left. by exists l.
    + right. split; [done|exact H].
Qed.

Lemma positions_lt sch s i : i ∈ positions sch s -> (i < length sch)%nat.
Proof.
  unfold positions. destruct (star s).
  - intros [_ Hi]%elem_of_seq. lia.
  - intros (c & _ & Hi)%list_elem_of_omap. by eapply column_index_lt.
Qed.

(** ** SELECT: the lines *)
Lemma concat_cons x l : String.concat EmptyString (x :: l) = x +:+ String.concat EmptyString l.
Proof. destruct l; [|reflexivity]. simpl. induction x as [|c x IH]; [done|]. 
  change (String c x = String c (x +:+ EmptyString)). by rewrite <- IH. Qed.

Lemma row_cells_spec t idxs :
  Forall (fun i => (i < length t)%nat) idxs ->
  Engine.row_cells (map Z.of_nat idxs) t =
    Ret (String.concat EmptyString (map (fun v => Engine.cell (Value.toString v)) (pick idxs t))).
Proof.
  induction 1 as [|i idxs Hi _ IH]; [done|]. cbn [map Engine.row_cells]. rewrite Nat2Z.id. unfold Tuple.size.
  destruct (Nat.ltb_spec i (length t)); [|lia]. destruct (lookup_lt_is_Some_2 t i Hi) as (v & Hv).
  unfold Tuple.getValue. rewrite Hv. cbn [obind]. rewrite IH. cbn [obind].
  assert (pick (i :: idxs) t = v :: pick idxs t) as ->; [|by rewrite <- concat_cons].
  unfold pick. change (omap (fun i => t !! i) (i :: idxs))
    with (match t !! i with Some v => v :: omap (fun i => t !! i) idxs | None => omap (fun i => t !! i) idxs end).
  by rewrite Hv.
Qed.

Section printing.
Context {St E : Type} `{!Executor St E, !ExecutorSpec St E}.
Implicit Types (d : MiniDB St).

Definition printed d (ls : list output) : MiniDB St :=
  mkDB (db_ctx d) (db_txns d) (db_log d) (db_out d ++ ls).

Lemma printed_app d l1 l2 : printed (printed d l1) l2 = printed d (l1 ++ l2).
Proof. unfold printed. simpl. by rewrite app_assoc. Qed.
Lemma printed_nil d : printed d [] = d.
Proof. unfold printed. rewrite app_nil_r. by destruct d. Qed.

Lemma print_rows_runs idxs l : forall (e : E) fuel n d,
  ex_ok St e -> ex_rest St e = l -> (length l < fuel)%nat ->
  Forall (fun t => Forall (fun i => (i < length t)%nat) idxs) l ->
  n + Z.of_nat (length l) <= INT_MAX ->
  runs (Engine.print_rows fuel (map Z.of_nat idxs) e n) d (n + Z.of_nat (length l))
    (printed d (map (row_line idxs) l)).
Proof.
  induction l as [|t l IH]; intros e fuel n d Hok Hl Hf Hidx Hmax; (destruct fuel as [|fuel]; [simpl in Hf; lia|]).
  - destruct (ex_next_nil e Hok Hl) as (e' & Hn & _). cbn [Engine.print_rows].
    eapply runs_bind; [unfold runs, lift; by rewrite Hn|]. simpl. rewrite Z.add_0_r, printed_nil. done.
  - destruct (ex_next_cons e t l Hok Hl) as (e' & Hn & Hok' & Hl' & _). cbn [Engine.print_rows].
    apply Forall_cons in Hidx as [Ht Hidx]. rewrite length_cons in *.
    eapply runs_bind; [unfold runs, lift; by rewrite Hn|]. cbn [fst snd].
    eapply runs_bind; [unfold runs, lift; by rewrite row_cells_spec|].
    eapply (runs_bind _ _ _ tt (printed d [row_line idxs t])); [done|].
    eapply (runs_bind _ _ _ (n + 1)); [unfold runs, lift, int_succ; by rewrite decide_True by lia|].
    change (map (row_line idxs) (t :: l)) with ([row_line idxs t] ++ map (row_line idxs) l).
    rewrite <- printed_app. replace (n + Z.of_nat (S (length l))) with (n + 1 + Z.of_nat (length l)) by lia.
    apply IH; [done|done|lia|done|lia].
Qed.
End printing.
