(* ===== verification/EngineShows.v ===== *)
(** * The database that a state of the engine represents

    [shows]: the state of the engine represents a database of Sql.v, each table
    by its catalog entry, its heap file and its index; and how each statement
    changes what it represents. *)
From stdpp Require Import base numbers list sorting strings gmap pretty.
From Stdlib Require Import ZArith Lia.
From Stdlib Require Import Floats.SpecFloat.
From S2P Require Import Prelude Bytes Common Disk PageStore Heap HeapTable Catalog Codec Rows BTree BTreeThms Locks LockGraph LockSafety Txn Wal Lexer Parser LexerThms ParserThms Optimizer Executor ExecSpec ExecRun Engine Sql EngineRun.

(** the keys one leaf of an index of order 128 holds *)
Definition LEAF_KEYS : Z := 127.

Section engine.
Context {St : Type} `{!PageStore St, !PageStoreSpec St} (grow : nat -> nat) (log2 : double -> double).
Implicit Types (c : ExecutionContext St) (d : MiniDB St) (db : Database) (name : string) (s : Statement).

(** ** The representation *)
Record table_shows c name (t : Table) : Prop := mk_table_shows {
  ts_repr : exists info l m, ctx_table c name info l /\ ti_schema info = tb_schema t /\
    l.*2 ≡ₚ tb_rows t /\ ctx_index c name m /\ dom m = tb_keys t;
  ts_room : exists tree, ec_indexes c !! name = Some tree /\ maxLeafKeys_ tree = LEAF_KEYS;
  ts_width : Z.of_nat (length (tb_schema t)) <= INT_MAX;
  ts_typed : table_typed t;
}.

Record ctx_shows c db : Prop := {
  cx_idle : ps_idle (ec_store c);
  cx_catalog : forall n, is_Some (ec_catalog c !! n) <-> is_Some (db !! n);
  cx_indexes : forall n, is_Some (ec_indexes c !! n) -> is_Some (db !! n);
  cx_table : forall n t, db !! n = Some t -> table_shows c n t;
  cx_files : forall n1 n2 i1 i2, ec_catalog c !! n1 = Some i1 -> ec_catalog c !! n2 = Some i2 ->
    ti_fileId i1 = ti_fileId i2 -> n1 = n2;
  cx_no_flag : forall n i, ec_catalog c !! n = Some i -> hasIndex i = false;
}.

(** Each node of an index was made by an insertion, in a transaction of its own,
    so the transaction ids bound the node indices. *)
Definition nodes_bound c (next : Z) : Prop := forall n, Z.of_nat (nodes_of c n) < next.
Definition nodes_grow c c' : Prop := forall n, (nodes_of c' n <= S (nodes_of c n))%nat.

Record shows d db : Prop := {
  sh_ctx : ctx_shows (db_ctx d) db;
  sh_txns : txns_ok (ts_txns (db_txns d));
  sh_nodes : nodes_bound (db_ctx d) (nextTxnId_ (ts_txns (db_txns d)));
}.

Lemma nodes_grow_step c c' name f :
  ctx_step c c' name f -> (nodes_of c' name <= S (nodes_of c name))%nat -> nodes_grow c c'.
Proof.
  intros Hstep Hn n. destruct (decide (n = name)) as [->|Hne]; [done|].
  unfold nodes_of. rewrite (cs_indexes _ _ _ _ Hstep) by done. case_match; lia.
Qed.

Lemma nodes_bound_grow c c' next : nodes_bound c next -> nodes_grow c c' -> nodes_bound c' (next + 1).
Proof. intros Hb Hg n. specialize (Hb n). specialize (Hg n). lia. Qed.
Lemma nodes_bound_same c c' next : nodes_bound c next -> ec_indexes c' = ec_indexes c -> nodes_bound c' next.
Proof. intros Hb He n. unfold nodes_of. rewrite He. apply Hb. Qed.
Lemma nodes_bound_create c c' next name order :
  nodes_bound c next -> ec_indexes c' = <[name := BTree.init order]> (ec_indexes c) -> nodes_bound c' next.
Proof.
  intros Hb He n. specialize (Hb n). unfold nodes_of in *. rewrite He, lookup_insert.
  case_decide; [simpl|done]. case_match; lia.
Qed.

(** A call on the store that changes no page. *)
Lemma ctx_shows_unchanged c c' db :
  ctx_shows c db -> unchanged (ec_store c) (ec_store c') ->
  ec_catalog c' = ec_catalog c -> ec_indexes c' = ec_indexes c -> ctx_shows c' db.
Proof.
  intros [Hi Hc Hx Ht Hf Hn] Hu Ec Ex. pose proof Hu as [Hi' _].
  split; rewrite ?Ec, ?Ex; try done. intros n t Hnt. destruct (Ht n t Hnt) as [(info & l & m & [Hcat Hh] & Hs & Hp & Hidx & Hd) Hr Hw Hty].
  split; [|by rewrite Ex|done|done]. exists info, l, m. split_and!; [|done|done| |done].
  - split; [by rewrite Ec|]. by eapply table_holds_unchanged.
  - destruct Hidx as (tree & Htr & Hsh). exists tree. by rewrite Ex.
Qed.

(** A call on one table, which represents another table afterwards. *)
Lemma ctx_shows_step c c' db name t t' info info' :
  ctx_shows c db -> db !! name = Some t -> ec_catalog c !! name = Some info ->
  ctx_step c c' name (ti_fileId info) -> ps_idle (ec_store c') ->
  ec_catalog c' !! name = Some info' -> ti_fileId info' = ti_fileId info -> hasIndex info' = false ->
  table_shows c' name t' -> ctx_shows c' (<[name := t']> db).
Proof.
  intros [Hi Hc Hx Ht Hf Hn] Hnt Hinfo Hstep Hi' Hinfo' Hfile Hflag Ht'. pose proof Hstep as [_ Hsc Hsx _].
  split.
  - done.
  - intros n. destruct (decide (n = name)) as [->|Hne].
    + rewrite Hinfo', lookup_insert_eq. split; intros _; by eexists.
    + by rewrite Hsc, lookup_insert_ne by done.
  - intros n. destruct (decide (n = name)) as [->|Hne]; [by rewrite lookup_insert_eq; intros _; eexists|].
    rewrite Hsx, lookup_insert_ne by done. apply Hx.
  - intros n u [[<- <-]|[Hne Hu]]%lookup_insert_Some; [done|].
    destruct (Ht n u Hu) as [(i & l & m & Htab & Hs & Hp & Hidx & Hd) Hr Hw Hty].
    assert (Hf' : ti_fileId i <> ti_fileId info).
    { intros E. apply Hne. symmetry. eapply Hf; [exact (proj1 Htab)|exact Hinfo|exact E]. }
    split; [|by rewrite Hsx|done|done]. exists i, l, m. split_and!; [|done|done| |done].
    + by eapply ctx_step_table.
    + destruct Hidx as (tree & Htr & Hsh). exists tree. by rewrite Hsx.
  - assert (Hback : forall n i, ec_catalog c' !! n = Some i ->
      exists i', ec_catalog c !! n = Some i' /\ ti_fileId i = ti_fileId i').
    { intros n i Hni. destruct (decide (n = name)) as [->|Hne].
      - exists info. split; [done|]. congruence.
      - exists i. by rewrite <- Hsc. }
    intros n1 n2 i1 i2 (j1 & H1 & E1)%Hback (j2 & H2 & E2)%Hback E. eapply Hf; [done..|congruence].
  - intros n i Hni. destruct (decide (n = name)) as [->|Hne]; [congruence|].
    rewrite Hsc in Hni by done. by eapply Hn.
Qed.

(** The row count of the catalog is not part of the database. *)
Lemma ctx_shows_rowCount c db name info n :
  ctx_shows c db -> ec_catalog c !! name = Some info ->
  ctx_shows (Exec.set_catalog (<[name := set_rowCount n info]> (ec_catalog c)) c) db.
Proof.
  intros Hc Hinfo. destruct (proj1 (cx_catalog _ _ Hc name)) as [t Ht]; [by eexists|].
  rewrite <- (insert_id db name t) by done.
  eapply ctx_shows_step; [exact Hc|exact Ht|exact Hinfo|apply ctx_step_catalog|apply Hc| | | |]; simpl.
  - apply lookup_insert_eq.
  - done.
  - simpl. by apply (cx_no_flag _ _ Hc name).
  - destruct (cx_table _ _ Hc name t Ht) as [(i & l & m & [Hcat Hh] & Hsch & Hp & Hidx & Hd) Hr Hw Hty].
    assert (i = info) as -> by congruence. split; [|done..]. exists (set_rowCount n info), l, m.
    split_and!; [split; [apply lookup_insert_eq|done]|done..].
Qed.

(** ** Reading the state *)
Lemma getTable_runs d name : runs (Engine.getTable name) d (ec_catalog (db_ctx d) !! name) d.
Proof. done. Qed.

Definition with_ctx c d : MiniDB St := mkDB c (db_txns d) (db_log d) (db_out d).

Lemma on_ctx_runs {A} (m : M (ExecutionContext St) A) d a c' :
  runs m (db_ctx d) a c' -> runs (Engine.on_ctx m) d a (with_ctx c' d).
Proof. unfold runs, Engine.on_ctx, zoom. by intros ->. Qed.
Lemma on_txns_runs {A} (m : M TxnStore A) d a t' :
  runs m (db_txns d) a t' -> runs (Engine.on_txns m) d a (mkDB (db_ctx d) t' (db_log d) (db_out d)).
Proof. unfold runs, Engine.on_txns, zoom. by intros ->. Qed.
Lemma on_log_runs {A} (m : M LogManager A) d a l' :
  runs m (db_log d) a l' -> runs (Engine.on_log m) d a (mkDB (db_ctx d) (db_txns d) l' (db_out d)).
Proof. unfold runs, Engine.on_log, zoom. by intros ->. Qed.
Lemma emit_runs o d : runs (Engine.emit o) d tt (printed d [o]).
Proof. done. Qed.

Lemma logBegin_runs id l : exists l', runs (Wal.logBegin id) l (nextLSN_ l) l'.
Proof. eexists. unfold runs, Wal.logBegin, Wal.appendLog, bind, get, put, ret. simpl. reflexivity. Qed.
Lemma logCommit_runs id l : exists l', runs (Wal.logCommit id) l (nextLSN_ l) l'.
Proof. eexists. unfold runs, Wal.logCommit, Wal.appendLog, bind, get, put, ret. simpl. reflexivity. Qed.

(** ** The keys of the index *)
Lemma add_key_dom m row rid : dom (add_key m (Insert.key_of row) rid) = key_set row ∪ dom m.
Proof.
  unfold add_key, key_set. destruct (Insert.key_of row) as [k|]; [|set_solver].
  destruct (m !! k) as [v|] eqn:Hk; [|by rewrite dom_insert_L].
  apply elem_of_dom_2 in Hk. set_solver.
Qed.

Lemma drop_keys_dom (l : list (RID * Z)) : forall m,
  dom (drop_keys m l) = dom m ∖ list_to_set (filter (fun k => 0 <= k) l.*2).
Proof.
  unfold drop_keys. induction l as [|x l IH]; intros m; simpl; [set_solver|].
  rewrite IH, filter_cons. destruct (Z.leb_spec 0 x.2).
  - rewrite decide_True by done. rewrite dom_delete_L. set_solver.
  - by rewrite decide_False by lia.
Qed.

Lemma row_keys (gone : rows) :
  filter (fun k => 0 <= k) (map pk_of gone).*2 = filter (fun k => 0 <= k) (omap Insert.key_of gone.*2).
Proof.
  induction gone as [|x gone IH]; [done|]. cbn [map]. rewrite !fmap_cons. cbn [omap list_omap].
  assert ((pk_of x).2 = default (-1) (Insert.key_of x.2)) as -> by done.
  destruct (Insert.key_of x.2) as [k|]; cbn [default from_option id].
  - rewrite !filter_cons. case_decide; by rewrite IH.
  - rewrite filter_cons, decide_False by lia. exact IH.
Qed.

Lemma selected_snd P (l : rows) : (selected P l).*2 = filter (fun t => P t = true) l.*2.
Proof.
  unfold selected. induction l as [|x l IH]; [done|]. rewrite fmap_cons, !filter_cons.
  case_decide; by rewrite ?fmap_cons, IH.
Qed.
Lemma unselected_snd P (l : rows) :
  (filter (fun x => P x.2 = false) l).*2 = filter (fun t => P t = false) l.*2.
Proof.
  induction l as [|x l IH]; [done|]. rewrite fmap_cons, !filter_cons. case_decide; by rewrite ?fmap_cons, IH.
Qed.

Lemma lost_keys_dom m (gone : rows) ts :
  gone.*2 ≡ₚ ts -> dom (drop_keys m (map pk_of gone)) = dom m ∖ lost_keys ts.
Proof.
  intros Hp. rewrite drop_keys_dom, row_keys. unfold lost_keys. f_equal.
  apply list_to_set_perm_L. by rewrite Hp.
Qed.

Lemma repr_typed (l : rows) t : l.*2 ≡ₚ tb_rows t -> table_typed t -> Forall (fun x => row_typed (tb_schema t) x.2) l.
Proof.
  intros Hp Ht. unfold table_typed in Ht. rewrite <- Hp in Ht. by rewrite Forall_fmap in Ht.
Qed.

(** ** The statements on the context *)
Lemma created_table c name sch f (s' : St) :
  table_ok s' f -> (forall r, lookup_row s' f r = None) -> Z.of_nat (length sch) <= INT_MAX ->
  table_shows (mkCtx s' (Cat.addTable name sch f (ec_catalog c)) (<[name := BTree.init 128]> (ec_indexes c)))
    name (mkTable sch [] ∅).
Proof.
  intros Htab Hrows Hlen. split; simpl; [|exists (BTree.init 128); by rewrite lookup_insert_eq|done|constructor].
  exists (mkInfo name sch f 0 false (-1)), [], ∅. split_and!; [split; simpl|done|done| |done].
  - apply lookup_insert_eq.
  - split; [done| |constructor]. apply table_rows_unique; [done|constructor|].
    intros r b. rewrite Hrows. split; [by intros ?%not_elem_of_nil|done].
  - exists (BTree.init 128). split; [apply lookup_insert_eq|by apply init_shows].
Qed.

Lemma create_shows c db name sch :
  ctx_shows c db -> db !! name = None -> ps_creatable (ec_store c) (name +:+ ".db") ->
  Z.of_nat (length sch) <= INT_MAX ->
  exists f (s' : St), runs (Heap.createTable name) (ec_store c) f s' /\
    ctx_shows (mkCtx s' (Cat.addTable name sch f (ec_catalog c)) (<[name := BTree.init 128]> (ec_indexes c)))
      (<[name := mkTable sch [] ∅]> db).
Proof.
  intros [Hi Hc Hx Ht Hf Hn] Hdb Hcr Hlen.
  destruct (createTable_runs (ec_store c) name Hi Hcr) as (f & s' & Hrun & Hnew & Htab & _ & Hrows & Hkept).
  exists f, s'. split; [done|]. unfold Cat.addTable. set (c1 := mkCtx s' _ _).
  assert (Hstep : ctx_step c c1 name f).
  { split; simpl; [done|intros; by apply lookup_insert_ne..|].
    intros tree Htree. destruct (Hx name) as [? ?]; [by eexists|congruence]. }
  assert (Hold : forall n i, ec_catalog c !! n = Some i -> ti_fileId i <> f).
  { intros n i Hni Hif. destruct (proj1 (Hc n)) as [u Hu]; [by eexists|]. apply Hnew.
    destruct (Ht n u Hu) as [(i' & l & m & [E Htb] & _) _ _ _]. assert (i' = i) as -> by congruence.
    rewrite <- Hif. apply (th_table _ _ _ _ Htb). }
  split; simpl.
  - apply Htab.
  - intros n. destruct (decide (n = name)) as [->|Hne].
    + rewrite !lookup_insert_eq. split; intros _; by eexists.
    + by rewrite !lookup_insert_ne by done.
  - intros n. destruct (decide (n = name)) as [->|Hne].
    + rewrite !lookup_insert_eq. intros _; by eexists.
    + rewrite !lookup_insert_ne by done. apply Hx.
  - intros n u [[<- <-]|[Hne Hu]]%lookup_insert_Some; [by apply created_table|].
    destruct (Ht n u Hu) as [(i & l & m & Htb & Hs & Hp & Hidx & Hdom) Hr Hw Hrt].
    split; [|by rewrite (cs_indexes _ _ _ _ Hstep)|done|done]. exists i, l, m. split_and!; [|done|done| |done].
    + eapply ctx_step_table; [exact Hstep|apply Htab|done| |done]. eapply Hold, Htb.
    + destruct Hidx as (tree & Htr & Hsh). exists tree. by rewrite (cs_indexes _ _ _ _ Hstep).
  - intros n1 n2 i1 i2 [[<- <-]|[Hn1 H1]]%lookup_insert_Some [[<- <-]|[Hn2 H2]]%lookup_insert_Some E;
      simpl in E; [done|by apply Hold in H2|by apply Hold in H1|by eapply Hf].
  - intros n i [[<- <-]|[Hne H]]%lookup_insert_Some; [done|by eapply Hn].
Qed.

Lemma insert_shows c db name t info row :
  ctx_shows c db -> db !! name = Some t -> ec_catalog c !! name = Some info ->
  row_typed (tb_schema t) row -> tuple_ok row -> row <> [] ->
  Z.of_nat (length (Codec.serializeTuple row)) <= MAX_TUPLE ->
  Z.of_nat (size (tb_keys t)) < LEAF_KEYS -> Z.of_nat (nodes_of c name) < INT_MAX ->
  ps_count (ti_fileId info) (ec_store c) + 1 < INVALID_PAGE_ID ->
  exists e c' info', runs (Insert.init grow (Insert.new name row)) c e c' /\
    ec_catalog c' !! name = Some info' /\ rowCount info' = u32 (rowCount info + 1) /\
    ctx_shows c' (<[name := mkTable (tb_schema t) (row :: tb_rows t) (key_set row ∪ tb_keys t)]> db) /\
    nodes_grow c c'.
Proof.
  intros Hc Ht Hinfo Hrow Hok Hne Hmax Hkeys Hnodes Hcount.
  destruct (cx_table _ _ Hc name t Ht) as [(info' & l & m & Htab & Hsch & Hp & Hidx & Hd) (tree & Htr & Hcap) Hw Hty].
  pose proof (proj1 Htab) as Hcat. rewrite Hinfo in Hcat. injection Hcat as <-.
  destruct (insert_exec_runs grow c name info l m row) as (e & c' & rid & l' & Hrun & Hl' & Htab' & Hidx' & _ & Hstep & Hgrow).
  { done. }
  { destruct Hidx as (tree' & Htr' & Hsh). assert (tree' = tree) as -> by congruence. exists tree.
    split; [done|]. split; [done|]. split; [by rewrite <- size_dom, Hd, Hcap|].
    unfold nodes_of in Hnodes. by rewrite Htr in Hnodes. }
  { rewrite Hsch. split; [done|]. split; [done|]. by apply row_typed_length. }
  { done. }
  { done. }
  exists e, c', (set_rowCount (u32 (rowCount info + 1)) info). split; [done|]. split; [apply Htab'|]. split; [done|].
  split; [|by eapply nodes_grow_step]. eapply ctx_shows_step; [exact Hc|exact Ht|exact Hinfo|exact Hstep| |apply Htab'|done| |].
  { apply (th_table _ _ _ _ (proj2 Htab')). }
  { simpl. by apply (cx_no_flag _ _ Hc name). }
  split; simpl.
  - exists (set_rowCount (u32 (rowCount info + 1)) info), l', (add_key m (Insert.key_of row) rid).
    split_and!; [done|done| |done|].
    + rewrite Hl'. simpl. by rewrite Hp.
    + by rewrite add_key_dom, Hd.
  - destruct (cs_capacity _ _ _ _ Hstep tree Htr) as (tree' & Htr' & E). exists tree'. split; [done|]. congruence.
  - done.
  - constructor; done.
Qed.

Lemma delete_shows c db name t info p P :
  ctx_shows c db -> db !! name = Some t -> ec_catalog c !! name = Some info ->
  (forall l : rows, Forall (fun x => row_typed (tb_schema t) x.2) l -> decides p P l) ->
  Z.of_nat (length (tb_rows t)) <= INT_MAX ->
  let gone := filter (fun r => P r = true) (tb_rows t) in
  let kept := filter (fun r => P r = false) (tb_rows t) in
  exists e c', runs (Delete.init (Delete.new name p)) c e c' /\
    ex_rest St e = [[VInt (Z.of_nat (length gone))]] /\
    ctx_shows c' (<[name := mkTable (tb_schema t) kept (tb_keys t ∖ lost_keys gone)]> db) /\
    nodes_grow c c'.
Proof.
  intros Hc Ht Hinfo Hdec Hmax gone kept.
  destruct (cx_table _ _ Hc name t Ht) as [(info' & l & m & Htab & Hsch & Hp & Hidx & Hd) (tree & Htr & Hcap) Hw Hty].
  pose proof (proj1 Htab) as Hcat. rewrite Hinfo in Hcat. injection Hcat as <-.
  assert (Hgone : (selected P l).*2 ≡ₚ gone) by (rewrite selected_snd; unfold gone; by rewrite Hp).
  destruct (delete_exec_runs c name info l m p P) as (e & c' & Hrun & Hrest & Htab' & Hidx' & Hstep & Hgrow).
  { done. }
  { done. }
  { apply Hdec. by apply repr_typed. }
  { rewrite <- (length_fmap snd), Hp. exact Hmax. }
  assert (Hlen : length (selected P l) = length gone) by (rewrite <- Hgone; by rewrite length_fmap).
  exists e, c'. split; [done|]. split; [by rewrite Hrest, Hlen|].
  split; [|eapply nodes_grow_step; [exact Hstep|lia]]. eapply ctx_shows_step; [exact Hc|exact Ht|exact Hinfo|exact Hstep| |apply Htab'|done| |].
  { apply (th_table _ _ _ _ (proj2 Htab')). }
  { simpl. by apply (cx_no_flag _ _ Hc name). }
  split; simpl.
  - eexists _, _, _. split_and!; [exact Htab'|done| |exact Hidx'|].
    + rewrite unselected_snd. unfold kept. by rewrite Hp.
    + by rewrite (lost_keys_dom _ _ gone), Hd.
  - destruct (cs_capacity _ _ _ _ Hstep tree Htr) as (tree' & Htr' & E). exists tree'. split; [done|]. congruence.
  - done.
  - unfold table_typed in *. simpl. unfold kept. rewrite Forall_forall in *.
    intros r [_ Hr]%list_elem_of_filter. by apply Hty.
Qed.

Lemma select_shows c db name t p P :
  ctx_shows c db -> db !! name = Some t ->
  (forall l : rows, Forall (fun x => row_typed (tb_schema t) x.2) l -> decides p P l) ->
  exists e c', runs (SeqScan.init (SeqScan.new name p)) c e c' /\
    ex_rest St e ≡ₚ filter (fun r => P r = true) (tb_rows t) /\
    Forall (row_typed (tb_schema t)) (ex_rest St e) /\ ctx_shows c' db /\ ec_indexes c' = ec_indexes c.
Proof.
  intros Hc Ht Hdec.
  destruct (cx_table _ _ Hc name t Ht) as [(info & l & m & Htab & Hsch & Hp & _) _ _ Hty].
  destruct (seqScan_runs c name info l p P Htab) as (e & c' & Hrun & Hrest & _ & _ & Hcat & Hidx & Hu).
  { apply Hdec. by apply repr_typed. }
  exists e, c'. split; [done|]. rewrite Hrest, selected_snd. split; [by rewrite Hp|]. split.
  - apply Forall_forall. intros r [_ Hr]%list_elem_of_filter. rewrite Hp in Hr.
    unfold table_typed in Hty. rewrite Forall_forall in Hty. by apply Hty.
  - split; [by eapply ctx_shows_unchanged|done].
Qed.
End engine.
