(* ===== verification/EngineThms.v ===== *)
(** * The engine implements SQL

    Every statement takes a represented database to the one that the
    specification of Sql.v gives, and prints the lines that it gives, as long
    as it fits: a row in a page, a table's keys in one leaf of its index,
    counters in their types. *)
From stdpp Require Import base numbers list sorting strings gmap pretty.
From Stdlib Require Import ZArith Lia.
From Stdlib Require Import Strings.Ascii.
From Stdlib Require Import Floats.SpecFloat.
From S2P Require Import Prelude Bytes Common Disk PageStore Pool PoolStore PoolSpec Storage Heap HeapTable Catalog Codec Rows BTree BTreeThms Locks LockGraph LockSafety Txn Wal Lexer Parser LexerThms ParserThms Optimizer Executor ExecSpec ExecRun ExecThms Engine Sql EngineRun EngineShows.

Section engine.
Context {St : Type} `{!PageStore St, !PageStoreSpec St} (grow : nat -> nat) (log2 : double -> double).
Implicit Types (c : ExecutionContext St) (d : MiniDB St) (db : Database) (name : string) (s : Statement).

(** ** What fits *)
Definition fits d db s : Prop :=
  nextTxnId_ (ts_txns (db_txns d)) < INT_MAX /\
  match st_type s with
  | CREATE_TABLE =>
      db !! st_tableName s = None ->
      ps_creatable (ec_store (db_ctx d)) (st_tableName s +:+ ".db") /\
      Z.of_nat (length (st_columns s)) <= INT_MAX
  | INSERT =>
      forall t row info,
        db !! st_tableName s = Some t -> ec_catalog (db_ctx d) !! st_tableName s = Some info ->
        length (st_values s) = length (tb_schema t) -> typed_row (tb_schema t) (st_values s) = inr row ->
        tuple_ok row /\ row <> [] /\ Z.of_nat (length (Codec.serializeTuple row)) <= MAX_TUPLE /\
        Z.of_nat (size (tb_keys t)) < LEAF_KEYS /\
        ps_count (ti_fileId info) (ec_store (db_ctx d)) + 1 < INVALID_PAGE_ID
  | _ => forall t, db !! st_tableName s = Some t -> Z.of_nat (length (tb_rows t)) <= INT_MAX
  end.

(** [m] does on [d] what the specification says of [s] on [db]. *)
Definition implements (m : M (MiniDB St) unit) s d db : Prop :=
  exists d' lines db', runs m d tt d' /\ db_out d' = db_out d ++ lines /\
    sql_step s db lines db' /\ shows d' db'.

Lemma shows_printed d db ls : shows d db -> shows (printed d ls) db.
Proof. intros [Hc Ht Hn]. by split. Qed.

(** A statement that only prints a line. *)
Lemma implements_line (m : M (MiniDB St) unit) s d db line :
  runs m d tt (printed d [line]) -> sql_step s db [line] db -> shows d db -> implements m s d db.
Proof.
  intros Hr Hs Hd. exists (printed d [line]), [line], db. split_and!; [done..|]. by apply shows_printed.
Qed.

(** The table of the statement in the catalog and in the specification. *)
Lemma shows_lookup d db name :
  shows d db ->
  (ec_catalog (db_ctx d) !! name = None /\ db !! name = None) \/
  (exists info t, ec_catalog (db_ctx d) !! name = Some info /\ db !! name = Some t /\
     ti_schema info = tb_schema t /\ Z.of_nat (length (tb_schema t)) <= INT_MAX).
Proof.
  intros [Hc _ _]. pose proof (cx_catalog _ _ Hc name) as Hiff.
  destruct (ec_catalog (db_ctx d) !! name) as [info|] eqn:Hi, (db !! name) as [t|] eqn:Ht.
  - right. exists info, t. destruct (cx_table _ _ Hc name t Ht) as [(i & l & m & [Hcat _] & Hsch & _) _ Hw _].
    split_and!; [done..| |done]. congruence.
  - destruct (proj1 Hiff); [by eexists|done].
  - destruct (proj2 Hiff); [by eexists|done].
  - by left.
Qed.

(** ** Transactions around a statement *)
Lemma start_runs d :
  txns_ok (ts_txns (db_txns d)) -> nextTxnId_ (ts_txns (db_txns d)) < INT_MAX ->
  exists id t l, txns_ok (ts_txns t) /\ nextTxnId_ (ts_txns t) = nextTxnId_ (ts_txns (db_txns d)) + 1 /\
    forall A (k : Z -> M (MiniDB St) A) a d', runs (k id) (mkDB (db_ctx d) t l (db_out d)) a d' ->
      runs (txnId <- Engine.on_txns Txn.begin ;; Engine.on_log (Wal.logBegin txnId) ;; k txnId) d a d'.
Proof.
  intros Hok Hlt. destruct (begin_runs (db_txns d) Hok Hlt) as (t & Hr & Hok' & _ & _ & _ & Hn).
  destruct (logBegin_runs (nextTxnId_ (ts_txns (db_txns d))) (db_log d)) as (l & Hl).
  exists (nextTxnId_ (ts_txns (db_txns d))), t, l. split; [done|]. split; [done|]. intros A k a d' Hk.
  eapply runs_bind; [by apply on_txns_runs|]. eapply runs_bind; [by apply on_log_runs|]. exact Hk.
Qed.
Lemma finish_txn_runs d id :
  txns_ok (ts_txns (db_txns d)) ->
  exists t l, txns_ok (ts_txns t) /\ nextTxnId_ (ts_txns t) = nextTxnId_ (ts_txns (db_txns d)) /\
    forall A (k : M (MiniDB St) A) a d', runs k (mkDB (db_ctx d) t l (db_out d)) a d' ->
      runs (Engine.on_log (Wal.logCommit id) ;; Engine.on_txns (Txn.commit id) ;; k) d a d'.
Proof.
  intros Hok. destruct (logCommit_runs id (db_log d)) as (l & Hl).
  destruct (finish_ok COMMITTED id (db_txns d) Hok) as (t & Hr & Hok' & Hn).
  exists t, l. split; [done|]. split; [done|]. intros A k a d' Hk.
  eapply runs_bind; [by apply on_log_runs|]. eapply runs_bind; [|exact Hk].
  exact (on_txns_runs _ (mkDB (db_ctx d) (db_txns d) l (db_out d)) _ _ Hr).
Qed.

(** ** CREATE TABLE *)
Lemma create_implements d db s :
  shows d db -> st_type s = CREATE_TABLE -> fits d db s ->
  implements (Engine.executeCreateTable s) s d db.
Proof.
  intros Hd Hty [_ Hfit]. rewrite Hty in Hfit.
  destruct (shows_lookup d db (st_tableName s) Hd) as [[Hcat Hdb]|(info & t & Hcat & Hdb & _)].
  2: { eapply implements_line; [|by eapply sql_create_exists|done].
       unfold Engine.executeCreateTable. eapply runs_bind; [done|]. unfold Cat.tableExists.
       rewrite bool_decide_true by (by eexists). apply emit_runs. }
  destruct (Hfit Hdb) as [Hcr Hlen]. destruct Hd as [Hc Htx Hn]. set (sch := Engine.schema_of (st_columns s)).
  destruct (create_shows (db_ctx d) db (st_tableName s) sch Hc Hdb Hcr) as (f & s' & Hrun & Hc');
    [by unfold sch; rewrite schema_of_length|].
  eexists (printed (with_ctx _ d) [msg_created (st_tableName s) (length sch)]), _, _.
  split; [|split; [done|split; [by eapply sql_create|apply shows_printed; split; [exact Hc'|done|by eapply nodes_bound_create]]]].
  unfold Engine.executeCreateTable. eapply runs_bind; [done|]. unfold Cat.tableExists.
  rewrite bool_decide_false by (by rewrite Hcat; intros [??]).
  eapply runs_bind; [by apply on_ctx_runs, on_store_runs|]. eapply runs_bind; [done|].
  eapply runs_bind; [done|]. apply emit_runs.
Qed.

(** ** The statements on a table *)
Lemma no_table_implements d db s :
  shows d db -> st_type s <> CREATE_TABLE -> db !! st_tableName s = None ->
  implements (Engine.no_table (st_tableName s)) s d db.
Proof. intros Hd Hty Hdb. by eapply implements_line; [apply emit_runs|apply sql_missing|]. Qed.

(** The lookup that every statement starts with. *)
Lemma implements_get d db s (k : option TableInfo -> M (MiniDB St) unit) info :
  ec_catalog (db_ctx d) !! st_tableName s = info ->
  implements (k info) s d db -> implements (i <- Engine.getTable (st_tableName s) ;; k i) s d db.
Proof.
  intros <- (d' & lines & db' & Hr & H). exists d', lines, db'. split; [|done].
  eapply runs_bind; [apply getTable_runs|exact Hr].
Qed.

(** An insertion that fits stores the row, and adds two to the row count. *)
Lemma insert_row_runs d db s t row info :
  shows d db -> nextTxnId_ (ts_txns (db_txns d)) < INT_MAX ->
  db !! st_tableName s = Some t -> ec_catalog (db_ctx d) !! st_tableName s = Some info ->
  length (st_values s) = length (tb_schema t) -> typed_row (tb_schema t) (st_values s) = inr row ->
  tuple_ok row -> row <> [] -> Z.of_nat (length (Codec.serializeTuple row)) <= MAX_TUPLE ->
  Z.of_nat (size (tb_keys t)) < LEAF_KEYS ->
  ps_count (ti_fileId info) (ec_store (db_ctx d)) + 1 < INVALID_PAGE_ID ->
  exists d' info', runs (Engine.executeInsert grow s) d tt d' /\
    db_out d' = db_out d ++ [msg_inserted (st_tableName s)] /\
    ec_catalog (db_ctx d') !! st_tableName s = Some info' /\ rowCount info' = u32 (rowCount info + 2) /\
    shows d' (<[st_tableName s := mkTable (tb_schema t) (row :: tb_rows t) (key_set row ∪ tb_keys t)]> db).
Proof.
  intros Hd Hnext Hdb Hcat Hlen Hrow Hok Hne Hmax Hkeys Hcount.
  destruct (shows_lookup d db (st_tableName s) Hd) as [[? ?]|(i & u & Hi & Hu & Hsch & _)]; [congruence|].
  assert (i = info) as -> by congruence. assert (u = t) as -> by congruence. clear Hi Hu.
  destruct Hd as [Hc Htx Hn]. assert (Htyped : row_typed (tb_schema t) row) by by eapply typed_row_typed.
  destruct (insert_shows grow (db_ctx d) db (st_tableName s) t info row)
    as (e & c' & info' & Hins & Hcat' & Hrc & Hc' & Hgrow); [done..|specialize (Hn (st_tableName s)); lia|done|].
  destruct (start_runs d Htx Hnext) as (id & t1 & l1 & Htx1 & Hn1 & Hstart).
  destruct (finish_txn_runs (mkDB c' t1 l1 (db_out d)) id Htx1) as (t2 & l2 & Htx2 & Hn2 & Hfin).
  assert (exists r, Insert.next e = Ret r) as [r Hr] by (unfold Insert.next; destruct (in_done e); eauto).
  set (c2 := Exec.set_catalog (<[st_tableName s := set_rowCount (u32 (rowCount info' + 1)) info']> (ec_catalog c')) c').
  exists (printed (mkDB c2 t2 l2 (db_out d)) [msg_inserted (st_tableName s)]), (set_rowCount (u32 (rowCount info' + 1)) info').
  split; [|split; [done|split; [apply lookup_insert_eq|split]]].
  - unfold Engine.executeInsert. eapply runs_bind; [apply getTable_runs|]. rewrite Hcat. cbv iota. rewrite Hsch.
    unfold Schema.columnCount. rewrite Hlen, Nat.eqb_refl. cbn [negb].
    eapply runs_bind; [unfold runs, lift; by rewrite convert_typed, Hrow|]. cbv iota beta.
    apply Hstart. eapply runs_bind; [by apply on_ctx_runs|].
    eapply runs_bind; [unfold runs, lift; by rewrite Hr|].
    apply Hfin. eapply runs_bind; [by apply on_ctx_runs, updateRowCount_runs|]. apply emit_runs.
  - simpl. rewrite Hrc. unfold u32. rewrite Zplus_mod_idemp_l. f_equal. lia.
  - apply shows_printed. split; [by apply ctx_shows_rowCount|done|]. simpl in *. rewrite Hn2, Hn1.
    by apply (nodes_bound_grow (db_ctx d)).
Qed.

Lemma insert_implements d db s :
  shows d db -> st_type s = INSERT -> fits d db s ->
  implements (Engine.executeInsert grow s) s d db.
Proof.
  intros Hd Hty [Hnext Hfit]. rewrite Hty in Hfit. assert (Hnc : st_type s <> CREATE_TABLE) by congruence.
  destruct (shows_lookup d db (st_tableName s) Hd) as [[Hcat Hdb]|(info & t & Hcat & Hdb & Hsch & Hw)].
  { eapply implements_get; [exact Hcat|]. by apply no_table_implements. }
  destruct (decide (length (st_values s) = length (tb_schema t))) as [Hlen|Hlen].
  2: { eapply implements_get; [exact Hcat|]. cbv iota. rewrite Hsch. unfold Schema.columnCount.
       rewrite (proj2 (Nat.eqb_neq _ _) Hlen).
       eapply implements_line; [apply emit_runs|by eapply sql_insert_arity|done]. }
  destruct (typed_row (tb_schema t) (st_values s)) as [col|row] eqn:Hrow.
  { eapply implements_get; [exact Hcat|]. cbv iota. rewrite Hsch. unfold Schema.columnCount.
    rewrite Hlen, Nat.eqb_refl. eapply implements_line; [|by eapply sql_insert_integer|done].
    eapply runs_bind; [unfold runs, lift; by rewrite convert_typed, Hrow|]. apply emit_runs. }
  destruct (Hfit t row info Hdb Hcat Hlen Hrow) as (Hok & Hne & Hmax & Hkeys & Hcount).
  destruct (insert_row_runs d db s t row info) as (d' & info' & Hrun & Hout & _ & _ & Hd'); [done..|].
  eexists d', [msg_inserted (st_tableName s)], _. split_and!; [done|done|by eapply sql_insert|exact Hd'].
Qed.

Lemma where_implements d db s (k : predicate -> M (MiniDB St) unit) info t :
  shows d db -> st_type s = SELECT \/ st_type s = DELETE_STMT ->
  db !! st_tableName s = Some t -> ti_schema info = tb_schema t -> Z.of_nat (length (tb_schema t)) <= INT_MAX ->
  (forall p, condition_ok (tb_schema t) s ->
     (forall l : rows, Forall (fun x => row_typed (tb_schema t) x.2) l -> decides p (satisfies (tb_schema t) s) l) ->
     implements (k p) s d db) ->
  implements (p <- lift (Engine.where_predicate (ti_schema info) s) ;;
              match p with None => Engine.no_column (wh_column (st_where s)) | Some p => k p end) s d db.
Proof.
  intros Hd Hty Hdb Hsch Hw Hk. rewrite Hsch.
  destruct (where_predicate_spec (tb_schema t) s Hw) as [[Hbad Hp]|(Hok & p & Hp & Hdec)].
  - eapply implements_line; [|by eapply sql_bad_condition|done].
    eapply runs_bind; [unfold runs, lift; by rewrite Hp|]. apply emit_runs.
  - destruct (Hk p Hok Hdec) as (d' & lines & db' & Hr & H). exists d', lines, db'. split; [|done].
    eapply runs_bind; [unfold runs, lift; by rewrite Hp|]. exact Hr.
Qed.

Lemma delete_implements d db s :
  shows d db -> st_type s = DELETE_STMT -> fits d db s ->
  implements (Engine.executeDelete s) s d db.
Proof.
  intros Hd Hty [Hnext Hfit]. rewrite Hty in Hfit. assert (Hnc : st_type s <> CREATE_TABLE) by congruence.
  destruct (shows_lookup d db (st_tableName s) Hd) as [[Hcat Hdb]|(info & t & Hcat & Hdb & Hsch & Hw)];
    (eapply implements_get; [exact Hcat|]); [by apply no_table_implements|].
  eapply where_implements; [done|by right|done..|]. intros p Hok Hdec. destruct Hd as [Hc Htx Hn].
  destruct (delete_shows (db_ctx d) db (st_tableName s) t info p (satisfies (tb_schema t) s))
    as (e & c' & Hdel & Hrest & Hc' & Hgrow); [done..|by apply Hfit|].
  destruct (start_runs d Htx Hnext) as (id & t1 & l1 & Htx1 & Hn1 & Hstart).
  destruct (finish_txn_runs (mkDB c' t1 l1 (db_out d)) id Htx1) as (t2 & l2 & Htx2 & Hn2 & Hfin).
  assert (Hex : ex_ok St e) by exact I. destruct (ex_next_cons (St := St) e _ _ Hex Hrest) as (e' & Hnext' & _). change (ex_next St e) with (Delete.next e) in Hnext'.
  eexists (printed (mkDB c' t2 l2 (db_out d)) [_]), [_], _.
  split; [|split; [done|split; [by eapply sql_delete|apply shows_printed; split; [done..|]]]].
  2: { simpl in *. rewrite Hn2, Hn1. by eapply nodes_bound_grow. }
  apply Hstart. eapply runs_bind; [by apply on_ctx_runs|].
  eapply runs_bind; [unfold runs, lift; by rewrite Hnext'|]. apply Hfin.
  eapply runs_bind; [done|]. eapply runs_bind; [done|]. apply emit_runs.
Qed.

Lemma select_implements d db s :
  shows d db -> st_type s = SELECT -> fits d db s ->
  implements (Engine.executeSelect s) s d db.
Proof.
  intros Hd Hty [_ Hfit]. rewrite Hty in Hfit. assert (Hnc : st_type s <> CREATE_TABLE) by congruence.
  destruct (shows_lookup d db (st_tableName s) Hd) as [[Hcat Hdb]|(info & t & Hcat & Hdb & Hsch & Hw)];
    (eapply implements_get; [exact Hcat|]); [by apply no_table_implements|].
  eapply where_implements; [done|by left|done..|]. intros p Hok Hdec. destruct Hd as [Hc Htx Hn].
  destruct (select_shows (db_ctx d) db (st_tableName s) t p (satisfies (tb_schema t) s))
    as (e & c' & Hscan & Hrest & Htyped & Hc' & Hidx'); [done..|].
  set (d1 := with_ctx c' d). assert (Hd1 : shows d1 db) by (split; [done..|by eapply nodes_bound_same]).
  destruct (output_columns_spec (tb_schema t) s Hw)
    as [(cols & Hcols & H1 & H2 & Hcok)|(Hstar & before & col & after & Hcols & Hsel & Hbef & Hnone)].
  2: { exists (printed d1 [msg_column col]), [msg_column col], db.
       split; [|split; [done|split; [by eapply sql_bad_column|by apply shows_printed]]].
       eapply runs_bind; [by apply on_ctx_runs|]. rewrite Hsch, Hcols. apply emit_runs. }
  set (rows := ex_rest St e) in *. set (idxs := positions (tb_schema t) s) in *.
  assert (Hlen : length cols = length (chosen (tb_schema t) s)) by (by rewrite <- H1, length_fmap).
  exists (printed d1 (listing (chosen (tb_schema t) s) idxs rows)), (listing (chosen (tb_schema t) s) idxs rows), db.
  split; [|split; [done|split; [by eapply sql_select|by apply shows_printed]]].
  eapply runs_bind; [by apply on_ctx_runs|]. rewrite Hsch, Hcols, Hlen, H1, H2.
  do 3 (eapply runs_bind; [apply emit_runs|]). rewrite !printed_app.
  eapply runs_bind.
  { apply (print_rows_runs idxs rows e); [done|done| | |].
    - assert (Hex : ex_ok St e) by exact I. pose proof (ex_left_enough (St := St) e Hex). unfold rows. lia.
    - eapply Forall_impl; [exact Htyped|]. intros r Hr. apply Forall_forall. intros i Hi.
      apply row_typed_length in Hr. rewrite Hr. by apply positions_lt in Hi.
    - rewrite Hrest. pose proof (length_filter (fun r => satisfies (tb_schema t) s r = true) (tb_rows t)).
      specialize (Hfit t Hdb). lia. }
  rewrite printed_app. eapply runs_bind; [apply emit_runs|]. rewrite printed_app.
  unfold runs, Engine.out. rewrite emit_runs, printed_app. unfold listing. simpl. by rewrite <- !app_assoc.
Qed.

(** ** Plans *)

(** The plan of a statement leads to the function of its kind. *)
Lemma plan_kind s (k : Catalog) :
  st_type s <> CREATE_TABLE ->
  exists p, Opt.optimize log2 s k = Ret (Some p) /\
    match st_type s with
    | INSERT => pl_type p = INSERT_OP
    | DELETE_STMT => pl_type p = DELETE_OP
    | _ => pl_type p = SEQ_SCAN \/ pl_type p = INDEX_SCAN \/ pl_type p = PROJECTION
    end.
Proof.
  intros Hty. unfold Opt.optimize. destruct (st_type s); [done|by eexists|..|by eexists].
  unfold Opt.optimizeSelect.
  assert (Hidx : exists b, (if hasWhere s then Opt.shouldUseIndex (st_tableName s) (wh_column (st_where s)) k
                            else Ret false) = Ret b).
  { destruct (hasWhere s); [|by eexists]. unfold Opt.shouldUseIndex. destruct (Cat.getTable _ _) as [i|]; [|by eexists].
    destruct (negb (hasIndex i)); [by eexists|]. unfold Schema.columnCount, Schema.getColumn.
    destruct (ti_schema i); by eexists. }
  destruct Hidx as [b ->]. cbn [obind]. destruct (negb (selectAll s) && _); [by eexists; split; [done|auto]|].
  destruct b; eexists; (split; [done|]); auto.
Qed.

Lemma run_statement_implements d db s :
  shows d db -> fits d db s -> implements (Engine.run_statement grow log2 s) s d db.
Proof.
  intros Hd Hfit. unfold Engine.run_statement. case_decide as Hc; [by apply create_implements|].
  destruct (plan_kind s (ec_catalog (db_ctx d)) Hc) as (p & Hp & Hk).
  assert (Himp : implements (Engine.executePlan grow p s) s d db).
  { unfold Engine.executePlan. destruct (st_type s) eqn:Hty; [done|..].
    - rewrite Hk. by apply insert_implements.
    - destruct Hk as [-> |[-> | ->]]; by apply select_implements.
    - rewrite Hk. by apply delete_implements. }
  destruct Himp as (d' & lines & db' & Hr & H). exists d', lines, db'. split; [|done].
  eapply runs_bind; [done|]. eapply runs_bind; [unfold runs, lift; by rewrite Hp|]. exact Hr.
Qed.

Lemma missing_runs d s :
  st_type s <> CREATE_TABLE -> ec_catalog (db_ctx d) !! st_tableName s = None ->
  runs (Engine.run_statement grow log2 s) d tt (printed d [msg_missing (st_tableName s)]).
Proof.
  intros Hty Hno. destruct (plan_kind s (ec_catalog (db_ctx d)) Hty) as (p & Hp & Hk).
  assert (Hget : runs (Engine.getTable (st_tableName s)) d None d).
  { rewrite <- Hno. apply getTable_runs. }
  unfold Engine.run_statement. rewrite decide_False by done. eapply runs_bind; [done|].
  eapply runs_bind; [unfold runs, lift; by rewrite Hp|]. cbv iota. unfold Engine.executePlan.
  destruct (st_type s); [done|rewrite Hk|destruct Hk as [-> |[-> | ->]]|rewrite Hk];
    (eapply runs_bind; [exact Hget|]); apply emit_runs.
Qed.

(** ** Lines of input *)
Definition starting : output := Out "Initializing lexer...".

(** A line whose statement, if it has one, fits. *)
Definition line_fits d sql : Prop := forall db s, shows d db -> parse_sql sql = Ret s -> fits d db s.

Lemma execute_runs d db sql :
  shows d db -> all_chars is_ascii sql = true -> line_fits d sql ->
  exists d', runs (Engine.execute grow log2 sql) d tt d' /\
    ((exists s lines db', parse_sql sql = Ret s /\ db_out d' = db_out d ++ starting :: lines /\
        sql_step s db lines db' /\ shows d' db') \/
     (exists e, parse_sql sql = Throw e /\ d' = printed d [starting; Err ("Parse Error: " +:+ e)])).
Proof.
  intros Hd Ha Hfit. destruct (handleInput_ok sql Ha) as (ts & Hts & _).
  assert (Hps : parse_sql sql = Parse.parse (ts ++ [mkTok TOKEN_EOF EmptyString])) by (unfold parse_sql; by rewrite Hts).
  pose proof (parse_sql_answers sql Ha) as Hans.
  set (d1 := printed d [starting]).
  assert (Hstart : forall k, runs (Engine.execute grow log2 sql) d tt k <->
    runs (match Parse.parse (ts ++ [mkTok TOKEN_EOF EmptyString]) with
          | Ret stmt => Engine.run_statement grow log2 stmt
          | Throw e => Engine.err ("Parse Error: " +:+ e)
          | Undef => undef end) d1 tt k).
  { intros k. unfold runs, Engine.execute. rewrite (bind_runs _ _ d tt d1 (emit_runs starting d)).
    assert (Hl : runs (lift (Lex.handleInput sql)) d1 (ts ++ [mkTok TOKEN_EOF EmptyString]) d1).
    { unfold runs, lift. by rewrite Hts. }
    by rewrite (bind_runs _ _ d1 _ d1 Hl). }
  rewrite <- Hps in Hstart. destruct Hans as [(s & Hs)|(m & Hm)].
  - destruct (run_statement_implements d1 db s) as (d' & lines & db' & Hr & Hout & Hstep & Hd').
    { by apply shows_printed. }
    { exact (Hfit db s Hd Hs). }
    exists d'. rewrite Hstart, Hs. split; [done|]. left. exists s, lines, db'. split_and!; [done| |done..].
    rewrite Hout. unfold d1. simpl. by rewrite <- app_assoc.
  - exists (printed d1 [Err ("Parse Error: " +:+ "Parse error: " +:+ m)]). rewrite Hstart, Hm.
    split; [apply emit_runs|]. right. eexists. split; [done|]. unfold d1. by rewrite printed_app.
Qed.

(** C1: the engine implements SQL. On a state that represents a database, each
    line of ASCII text whose statement fits is executed to the end: a line
    that does not parse prints the parse error and changes nothing; otherwise
    the lines printed and the database represented afterwards are those of
    the specification, for every statement and every way it can be wrong. *)
Theorem execute_correct d db sql :
  shows d db -> all_chars is_ascii sql = true -> line_fits d sql ->
  exists d', runs (Engine.execute grow log2 sql) d tt d' /\
    ((exists s lines db', parse_sql sql = Ret s /\ db_out d' = db_out d ++ starting :: lines /\
        sql_step s db lines db' /\ shows d' db') \/
     (exists e, parse_sql sql = Throw e /\ d' = printed d [starting; Err ("Parse Error: " +:+ e)])).
Proof. apply execute_runs. Qed.

(** The states that lines of input lead to. *)
Inductive reachable d : MiniDB St -> Prop :=
  | reach_start : reachable d d
  | reach_line sql d1 d2 :
      reachable d d1 -> all_chars is_ascii sql = true -> line_fits d1 sql ->
      runs (Engine.execute grow log2 sql) d1 tt d2 -> reachable d d2.

Lemma fresh_shows (s : St) l : ps_idle s -> shows (fresh s l) ∅.
Proof.
  intros Hi. split; [split|..]; simpl.
  - done.
  - intros n. by rewrite !lookup_empty.
  - intros n. rewrite !lookup_empty. by intros [??].
  - intros n t. by rewrite lookup_empty.
  - intros n1 n2 i1 i2. by rewrite lookup_empty.
  - intros n i. by rewrite lookup_empty.
  - split; simpl; [unfold INT_MAX; lia|]. intros id x. by rewrite lookup_empty.
  - intros n. unfold nodes_of. simpl. by rewrite lookup_empty.
Qed.

(** C2: the invariant of the engine: every state that lines of input lead to
    from a fresh process represents a database; no page is pinned, tables
    have files of their own, each table's pages are well formed and hold
    exactly the encodings of its rows, every row has its schema's types, and
    the index of each table is a sorted leaf of keys. *)
Theorem reachable_represents (s : St) l d :
  ps_idle s -> reachable (fresh s l) d -> exists db, shows d db /\ db_typed db.
Proof.
  intros Hi Hr. assert (Hsh : exists db, shows d db).
  { induction Hr as [|sql d1 d2 Hr IH Ha Hfit Hrun]; [exists ∅; by apply fresh_shows|].
    destruct IH as [db Hd]. destruct (execute_runs d1 db sql Hd Ha Hfit) as (d' & Hr' & H).
    destruct (runs_det _ _ _ _ _ _ Hrun Hr') as [_ ->].
    destruct H as [(s1 & lines & db' & _ & _ & _ & Hd')|(e & _ & ->)]; [by exists db'|].
    exists db. by apply shows_printed. }
  destruct Hsh as [db Hd]. exists db. split; [done|]. intros n t Ht.
  apply (ts_typed _ _ _ (cx_table _ _ (sh_ctx _ _ Hd) n t Ht)).
Qed.

(** An insertion adds two to the table's row count, once in the executor and
    once in the engine. *)
Theorem insert_counts_twice d db s t row info :
  shows d db -> fits d db s -> st_type s = INSERT ->
  db !! st_tableName s = Some t -> ec_catalog (db_ctx d) !! st_tableName s = Some info ->
  length (st_values s) = length (tb_schema t) -> typed_row (tb_schema t) (st_values s) = inr row ->
  exists d' info', runs (Engine.executeInsert grow s) d tt d' /\
    shows d' (<[st_tableName s := mkTable (tb_schema t) (row :: tb_rows t) (key_set row ∪ tb_keys t)]> db) /\
    ec_catalog (db_ctx d') !! st_tableName s = Some info' /\ rowCount info' = u32 (rowCount info + 2).
Proof.
  intros Hd [Hnext Hfit] Hty Hdb Hcat Hlen Hrow. rewrite Hty in Hfit.
  destruct (Hfit t row info Hdb Hcat Hlen Hrow) as (Hok & Hne & Hmax & Hkeys & Hcount).
  destruct (insert_row_runs d db s t row info) as (d' & info' & Hrun & _ & Hcat' & Hrc & Hd'); [done..|].
  by exists d', info'.
Qed.

(** ** The optimizer on the engine's catalog *)
Fixpoint scans_index (p : PlanNode) : Prop :=
  pl_type p = INDEX_SCAN \/ match pl_left p with Some q => scans_index q | None => False end.

(** No plan of the engine scans an index: its catalogs never say that a table
    has one, although every table does. *)
Theorem index_never_used d db s p :
  shows d db -> Opt.optimize log2 s (ec_catalog (db_ctx d)) = Ret (Some p) -> ~ scans_index p.
Proof.
  intros [Hc _] Hp. unfold Opt.optimize in Hp. destruct (st_type s); [done|..].
  - injection Hp as <-. by intros [?|?].
  - unfold Opt.optimizeSelect in Hp.
    assert (Hno : (if hasWhere s then Opt.shouldUseIndex (st_tableName s) (wh_column (st_where s)) (ec_catalog (db_ctx d))
                   else Ret false) = Ret false).
    { destruct (hasWhere s); [|done]. unfold Opt.shouldUseIndex, Cat.getTable.
      destruct (_ !! _) as [i|] eqn:Hi; [|done]. by rewrite (cx_no_flag _ _ Hc _ i Hi). }
    rewrite Hno in Hp. cbn [obind] in Hp. destruct (negb (selectAll s) && _); injection Hp as <-; simpl.
    + by intros [?|[?|?]].
    + by intros [?|?].
  - injection Hp as <-. simpl. by intros [?|[?|?]].
Qed.
End engine.

(** ** Witnesses: an engine on an empty file system, and one with a table *)
Definition no_log2 (x : double) : double := x.
Definition demo_engine : MiniDB Store := fresh demo_boot (Wal.init (mkFS ∅ ∅ ∅)).
Definition demo_line : string := "CREATE TABLE t (id INT, name TEXT);".
Definition demo_create : Statement :=
  mkStmt CREATE_TABLE "t" [mkColDef "id" "INT"; mkColDef "name" "TEXT"] [] [] false false
    (mkWhere EmptyString EmptyString).

Lemma demo_line_parses : parse_sql demo_line = Ret demo_create.
Proof. vm_compute. reflexivity. Qed.

Lemma demo_line_fits_after ls : line_fits (printed demo_engine ls) demo_line.
Proof.
  intros db s _ Hs. rewrite demo_line_parses in Hs. injection Hs as <-. split.
  - unfold INT_MAX. simpl. lia.
  - intros _. split; [exact demo_creatable|]. unfold INT_MAX. simpl. lia.
Qed.
Lemma demo_line_fits : line_fits demo_engine demo_line.
Proof. exact (demo_line_fits_after []). Qed.
Lemma demo_engine_shows : shows demo_engine ∅.
Proof. apply fresh_shows, demo_boot_idle. Qed.

Lemma execute_correct_witness :
  exists d', runs (Engine.execute doubling no_log2 demo_line) demo_engine tt d' /\
    db_out d' = [starting; msg_created "t" 2] /\ shows d' (<["t" := mkTable people [] ∅]> ∅).
Proof.
  destruct (execute_correct doubling no_log2 demo_engine ∅ demo_line)
    as (d' & Hrun & [(s & lines & db' & Hs & Hout & Hstep & Hd')|(e & He & _)]).
  - exact demo_engine_shows.
  - reflexivity.
  - exact demo_line_fits.
  - rewrite demo_line_parses in Hs. injection Hs as <-. exists d'. split; [exact Hrun|].
    apply sql_create_inv in Hstep as [-> ->]; [|reflexivity|apply lookup_empty].
    split; [exact Hout|exact Hd'].
  - rewrite demo_line_parses in He. discriminate.
Defined.

Lemma reachable_represents_witness :
  exists d db, reachable doubling no_log2 demo_engine d /\ db_out d <> [] /\ shows d db /\ db_typed db.
Proof.
  destruct (execute_runs doubling no_log2 demo_engine ∅ demo_line demo_engine_shows) as (d & Hrun & H);
    [reflexivity|exact demo_line_fits|].
  assert (Hr : reachable doubling no_log2 demo_engine d).
  { apply (reach_line _ _ _ demo_line demo_engine d); [apply reach_start|reflexivity|exact demo_line_fits|exact Hrun]. }
  destruct (reachable_represents doubling no_log2 demo_boot (Wal.init (mkFS ∅ ∅ ∅)) d demo_boot_idle Hr)
    as (db & Hd & Hty).
  exists d, db. split; [exact Hr|]. split; [|split; [exact Hd|exact Hty]].
  destruct H as [(s & lines & db' & _ & -> & _)|(e & _ & ->)]; discriminate.
Defined.

(** the state after [demo_line], the table in the heap file *)
Definition demo_engine1 : MiniDB Store :=
  mkDB (mkCtx demo (Cat.addTable "t" people 1 ∅) (<["t" := BTree.init 128]> ∅))
    (mkTS Txn.init Lock.init) (Wal.init (mkFS ∅ ∅ ∅)) [].
Definition demo_db1 : Database := <["t" := mkTable people [] ∅]> ∅.
Definition demo_insert : Statement :=
  mkStmt INSERT "t" [] ["7"; "ann"] [] false false (mkWhere EmptyString EmptyString).

(** SELECT name FROM t WHERE id = 7 *)
Definition demo_statement1 : Statement :=
  mkStmt SELECT "t" [] [] ["name"] false true (mkWhere "id" "7").

Lemma demo_engine1_shows : shows demo_engine1 demo_db1.
Proof.
  destruct (create_shows (db_ctx demo_engine) ∅ "t" people) as (f & s & Hrun & Hc).
  - apply demo_engine_shows.
  - done.
  - exact demo_creatable.
  - unfold INT_MAX. simpl. lia.
  - assert (Hf : (Heap.createTable "t" demo_boot).1 = Ret 1) by (vm_compute; reflexivity).
    change (ec_store (db_ctx demo_engine)) with demo_boot in Hrun.
    assert (f = 1) as ->. { unfold runs in Hrun. rewrite Hrun in Hf. by injection Hf. }
    assert (demo = s) as <-. { unfold demo. by rewrite Hrun. }
    split; [exact Hc|apply demo_engine_shows|].
    eapply nodes_bound_create; [apply (sh_nodes _ _ demo_engine_shows)|reflexivity].
Qed.

Lemma demo_insert_fits : fits demo_engine1 demo_db1 demo_insert.
Proof.
  split; [unfold INT_MAX; simpl; lia|]. intros t row info Ht Hi Hlen Hrow.
  change (demo_db1 !! "t" = Some t) in Ht. unfold demo_db1 in Ht. rewrite lookup_insert_eq in Ht. injection Ht as <-.
  change ((Cat.addTable "t" people 1 ∅ : Catalog) !! "t" = Some info) in Hi.
  unfold Cat.addTable in Hi. rewrite lookup_insert_eq in Hi. injection Hi as <-.
  vm_compute in Hrow. injection Hrow as <-. split_and!.
  - apply (bool_decide_unpack _). vm_compute. exact I.
  - discriminate.
  - vm_compute. discriminate.
  - vm_compute. reflexivity.
  - vm_compute. reflexivity.
Qed.

Lemma insert_counts_twice_witness :
  exists d' info', runs (Engine.executeInsert doubling demo_insert) demo_engine1 tt d' /\
    ec_catalog (db_ctx d') !! "t" = Some info' /\ rowCount info' = 2.
Proof.
  destruct (insert_counts_twice doubling demo_engine1 demo_db1 demo_insert (mkTable people [] ∅)
    [VInt 7; VText "ann"] (mkInfo "t" people 1 0 false (-1))) as (d' & info' & Hrun & _ & Hi & Hn).
  - exact demo_engine1_shows.
  - exact demo_insert_fits.
  - reflexivity.
  - apply lookup_insert_eq.
  - apply lookup_insert_eq.
  - reflexivity.
  - reflexivity.
  - exists d', info'. split; [exact Hrun|]. split; [exact Hi|exact Hn].
Defined.

Lemma index_never_used_witness :
  exists p, Opt.optimize no_log2 demo_statement1 (ec_catalog (db_ctx demo_engine1)) = Ret (Some p) /\ ~ scans_index p.
Proof.
  eexists. split; [reflexivity|].
  apply (index_never_used no_log2 demo_engine1 demo_db1 demo_statement1); [exact demo_engine1_shows|reflexivity].
Defined.
