(* ===== verification/EngineLog.v ===== *)
(** * What the engine writes to the log

    Only the begin and the commit records of its transactions: the rows that
    they insert and delete are not logged. *)
From stdpp Require Import base numbers list strings gmap.
From Stdlib Require Import ZArith Lia.
From Stdlib Require Import Floats.SpecFloat.
From S2P Require Import Prelude Bytes Common Disk PageStore Heap Catalog Codec BTree Locks LockGraph LockSafety Txn Wal Lexer Parser Optimizer Executor Engine.

(** the bytes of the log: those in the file and those still buffered *)
Definition log_bytes (l : LogManager) : list Byte.byte :=
  file_content (log_fs l) (walPath_ l) ++ log_buf l.
Definition txn_only (r : LogRecord) : Prop := lr_type r = BEGIN_TXN \/ lr_type r = COMMIT_TXN.

Record logged (l l' : LogManager) : Prop := {
  lg_bytes : exists recs, Forall txn_only recs /\ log_bytes l' = log_bytes l ++ concat (map Wal.frame recs);
  lg_path : walPath_ l' = walPath_ l;
  lg_stream : log_stream l' = log_stream l;
}.

Lemma logged_refl l : logged l l.
Proof. split; [|done..]. exists []. by rewrite app_nil_r. Qed.
Lemma logged_trans l1 l2 l3 : logged l1 l2 -> logged l2 l3 -> logged l1 l3.
Proof.
  intros [(r1 & Hr1 & E1) Hp1 Hs1] [(r2 & Hr2 & E2) Hp2 Hs2]. split; [|congruence..].
  exists (r1 ++ r2). split; [by apply Forall_app|]. by rewrite E2, E1, map_app, concat_app, app_assoc.
Qed.

Lemma appendLog_logged r l : txn_only r -> logged l (Wal.appendLog r l).2.
Proof.
  intros Hr. set (r' := Wal.with_lsn (nextLSN_ l) r).
  unfold Wal.appendLog, bind, get, put, Wal.write_log, modify. simpl.
  destruct (log_stream l) as [[]|] eqn:Hst; split; simpl; try done.
  - exists [r']. split; [by apply Forall_singleton|]. simpl. unfold log_bytes. simpl.
    by rewrite app_nil_r, app_assoc.
  - exists []. split; [done|]. by rewrite app_nil_r.
  - exists []. split; [done|]. by rewrite app_nil_r.
Qed.
Lemma flushLog_logged l : logged l (Wal.flushLog l).2.
Proof.
  unfold Wal.flushLog, modify. simpl. destruct (log_stream l) as [[]|] eqn:Hst; try apply logged_refl.
  split; simpl; [|done..]. exists []. split; [done|]. rewrite app_nil_r. unfold log_bytes, Wal.spill. simpl.
  rewrite take_ge, drop_ge by done. rewrite app_nil_r. unfold file_content, set_file. simpl.
  by rewrite lookup_insert_eq.
Qed.

Section engine.
Context {St : Type} `{!PageStore St} (grow : nat -> nat) (log2 : double -> double).

(** Whatever [m] does, on every path, it adds only such records. *)
Definition logs_txns {A} (m : M (MiniDB St) A) : Prop := forall d, logged (db_log d) (db_log (m d).2).

Lemma logs_ret {A} (a : A) : logs_txns (ret a).
Proof. intros d. apply logged_refl. Qed.
Lemma logs_bind {A B} (m : M (MiniDB St) A) (k : A -> M (MiniDB St) B) :
  logs_txns m -> (forall a, logs_txns (k a)) -> logs_txns (bind m k).
Proof.
  intros Hm Hk d. unfold bind. specialize (Hm d). destruct (m d) as [[a|e|] d1]; simpl in *; [|done..].
  eapply logged_trans; [exact Hm|apply Hk].
Qed.
Lemma logs_lift {A} (o : outcome A) : logs_txns (lift o).
Proof. intros d. apply logged_refl. Qed.
Lemma logs_undef {A} : logs_txns (undef (A := A)).
Proof. intros d. apply logged_refl. Qed.
Lemma logs_get : logs_txns get.
Proof. intros d. apply logged_refl. Qed.
Lemma logs_gets {A} (f : MiniDB St -> A) : logs_txns (gets f).
Proof. intros d. apply logged_refl. Qed.
Lemma logs_emit o : logs_txns (Engine.emit o).
Proof. intros d. apply logged_refl. Qed.
Lemma logs_on_ctx {A} (m : M (ExecutionContext St) A) : logs_txns (Engine.on_ctx m).
Proof. intros d. unfold Engine.on_ctx, zoom. destruct (m (db_ctx d)). apply logged_refl. Qed.
Lemma logs_on_txns {A} (m : M TxnStore A) : logs_txns (Engine.on_txns (St := St) m).
Proof. intros d. unfold Engine.on_txns, zoom. destruct (m (db_txns d)). apply logged_refl. Qed.
Lemma logs_begin id : logs_txns (Engine.on_log (St := St) (Wal.logBegin id)).
Proof.
  intros d. unfold Engine.on_log, zoom.
  pose proof (appendLog_logged (Wal.txn_record BEGIN_TXN id) (db_log d) (or_introl eq_refl)) as H.
  unfold Wal.logBegin. by destruct (Wal.appendLog _ _).
Qed.
Lemma logs_commit id : logs_txns (Engine.on_log (St := St) (Wal.logCommit id)).
Proof.
  intros d. unfold Engine.on_log, zoom.
  pose proof (appendLog_logged (Wal.txn_record COMMIT_TXN id) (db_log d) (or_intror eq_refl)) as H.
  unfold Wal.logCommit, bind. destruct (Wal.appendLog _ _) as [[n|e|] l]; simpl in *; [|done..].
  eapply logged_trans; [exact H|apply flushLog_logged].
Qed.

Create HintDb engine_log discriminated.
#[local] Hint Resolve logs_ret logs_bind logs_lift logs_undef logs_get logs_gets logs_emit logs_on_ctx
  logs_on_txns logs_begin logs_commit : engine_log.
#[local] Hint Unfold Engine.out Engine.err Engine.no_table Engine.no_column Engine.getTable : engine_log.

(** Through binds and cases to the calls. *)
Ltac solve_logs :=
  unfold Engine.no_table, Engine.no_column, Engine.out, Engine.err, Engine.getTable;
  repeat first
    [ solve [eauto 1 with engine_log]
    | apply logs_bind; [|intros ?]
    | progress cbv zeta
    | match goal with |- logs_txns (match ?x with _ => _ end) => destruct x end ].

Lemma logs_print_rows {E} `{!Executor St E} fuel : forall idxs (e : E) n,
  logs_txns (Engine.print_rows (St := St) fuel idxs e n).
Proof. induction fuel as [|fuel IH]; intros idxs e n; cbn [Engine.print_rows]; solve_logs; apply IH. Qed.
#[local] Hint Resolve logs_print_rows : engine_log.

Lemma logs_execute sql : logs_txns (Engine.execute grow log2 sql).
Proof.
  unfold Engine.execute, Engine.run_statement, Engine.executePlan, Engine.executeCreateTable,
    Engine.executeInsert, Engine.executeSelect, Engine.executeDelete. solve_logs.
Qed.

(** C39: whatever line is executed, and however it ends, the log gains only begin
    and commit records: no inserted or deleted row is ever in it, so no
    replay of the log can restore one. *)
Theorem rows_never_logged sql d :
  exists recs, Forall txn_only recs /\
    log_bytes (db_log (Engine.execute grow log2 sql d).2) =
      log_bytes (db_log d) ++ concat (map Wal.frame recs).
Proof. apply lg_bytes, logs_execute. Qed.
End engine.
