(* ===== verification/Main.v ===== *)
(** * The process (src/src/main.cpp)

    The constructor and the destructor of [MiniDB], and [main]: a loop that
    reads a line, reacts to it and prompts again. The store and the log manager
    keep the files that each of them touches; no table's file has the name of
    the log. *)
From stdpp Require Import base numbers list strings gmap pretty.
From Stdlib Require Import ZArith Lia.
From Stdlib Require Import Strings.Ascii.
From Stdlib Require Import Floats.SpecFloat.
From S2P Require Import Prelude Bytes Common Disk PageStore Pool PoolSpec Storage Heap Catalog Codec BTree Locks LockGraph LockSafety Txn Wal Lexer Parser Optimizer Executor Engine.

(** ** Standard input *)
Record Input := mkIn { in_rest : string; in_good : bool }.

(** A line, and what follows its newline, if it has one. *)
Fixpoint split_line (s : string) : string * option string :=
  match s with
  | EmptyString => (EmptyString, None)
  | String c s' =>
      if Ascii.eqb c "010" then (EmptyString, Some s')
      else let '(line, rest) := split_line s' in (String c line, rest)
  end.

(** [std::getline]: a stream that has met its end is no longer good, and then
    the string is left as it was. *)
Definition getline (i : Input) (input : string) : string * Input :=
  if in_good i then
    match split_line (in_rest i) with
    | (line, Some rest) => (line, mkIn rest true)
    | (line, None) => (line, mkIn EmptyString false)
    end
  else (input, i).

Record Process := mkProc { pr_db : MiniDB Store; pr_in : Input; pr_input : string }.

Module Main.
Section main.
Context (grow : nat -> nat) (log2 : double -> double).

(** [MiniDB()]: a pool of 256 frames; the log is opened where it is. *)
Definition start (fs : FileSystem) : outcome (MiniDB Store) :=
  let s := boot fs 256 in
  let '(o, l) := Wal.open EmptyString (Wal.init (disk_fs (st_disk s))) in
  _ <~ o ;; Ret (fresh s l).

(** [~MiniDB()] and the destructors of its members: the log's, then the
    pool's. *)
Definition stop (order : gmap Z nat -> list (Z * nat)) : M (MiniDB Store) unit :=
  let flush := Engine.on_ctx (Exec.on_store (Pool.flushAllPages order)) in
  flush ;; Engine.on_log Wal.flushLog ;; flush.

Definition is_exit (input : string) : bool :=
  String.eqb input ".exit" || String.eqb input "quit" || String.eqb input "exit".

Definition help : list string := [
  "Supported commands:";
  "  CREATE TABLE name (col1 TYPE, col2 TYPE, ...);";
  "  INSERT INTO name VALUES (val1, val2, ...);";
  "  SELECT * FROM name [WHERE col = val];";
  "  SELECT col1, col2 FROM name [WHERE col = val];";
  "  DELETE FROM name [WHERE col = val];";
  "  .help  — show this help";
  "  .exit  — quit MiniDB"].
Definition banner : list string := [
  "╔══════════════════════════════════════════╗";
  "║          MiniDB v1.0 — SQL Engine        ║";
  "║  Type SQL commands or '.exit' to quit    ║";
  "╚══════════════════════════════════════════╝";
  EmptyString].

Definition out_lines (ls : list string) : M (MiniDB Store) unit :=
  modify (fun d => mkDB (db_ctx d) (db_txns d) (db_log d) (db_out d ++ map Out ls)).

(** The body of the loop once the line is read: true to break. *)
Definition react (input : string) : M (MiniDB Store) bool :=
  if is_exit input then Engine.out "Goodbye!" ;; ret true
  else if String.eqb input EmptyString then ret false
  else if String.eqb input ".help" then out_lines help ;; ret false
  else Engine.execute grow log2 input ;; ret false.

(** the prompt, and what follows the reading of [input] *)
Definition respond (input : string) : M (MiniDB Store) bool := Engine.emit Prompt ;; react input.

(** One turn of the loop; the prompt comes before the reading, which touches
    nothing that it does. *)
Definition turn : M Process bool :=
  p <- get ;;
  let '(input, i) := getline (pr_in p) (pr_input p) in
  put (mkProc (pr_db p) i input) ;;
  zoom pr_db (fun d p => mkProc d (pr_in p) (pr_input p)) (respond input).

(** [n] turns, or fewer if the loop ends: whether it has ended *)
Fixpoint turns (n : nat) : M Process bool :=
  match n with
  | O => ret false
  | S n' => b <- turn ;; if b : bool then ret true else turns n'
  end.

(** [main] up to the loop *)
Definition main (fs : FileSystem) (stdin : string) : outcome Process :=
  d <~ start fs ;; Ret (mkProc (out_lines banner d).2 (mkIn stdin true) EmptyString).
End main.
End Main.
