(* ===== verification/MainThms.v ===== *)
(** * Theorems of the process *)
From stdpp Require Import base numbers list strings gmap pretty.
From Stdlib Require Import ZArith Lia.
From Stdlib Require Import Strings.Ascii.
From Stdlib Require Import Floats.SpecFloat.
From S2P Require Import Prelude Bytes Common Disk PageStore Pool PoolStore PoolSpec Storage Heap HeapTable Catalog Codec Rows BTree Locks LockGraph LockSafety Txn Wal Lexer LexerThms Parser ParserThms Optimizer Executor ExecRun ExecThms Engine Sql EngineRun EngineShows EngineThms Main.

#[local] Opaque Pool.makePageKey.

Definition one_line (s : string) : bool := all_chars (fun c => negb (Ascii.eqb c "010")) s.

(** a text of lines, each ended, and then [tail] *)
Fixpoint script (lines : list string) (tail : string) : string :=
  match lines with [] => tail | l :: ls => l +:+ String "010" (script ls tail) end.

Lemma split_line_app l rest : one_line l = true -> split_line (l +:+ String "010" rest) = (l, Some rest).
Proof.
  unfold one_line. induction l as [|c l IH]; [done|].
  intros [Hc Hl]%andb_true_iff. change (String c l +:+ String "010" rest) with (String c (l +:+ String "010" rest)).
  cbn [split_line]. apply negb_true_iff in Hc. by rewrite Hc, IH.
Qed.

Section main.
Context (grow : nat -> nat) (log2 : double -> double).
Implicit Types (d : MiniDB Store) (p : Process).

(** The database works through these lines, none of them an exit. *)
Inductive session d : list string -> MiniDB Store -> Prop :=
  | session_nil : session d [] d
  | session_cons line lines d1 d2 :
      one_line line = true -> runs (Main.respond grow log2 line) d false d1 ->
      session d1 lines d2 -> session d (line :: lines) d2.

Lemma turn_runs d line rest b d' prev :
  one_line line = true -> runs (Main.respond grow log2 line) d b d' ->
  runs (Main.turn grow log2) (mkProc d (mkIn (line +:+ String "010" rest) true) prev) b
    (mkProc d' (mkIn rest true) line).
Proof.
  intros Hl Hr. unfold Main.turn. eapply runs_bind; [done|]. unfold getline. simpl pr_in. cbn [in_good in_rest].
  rewrite split_line_app by done. eapply runs_bind; [done|]. unfold runs, zoom in *. simpl. by rewrite Hr.
Qed.

Lemma turns_script lines : forall d d' n tail prev,
  session d lines d' ->
  exists prev', Main.turns grow log2 (length lines + n) (mkProc d (mkIn (script lines tail) true) prev) =
    Main.turns grow log2 n (mkProc d' (mkIn tail true) prev').
Proof.
  induction lines as [|l lines IH]; intros d d' n tail prev Hs; inversion Hs; subst; [by exists prev|].
  destruct (IH d1 d' n tail l) as (prev' & Heq); [done|]. exists prev'. rewrite <- Heq. simpl.
  by rewrite (bind_runs _ _ _ false (mkProc d1 (mkIn (script lines tail) true) l)) by by apply turn_runs.
Qed.

(** C36: the loop works through a script: after as many turns as it has lines and
    one for the exit command, it has reacted to every line in order and then
    left the loop, whatever follows on the input. *)
Theorem repl_runs_script d lines d' bye rest prev :
  session d lines d' -> Main.is_exit bye = true ->
  Main.turns grow log2 (length lines + 1) (mkProc d (mkIn (script lines (bye +:+ String "010" rest)) true) prev) =
    (Ret true, mkProc (printed d' [Prompt; Out "Goodbye!"]) (mkIn rest true) bye).
Proof.
  intros Hs Hb. destruct (turns_script lines d d' 1 (bye +:+ String "010" rest) prev Hs) as (prev' & ->).
  assert (Hr : runs (Main.respond grow log2 bye) d' true (printed d' [Prompt; Out "Goodbye!"])).
  { unfold Main.respond, Main.react. rewrite Hb. unfold runs, Engine.out, Engine.emit, modify, bind, ret, printed.
    simpl. by rewrite <- app_assoc. }
  assert (Hone : one_line bye = true).
  { unfold Main.is_exit in Hb. apply orb_true_iff in Hb as [[Hb|Hb]%orb_true_iff|Hb];
      apply String.eqb_eq in Hb as ->; reflexivity. }
  simpl. rewrite (bind_runs _ _ _ true (mkProc (printed d' [Prompt; Out "Goodbye!"]) (mkIn rest true) bye))
    by by apply turn_runs. done.
Qed.

(** The reactions to one line, [n] times over. *)
Fixpoint respond_times (n : nat) (input : string) : M (MiniDB Store) bool :=
  match n with
  | O => ret false
  | S n' => b <- Main.respond grow log2 input ;; if b : bool then ret true else respond_times n' input
  end.

Lemma react_false input d : Main.is_exit input = false -> (Main.respond grow log2 input d).1 <> Ret true.
Proof.
  intros He. unfold Main.respond, Main.react. rewrite He. unfold bind, Engine.emit, modify.
  destruct (String.eqb input EmptyString); [done|]. destruct (String.eqb input ".help"); [done|].
  destruct (Engine.execute _ _ _ _) as [[u|e|] d1]; done.
Qed.

(** C37: the loop never ends by the end of its input: from then on every turn
    reacts to the last line read once more, the empty line or, when the input
    does not end in a newline, its last command. *)
Theorem eof_repeats_last_line n p :
  in_good (pr_in p) = false -> Main.is_exit (pr_input p) = false ->
  (Main.turns grow log2 n p).1 <> Ret true /\
  Main.turns grow log2 n p =
    zoom pr_db (fun d q => mkProc d (pr_in p) (pr_input p)) (respond_times n (pr_input p)) p.
Proof.
  intros Hg He. revert p Hg He. induction n as [|n IH]; intros [d i input] Hg He; simpl in Hg, He; [done|].
  pose proof (react_false input d He) as Hne.
  cbn [Main.turns respond_times]. unfold Main.turn, getline, zoom, bind, get, put. simpl. rewrite Hg. simpl.
  destruct (Main.respond grow log2 input d) as [[[]|e|] d1] eqn:Hr; simpl in *; [done| |by split..].
  destruct (IH (mkProc d1 i input) Hg He) as [H1 H2]. split; [exact H1|].
  rewrite H2. unfold zoom. simpl. by destruct (respond_times n input d1).
Qed.

(** A process that has just started: nothing in the catalog, whatever files
    there are. *)
Lemma start_fresh fs d : Main.start fs = Ret d -> exists l, d = fresh (boot fs 256) l.
Proof.
  unfold Main.start. destruct (Wal.open _ _) as [[u|e|] l]; simpl; [|done..].
  intros [= <-]. by exists l.
Qed.

(** C38: a restart forgets every table: whatever data files are there, the new
    process represents the empty database, and a statement on a table, other
    than its creation, is answered that the table does not exist. *)
Theorem restart_forgets_tables fs d s :
  Main.start fs = Ret d ->
  shows d ∅ /\
  (st_type s <> CREATE_TABLE ->
   runs (Engine.run_statement grow log2 s) d tt (printed d [msg_missing (st_tableName s)])).
Proof.
  intros (l & ->)%start_fresh. split; [by apply fresh_shows, boot_idle|]. intros Hty.
  apply missing_runs; [done|]. apply lookup_empty.
Qed.
End main.

(** ** Witnesses *)
Lemma respond_line d line d' :
  Main.is_exit line = false -> line <> EmptyString -> line <> ".help"%string ->
  runs (Engine.execute doubling no_log2 line) (printed d [Prompt]) tt d' ->
  runs (Main.respond doubling no_log2 line) d false d'.
Proof.
  intros He Hn Hh Hr. unfold Main.respond, Main.react. eapply runs_bind; [apply emit_runs|].
  rewrite He, (proj2 (String.eqb_neq _ _) Hn), (proj2 (String.eqb_neq _ _) Hh).
  eapply runs_bind; [exact Hr|]. done.
Qed.

Lemma repl_runs_script_witness :
  exists d' p, session doubling no_log2 demo_engine [demo_line; ".help"%string] d' /\
    Main.turns doubling no_log2 3
      (mkProc demo_engine (mkIn (script [demo_line; ".help"%string] (".exit" +:+ String "010" EmptyString)) true) EmptyString)
    = (Ret true, p).
Proof.
  set (d0 := printed demo_engine [Prompt]).
  destruct (execute_runs doubling no_log2 d0 ∅ demo_line) as (d1 & Hrun & _);
    [apply shows_printed, demo_engine_shows|reflexivity|apply demo_line_fits_after|].
  set (d2 := printed (printed d1 [Prompt]) (map Out Main.help)).
  assert (Hs : session doubling no_log2 demo_engine [demo_line; ".help"%string] d2).
  { apply (session_cons _ _ demo_engine demo_line [".help"%string] d1); [reflexivity| |].
    - apply respond_line; [reflexivity|discriminate|discriminate|exact Hrun].
    - apply (session_cons _ _ d1 ".help"%string [] d2); [reflexivity|reflexivity|apply session_nil]. }
  exists d2. eexists. split; [exact Hs|].
  exact (repl_runs_script doubling no_log2 demo_engine [demo_line; ".help"%string] d2 ".exit"%string EmptyString EmptyString Hs eq_refl).
Defined.

Lemma eof_repeats_last_line_witness :
  let p := mkProc demo_engine (mkIn EmptyString false) EmptyString in
  (Main.turns doubling no_log2 5 p).1 <> Ret true.
Proof. intros p. apply (eof_repeats_last_line doubling no_log2 5 p); reflexivity. Defined.

Lemma empty_start : exists d, Main.start (mkFS ∅ ∅ ∅) = Ret d.
Proof.
  unfold Main.start. change (disk_fs (st_disk (boot (mkFS ∅ ∅ ∅) 256))) with (disk_fs (Disk.init (mkFS ∅ ∅ ∅))).
  assert (H : (Wal.open EmptyString (Wal.init (disk_fs (Disk.init (mkFS ∅ ∅ ∅))))).1 = Ret tt) by (vm_compute; reflexivity).
  destruct (Wal.open _ _) as [o l]. simpl in H. subst o. by eexists.
Qed.

Lemma restart_forgets_tables_witness :
  exists d, Main.start (mkFS ∅ ∅ ∅) = Ret d /\ shows d ∅ /\
    runs (Engine.run_statement doubling no_log2 demo_insert) d tt (printed d [msg_missing "t"]).
Proof.
  destruct empty_start as [d Hd]. exists d. split; [exact Hd|].
  destruct (restart_forgets_tables doubling no_log2 (mkFS ∅ ∅ ∅) d demo_insert Hd) as [H1 H2].
  split; [exact H1|]. apply H2. discriminate.
Defined.
